(* ===== verification/_CoqProject ===== *)
-Q . S2P
Prelude.v
Crc.v
Hdlc.v
Containers.v
Packet.v
Routing.v
Endpoints.v
BitsCodec.v
BitsEngine.v
BitsEngineRuns.v
BitsTransmitter.v
BitsTransmitterKeeps.v
BitsTransmitterRuns.v
BitsTransmitterProps.v
BitsReceiver.v
BitsReceiverProps.v
BitsEndToEnd.v
BitsLockstep.v
UartLink.v
RamTransfer.v
Services.v
Mcp2515.v
CommandLine.v
EcuProcess.v
Platform.v
DemoWiring.v
DemoApp.v
RamApplication.v
LegacyHdlc.v
StaticString.v
CounterEcu.v
CanTest.v
BootProfile.v
Spans.v
