(* ===== verification/Prelude.v ===== *)
(** * WireSpaces: a verification library of its C++ runtime

    WireSpaces connects hosts by small addressed packets over slow links (UART,
    CAN) and carries larger objects over them with BITS, a bulk transport.  This
    library models the freestanding C++17 runtime under [src/lib/wirespaces], the AVR
    platform and the four Arduino firmwares built on it, and the host simulator's
    executable, and proves that they do what they promise.  The shared prelude follows this header.

    ** How the program's parts interact

    - A link decodes the received bytes to a packet and hands it to the router with
      its ingress index.  The router forwards a copy along the route of the packet's
      wire, never back to the interface it came from, and lets the dispatcher offer
      it to the receivers of its endpoint when it is addressed to this host.
    - A receiver stores the packet: a mailbox keeps the latest, an endpoint queue the
      oldest ones, a BITS endpoint up to one window of segments.
    - Services and BITS endpoints are polled: they take what is stored, act, and send
      packets with their own transmit packet through the router to the forwarder.
    - A BITS transmitter cuts an object into numbered segments and keeps a sliding
      window of them in flight; the receiver grants the window, reports what it holds
      in ACKs with a bitmap and hands each segment to the application once.
    - A firmware owns its endpoints, services and link, and its [main] polls them in a
      fixed order for ever: a round reads what has arrived and lets each act once.

    ** Files

    - [Prelude]: machine words, bytes and [memcpy], the state monad and its rules,
      bit lemmas, list lemmas, the tactics used everywhere.
    - [Crc]: [crc/crc.h], [crc_algorithm.h].  [SpecImpl] is an algorithm's
      parameters, [crcBitwise] the register machine.
    - [Hdlc]: [links/uart_hdlc/encoder.h] ([Encoder.encode]) and [decoder.h]
      ([Decoder.push]).
    - [Containers]: [containers/queue.h] (Module [Queue]), [ring_buffer.h] (Module
      [RingBuffer]); Module [Spsc] splits the ring buffer's operations into the
      atomic accesses of a producer and a consumer.
    - [Packet]: [core/packet.h], [packet.cpp]: addresses, header, packet buffer.
    - [Routing]: [core/forwarding.h], [dispatch.h], [dispatch.cpp], [host.h],
      [router.h], [router.cpp].  The classes [PacketForwarder] and [EndpointReceiver]
      are the abstract classes of the source.
    - [Endpoints]: [core/mailbox.h], [endpoint_queue.h], [domain.h], [domain.cpp]:
      the implementations of [EndpointReceiver], the local forwarder of a domain, and
      a store of endpoints (Module [Store]) that composes them with the dispatcher.
    - [UartLink]: [platform/avr/uart0.h] and
      [examples/arduino-uno/uart_hdlc_link.h]: the link between packets and bytes.
    - [BitsCodec]: [transports/bits/protocol.h], [codec.h], [codec.cpp].
    - [BitsEngine]: [receiver_engine.h], [receiver_engine.cpp]: the receiving state
      machine, over the classes [ReceiverCallbacks] and [ReceiverPduSender];
      [BitsEngineRuns]: its sequences of calls.
    - [BitsTransmitter]: the sending half of [bits.h], [bits.cpp], over the class
      [TransmitterCallbacks]; [BitsTransmitterKeeps], [BitsTransmitterRuns] and
      [BitsTransmitterProps]: what it never changes, its invariant, its runs and its
      properties.
    - [BitsReceiver]: the receiving half of [bits.h], [bits.cpp]: packet slots around
      the engine; [BitsReceiverProps]: its properties.
    - [BitsEndToEnd]: both endpoints of a transfer over a link that may lose, repeat,
      reorder and delay what they send; [BitsLockstep]: a transmitter and an engine over
      a link that brings everything at once.
    - [RamTransfer]: the callbacks of [examples/arduino-uno/bits_ram_transfer.cpp], an
      implementation of [ReceiverCallbacks], and what an engine preserves of any
      environment (the record [preserved], used by every application).
    - [Services]: ping, LED control, heartbeat and stack report.
    - [Mcp2515]: [platform/avr/spi0.h], [mcp2515.h], [mcp2515_can.h]: the CAN
      controller's driver down to the SPI registers.
    - [CommandLine]: [sim/command_line.h], [command_line.cpp], [ecu_process_config.h].
    - [EcuProcess]: [sim/ecu_process.h], [ecu_process.cpp], over the five abstract
      classes of [sim/] as type classes; [CounterEcu]: [sim/ecu_logger.cpp],
      [signal_shutdown.cpp], [system_monotonic_clock.cpp] and the executable
      [sim/examples/counter_ecu.cpp], which implement them over the class [Posix].
    - [Platform]: [platform/avr/builtin_led.h], [builtin_led.cpp],
      [millisecond_clock.cpp], [init.h] over the timer registers, the interrupt
      handlers as operations; Module [StackMonitor]: [stack_monitor.h].
    - [DemoWiring]: [examples/arduino-uno/demo_wiring.h], [wiring_constants.h], and the
      loop of an application's [main] ([main_loop]).
    - [DemoApp]: [examples/arduino-uno/main.cpp], the services demonstration;
      [RamApplication]: the rest of [bits_ram_transfer.cpp], the loopback firmware;
      [BootProfile]: [bits_boot_profile_ram.cpp], the receiver-only firmware;
      [CanTest]: [mcp2515_can_test.cpp], the CAN console.
    - [LegacyHdlc]: [links/uart_hdlc/legacy/hdlc.h], [hdlc.cpp], over the classes
      [ByteRing] and [Logging] for the two headers the repository does not have.
    - [StaticString]: [foundation/static_string.h]; [Spans]: [foundation/span.h] and
      [array.h] over a store with pointers, and why the other files may read them as lists.

    ** How state and operations correspond to the code

    An object is a [Record] with the source's members (the trailing underscores kept
    where the source has them), a member function a [Definition] with the source's
    name that takes and returns the object.  Functions that call virtual functions
    run in the state monad [State] over an environment [W], of which the type classes
    give the virtual functions, so a theorem about such a function holds for every
    implementation of the interface.  Unsigned integers are [Z], reduced where the
    source converts or assigns ([u8], [u16], [u32]); spans and arrays are lists,
    [memcpy] is [memcpy_at].  Two references that may name one object carry a flag
    that says so ([copyFrom]); otherwise the objects are distinct and the file says
    which.

    ** What the theorems show

    - BITS end to end ([completed_transfer_delivered]): when the transmitter reports the
      completion of one transfer of at most 239 segments, a receiver that was fresh has
      handed its application the bytes of the object, for any later calls on both sides and
      any loss, repetition, delay and reordering on the link.  The bound keeps the 8-bit
      sequence numbers of a late ACK unambiguous; nothing is claimed above it.
      Over a perfect link a transfer of any size completes, in one poll per segment and
      two more ([lockstep_transfer_completes]).
    - BITS as seen by its users: every run of the engine, of the receiver endpoint and
      of the transmitter obeys a session protocol of begin, data and one end event
      ([engine_session_protocol], [receiver_session_protocol],
      [transmitter_session_protocol]); a completed transfer has handed over the bytes
      of the object, each once ([engine_reassembles_object]); a transfer completes on
      a link that keeps order, and with a silent peer it gives up after a bounded number
      of polls that are a retransmission timeout apart ([in_order_transfer_completes],
      [silent_peer_gives_up]); a poll reports what it did ([process_outcome]); an ACK
      means what both sides take it to mean ([ack_agreement]).
    - Links, codecs and the CAN driver: round trips, for the UART after any noise, which
      costs at most one spurious frame, exact output sizes and bounds, rejection of
      corrupted frames.
    - Packets: every reachable packet is well formed ([packet_type_invariant]).
    - Routing and dispatch: which receivers are offered a packet, in which
      order, what the results mean; no interface gets its own packet back.
    - Storage: queue, ring buffer and endpoint receivers refine a bounded list; the
      ring buffer under every interleaving of one producer and one consumer.
    - Services: the cadence over the wrapping clock, one answer per request.
    - Compositions: packets through both ends of the UART link
      ([uart_link_delivers]), an object into the RAM of the application
      ([ram_receiver_holds_object]), a packet into a mailbox of a local domain
      ([local_mailbox_delivery]).
    - The firmwares, from the bytes on their line: a round of the demonstration sends
      exactly what it has to ([demo_run_once]) and no round hangs
      ([demo_loop_returns]); the loopback echoes only what was uploaded
      ([ram_round_echoes], [ram_loop_echoes_uploads]); the boot profile reports the
      right verdict on the image ([boot_loop_reports]) in the frames of the common
      encoder ([boot_sender_equivalent]); the CAN console answers line by line
      ([can_console_session]).
    - The platform: the stack monitor's peak ([stack_monitor_peak]).
    - The simulator: what its command line accepts, that the process ends with
      shutdown after a life of the documented shape, on schedule ([ecu_process_runs]),
      and what the executable asks of its host, prints and returns ([counter_ecu_main]).
      A deadline that leaves the clock's 64 bits is undefined behaviour in the source;
      the theorems say exactly when that happens.
    - The superseded HDLC: what its encoder does with any span
      ([legacy_encodeFrame_outcome]), and frames through its receiver.
    - Memory: spans refine slices of the list their cells hold ([span_refines_slice]),
      what a write through one span does to another ([denotes_store]), and the BITS code
      cuts off no more than a message has ([cut_off_messages]).

    ** Fuel and bounds

    Loops over data are structural.  The others take fuel that provably suffices: the
    bitmap loops ([popcount], sliding) run 16 rounds, the width of the bitmap;
    [updateGrant] looks at no more than 256 segment indices; [serve] drains a queue in
    capacity plus one rounds, since serving does not add to it; the UART polling loop
    needs one round per byte that arrives and one more, a busy-wait as many polls
    as the hardware takes to get ready, and the simulated process one round per
    shutdown query that is still answered no.  Running out is a [None] result where it can
    happen at all, and the theorems show it does not.

    ** Not modelled

    - The lock that brackets the operations of [Queue], and memory orderings weaker than
      the sequentially consistent accesses of [Spsc].  An interrupt handler of the AVR is
      an operation of its own: the sources bracket what they share with one
      ([ATOMIC_BLOCK]), so that nothing interleaves with it.
    - [links/can_classic] declares its functions without a body; the code generator and
      the host tools are Python.
    - The headers the legacy HDLC includes, the C and POSIX libraries, [avr/io.h] and the
      hardware are parameters, with what the code relies on as the laws of a class. *)

From stdpp Require Export base numbers list list_numbers decidable option tactics.
From Stdlib Require Export ZArith Lia Bool Btauto.

Local Open Scope Z_scope.

(** ** Machine words

    A [w]-bit unsigned integer of the program is a [Z] in [0, 2^w); every
    conversion [static_cast<uintN_t>(e)] and every assignment to an [uintN_t]
    is written out as a reduction modulo [2^w]. *)

Definition u8 (x : Z) : Z := x mod 256.
Definition u16 (x : Z) : Z := x mod 65536.
Definition u32 (x : Z) : Z := x mod 4294967296.
Definition u64 (x : Z) : Z := x mod 18446744073709551616.

Definition is_u8 (x : Z) : Prop := 0 ≤ x < 256.
Definition is_u16 (x : Z) : Prop := 0 ≤ x < 65536.
Definition is_u32 (x : Z) : Prop := 0 ≤ x < 4294967296.

#[export] Instance is_u8_dec x : Decision (is_u8 x).
Proof. unfold is_u8. apply _. Defined.
#[export] Instance is_u16_dec x : Decision (is_u16 x).
Proof. unfold is_u16. apply _. Defined.
#[export] Instance is_u32_dec x : Decision (is_u32 x).
Proof. unfold is_u32. apply _. Defined.

(** A byte string of the program: a [Span<const uint8_t>] read as a value. *)
Abbreviation bytes := (list Z) (only parsing).
Definition is_bytes (bs : bytes) : Prop := Forall is_u8 bs.

#[export] Instance is_bytes_dec bs : Decision (is_bytes bs).
Proof. unfold is_bytes. apply _. Defined.

(** The length of a span, as the integer [size()] returns. *)
Definition zlen {A} (l : list A) : Z := Z.of_nat (length l).

(** [span[i]] of a byte span; the callers check the index against [size()]
    first, as the C++ does, so the default is never what they read. *)
Definition byte_at (bs : bytes) (i : nat) : Z := nth i bs 0.

(** [std::memcpy(output + off, input, size)] into a buffer held as a list. *)
Definition memcpy_at (off : nat) (input buf : bytes) : bytes :=
  list_inserts off input buf.

(** ** State passing

    Stateful code is written in the state monad over an explicit state. *)

Definition State (S A : Type) : Type := S → A * S.

#[export] Instance State_ret S : MRet (State S) := λ A a s, (a, s).
#[export] Instance State_bind S : MBind (State S) :=
  λ A B f m s, let '(a, s') := m s in f a s'.

Definition gets {S A} (f : S → A) : State S A := λ s, (f s, s).
Definition modify {S} (f : S → S) : State S unit := λ s, (tt, f s).
Definition run {S A} (m : State S A) (s : S) : A * S := m s.

(** Run a computation of one half of a composite state. *)
Definition on_fst {S T A} (m : State S A) : State (S * T) A :=
  λ '(s, t), let '(a, s') := m s in (a, (s', t)).
Definition on_snd {S T A} (m : State T A) : State (S * T) A :=
  λ '(s, t), let '(a, t') := m t in (a, (s, t')).

(** Computations that wait for something outside: a loop gets fuel, and [None] is
    the loop that has not come to an end within it. *)
Definition Io (W A : Type) : Type := W → option (A * W).

#[export] Instance Io_ret W : MRet (Io W) := λ A a w, Some (a, w).
#[export] Instance Io_bind W : MBind (Io W) :=
  λ A B f m w, match m w with Some (a, w') => f a w' | None => None end.

Definition out_of_fuel {W A} : Io W A := λ _, None.
Definition liftIo {W A} (m : State W A) : Io W A := λ w, Some (m w).

Notation "m ;; k" := (mbind (λ _, k) m)
  (at level 100, k at level 200, right associativity) : stdpp_scope.

(** ** Loops

    A [while] loop whose number of iterations the program bounds: at most [n]
    rounds are run.  [while_upto_exit] is what each use has to establish: the
    bound is never what stops the loop. *)
Fixpoint while_upto {S} (n : nat) (cond : S → bool) (body : S → S) (s : S) : S :=
  match n with
  | O => s
  | Datatypes.S n' =>
      if cond s then while_upto n' cond body (body s) else s
  end.

(** A [for] loop over the given indices whose body may [return] early. *)
Fixpoint for_each {S A B} (xs : list B) (body : B → State S (option A))
    : State S (option A) :=
  match xs with
  | [] => mret None
  | x :: xs' =>
      r ← body x;
      match r with
      | Some a => mret (Some a)
      | None => for_each xs' body
      end
  end.

(** ** Weakest preconditions *)

Definition wp {S A} (m : State S A) (s : S) (Q : A → S → Prop) : Prop :=
  Q (m s).1 (m s).2.

(** ** Word lemmas *)

Ltac unfold_words :=
  unfold u8, u16, u32, is_u8, is_u16, is_u32 in *.

(** [lia] on goals with wrap-around: division and modulo by the constants are
    replaced by their defining equations. *)
Ltac word_lia := unfold_words; Z.div_mod_to_equations; lia.

Create HintDb word.
Create Rewrite HintDb word.
Create Rewrite HintDb testbit.

Lemma u8_range x : is_u8 (u8 x).
Proof. word_lia. Qed.
Lemma u16_range x : is_u16 (u16 x).
Proof. word_lia. Qed.
Lemma u32_range x : is_u32 (u32 x).
Proof. word_lia. Qed.
Lemma u8_id x : is_u8 x → u8 x = x.
Proof. intros. word_lia. Qed.
Lemma u16_id x : is_u16 x → u16 x = x.
Proof. intros. word_lia. Qed.
Lemma u32_id x : is_u32 x → u32 x = x.
Proof. intros. word_lia. Qed.

#[export] Hint Resolve u8_range u16_range u32_range : word.
#[export] Hint Rewrite u8_id u16_id u32_id using word_lia : word.

Lemma eqb_bool_decide (x y : Z) : (x =? y) = bool_decide (x = y).
Proof. case_bool_decide; by destruct (Z.eqb_spec x y). Qed.

(** ** Bits of 16-bit maps *)

(** [static_cast<uint16_t>(1U << k)] and [static_cast<uint16_t>(~x)]. *)
Definition bit16 (k : Z) : Z := u16 (Z.shiftl 1 k).
Definition not16 (x : Z) : Z := u16 (Z.lnot x).

Lemma testbit_u16 x i : 0 ≤ i → Z.testbit (u16 x) i = (i <? 16) && Z.testbit x i.
Proof.
  intros Hi. unfold u16. change 65536 with (2 ^ 16).
  destruct (Z.ltb_spec i 16).
  - by rewrite Z.mod_pow2_bits_low.
  - by rewrite Z.mod_pow2_bits_high by lia.
Qed.

Lemma testbit_high n x i : 0 ≤ x < 2 ^ n → 0 ≤ n ≤ i → Z.testbit x i = false.
Proof.
  intros Hx Hi. rewrite <- (Z.mod_small x (2 ^ n)) by done.
  apply Z.mod_pow2_bits_high. lia.
Qed.

Lemma below_pow2 n x :
  0 ≤ n → 0 ≤ x → (∀ i, n ≤ i → Z.testbit x i = false) → x < 2 ^ n.
Proof.
  intros Hn Hx Hhigh. enough (x = x mod 2 ^ n) as ->.
  { apply Z.mod_pos_bound. apply Z.pow_pos_nonneg; lia. }
  apply Z.bits_inj'. intros i Hi. destruct (Z.ltb_spec i n).
  - by rewrite Z.mod_pow2_bits_low.
  - by rewrite Z.mod_pow2_bits_high, Hhigh by lia.
Qed.

Lemma testbit_bit16 k i :
  0 ≤ k < 16 → 0 ≤ i → Z.testbit (bit16 k) i = (i =? k).
Proof.
  intros Hk Hi. unfold bit16. rewrite testbit_u16 by done.
  rewrite Z.shiftl_spec by done.
  destruct (Z.eqb_spec i k) as [->|Hne].
  - rewrite Z.sub_diag. destruct (Z.ltb_spec k 16); [done|lia].
  - destruct (Z.ltb_spec i k).
    + rewrite Z.testbit_neg_r by lia. by rewrite andb_false_r.
    + rewrite (testbit_high 1 1) by lia. by rewrite andb_false_r.
Qed.

Lemma testbit_not16 x i :
  0 ≤ i → Z.testbit (not16 x) i = (i <? 16) && negb (Z.testbit x i).
Proof. intros. unfold not16. by rewrite testbit_u16, Z.lnot_spec. Qed.

Lemma testbit_shiftr x k i :
  0 ≤ i → Z.testbit (Z.shiftr x k) i = Z.testbit x (i + k).
Proof. intros. by rewrite Z.shiftr_spec. Qed.

#[export] Hint Rewrite testbit_u16 testbit_bit16 testbit_not16 testbit_shiftr
  Z.land_spec Z.lor_spec Z.lxor_spec Z.bits_0 using lia : testbit.

(** The bits of a 16-bit value stop at 16. *)
Lemma is_u16_testbit x i : is_u16 x → 16 ≤ i → Z.testbit x i = false.
Proof. intros Hx Hi. apply (testbit_high 16); [done|lia]. Qed.

(** Equality of bitmaps, bit by bit. *)
Ltac bitwise i Hi := apply Z.bits_inj'; intros i Hi; autorewrite with testbit.

Lemma land_bit16 x k :
  0 ≤ k < 16 → Z.land x (bit16 k) = 0 ↔ Z.testbit x k = false.
Proof.
  intros Hk. split; intros H.
  - apply (f_equal (λ z, Z.testbit z k)) in H. autorewrite with testbit in H.
    by rewrite Z.eqb_refl, andb_true_r in H.
  - bitwise i Hi. destruct (Z.eqb_spec i k) as [->|]; [by rewrite H|].
    apply andb_false_r.
Qed.

Lemma land_1_bit0 x : Z.land x 1 = 0 ↔ Z.testbit x 0 = false.
Proof. apply (land_bit16 x 0). lia. Qed.

Lemma land_u16_l x y : is_u16 x → is_u16 (Z.land x y).
Proof.
  intros Hx. assert (0 ≤ Z.land x y) by (apply Z.land_nonneg; left; apply Hx).
  split; [done|]. apply (below_pow2 16); [lia|done|].
  intros i Hi. autorewrite with testbit. by rewrite is_u16_testbit.
Qed.

Lemma land_u16_r x y : is_u16 y → is_u16 (Z.land x y).
Proof. rewrite Z.land_comm. apply land_u16_l. Qed.

Lemma lor_u16 x y : is_u16 x → is_u16 y → is_u16 (Z.lor x y).
Proof.
  intros Hx Hy.
  assert (0 ≤ Z.lor x y) by (apply Z.lor_nonneg; split; [apply Hx|apply Hy]).
  split; [done|]. apply (below_pow2 16); [lia|done|].
  intros i Hi. autorewrite with testbit. by rewrite !is_u16_testbit.
Qed.

Lemma shiftr_u16 x k : is_u16 x → 0 ≤ k → is_u16 (Z.shiftr x k).
Proof.
  intros Hx Hk. assert (0 ≤ Z.shiftr x k) by (apply Z.shiftr_nonneg, Hx).
  split; [done|]. apply (below_pow2 16); [lia|done|].
  intros i Hi. autorewrite with testbit. rewrite is_u16_testbit; [done|done|lia].
Qed.

(** A number and a shifted one that starts above it: their bits are disjoint. *)
Lemma lor_shiftl_add n x y :
  0 ≤ n → 0 ≤ x < 2 ^ n → Z.lor x (Z.shiftl y n) = x + y * 2 ^ n.
Proof.
  intros Hn Hx.
  assert (Hdisj : Z.land x (Z.shiftl y n) = 0).
  { bitwise i Hi. rewrite Z.shiftl_spec by done. destruct (Z.ltb_spec i n).
    - rewrite (Z.testbit_neg_r y) by lia. apply andb_false_r.
    - by rewrite (testbit_high n) by lia. }
  by rewrite <- Z.lxor_lor, <- Z.add_nocarry_lxor, Z.shiftl_mul_pow2 by done.
Qed.

(** A decidable fact about closed terms, by evaluation. *)
Ltac by_evaluation := apply (bool_decide_unpack _); vm_compute; exact I.

(** A property of all bytes, by evaluation at each of them. *)
Lemma u8_forall (P : Z → bool) :
  forallb P (seqZ 0 256) = true → ∀ c, is_u8 c → P c = true.
Proof.
  intros Hall c Hc. rewrite forallb_forall in Hall. apply Hall.
  apply list_elem_of_In, elem_of_seqZ. unfold is_u8 in Hc. lia.
Qed.

(** Byte strings built from constants, conversions and known strings. *)
Ltac solve_bytes :=
  unfold is_bytes in *;
  repeat match goal with
  | |- Forall _ [] => apply Forall_nil
  | |- Forall _ (_ :: _) => apply List.Forall_cons
  | |- Forall _ (_ ++ _) => apply Forall_app_2
  | |- is_u8 (u8 _) => apply u8_range
  end; try done.

(** The two little-endian bytes of a 16-bit word, and their join as written
    with shifts. *)
Lemma shiftl8 x : Z.shiftl x 8 = x * 256.
Proof. by rewrite Z.shiftl_mul_pow2. Qed.
Lemma shiftr8 x : Z.shiftr x 8 = x / 256.
Proof. by rewrite Z.shiftr_div_pow2. Qed.

Lemma le16_join x y :
  is_u8 x → is_u8 y →
  u16 (Z.lor (u16 x) (u16 (Z.shiftl (u16 y) 8))) = x + 256 * y.
Proof.
  intros Hx Hy. assert (E : u16 (Z.shiftl (u16 y) 8) = Z.shiftl y 8).
  { rewrite !shiftl8. word_lia. }
  rewrite E, (u16_id x), (lor_shiftl_add 8) by (try word_lia; unfold is_u8 in *; lia).
  change (2 ^ 8) with 256. word_lia.
Qed.

Lemma le16_split c : is_u16 c → u8 c + 256 * u8 (Z.shiftr c 8) = c.
Proof. rewrite shiftr8. word_lia. Qed.

#[export] Hint Resolve land_u16_l land_u16_r lor_u16 shiftr_u16 : word.
#[export] Hint Extern 2 (Z.le _ _) => lia : word.

(** ** Buffers *)

Lemma take_insert_snoc {A} n (x : A) l :
  (n < length l)%nat → take (S n) (<[n := x]> l) = take n l ++ [x].
Proof.
  intros Hlt. rewrite (take_S_r _ _ x) by by apply list_lookup_insert_eq.
  by rewrite take_insert_ge by lia.
Qed.

Lemma memcpy_at_length off input buf : length (memcpy_at off input buf) = length buf.
Proof. apply length_inserts. Qed.

Lemma memcpy_at_app off input buf :
  (off + length input ≤ length buf)%nat →
  memcpy_at off input buf =
    take off buf ++ input ++ drop (off + length input) buf.
Proof.
  unfold memcpy_at. revert off. induction input as [|b input IH]; intros off Hlen; simpl in *.
  { by rewrite Nat.add_0_r, take_drop. }
  rewrite IH by lia.
  rewrite insert_app_l by (rewrite length_take; lia).
  destruct (lookup_lt_is_Some_2 buf off) as [x Hx]; [lia|].
  rewrite (take_S_r _ _ x) by done.
  replace off with (length (take off buf) + 0)%nat at 1 by (rewrite length_take; lia).
  rewrite insert_app_r. simpl. rewrite <- app_assoc.
  by rewrite (Nat.add_succ_r off).
Qed.

Lemma memcpy_at_bytes off input buf :
  is_bytes input → is_bytes buf → is_bytes (memcpy_at off input buf).
Proof.
  intros Hin Hbuf. unfold memcpy_at. revert off.
  induction Hin; intros off; simpl; [done|]. by apply Forall_insert; [apply IHHin|].
Qed.

Lemma memcpy_at_take n off input buf :
  (off + length input ≤ n)%nat →
  take n (memcpy_at off input buf) = memcpy_at off input (take n buf).
Proof.
  unfold memcpy_at. revert off. induction input as [|b input IH]; intros off Hn; simpl in *; [done|].
  by rewrite take_insert_lt, IH by lia.
Qed.

(** ** Loop lemmas *)

(** A loop with an invariant and a measure bounded by [n] leaves through its
    condition, with the invariant. *)
Lemma while_upto_exit {S} (I : S → Prop) (measure : S → nat) cond body n s :
  (∀ s, I s → cond s = true → I (body s) ∧ (measure (body s) < measure s)%nat) →
  I s → (measure s ≤ n)%nat →
  let s' := while_upto n cond body s in I s' ∧ cond s' = false.
Proof.
  intros Hstep. revert s. induction n as [|n IH]; intros s Hs Hn; simpl.
  - split; [done|]. destruct (cond s) eqn:E; [|done].
    destruct (Hstep s Hs E). lia.
  - destruct (cond s) eqn:E; [|done].
    destruct (Hstep s Hs E). apply IH; [done|lia].
Qed.

(** ** Weakest-precondition rules *)

Section wp.
Context {S A B : Type}.
Implicit Types (s : S).

Lemma wp_ret (a : A) s (Q : A → S → Prop) : Q a s → wp (mret a) s Q.
Proof. done. Qed.
Lemma wp_bind (m : State S A) (f : A → State S B) s (Q : B → S → Prop) :
  wp m s (λ a s', wp (f a) s' Q) → wp (m ≫= f) s Q.
Proof.
  unfold wp, mbind, State_bind. destruct (m s) as [a s']. done.
Qed.
Lemma wp_gets (f : S → A) s (Q : A → S → Prop) : Q (f s) s → wp (gets f) s Q.
Proof. done. Qed.
Lemma wp_modify (f : S → S) s (Q : unit → S → Prop) :
  Q tt (f s) → wp (modify f) s Q.
Proof. done. Qed.
Lemma wp_mono (m : State S A) s (P Q : A → S → Prop) :
  wp m s P → (∀ a s', P a s' → Q a s') → wp m s Q.
Proof. unfold wp. auto. Qed.
Lemma wp_eq (m : State S A) s a s' (Q : A → S → Prop) : m s = (a, s') → Q a s' → wp m s Q.
Proof. unfold wp. by intros ->. Qed.
Lemma wp_run (m : State S A) s (Q : A → S → Prop) :
  wp m s Q → ∀ a s', m s = (a, s') → Q a s'.
Proof. unfold wp. intros H a s' E. by rewrite E in H. Qed.
End wp.

(** A loop with early return: an invariant while it goes on. *)
Lemma wp_for_each {S A B} (I : S → Prop) (xs : list B) (body : B → State S (option A)) s
    (Q : option A → S → Prop) :
  (∀ x s, x ∈ xs → I s → wp (body x) s (λ r s', if r is Some _ then Q r s' else I s')) →
  (∀ s, I s → Q None s) → I s → wp (for_each xs body) s Q.
Proof.
  intros Hbody HQ. revert s. induction xs as [|x xs IH]; intros s Hs; simpl; [by apply wp_ret, HQ|].
  apply wp_bind. eapply wp_mono; [apply Hbody; [by left|done]|].
  intros [a|] s' H; [by apply wp_ret|]. apply IH; [|done].
  intros y s0 Hy. apply Hbody. by right.
Qed.

(** The rules for the component computations of a composite state. *)
Lemma wp_on_fst {S T A} (m : State S A) (s : S) (t : T) (Q : A → S * T → Prop) :
  wp m s (λ a s', Q a (s', t)) → wp (on_fst m) (s, t) Q.
Proof. unfold wp, on_fst. destruct (m s). done. Qed.
Lemma wp_on_snd {S T A} (m : State T A) (s : S) (t : T) (Q : A → S * T → Prop) :
  wp m t (λ a t', Q a (s, t')) → wp (on_snd m) (s, t) Q.
Proof. unfold wp, on_snd. destruct (m t). done. Qed.

(** ** Preserved properties

    [preserves I m]: from a state with [I] the computation ends in one with [I].  The
    rules follow the shape of a computation, so that the lemma of each operation is
    found by [keep] from those of its parts. *)
Definition preserves {S A} (I : S → Prop) (m : State S A) : Prop := ∀ s, I s → I (m s).2.

Create HintDb keeps.

Section preserves.
Context {S A B : Type} (I : S → Prop).

Lemma preserves_ret (a : A) : preserves I (mret a).
Proof. by intros s Hs. Qed.
Lemma preserves_from (m : State S A) (f : A → State S B) s :
  I (m s).2 → (∀ a, preserves I (f a)) → I ((m ≫= f) s).2.
Proof. intros Hm Hf. unfold mbind, State_bind. destruct (m s) as [a s']. by apply Hf. Qed.
Lemma preserves_bind (m : State S A) (f : A → State S B) :
  preserves I m → (∀ a, preserves I (f a)) → preserves I (m ≫= f).
Proof. intros Hm Hf s Hs. apply preserves_from; [by apply Hm|done]. Qed.
Lemma preserves_gets (f : S → A) : preserves I (gets f).
Proof. by intros s Hs. Qed.
Lemma preserves_modify (f : S → S) : (∀ s, I s → I (f s)) → preserves I (modify f).
Proof. intros Hf s Hs. by apply Hf. Qed.
Lemma preserves_for_each (xs : list B) (body : B → State S (option A)) :
  (∀ x, preserves I (body x)) → preserves I (for_each xs body).
Proof.
  intros Hbody. induction xs as [|x xs IH]; [intros s Hs; exact Hs|]. cbn [for_each].
  intros s Hs. unfold mbind, State_bind. specialize (Hbody x s Hs).
  destruct (body x s) as [[a|] s']; [exact Hbody|by apply IH].
Qed.
End preserves.

(** The rules that follow the shape; [tac] is for the steps of a component. *)
Ltac keep tac :=
  repeat first
    [ apply preserves_ret | apply preserves_gets | tac
    | progress auto with keeps nocore
    | apply preserves_for_each; intros ?
    | apply preserves_bind; [|intros ?]
    | case_match ].

(** Total weakest preconditions of computations that wait: they end, with [Q]. *)
Definition io_wp {W A} (m : Io W A) (w : W) (Q : A → W → Prop) : Prop :=
  ∃ a w', m w = Some (a, w') ∧ Q a w'.

Lemma io_wp_ret {W A} (a : A) (w : W) (Q : A → W → Prop) : Q a w → io_wp (mret a) w Q.
Proof. intros H. by exists a, w. Qed.
Lemma io_wp_bind {W A B} (m : Io W A) (f : A → Io W B) (w : W) (Q : B → W → Prop) :
  io_wp m w (λ a w', io_wp (f a) w' Q) → io_wp (m ≫= f) w Q.
Proof.
  intros (a & w1 & E & b & w2 & E' & H). exists b, w2. unfold mbind, Io_bind. by rewrite E.
Qed.
Lemma io_wp_lift {W A} (m : State W A) (w : W) (Q : A → W → Prop) :
  Q (m w).1 (m w).2 → io_wp (liftIo m) w Q.
Proof. intros H. exists (m w).1, (m w).2. unfold liftIo. by destruct (m w). Qed.
Lemma io_wp_mono {W A} (m : Io W A) (w : W) (P Q : A → W → Prop) :
  io_wp m w P → (∀ a w', P a w' → Q a w') → io_wp m w Q.
Proof. intros (a & w' & E & H) HPQ. exists a, w'. auto. Qed.
