(* ===== verification/Crc.v ===== *)
(** * CRC: the generic bitwise CRC ([crc/crc.h], [crc/crc_algorithm.h])

    [crcBitwise] is the register machine of [crc.h], over a register of
    [8 * sizeof_T] bits; [compute], [init], [update] and [finalize] are the
    members of [SpecImpl].  The theorems: splitting the input over several
    [update] calls does not change the result, the register never leaves its
    width, and a corruption confined to [sizeof_T] consecutive bytes always
    changes the CRC of a message. *)

From S2P Require Import Prelude.
Local Open Scope Z_scope.

(** ** Definitions *)

Module ComputeFlags.
Definition kInitialize : Z := Z.shiftl 1 0.
Definition kFinalize : Z := Z.shiftl 1 1.
End ComputeFlags.

Definition kDefaultComputeFlags : Z :=
  Z.lor ComputeFlags.kInitialize ComputeFlags.kFinalize.

(** The template parameters of [SpecImpl]; [T] is known by its size. *)
Record SpecImpl := {
  sizeof_T : nat;
  polynomial : Z;
  initial : Z;
  xorOut : Z;
  reflect_in : bool;
  reflect_out : bool;
}.

Section crc.
Variable A : SpecImpl.

(** The bits of [value_type], and [static_cast<value_type>]. *)
Definition width : Z := 8 * Z.of_nat (sizeof_T A).
Definition cast_T (x : Z) : Z := x mod 2 ^ width.

Definition kMsbBit : Z := cast_T (Z.shiftl (cast_T 1) (width - 1)).
Definition kDataShift : Z := 8 * (Z.of_nat (sizeof_T A) - 1).

(** The body of the inner loop, for one bit. *)
Definition crcBit (result : Z) : Z :=
  if negb (Z.land result kMsbBit =? 0)
  then cast_T (Z.lxor (cast_T (Z.shiftl result 1)) (polynomial A))
  else cast_T (Z.shiftl result 1).

(** The body of the outer loop, for one byte. *)
Definition crcByte (result byte : Z) : Z :=
  Nat.iter 8 crcBit (cast_T (Z.lxor result (Z.shiftl (cast_T byte) kDataShift))).

Definition crcBitwise (input : bytes) (initial_value flags : Z) : Z :=
  let result :=
    if negb (Z.land flags ComputeFlags.kInitialize =? 0)
    then initial A else initial_value in
  let result := fold_left crcByte input result in
  if negb (Z.land flags ComputeFlags.kFinalize =? 0)
  then cast_T (Z.lxor result (xorOut A)) else result.

Definition compute (input : bytes) : Z :=
  crcBitwise input (initial A) kDefaultComputeFlags.
Definition init : Z := crcBitwise [] (initial A) ComputeFlags.kInitialize.
Definition update (input : bytes) (state : Z) : Z := crcBitwise input state 0.
Definition finalize (state : Z) : Z := crcBitwise [] state ComputeFlags.kFinalize.
End crc.

Definition SaeJ1850 : SpecImpl :=
  {| sizeof_T := 1; polynomial := 0x1D; initial := 0xFF; xorOut := 0xFF;
     reflect_in := false; reflect_out := false |}.
Definition AutosarCrc8 : SpecImpl :=
  {| sizeof_T := 1; polynomial := 0x2F; initial := 0xFF; xorOut := 0xFF;
     reflect_in := false; reflect_out := false |}.
Definition Crc16CcittFalse : SpecImpl :=
  {| sizeof_T := 2; polynomial := 0x1021; initial := 0xFFFF; xorOut := 0;
     reflect_in := false; reflect_out := false |}.
Definition Crc32Mpeg2 : SpecImpl :=
  {| sizeof_T := 4; polynomial := 0x04C11DB7; initial := 0xFFFFFFFF; xorOut := 0;
     reflect_in := false; reflect_out := false |}.

(** The check values of the catalogue for the string "123456789". *)
Definition check_input : bytes := [49; 50; 51; 52; 53; 54; 55; 56; 57].

Example check_SaeJ1850 : compute SaeJ1850 check_input = 0x4B.
Proof. reflexivity. Qed.
Example check_AutosarCrc8 : compute AutosarCrc8 check_input = 0xDF.
Proof. reflexivity. Qed.
Example check_Crc16CcittFalse : compute Crc16CcittFalse check_input = 0x29B1.
Proof. reflexivity. Qed.
Example check_Crc32Mpeg2 : compute Crc32Mpeg2 check_input = 0x0376E6E7.
Proof. reflexivity. Qed.

(** ** The register machine, bit by bit *)

(** What an algorithm has to provide: at least one byte of register, a
    polynomial and constants that fit, a polynomial with a constant term. *)
Record crc_ok (A : SpecImpl) : Prop := {
  ok_size : (0 < sizeof_T A)%nat;
  ok_poly : 0 ≤ polynomial A < 2 ^ width A;
  ok_odd : Z.testbit (polynomial A) 0 = true;
  ok_init : 0 ≤ initial A < 2 ^ width A;
  ok_xor : 0 ≤ xorOut A < 2 ^ width A;
}.

Section proofs.
Variable A : SpecImpl.
Hypothesis ok : crc_ok A.

Local Abbreviation w := (width A).
Definition in_register (r : Z) : Prop := 0 ≤ r < 2 ^ w.

Lemma width_pos : 8 ≤ w.
Proof. pose proof (ok_size A ok). unfold width. lia. Qed.

Lemma cast_T_range x : in_register (cast_T A x).
Proof.
  apply Z.mod_pos_bound, Z.pow_pos_nonneg; pose proof width_pos; lia.
Qed.

Lemma testbit_cast_T x i :
  0 ≤ i → Z.testbit (cast_T A x) i = (i <? w) && Z.testbit x i.
Proof.
  intros Hi. unfold cast_T. destruct (Z.ltb_spec i w).
  - by rewrite Z.mod_pow2_bits_low.
  - rewrite Z.mod_pow2_bits_high; [done|]. pose proof width_pos. lia.
Qed.

Lemma in_register_testbit r i : in_register r → w ≤ i → Z.testbit r i = false.
Proof. intros. apply (testbit_high w); [done|]. pose proof width_pos. lia. Qed.

Lemma kMsbBit_eq : kMsbBit A = 2 ^ (w - 1).
Proof.
  pose proof width_pos as Hw. unfold kMsbBit, cast_T.
  rewrite (Z.mod_small 1), Z.shiftl_1_l.
  - apply Z.mod_small. split; [apply Z.pow_nonneg; lia|].
    apply Z.pow_lt_mono_r; lia.
  - split; [lia|]. apply Z.pow_gt_1; lia.
Qed.

Lemma msb_test r :
  negb (Z.land r (kMsbBit A) =? 0) = Z.testbit r (w - 1).
Proof.
  pose proof width_pos as Hw. rewrite kMsbBit_eq.
  destruct (Z.testbit r (w - 1)) eqn:E.
  - apply negb_true_iff, Z.eqb_neq. intros H.
    apply (f_equal (λ z, Z.testbit z (w - 1))) in H.
    rewrite Z.land_spec, E, Z.pow2_bits_true, Z.bits_0 in H by lia. done.
  - apply negb_false_iff, Z.eqb_eq. apply Z.bits_inj'. intros i Hi.
    rewrite Z.land_spec, Z.bits_0, Z.pow2_bits_eqb by lia.
    destruct (Z.eqb_spec (w - 1) i) as [<-|]; [by rewrite E|].
    apply andb_false_r.
Qed.

(** One step of the register: shift up, and add the polynomial when the top
    bit was set. *)
Lemma testbit_crcBit r i :
  in_register r → 0 ≤ i →
  Z.testbit (crcBit A r) i =
    xorb ((0 <? i) && (i <? w) && Z.testbit r (i - 1))
         (Z.testbit r (w - 1) && Z.testbit (polynomial A) i).
Proof.
  intros Hr Hi. unfold crcBit. rewrite msb_test.
  assert (Hshift : Z.testbit (cast_T A (Z.shiftl r 1)) i =
                   (0 <? i) && (i <? w) && Z.testbit r (i - 1)).
  { rewrite testbit_cast_T, Z.shiftl_spec by done.
    destruct (Z.ltb_spec 0 i); [done|].
    by rewrite (Z.testbit_neg_r r), andb_false_r by lia. }
  destruct (Z.testbit r (w - 1)).
  - rewrite testbit_cast_T, Z.lxor_spec, Hshift, andb_true_l by done.
    destruct (Z.ltb_spec i w); [done|].
    rewrite (in_register_testbit (polynomial A)) by (done || apply ok_poly, ok).
    by rewrite andb_false_r.
  - by rewrite Hshift, andb_false_l, xorb_false_r.
Qed.

Lemma crcBit_range r : in_register (crcBit A r).
Proof. unfold crcBit. case_match; apply cast_T_range. Qed.

Lemma crcBit_iter_range n r :
  in_register r → in_register (Nat.iter n (crcBit A) r).
Proof. destruct n; [done|]. intros _. apply crcBit_range. Qed.

Lemma lxor_range r s : in_register r → in_register s → in_register (Z.lxor r s).
Proof.
  intros Hr Hs. assert (0 ≤ Z.lxor r s).
  { apply Z.lxor_nonneg. unfold in_register in *. lia. }
  split; [done|]. apply below_pow2; [pose proof width_pos; lia|done|].
  intros i Hi. by rewrite Z.lxor_spec, !in_register_testbit.
Qed.

Lemma crcBit_lxor r s :
  in_register r → in_register s →
  crcBit A (Z.lxor r s) = Z.lxor (crcBit A r) (crcBit A s).
Proof.
  intros Hr Hs. apply Z.bits_inj'. intros i Hi.
  rewrite Z.lxor_spec, !testbit_crcBit, !Z.lxor_spec by auto using lxor_range.
  btauto.
Qed.

(** A register whose top byte is clear is only shifted by eight steps. *)
Lemma crcBit_small r : 0 ≤ r < 2 ^ (w - 1) → crcBit A r = Z.shiftl r 1.
Proof.
  intros Hr. pose proof width_pos. unfold crcBit. rewrite msb_test.
  rewrite (testbit_high (w - 1)) by lia. unfold cast_T.
  apply Z.mod_small. rewrite Z.shiftl_mul_pow2 by lia.
  replace w with (w - 1 + 1) by lia. rewrite Z.pow_add_r by lia. lia.
Qed.

Lemma crcBit_iter_small n r :
  Z.of_nat n ≤ w → 0 ≤ r < 2 ^ (w - Z.of_nat n) →
  Nat.iter n (crcBit A) r = Z.shiftl r (Z.of_nat n).
Proof.
  revert r. induction n as [|n IH]; intros r Hn Hr; [by rewrite Z.shiftl_0_r|].
  assert (2 ^ (w - Z.of_nat (S n)) ≤ 2 ^ (w - 1)) by (apply Z.pow_le_mono_r; lia).
  rewrite Nat.iter_succ_r, crcBit_small by lia.
  rewrite IH, Z.shiftl_shiftl; [f_equal; lia|lia|lia|].
  rewrite Z.shiftl_mul_pow2 by lia.
  replace (w - Z.of_nat n) with (w - Z.of_nat (S n) + 1) by lia.
  rewrite Z.pow_add_r by lia. lia.
Qed.

Lemma crcBit_iter_lxor n r s :
  in_register r → in_register s →
  Nat.iter n (crcBit A) (Z.lxor r s) =
    Z.lxor (Nat.iter n (crcBit A) r) (Nat.iter n (crcBit A) s).
Proof.
  intros Hr Hs. induction n as [|n IH]; [done|]. simpl.
  by rewrite IH, crcBit_lxor by auto using crcBit_iter_range.
Qed.

(** A step loses nothing: the polynomial has a constant term, so the top bit
    can be read back from the lowest one. *)
Lemma crcBit_inj r s :
  in_register r → in_register s → crcBit A r = crcBit A s → r = s.
Proof.
  intros Hr Hs Heq. pose proof width_pos as Hw.
  assert (Hbit : ∀ i, 0 ≤ i →
    Z.testbit (crcBit A r) i = Z.testbit (crcBit A s) i) by (by rewrite Heq).
  assert (Htop : Z.testbit r (w - 1) = Z.testbit s (w - 1)).
  { specialize (Hbit 0 ltac:(lia)).
    rewrite !testbit_crcBit, (ok_odd A ok), !andb_true_r in Hbit by (done || lia).
    by simpl in Hbit; destruct (Z.testbit r _), (Z.testbit s _). }
  apply Z.bits_inj'. intros i Hi. destruct (Z.ltb_spec (i + 1) w) as [Hlt|].
  - specialize (Hbit (i + 1) ltac:(lia)).
    rewrite !testbit_crcBit, Htop, Z.add_simpl_r in Hbit by (done || lia).
    rewrite (proj2 (Z.ltb_lt 0 (i + 1))), (proj2 (Z.ltb_lt (i + 1) w)) in Hbit by lia.
    revert Hbit. generalize (Z.testbit s (w - 1) && Z.testbit (polynomial A) (i + 1)).
    by intros []; destruct (Z.testbit r i), (Z.testbit s i).
  - destruct (Z.eq_dec i (w - 1)) as [->|]; [done|].
    by rewrite !in_register_testbit by (done || lia).
Qed.

Lemma crcBit_iter_inj n r s :
  in_register r → in_register s →
  Nat.iter n (crcBit A) r = Nat.iter n (crcBit A) s → r = s.
Proof.
  intros Hr Hs. induction n as [|n IH]; [done|]. simpl. intros Heq.
  apply IH, crcBit_inj; auto using crcBit_iter_range.
Qed.

(** ** Bytes and blocks *)

Lemma shifted_byte_range b : is_u8 b → in_register (Z.shiftl b (w - 8)).
Proof.
  intros Hb. pose proof width_pos. unfold in_register, is_u8 in *.
  rewrite Z.shiftl_mul_pow2 by lia.
  replace (2 ^ w) with (2 ^ 8 * 2 ^ (w - 8))
    by (rewrite <- Z.pow_add_r by lia; f_equal; lia).
  pose proof (Z.pow_pos_nonneg 2 (w - 8)). nia.
Qed.

Lemma crcByte_eq r b :
  in_register r → is_u8 b →
  crcByte A r b = Nat.iter 8 (crcBit A) (Z.lxor r (Z.shiftl b (w - 8))).
Proof.
  intros Hr Hb. pose proof width_pos. unfold crcByte.
  replace (kDataShift A) with (w - 8) by (unfold kDataShift, width; lia).
  unfold cast_T at 2. rewrite (Z.mod_small b).
  - unfold cast_T. rewrite Z.mod_small; [done|].
    by apply lxor_range; [|apply shifted_byte_range].
  - unfold is_u8 in Hb. pose proof (Z.pow_le_mono_r 2 8 w). lia.
Qed.

Lemma crcByte_range r b : in_register (crcByte A r b).
Proof. apply crcBit_range. Qed.

Lemma crc_fold_range input r :
  in_register r → in_register (fold_left (crcByte A) input r).
Proof.
  revert r. induction input as [|b input IH]; intros r Hr; [done|].
  apply IH, crcByte_range.
Qed.

Lemma crc_fold_inj input r s :
  is_bytes input → in_register r → in_register s →
  fold_left (crcByte A) input r = fold_left (crcByte A) input s → r = s.
Proof.
  intros Hin. revert r s. induction Hin as [|b input Hb _ IH]; [done|].
  intros r s Hr Hs Heq. simpl in Heq.
  apply IH in Heq; [|apply crcByte_range..].
  rewrite !crcByte_eq in Heq by done.
  assert (in_register (Z.shiftl b (w - 8))) by by apply shifted_byte_range.
  apply crcBit_iter_inj in Heq; [|by apply lxor_range..].
  apply (f_equal (λ z, Z.lxor z (Z.shiftl b (w - 8)))) in Heq.
  by rewrite !Z.lxor_assoc, !Z.lxor_nilpotent, !Z.lxor_0_r in Heq.
Qed.

(** A block of bytes as a big-endian number. *)
Fixpoint be_value (bs : bytes) : Z :=
  match bs with
  | [] => 0
  | b :: bs' => Z.lxor (Z.shiftl b (8 * zlen bs')) (be_value bs')
  end.

Lemma zlen_cons {B} (b : B) bs : 8 * zlen (b :: bs) = 8 * zlen bs + 8.
Proof. unfold zlen. simpl. lia. Qed.

Lemma be_value_range bs : is_bytes bs → 0 ≤ be_value bs < 2 ^ (8 * zlen bs).
Proof.
  induction 1 as [|b bs Hb _ IH]; [done|]. rewrite zlen_cons. cbn [be_value].
  assert (0 ≤ 8 * zlen bs) by (unfold zlen; lia).
  assert (0 ≤ Z.lxor (Z.shiftl b (8 * zlen bs)) (be_value bs)).
  { apply Z.lxor_nonneg. rewrite Z.shiftl_nonneg. unfold is_u8 in Hb. lia. }
  split; [done|]. apply below_pow2; [lia|done|]. intros i Hi.
  rewrite Z.lxor_spec, Z.shiftl_spec by lia.
  rewrite (testbit_high 8 b), (testbit_high (8 * zlen bs) (be_value bs)); done || lia.
Qed.

Lemma be_value_shiftr b bs :
  is_bytes bs → Z.shiftr (be_value (b :: bs)) (8 * zlen bs) = b.
Proof.
  intros Hbs. cbn [be_value]. pose proof (be_value_range bs Hbs).
  assert (0 ≤ 8 * zlen bs) by (unfold zlen; lia).
  rewrite Z.shiftr_lxor, Z.shiftr_shiftl_l, Z.sub_diag, Z.shiftl_0_r by lia.
  by rewrite (Z.shiftr_div_pow2 (be_value bs)), Z.div_small, Z.lxor_0_r by lia.
Qed.

Lemma be_value_inj bs cs :
  is_bytes bs → is_bytes cs → length bs = length cs →
  be_value bs = be_value cs → bs = cs.
Proof.
  intros Hbs. revert cs. induction Hbs as [|b bs Hb Hbs IH];
    intros [|c cs] Hcs Hlen Heq; try done.
  apply Forall_cons_1 in Hcs as [Hc Hcs]. injection Hlen as Hlen.
  assert (Hz : zlen bs = zlen cs) by (unfold zlen; by rewrite Hlen).
  assert (b = c) as ->.
  { rewrite <- (be_value_shiftr b bs Hbs), <- (be_value_shiftr c cs Hcs).
    by rewrite Heq, Hz. }
  f_equal. apply IH; [done..|]. cbn [be_value] in Heq. rewrite Hz in Heq.
  apply (f_equal (Z.lxor (Z.shiftl c (8 * zlen cs)))) in Heq.
  by rewrite <- !Z.lxor_assoc, !Z.lxor_nilpotent, !Z.lxor_0_l in Heq.
Qed.

(** A block no longer than the register enters it as one number: the bytes
    that are still to come are shifted up with the register. *)
Definition block_entry (bs : bytes) : Z := Z.shiftl (be_value bs) (w - 8 * zlen bs).

Lemma block_entry_range bs :
  is_bytes bs → (length bs ≤ sizeof_T A)%nat →
  0 ≤ block_entry bs < 2 ^ w ∧ (∀ b, block_entry (b :: bs) =
    Z.lxor (Z.shiftl b (w - 8)) (Z.shiftl (be_value bs) (w - 8 - 8 * zlen bs))).
Proof.
  intros Hbs Hlen. pose proof (be_value_range bs Hbs) as Hr. split.
  - unfold block_entry, width, zlen in *. rewrite Z.shiftl_mul_pow2 by lia.
    replace (8 * Z.of_nat (sizeof_T A)) with
      (8 * Z.of_nat (length bs) + (8 * Z.of_nat (sizeof_T A) - 8 * Z.of_nat (length bs)))
      at 3 by lia.
    rewrite (Z.pow_add_r 2 (8 * Z.of_nat (length bs))) by lia.
    pose proof (Z.pow_pos_nonneg 2
      (8 * Z.of_nat (sizeof_T A) - 8 * Z.of_nat (length bs))). nia.
  - intros b. unfold block_entry. rewrite zlen_cons. cbn [be_value].
    assert (0 ≤ 8 * zlen bs) by (unfold zlen; lia).
    rewrite Z.shiftl_lxor, Z.shiftl_shiftl by lia. f_equal; f_equal; lia.
Qed.

Lemma block_entry_later bs :
  is_bytes bs → (length bs < sizeof_T A)%nat →
  0 ≤ Z.shiftl (be_value bs) (w - 8 - 8 * zlen bs) < 2 ^ (w - 8) ∧
  block_entry bs =
    Nat.iter 8 (crcBit A) (Z.shiftl (be_value bs) (w - 8 - 8 * zlen bs)).
Proof.
  intros Hbs Hlen. destruct (be_value_range bs Hbs) as [Hlo Hhi].
  pose proof width_pos.
  assert (Hw : 8 * zlen bs ≤ w - 8) by (unfold width, zlen; lia).
  assert (0 ≤ zlen bs) by (unfold zlen; lia).
  assert (Hlow : 0 ≤ Z.shiftl (be_value bs) (w - 8 - 8 * zlen bs) < 2 ^ (w - 8)).
  { rewrite Z.shiftl_mul_pow2 by lia.
    replace (2 ^ (w - 8)) with (2 ^ (8 * zlen bs) * 2 ^ (w - 8 - 8 * zlen bs))
      by (rewrite <- Z.pow_add_r by lia; f_equal; lia).
    pose proof (Z.pow_pos_nonneg 2 (w - 8 - 8 * zlen bs)). nia. }
  split; [done|]. unfold block_entry.
  rewrite crcBit_iter_small by (done || lia).
  rewrite Z.shiftl_shiftl by lia. f_equal. lia.
Qed.

Lemma crc_block bs r :
  is_bytes bs → (length bs ≤ sizeof_T A)%nat → in_register r →
  fold_left (crcByte A) bs r =
    Nat.iter (8 * length bs) (crcBit A) (Z.lxor r (block_entry bs)).
Proof.
  intros Hbs. revert r. induction Hbs as [|b bs Hb Hbs IH]; intros r Hlen Hr.
  { unfold block_entry. by rewrite Z.shiftl_0_l, Z.lxor_0_r. }
  simpl in Hlen. destruct (block_entry_later bs) as [Hlow Hlater]; [done|lia|].
  destruct (block_entry_range bs) as [_ Hcons]; [done|lia|].
  replace (8 * length (b :: bs))%nat with (8 * length bs + 8)%nat by (simpl; lia).
  simpl fold_left. rewrite Nat.iter_add, IH by (lia || apply crcByte_range).
  f_equal. rewrite crcByte_eq, Hcons, Hlater by done.
  rewrite <- crcBit_iter_lxor, Z.lxor_assoc; [done|..].
  - by apply lxor_range, shifted_byte_range.
  - pose proof width_pos. pose proof (Z.pow_le_mono_r 2 (w - 8) w).
    unfold in_register. lia.
Qed.

(** Corruption of at most [sizeof_T] consecutive bytes changes the register. *)
Lemma crc_fold_burst pre bs cs post r :
  is_bytes bs → is_bytes cs → is_bytes post → in_register r →
  length bs = length cs → (length bs ≤ sizeof_T A)%nat → bs ≠ cs →
  fold_left (crcByte A) (pre ++ bs ++ post) r ≠
  fold_left (crcByte A) (pre ++ cs ++ post) r.
Proof.
  intros Hbs Hcs Hpost Hr Hlen Hn Hne. rewrite !fold_left_app.
  assert (Hpre : in_register (fold_left (crcByte A) pre r)) by by apply crc_fold_range.
  intros Heq. apply crc_fold_inj in Heq; [|done|by apply crc_fold_range..].
  rewrite (crc_block bs), (crc_block cs), Hlen in Heq by (done || lia).
  apply crcBit_iter_inj in Heq;
    [|apply lxor_range; [done|]; apply block_entry_range; done || lia..].
  apply (f_equal (Z.lxor (fold_left (crcByte A) pre r))) in Heq.
  rewrite <- !Z.lxor_assoc, !Z.lxor_nilpotent, !Z.lxor_0_l in Heq.
  unfold block_entry in Heq. replace (zlen bs) with (zlen cs) in Heq
    by (unfold zlen; by rewrite Hlen).
  apply Hne, be_value_inj; [done..|].
  apply (f_equal (λ z, Z.shiftr z (w - 8 * zlen cs))) in Heq.
  by rewrite !Z.shiftr_shiftl_l, Z.sub_diag, !Z.shiftl_0_r in Heq
    by (unfold width, zlen; lia).
Qed.
End proofs.

(** ** Properties *)

Lemma crc_ok_SaeJ1850 : crc_ok SaeJ1850.
Proof. by repeat constructor. Qed.
Lemma crc_ok_AutosarCrc8 : crc_ok AutosarCrc8.
Proof. by repeat constructor. Qed.
Lemma crc_ok_Crc16CcittFalse : crc_ok Crc16CcittFalse.
Proof. by repeat constructor. Qed.
Lemma crc_ok_Crc32Mpeg2 : crc_ok Crc32Mpeg2.
Proof. by repeat constructor. Qed.
#[export] Hint Resolve crc_ok_SaeJ1850 crc_ok_AutosarCrc8 crc_ok_Crc16CcittFalse
  crc_ok_Crc32Mpeg2 : word.

Lemma compute_eq A input :
  compute A input =
    cast_T A (Z.lxor (fold_left (crcByte A) input (initial A)) (xorOut A)).
Proof. done. Qed.

Lemma compute_range A input : crc_ok A → 0 ≤ compute A input < 2 ^ width A.
Proof. intros ok. rewrite compute_eq. by apply cast_T_range. Qed.

Lemma compute_crc16_range input : is_u16 (compute Crc16CcittFalse input).
Proof. apply (compute_range Crc16CcittFalse), crc_ok_Crc16CcittFalse. Qed.
#[export] Hint Resolve compute_crc16_range : word.

Lemma compute_burst (A : SpecImpl) (pre bs cs post : bytes) :
  crc_ok A →
  is_bytes (pre ++ bs ++ post) → is_bytes cs →
  length bs = length cs → (length bs ≤ sizeof_T A)%nat → bs ≠ cs →
  compute A (pre ++ bs ++ post) ≠ compute A (pre ++ cs ++ post).
Proof.
  intros ok Hbytes Hcs Hlen Hn Hne.
  apply Forall_app in Hbytes as [_ [Hbs Hpost]%Forall_app].
  pose proof (ok_init A ok) as Hinit. rewrite !compute_eq. intros Heq.
  unfold cast_T in Heq.
  rewrite !Z.mod_small in Heq
    by (apply lxor_range; [done|by apply crc_fold_range|apply ok_xor, ok]).
  apply (f_equal (λ z, Z.lxor z (xorOut A))) in Heq.
  rewrite !Z.lxor_assoc, !Z.lxor_nilpotent, !Z.lxor_0_r in Heq.
  by eapply (crc_fold_burst A ok pre bs cs post).
Qed.

(** Feeding a message to [update] in any number of chunks between [init]
    and [finalize] gives the CRC [compute] gives for the whole message. *)
Theorem crc_incremental (A : SpecImpl) (chunks : list bytes) :
  finalize A (fold_left (λ state chunk, update A chunk state) chunks (init A)) =
    compute A (concat chunks).
Proof.
  rewrite compute_eq. unfold finalize, init, update, crcBitwise. simpl.
  f_equal. f_equal. generalize (initial A) as state.
  induction chunks as [|chunk chunks IH]; intros state; [done|].
  simpl. by rewrite fold_left_app, <- IH.
Qed.

(** C37: a corruption confined to [sizeof (value_type)] consecutive bytes of a
    message (a burst of at most the width of the CRC, on byte boundaries) is
    always detected: the two CRCs differ.  It holds for every algorithm whose
    polynomial has a constant term, as the four of [crc_algorithm.h] have. *)
Theorem crc_detects_burst (A : SpecImpl) (pre bs cs post : bytes) :
  crc_ok A →
  is_bytes (pre ++ bs ++ post) → is_bytes cs →
  length bs = length cs → (length bs ≤ sizeof_T A)%nat → bs ≠ cs →
  compute A (pre ++ bs ++ post) ≠ compute A (pre ++ cs ++ post).
Proof. intros. by apply compute_burst. Qed.

Lemma crc_detects_burst_witness :
  compute Crc16CcittFalse ([49; 50] ++ [51; 52] ++ [53]) ≠
  compute Crc16CcittFalse ([49; 50] ++ [0; 255] ++ [53]).
Proof.
  apply (crc_detects_burst Crc16CcittFalse [49; 50] [51; 52] [0; 255] [53]).
  - exact crc_ok_Crc16CcittFalse.
  - by_evaluation.
  - by_evaluation.
  - reflexivity.
  - simpl; lia.
  - discriminate.
Defined.
