(* ===== verification/Hdlc.v ===== *)
(** * UART HDLC framing ([links/uart_hdlc/encoder.h], [decoder.h])

    [encode] and [push] are translated statement by statement over the output
    span and the decoder object.  The theorems: [encode] writes exactly the
    byte-stuffed frame and reports its size, the decoder never leaves its
    buffer, a stream of encoded frames is decoded to the payloads, what the
    decoder accepts carries its CRC, and a burst in a frame is rejected. *)

From S2P Require Import Prelude Crc.
Local Open Scope Z_scope.

(** ** Definitions *)

Definition kFlag : Z := 0x7E.
Definition kEscape : Z := 0x7D.
Definition kEscapeXor : Z := 0x20.
Definition kCrcSize : nat := 2.

Module Encoder.
Definition stuffedSize (byte : Z) : nat :=
  if (byte =? kFlag) || (byte =? kEscape) then 2 else 1.

Definition encodedSize (payload : bytes) : nat :=
  if bool_decide (payload = []) then 0
  else
    let result := fold_left (λ r byte, r + stuffedSize byte)%nat payload 2%nat in
    let crc := compute Crc16CcittFalse payload in
    (result + stuffedSize (u8 crc) + stuffedSize (u8 (Z.shiftr crc 8)))%nat.

(** [frame[output_index++] = byte]. *)
Definition put (byte : Z) (st : nat * bytes) : nat * bytes :=
  let '(output_index, frame) := st in
  (S output_index, <[output_index := byte]> frame).

(** The body of both loops of [encode]. *)
Definition putStuffed (st : nat * bytes) (byte : Z) : nat * bytes :=
  if (byte =? kFlag) || (byte =? kEscape)
  then put (u8 (Z.lxor byte kEscapeXor)) (put kEscape st)
  else put byte st.

(** The returned count, and the output span afterwards. *)
Definition encode (payload frame : bytes) : nat * bytes :=
  let required_size := encodedSize payload in
  if bool_decide (frame = []) || (required_size =? 0)%nat
     || (length frame <? required_size)%nat
  then (0%nat, frame)
  else
    let st := put kFlag (0%nat, frame) in
    let st := fold_left putStuffed payload st in
    let crc := compute Crc16CcittFalse payload in
    let trailer := [u8 crc; u8 (Z.shiftr crc 8)] in
    let st := fold_left putStuffed trailer st in
    put kFlag st.
End Encoder.

Module Decoder.
Record HdlcDecoder := {
  frame_ : bytes;
  frame_size_ : nat;
  in_frame_ : bool;
  escaped_ : bool;
  frame_ready_ : bool;
}.

Section decoder.
Variable kFrameCapacity : nat.

Definition initial : HdlcDecoder :=
  {| frame_ := replicate (kFrameCapacity + kCrcSize) 0; frame_size_ := 0;
     in_frame_ := false; escaped_ := false; frame_ready_ := false |}.

Definition frame (d : HdlcDecoder) : bytes := take (frame_size_ d) (frame_ d).

Definition consume (d : HdlcDecoder) : HdlcDecoder :=
  {| frame_ := frame_ d; frame_size_ := 0; in_frame_ := in_frame_ d;
     escaped_ := escaped_ d; frame_ready_ := false |}.

Definition hasValidCrc (d : HdlcDecoder) : bool :=
  if (frame_size_ d <=? kCrcSize)%nat then false
  else
    let payload_size := (frame_size_ d - kCrcSize)%nat in
    let received_crc :=
      u16 (Z.lor (u16 (byte_at (frame_ d) payload_size))
                 (u16 (Z.shiftl (u16 (byte_at (frame_ d) (payload_size + 1))) 8))) in
    received_crc =? compute Crc16CcittFalse (take payload_size (frame_ d)).

(** The flag branch of [push]. *)
Definition pushFlag (d : HdlcDecoder) : bool * HdlcDecoder :=
  let completed := in_frame_ d && negb (escaped_ d) && hasValidCrc d in
  if completed
  then (true, {| frame_ := frame_ d; frame_size_ := frame_size_ d - kCrcSize;
                 in_frame_ := true; escaped_ := false; frame_ready_ := true |})
  else (false, {| frame_ := frame_ d; frame_size_ := 0;
                  in_frame_ := true; escaped_ := false;
                  frame_ready_ := frame_ready_ d |}).

(** The end of [push]: the bounds check and [frame_[frame_size_++] = byte];
    [escaped_] is already updated. *)
Definition append (byte : Z) (escaped : bool) (d : HdlcDecoder) : bool * HdlcDecoder :=
  if (kFrameCapacity + kCrcSize <=? frame_size_ d)%nat
  then (false, {| frame_ := frame_ d; frame_size_ := 0; in_frame_ := false;
                  escaped_ := false; frame_ready_ := frame_ready_ d |})
  else (false, {| frame_ := <[frame_size_ d := byte]> (frame_ d);
                  frame_size_ := S (frame_size_ d); in_frame_ := in_frame_ d;
                  escaped_ := escaped; frame_ready_ := frame_ready_ d |}).

Definition push (byte : Z) (d : HdlcDecoder) : bool * HdlcDecoder :=
  if frame_ready_ d then (true, d)
  else if byte =? kFlag then pushFlag d
  else if negb (in_frame_ d) then (false, d)
  else if escaped_ d then append (u8 (Z.lxor byte kEscapeXor)) false d
  else if byte =? kEscape then
    (false, {| frame_ := frame_ d; frame_size_ := frame_size_ d;
               in_frame_ := in_frame_ d; escaped_ := true;
               frame_ready_ := frame_ready_ d |})
  else append byte false d.

(** The receive loop of the decoder's clients: push a byte, take and
    consume the frame when one is complete. *)
Fixpoint receive (d : HdlcDecoder) (stream : bytes) : list bytes * HdlcDecoder :=
  match stream with
  | [] => ([], d)
  | byte :: stream' =>
      let '(complete, d) := push byte d in
      if complete then
        let '(frames, d') := receive (consume d) stream' in (frame d :: frames, d')
      else receive d stream'
  end.
End decoder.
End Decoder.

(** ** Specification *)

Definition special (b : Z) : bool := (b =? kFlag) || (b =? kEscape).

Definition stuff (b : Z) : bytes :=
  if special b then [kEscape; u8 (Z.lxor b kEscapeXor)] else [b].

Definition crc_trailer (payload : bytes) : bytes :=
  let crc := compute Crc16CcittFalse payload in [u8 crc; u8 (Z.shiftr crc 8)].

(** What is between the two flags, and the frame on the wire. *)
Definition raw_frame (payload : bytes) : bytes := payload ++ crc_trailer payload.
Definition wire_frame (payload : bytes) : bytes :=
  kFlag :: flat_map stuff (raw_frame payload) ++ [kFlag].

(** The decoder as a state machine over what it has collected. *)
Inductive phase :=
  | Hunting
  | Collecting (raw : bytes) (escaped : bool).

(** The payload of a frame body with a correct trailer. *)
Definition checked_payload (raw : bytes) : option bytes :=
  let payload := take (length raw - kCrcSize) raw in
  if bool_decide (payload ≠ [] ∧ raw = raw_frame payload) then Some payload else None.

Section spec.
Variable kFrameCapacity : nat.

Definition collect (raw : bytes) (b : Z) : phase :=
  if (length raw <? kFrameCapacity + kCrcSize)%nat
  then Collecting (raw ++ [b]) false else Hunting.

Definition spec_push (b : Z) (ph : phase) : option bytes * phase :=
  if b =? kFlag then
    (match ph with Collecting raw false => checked_payload raw | _ => None end,
     Collecting [] false)
  else
    (None,
     match ph with
     | Hunting => Hunting
     | Collecting raw true => collect raw (u8 (Z.lxor b kEscapeXor))
     | Collecting raw false =>
         if b =? kEscape then Collecting raw true else collect raw b
     end).

Fixpoint spec_receive (ph : phase) (stream : bytes) : list bytes * phase :=
  match stream with
  | [] => ([], ph)
  | b :: stream' =>
      let '(out, ph) := spec_push b ph in
      let '(frames, ph') := spec_receive ph stream' in
      (option_list out ++ frames, ph')
  end.
End spec.

(** ** Encoder lemmas *)

Lemma put_app b done x rest :
  Encoder.put b (length done, done ++ x :: rest) =
    (length (done ++ [b]), (done ++ [b]) ++ rest).
Proof.
  simpl. f_equal.
  - rewrite length_app. simpl. lia.
  - rewrite <- app_assoc. simpl.
    replace (length done) with (length done + 0)%nat by lia.
    by rewrite insert_app_r.
Qed.

Lemma putStuffed_app b done rest :
  (length (stuff b) ≤ length rest)%nat →
  Encoder.putStuffed (length done, done ++ rest) b =
    (length (done ++ stuff b), (done ++ stuff b) ++ drop (length (stuff b)) rest).
Proof.
  unfold Encoder.putStuffed, stuff, special.
  destruct ((b =? kFlag) || (b =? kEscape)); cbn [length]; intros Hlen.
  - destruct rest as [|x [|y rest]]; cbn [length] in Hlen; [lia|lia|].
    rewrite put_app, put_app. by rewrite <- (app_assoc done).
  - destruct rest as [|x rest]; cbn [length] in Hlen; [lia|]. by rewrite put_app.
Qed.

Lemma putStuffed_fold bs done rest :
  (length (flat_map stuff bs) ≤ length rest)%nat →
  fold_left Encoder.putStuffed bs (length done, done ++ rest) =
    (length (done ++ flat_map stuff bs),
     (done ++ flat_map stuff bs) ++ drop (length (flat_map stuff bs)) rest).
Proof.
  revert done rest. induction bs as [|b bs IH]; intros done rest Hlen.
  { simpl. by rewrite app_nil_r, drop_0. }
  cbn [flat_map fold_left] in *. rewrite length_app in Hlen.
  rewrite putStuffed_app, IH by (rewrite ?length_drop; lia).
  by rewrite <- !app_assoc, drop_drop, (length_app (stuff b)).
Qed.

Lemma stuffedSize_length b : Encoder.stuffedSize b = length (stuff b).
Proof. unfold Encoder.stuffedSize, stuff, special. by case_match. Qed.

Lemma encodedSize_fold bs n :
  fold_left (λ r byte, r + Encoder.stuffedSize byte)%nat bs n =
    (n + length (flat_map stuff bs))%nat.
Proof.
  revert n. induction bs as [|b bs IH]; intros n; simpl; [lia|].
  rewrite IH, stuffedSize_length, length_app. lia.
Qed.

Lemma encodedSize_wire payload :
  Encoder.encodedSize payload =
    if bool_decide (payload = []) then 0%nat else length (wire_frame payload).
Proof.
  unfold Encoder.encodedSize. case_bool_decide; [done|]. simpl.
  rewrite encodedSize_fold, !stuffedSize_length.
  unfold raw_frame, crc_trailer. simpl.
  rewrite length_app, flat_map_app, length_app. simpl.
  rewrite !length_app. simpl. lia.
Qed.

(** The cursor after the opening flag and the stuffed body. *)
Lemma encode_body bs x frame :
  (length (flat_map stuff bs) < length frame)%nat →
  Encoder.put kFlag
      (fold_left Encoder.putStuffed bs (Encoder.put kFlag (0%nat, x :: frame))) =
    (S (length (flat_map stuff bs ++ [kFlag])),
     kFlag :: (flat_map stuff bs ++ [kFlag]) ++
       drop (S (length (flat_map stuff bs))) frame).
Proof.
  intros Hlen.
  change (Encoder.put kFlag (0%nat, x :: frame)) with (length [kFlag], [kFlag] ++ frame).
  rewrite putStuffed_fold by lia.
  destruct (drop (length (flat_map stuff bs)) frame) as [|y rest] eqn:E.
  { apply (f_equal length) in E. rewrite length_drop in E. simpl in E. lia. }
  rewrite put_app. f_equal. rewrite <- Nat.add_1_r, <- drop_drop, E.
  cbn. by rewrite <- !app_assoc.
Qed.

Lemma encode_wire payload frame :
  payload ≠ [] → (length (wire_frame payload) ≤ length frame)%nat →
  Encoder.encode payload frame =
    (length (wire_frame payload),
     wire_frame payload ++ drop (length (wire_frame payload)) frame).
Proof.
  intros Hne Hlen. unfold Encoder.encode. rewrite encodedSize_wire.
  rewrite (bool_decide_eq_false_2 (payload = [])) by done.
  destruct frame as [|x frame]; [simpl in Hlen; lia|].
  rewrite bool_decide_eq_false_2, (proj2 (Nat.ltb_ge _ _)) by done || lia.
  destruct (Nat.eqb_spec (length (wire_frame payload)) 0) as [|_]; [done|].
  simpl orb. cbv zeta. rewrite <- fold_left_app.
  change (payload ++ _) with (raw_frame payload).
  unfold wire_frame in *. rewrite length_cons, length_app in Hlen. simpl in Hlen.
  rewrite encode_body by lia. rewrite length_cons. cbn [drop app]. f_equal.
  f_equal. f_equal. f_equal. rewrite length_app. simpl. lia.
Qed.

(** ** Decoder lemmas *)

Section decoder_lemmas.
Import Decoder.
Variable cap : nat.

Record wf (d : HdlcDecoder) : Prop := {
  wf_length : length (frame_ d) = (cap + kCrcSize)%nat;
  wf_size : (frame_size_ d ≤ cap + kCrcSize)%nat;
  wf_bytes : is_bytes (frame_ d);
}.

Definition abs (d : HdlcDecoder) : phase :=
  if in_frame_ d then Collecting (frame d) (escaped_ d) else Hunting.

Lemma wf_initial : wf (initial cap).
Proof.
  split; simpl; [by rewrite length_replicate|lia|]. apply Forall_replicate. by split.
Qed.

Lemma wf_consume d : wf d → wf (consume d).
Proof. intros [Hl Hs Hb]. split; simpl; [done|lia|done]. Qed.

Lemma frame_snoc d b :
  (frame_size_ d < length (frame_ d))%nat →
  take (S (frame_size_ d)) (<[frame_size_ d := b]> (frame_ d)) = frame d ++ [b].
Proof.
  apply take_insert_snoc.
Qed.

Lemma length_frame d : wf d → length (frame d) = frame_size_ d.
Proof. intros [Hl Hs _]. unfold frame. rewrite length_take. lia. Qed.

Lemma append_spec b esc d :
  wf d → frame_ready_ d = false → in_frame_ d = true → is_u8 b →
  let '(complete, d') := append cap b esc d in
  complete = false ∧ wf d' ∧ frame_ready_ d' = false ∧
  abs d' = match collect cap (frame d) b with
           | Collecting raw _ => Collecting raw esc
           | Hunting => Hunting
           end.
Proof.
  intros Hwf Hready Hin Hb. unfold append, collect. rewrite length_frame by done.
  destruct (Nat.leb_spec (cap + kCrcSize) (frame_size_ d)) as [Hge|Hlt].
  - rewrite (proj2 (Nat.ltb_ge _ _)) by done. destruct Hwf.
    split_and!; simpl; [done| |done|done]. split; simpl; done || lia.
  - rewrite (proj2 (Nat.ltb_lt _ _)) by done. destruct Hwf as [Hl Hs Hby].
    split_and!; simpl; [done| |done|].
    + split; simpl; [by rewrite length_insert|lia|by apply Forall_insert].
    + unfold abs, frame. simpl. rewrite Hin. f_equal. apply frame_snoc. lia.
Qed.

Lemma crc_trailer_eq x y payload :
  is_u8 x → is_u8 y →
  u16 (Z.lor (u16 x) (u16 (Z.shiftl (u16 y) 8))) = compute Crc16CcittFalse payload ↔
  [x; y] = crc_trailer payload.
Proof.
  intros Hx Hy. rewrite le16_join by done. unfold crc_trailer.
  pose proof (compute_crc16_range payload) as Hc.
  pose proof (le16_split _ Hc). rewrite shiftr8 in *.
  split; [intros Heq; f_equal; [|f_equal]|intros [= -> ->]]; word_lia.
Qed.

(** [hasValidCrc] is the check of the specification. *)
Lemma hasValidCrc_spec d :
  wf d →
  checked_payload (frame d) =
    if hasValidCrc d then Some (take (frame_size_ d - kCrcSize) (frame_ d)) else None.
Proof.
  intros Hwf. pose proof (length_frame d Hwf) as Hlen. destruct Hwf as [Hl Hs Hb].
  unfold checked_payload, hasValidCrc. rewrite Hlen. unfold frame, kCrcSize in *.
  rewrite take_take, Nat.min_l by lia.
  destruct (Nat.leb_spec (frame_size_ d) 2) as [Hle|Hgt].
  { replace (frame_size_ d - 2)%nat with 0%nat by lia. rewrite take_0.
    rewrite bool_decide_eq_false_2; [done|]. intros [? _]. done. }
  set (k := (frame_size_ d - 2)%nat) in *.
  replace (frame_size_ d) with (S (S k)) by lia.
  destruct (lookup_lt_is_Some_2 (frame_ d) k) as [x Hx]; [lia|].
  destruct (lookup_lt_is_Some_2 (frame_ d) (S k)) as [y Hy]; [lia|].
  rewrite (take_S_r _ _ y), (take_S_r _ _ x) by done.
  unfold byte_at. rewrite Nat.add_1_r, !nth_lookup, Hx, Hy. unfold default, id.
  rewrite <- app_assoc. unfold raw_frame.
  assert (Hne : take k (frame_ d) ≠ []).
  { intros E. apply (f_equal length) in E. rewrite length_take in E. simpl in E. lia. }
  rewrite eqb_bool_decide, (bool_decide_ext _
    (u16 (Z.lor (u16 x) (u16 (Z.shiftl (u16 y) 8))) =
      compute Crc16CcittFalse (take k (frame_ d)))); [by case_bool_decide|].
  rewrite crc_trailer_eq by (by eapply Forall_lookup_1). split.
  - intros [_ Heq]. by apply app_inv_head in Heq.
  - intros Heq. simpl. by rewrite <- Heq.
Qed.

(** The state the receive loop continues from. *)
Definition continue (complete : bool) (d : HdlcDecoder) : HdlcDecoder :=
  if complete then consume d else d.

Lemma pushFlag_refines d :
  wf d → frame_ready_ d = false →
  let '(complete, d') := pushFlag d in
  wf (continue complete d') ∧ frame_ready_ (continue complete d') = false ∧
  (match abs d with Collecting raw false => checked_payload raw | _ => None end) =
    (if complete then Some (frame d') else None) ∧
  abs (continue complete d') = Collecting [] false.
Proof.
  intros Hwf Hready. pose proof (hasValidCrc_spec d Hwf) as Hcrc.
  unfold pushFlag, abs. destruct Hwf as [Hl Hs Hb].
  destruct (in_frame_ d), (escaped_ d); simpl; try destruct (hasValidCrc d); simpl;
    (split_and!; [split; simpl; done || lia|done|done|unfold frame; simpl; done]).
Qed.

Lemma push_refines d b :
  wf d → frame_ready_ d = false → is_u8 b →
  let '(complete, d') := push cap b d in
  wf (continue complete d') ∧ frame_ready_ (continue complete d') = false ∧
  spec_push cap b (abs d) =
    (if complete then Some (frame d') else None, abs (continue complete d')).
Proof.
  intros Hwf Hready Hb. unfold push, spec_push. rewrite Hready.
  destruct (b =? kFlag).
  { pose proof (pushFlag_refines d Hwf Hready) as H. destruct (pushFlag d) as [[] d'];
      destruct H as (? & ? & -> & ->); done. }
  unfold abs at 1. destruct (in_frame_ d) eqn:Hin; simpl; [|unfold abs; by rewrite Hin].
  destruct (escaped_ d) eqn:Hesc.
  { pose proof (append_spec (u8 (Z.lxor b kEscapeXor)) false d Hwf Hready Hin
      (u8_range _)) as H.
    destruct (append _ _ _ d) as [c d']. destruct H as (-> & ? & ? & Habs).
    split_and!; [done..|]. simpl. rewrite Habs. f_equal. unfold collect. by destruct (_ <? _)%nat. }
  destruct (b =? kEscape); simpl.
  { destruct Hwf. split_and!; [by split|done..]. }
  pose proof (append_spec b false d Hwf Hready Hin Hb) as H.
  destruct (append _ _ _ d) as [c d']. destruct H as (-> & ? & ? & Habs).
  split_and!; [done..|]. simpl. rewrite Habs. f_equal. unfold collect. by destruct (_ <? _)%nat.
Qed.

Lemma receive_refines d stream :
  wf d → frame_ready_ d = false → is_bytes stream →
  let '(frames, d') := receive cap d stream in
  wf d' ∧ frame_ready_ d' = false ∧
  spec_receive cap (abs d) stream = (frames, abs d').
Proof.
  intros Hwf Hready Hstream. revert d Hwf Hready.
  induction Hstream as [|b stream Hb _ IH]; intros d Hwf Hready; simpl; [done|].
  pose proof (push_refines d b Hwf Hready Hb) as H.
  destruct (push cap b d) as [complete d']. destruct H as (Hwf' & Hready' & ->).
  specialize (IH _ Hwf' Hready'). unfold continue in *.
  destruct complete; [|by destruct (receive cap d' stream) as [frames d''];
    destruct IH as (? & ? & ->)].
  destruct (receive cap (consume d') stream) as [frames d''].
  by destruct IH as (? & ? & ->).
Qed.

Lemma receive_app d s1 s2 :
  receive cap d (s1 ++ s2) =
    let '(f1, d1) := receive cap d s1 in
    let '(f2, d2) := receive cap d1 s2 in (f1 ++ f2, d2).
Proof.
  revert d. induction s1 as [|b s1 IH]; intros d; simpl; [by destruct (receive cap d s2)|].
  destruct (push cap b d) as [[] d']; rewrite IH; [|done].
  destruct (receive cap _ s1) as [f1 d1]. by destruct (receive cap d1 s2).
Qed.

Lemma receive_bytes d stream :
  wf d → frame_ready_ d = false → is_bytes stream →
  Forall is_bytes (receive cap d stream).1.
Proof.
  intros Hwf Hready Hstream. revert d Hwf Hready.
  induction Hstream as [|b stream Hb _ IH]; intros d Hwf Hready; simpl; [done|].
  pose proof (push_refines d b Hwf Hready Hb) as H.
  destruct (push cap b d) as [complete d']. destruct H as (Hwf' & Hready' & _).
  specialize (IH _ Hwf' Hready'). unfold continue in *. destruct complete; [|done].
  destruct (receive cap (consume d') stream) as [frames d'']. apply List.Forall_cons; [|done].
  apply Forall_take. apply (wf_bytes _ Hwf').
Qed.
End decoder_lemmas.

(** ** Lemmas on the specification *)

Section spec_lemmas.
Variable cap : nat.

Lemma spec_receive_app ph s1 s2 :
  spec_receive cap ph (s1 ++ s2) =
    let '(f1, ph1) := spec_receive cap ph s1 in
    let '(f2, ph2) := spec_receive cap ph1 s2 in (f1 ++ f2, ph2).
Proof.
  revert ph. induction s1 as [|b s1 IH]; intros ph; simpl.
  { by destruct (spec_receive cap ph s2). }
  destruct (spec_push cap b ph) as [out ph']. rewrite IH.
  destruct (spec_receive cap ph' s1) as [f1 ph1].
  destruct (spec_receive cap ph1 s2) as [f2 ph2]. by rewrite app_assoc.
Qed.

Lemma stuff_receive raw b :
  is_u8 b → (length raw < cap + kCrcSize)%nat →
  spec_receive cap (Collecting raw false) (stuff b) =
    ([], Collecting (raw ++ [b]) false).
Proof.
  intros Hb Hlen. apply Nat.ltb_lt in Hlen. unfold stuff, special.
  destruct (Z.eqb_spec b kFlag) as [->|Hflag]; simpl.
  { unfold collect. rewrite Hlen. done. }
  destruct (Z.eqb_spec b kEscape) as [->|Hescape]; simpl.
  { unfold collect. rewrite Hlen. done. }
  unfold spec_push. rewrite (proj2 (Z.eqb_neq b kFlag)) by done.
  rewrite (proj2 (Z.eqb_neq b kEscape)) by done. unfold collect. by rewrite Hlen.
Qed.

(** Byte stuffing is undone by the decoder. *)
Lemma stuffed_receive bs raw :
  is_bytes bs → (length raw + length bs ≤ cap + kCrcSize)%nat →
  spec_receive cap (Collecting raw false) (flat_map stuff bs) =
    ([], Collecting (raw ++ bs) false).
Proof.
  intros Hbs. revert raw. induction Hbs as [|b bs Hb _ IH]; intros raw Hlen.
  { by rewrite app_nil_r. }
  cbn [flat_map length] in *. rewrite spec_receive_app, stuff_receive by (done || lia).
  rewrite IH by (rewrite length_app; simpl; lia). by rewrite <- app_assoc.
Qed.

Lemma length_raw_frame p : length (raw_frame p) = (length p + kCrcSize)%nat.
Proof. unfold raw_frame. by rewrite length_app. Qed.

Lemma raw_frame_bytes p : is_bytes p → is_bytes (raw_frame p).
Proof.
  intros Hp. unfold raw_frame, crc_trailer. solve_bytes.
Qed.

Lemma checked_raw_frame p : p ≠ [] → checked_payload (raw_frame p) = Some p.
Proof.
  intros Hp. unfold checked_payload. rewrite length_raw_frame, Nat.add_sub.
  unfold raw_frame. rewrite take_app_length. by rewrite bool_decide_eq_true_2.
Qed.

(** The body of a frame from any state that follows a flag. *)
Lemma wire_frame_receive ph p :
  is_bytes p → p ≠ [] → (length p ≤ cap)%nat →
  ∃ junk, (length junk ≤ 1)%nat ∧
    (ph = Hunting ∨ ph = Collecting [] false → junk = []) ∧
    spec_receive cap ph (wire_frame p) = (junk ++ [p], Collecting [] false).
Proof.
  intros Hp Hne Hlen. unfold wire_frame.
  exists (option_list (spec_push cap kFlag ph).1). split_and!.
  - destruct (spec_push cap kFlag ph).1; simpl; lia.
  - by intros [-> | ->].
  - change (kFlag :: ?x) with ([kFlag] ++ x).
    assert (Hflag : spec_receive cap ph [kFlag] =
      (option_list (spec_push cap kFlag ph).1, Collecting [] false)).
    { by destruct ph as [|raw []]; simpl; try rewrite app_nil_r. }
    rewrite spec_receive_app, Hflag, spec_receive_app, stuffed_receive by
      first [by apply raw_frame_bytes | rewrite length_raw_frame; simpl; lia].
    simpl. by rewrite checked_raw_frame.
Qed.

Lemma wire_frames_receive ps :
  Forall (λ p, is_bytes p ∧ p ≠ [] ∧ (length p ≤ cap)%nat) ps →
  spec_receive cap (Collecting [] false) (flat_map wire_frame ps) =
    (ps, Collecting [] false).
Proof.
  induction 1 as [|p ps (Hp & Hne & Hlen) _ IH]; [done|]. cbn [flat_map].
  destruct (wire_frame_receive (Collecting [] false) p Hp Hne Hlen)
    as (junk & _ & Hjunk & E).
  by rewrite spec_receive_app, E, IH, Hjunk by auto.
Qed.

(** Frames on a line in any state: all are received, after at most one spurious
    frame that the first flag ends. *)
Lemma line_receive ph ps :
  Forall (λ p, is_bytes p ∧ p ≠ [] ∧ (length p ≤ cap)%nat) ps →
  ∃ junk, (length junk ≤ 1)%nat ∧
    (ph = Hunting ∨ ph = Collecting [] false → junk = []) ∧
    (spec_receive cap ph (flat_map wire_frame ps)).1 = junk ++ ps.
Proof.
  intros Hps. destruct ps as [|p ps]; [exists []; split_and!; simpl; [lia|done..]|].
  apply Forall_cons_1 in Hps as [(Hp & Hne & Hlen) Hps]. cbn [flat_map].
  destruct (wire_frame_receive ph p Hp Hne Hlen) as (junk & Hjunk & Hquiet & E).
  exists junk. rewrite spec_receive_app, E, wire_frames_receive by done.
  split_and!; [done..|]. simpl. by rewrite <- app_assoc.
Qed.
End spec_lemmas.

(** ** Bytes on the wire, and corrupted frames *)

Lemma crc_trailer_bytes p : is_bytes (crc_trailer p).
Proof. unfold crc_trailer. solve_bytes. Qed.

Lemma crc_trailer_inj p q :
  crc_trailer p = crc_trailer q →
  compute Crc16CcittFalse p = compute Crc16CcittFalse q.
Proof.
  intros [= E1 E2].
  rewrite <- (le16_split (compute Crc16CcittFalse p)) by apply compute_crc16_range.
  by rewrite E1, E2, le16_split by apply compute_crc16_range.
Qed.

Lemma stuffed_bytes bs : is_bytes bs → is_bytes (kFlag :: flat_map stuff bs ++ [kFlag]).
Proof.
  intros Hbs. solve_bytes. induction Hbs as [|b bs Hb _ IH]; cbn [flat_map]; solve_bytes.
  unfold stuff. destruct (special b); solve_bytes.
Qed.

Lemma wire_frames_bytes cap ps :
  Forall (λ p, is_bytes p ∧ p ≠ [] ∧ (length p ≤ cap)%nat) ps →
  is_bytes (flat_map wire_frame ps).
Proof.
  induction 1 as [|p ps (Hp & _) _ IH]; [constructor|]. apply Forall_app_2; [|done].
  by apply stuffed_bytes, raw_frame_bytes.
Qed.

Lemma receive_frames cap stream :
  is_bytes stream →
  (Decoder.receive cap (Decoder.initial cap) stream).1 = (spec_receive cap Hunting stream).1.
Proof.
  intros Hstream.
  pose proof (receive_refines cap (Decoder.initial cap) stream (wf_initial cap)
    eq_refl Hstream) as H.
  destruct (Decoder.receive _ _ _) as [frames d]. destruct H as (_ & _ & E).
  change (abs (Decoder.initial cap)) with Hunting in E. by rewrite E.
Qed.

Lemma stuff_hunting cap bs :
  is_bytes bs → spec_receive cap Hunting (flat_map stuff bs) = ([], Hunting).
Proof.
  induction 1 as [|b bs Hb _ IH]; [done|]. cbn [flat_map].
  rewrite spec_receive_app. enough (spec_receive cap Hunting (stuff b) = ([], Hunting)) as ->
    by by rewrite IH.
  unfold stuff, special. destruct (Z.eqb_spec b kFlag) as [->|Hflag]; [done|].
  destruct (Z.eqb_spec b kEscape) as [->|Hescape]; [done|].
  simpl. unfold spec_push. by rewrite (proj2 (Z.eqb_neq b kFlag)).
Qed.

(** A body longer than the buffer is dropped up to the next flag. *)
Lemma stuffed_overflow cap bs raw :
  is_bytes bs → (length raw ≤ cap + kCrcSize < length raw + length bs)%nat →
  spec_receive cap (Collecting raw false) (flat_map stuff bs) = ([], Hunting).
Proof.
  intros Hbs. revert raw. induction Hbs as [|b bs Hb Hbs IH]; intros raw Hlen.
  { simpl in Hlen. lia. }
  cbn [flat_map length] in *. rewrite spec_receive_app.
  destruct (decide (length raw < cap + kCrcSize)%nat).
  { rewrite stuff_receive, IH; [done|rewrite length_app; simpl; lia|done..]. }
  enough (spec_receive cap (Collecting raw false) (stuff b) = ([], Hunting)) as ->
    by by rewrite stuff_hunting.
  assert (Hfull : (length raw <? cap + kCrcSize)%nat = false) by (apply Nat.ltb_ge; lia).
  unfold stuff, special. destruct (Z.eqb_spec b kFlag) as [->|Hflag].
  { simpl. unfold collect. by rewrite Hfull. }
  destruct (Z.eqb_spec b kEscape) as [->|Hescape].
  { simpl. unfold collect. by rewrite Hfull. }
  simpl. unfold spec_push. rewrite (proj2 (Z.eqb_neq b kFlag)) by done.
  rewrite (proj2 (Z.eqb_neq b kEscape)) by done. unfold collect. by rewrite Hfull.
Qed.

Lemma corrupt_receive cap raw :
  is_bytes raw → checked_payload raw = None →
  (spec_receive cap Hunting (kFlag :: flat_map stuff raw ++ [kFlag])).1 = [].
Proof.
  intros Hraw Hbad. change (kFlag :: ?x) with ([kFlag] ++ x).
  rewrite spec_receive_app.
  change (spec_receive cap Hunting [kFlag]) with (@nil bytes, Collecting [] false).
  cbv beta iota. rewrite spec_receive_app.
  destruct (decide (length raw ≤ cap + kCrcSize)%nat).
  - rewrite stuffed_receive by done. simpl. by rewrite Hbad.
  - rewrite stuffed_overflow; [done|done|]. simpl. lia.
Qed.

Lemma checked_payload_other p q :
  crc_trailer p ≠ crc_trailer q → checked_payload (p ++ crc_trailer q) = None.
Proof.
  intros Hne. unfold checked_payload.
  rewrite length_app. change (length (crc_trailer q)) with kCrcSize.
  rewrite Nat.add_sub, take_app_length.
  rewrite bool_decide_eq_false_2; [done|]. intros [_ E]. apply app_inv_head in E. congruence.
Qed.

(** ** Properties *)

(** What a link puts on the wire for a payload: [encode] into storage of
    [encodedSize] bytes, and as many bytes of it as [encode] returns. *)
Definition transmit (payload : bytes) : bytes :=
  let '(n, frame) :=
    Encoder.encode payload (replicate (Encoder.encodedSize payload) 0) in
  take n frame.

Lemma transmit_wire payload : payload ≠ [] → transmit payload = wire_frame payload.
Proof.
  intros Hne. unfold transmit. rewrite encodedSize_wire, bool_decide_eq_false_2 by done.
  rewrite encode_wire by first [done | rewrite length_replicate; lia]. by rewrite take_app_length.
Qed.

Lemma transmit_frames ps :
  Forall (λ p, p ≠ []) ps → flat_map transmit ps = flat_map wire_frame ps.
Proof. induction 1 as [|p ps Hp _ IH]; [done|]. simpl. by rewrite transmit_wire, IH. Qed.

(** [encode] writes the flag, the byte-stuffed payload and little-endian CRC
    and the closing flag at the start of the output and returns that length,
    which is what [encodedSize] predicts; for an empty payload or too little
    storage it returns 0 and leaves the output alone. *)
Theorem hdlc_encode_spec (payload frame : bytes) :
  Encoder.encode payload frame =
    (if bool_decide (payload = []) || (length frame <? length (wire_frame payload))%nat
     then (0%nat, frame)
     else (length (wire_frame payload),
           wire_frame payload ++ drop (length (wire_frame payload)) frame)) ∧
  Encoder.encodedSize payload =
    (if bool_decide (payload = []) then 0%nat else length (wire_frame payload)).
Proof.
  split; [|apply encodedSize_wire]. case_bool_decide as Hp; cbn [orb].
  { subst. unfold Encoder.encode. rewrite encodedSize_wire. cbn. by rewrite orb_true_r. }
  destruct (Nat.ltb_spec (length frame) (length (wire_frame payload))).
  - unfold Encoder.encode. rewrite encodedSize_wire, (bool_decide_eq_false_2 (payload = [])) by done.
    by rewrite (proj2 (Nat.ltb_lt _ _)), orb_true_r by lia.
  - by apply encode_wire.
Qed.

(** C22: the decoder implements the abstract phase machine: on every byte stream
    the frames its clients take are the specification's, and the buffer is
    never left ([frame_size_] stays within the storage, whose size does not
    change). *)
Theorem hdlc_decoder_refines (cap : nat) (stream : bytes) :
  is_bytes stream →
  let '(frames, d) := Decoder.receive cap (Decoder.initial cap) stream in
  frames = (spec_receive cap Hunting stream).1 ∧
  length (Decoder.frame_ d) = (cap + kCrcSize)%nat ∧
  (Decoder.frame_size_ d ≤ cap + kCrcSize)%nat.
Proof.
  intros Hstream. pose proof (receive_frames cap stream Hstream) as Hframes.
  pose proof (receive_refines cap (Decoder.initial cap) stream (wf_initial cap)
    eq_refl Hstream) as H.
  destruct (Decoder.receive _ _ _) as [frames d]. by destruct H as ([] & _ & _).
Qed.

Lemma hdlc_decoder_refines_witness :
  let '(frames, d) := Decoder.receive 4 (Decoder.initial 4) (transmit [0x7E; 5]) in
  frames = (spec_receive 4 Hunting (transmit [0x7E; 5])).1 ∧
  length (Decoder.frame_ d) = 6%nat ∧ (Decoder.frame_size_ d ≤ 6)%nat.
Proof. apply (hdlc_decoder_refines 4). by_evaluation. Defined.

(** C21: round trip and resynchronisation: after arbitrary noise, a stream of
    encoded frames is decoded to the frames of the noise itself, then at most one
    spurious frame, which the noise began and the first flag ended, then exactly
    the payloads, in order.  On a line that starts quiet there is no spurious
    frame. *)
Theorem hdlc_stream_roundtrip (cap : nat) (noise : bytes) (ps : list bytes) :
  is_bytes noise →
  Forall (λ p, is_bytes p ∧ p ≠ [] ∧ (length p ≤ cap)%nat) ps →
  ∃ junk,
    (Decoder.receive cap (Decoder.initial cap) (noise ++ flat_map transmit ps)).1 =
      (Decoder.receive cap (Decoder.initial cap) noise).1 ++ junk ++ ps ∧
    (length junk ≤ 1)%nat ∧ (noise = [] → junk = []).
Proof.
  intros Hnoise Hps.
  rewrite transmit_frames by (eapply Forall_impl; [|exact Hps]; intros p (_ & Hne & _); exact Hne).
  pose proof (wire_frames_bytes cap ps Hps) as Hwire.
  rewrite (receive_frames cap noise Hnoise), receive_frames
    by exact (Forall_app_2 _ _ _ Hnoise Hwire).
  rewrite spec_receive_app. destruct (spec_receive cap Hunting noise) as [f ph] eqn:E.
  destruct (line_receive cap ph ps Hps) as (junk & Hjunk & Hquiet & Eps).
  destruct (spec_receive cap ph (flat_map wire_frame ps)) as [frames ph'].
  exists junk. simpl in *. rewrite Eps. split_and!; [done..|].
  intros ->. apply Hquiet. left. by injection E.
Qed.

Lemma hdlc_stream_roundtrip_witness :
  ∃ junk,
    (Decoder.receive 8 (Decoder.initial 8)
       ([3; 0x7E; 9; 0x7D] ++ flat_map transmit [[0x7E; 1]; [0x7D; 0x7E]])).1 =
      (Decoder.receive 8 (Decoder.initial 8) [3; 0x7E; 9; 0x7D]).1 ++
      junk ++ [[0x7E; 1]; [0x7D; 0x7E]] ∧
    (length junk ≤ 1)%nat ∧ ([3; 0x7E; 9; 0x7D] = [] → junk = []).
Proof.
  apply (hdlc_stream_roundtrip 8 [3; 0x7E; 9; 0x7D] [[0x7E; 1]; [0x7D; 0x7E]]);
    by_evaluation.
Defined.

(** A burst on the line is not delivered: when at most two consecutive
    bytes of the payload of a frame are changed, the decoder (listening from
    the start, or after any complete frame) delivers nothing for it. *)
Theorem hdlc_rejects_burst (cap : nat) (pre bs cs post : bytes) :
  is_bytes (pre ++ bs ++ post) → is_bytes cs → length bs = length cs →
  (length bs ≤ 2)%nat → bs ≠ cs →
  (Decoder.receive cap (Decoder.initial cap)
     (kFlag :: flat_map stuff ((pre ++ cs ++ post) ++ crc_trailer (pre ++ bs ++ post))
      ++ [kFlag])).1 = [].
Proof.
  intros Hbytes Hcs Hlen Hn Hne.
  assert (Hraw : is_bytes ((pre ++ cs ++ post) ++ crc_trailer (pre ++ bs ++ post))).
  { apply Forall_app in Hbytes as [? [? ?]%Forall_app].
    apply Forall_app_2; [auto using Forall_app_2|apply crc_trailer_bytes]. }
  rewrite receive_frames by by apply stuffed_bytes.
  apply corrupt_receive, checked_payload_other; [done|]. intros E.
  apply crc_trailer_inj in E. symmetry in E. revert E.
  apply compute_burst; auto with word.
Qed.

Lemma hdlc_rejects_burst_witness :
  (Decoder.receive 8 (Decoder.initial 8)
     (kFlag :: flat_map stuff (([1] ++ [0x7E; 4] ++ [5]) ++ crc_trailer ([1] ++ [2; 3] ++ [5]))
      ++ [kFlag])).1 = [].
Proof.
  apply (hdlc_rejects_burst 8 [1] [2; 3] [0x7E; 4] [5]);
    by_evaluation.
Defined.

(** The CRC is sent low byte first, so a change of two consecutive bytes that
    straddles payload and trailer can go unnoticed, although both lie within
    16 bits: here the last payload byte and the first trailer byte. *)
Example straddling_burst_accepted :
  crc_trailer [1; 2; 3] = [0xAD; 0xAD] ∧
  (Decoder.receive 8 (Decoder.initial 8)
     (kFlag :: flat_map stuff ([1; 2] ++ [138; 0x0C] ++ [0xAD]) ++ [kFlag])).1 =
    [[1; 2; 138]].
Proof. split; vm_compute; reflexivity. Qed.
