(* ===== verification/Containers.v ===== *)
(** * Bounded queues ([containers/queue.h], [containers/ring_buffer.h])

    [Queue] and [RingBuffer] over an arbitrary element type, with their index
    members at the width the source gives them, each refined to a list; and the
    ring buffer's single-producer/single-consumer use as interleavings of the
    atomic accesses of both sides. *)

From stdpp Require Import relations.
From S2P Require Import Prelude.
Local Open Scope Z_scope.

(** ** Circular ranges of an array *)

Section ring.
Context {T : Type} (d : T).

(** The [n] elements from [start] on, wrapping around. *)
Definition ring (items : list T) (start n : nat) : list T :=
  map (λ k, nth ((start + k) mod length items) items d) (seq 0 n).

Lemma ring_length items start n : length (ring items start n) = n.
Proof. unfold ring. by rewrite length_map, length_seq. Qed.

Lemma ring_snoc items start n :
  ring items start (S n) =
    ring items start n ++ [nth ((start + n) mod length items) items d].
Proof. unfold ring. by rewrite seq_S, map_app. Qed.

Lemma ring_cons items start n :
  (start < length items)%nat →
  ring items start (S n) =
    nth start items d :: ring items ((start + 1) mod length items) n.
Proof.
  intros Hs. unfold ring. simpl. rewrite Nat.add_0_r, Nat.mod_small by done. f_equal.
  rewrite <- seq_shift, map_map. apply map_ext. intros k.
  rewrite Nat.Div0.add_mod_idemp_l. f_equal. f_equal. lia.
Qed.

(** The slots of a range that does not fill the array are distinct from the next. *)
Lemma ring_slot_ne len start k n :
  (k < n)%nat → (n < len)%nat → ((start + k) mod len ≠ (start + n) mod len)%nat.
Proof.
  intros Hk Hn Heq. pose proof (Nat.div_mod (start + k) len ltac:(lia)).
  pose proof (Nat.div_mod (start + n) len ltac:(lia)).
  destruct (Nat.lt_total ((start + k) / len) ((start + n) / len)) as [|[E|]]; [nia| |nia].
  rewrite E in *. lia.
Qed.

Lemma ring_insert items start n x :
  (n < length items)%nat →
  ring (<[((start + n) mod length items)%nat := x]> items) start n = ring items start n.
Proof.
  intros Hn. unfold ring. rewrite length_insert. apply map_ext_in.
  intros k Hk%in_seq. rewrite !nth_lookup, list_lookup_insert_ne; [done|].
  intros Heq. symmetry in Heq. by apply ring_slot_ne in Heq; [|lia|].
Qed.

Lemma ring_enqueue items start n x :
  (n < length items)%nat →
  ring (<[((start + n) mod length items)%nat := x]> items) start (S n) = ring items start n ++ [x].
Proof.
  intros Hn. rewrite ring_snoc, ring_insert, length_insert by done. f_equal. f_equal.
  rewrite nth_lookup, list_lookup_insert_eq; [done|]. apply Nat.mod_upper_bound. lia.
Qed.
End ring.

(** ** Sequences of operations *)

Section runs.
Context {Op Outcome S : Type}.

Fixpoint run_ops (exec : Op → S → Outcome * S) (ops : list Op) (s : S) : list Outcome * S :=
  match ops with
  | [] => ([], s)
  | op :: ops' =>
      let '(o, s) := exec op s in
      let '(os, s) := run_ops exec ops' s in (o :: os, s)
  end.
End runs.

(** A simulation of one operation extends to every sequence of them. *)
Lemma run_ops_refines {Op Outcome S A} (exec : Op → S → Outcome * S)
    (spec : Op → A → Outcome * A) (I : S → Prop) (abs : S → A)
    (Hop : ∀ op s, I s → I (exec op s).2 ∧ spec op (abs s) = ((exec op s).1, abs (exec op s).2))
    ops s :
  I s →
  let '(os, s') := run_ops exec ops s in I s' ∧ run_ops spec ops (abs s) = (os, abs s').
Proof.
  revert s. induction ops as [|op ops IH]; intros s Hs; simpl; [done|].
  destruct (Hop op s Hs) as [Hs' ->]. destruct (exec op s) as [o s1]. simpl in *.
  specialize (IH s1 Hs'). destruct (run_ops exec ops s1) as [os s2].
  destruct IH as [? ->]. done.
Qed.

(** ** [Queue] *)

Module Queue.
Section queue.
Context {T : Type} (default : T) (kCapacity : Z).

Record Queue := {
  items_ : list T;
  read_index_ : Z;
  write_index_ : Z;
  size_ : Z;
}.

Definition empty : Queue :=
  {| items_ := replicate (Z.to_nat kCapacity) default; read_index_ := 0; write_index_ := 0;
     size_ := 0 |}.

Definition isFull (q : Queue) : bool := size_ q =? kCapacity.
Definition isEmpty (q : Queue) : bool := size_ q =? 0.

Definition increment (index : Z) : Z :=
  let result := u16 (index + 1) in if kCapacity <=? result then 0 else result.

(** [enqueue] and [dequeue] between [lock()] and [unlock()]; [dequeue] returns
    the element it stores through its argument. *)
Definition enqueue (item : T) (q : Queue) : bool * Queue :=
  if isFull q then (false, q)
  else
    (true, {| items_ := <[Z.to_nat (write_index_ q) := item]> (items_ q);
              read_index_ := read_index_ q;
              write_index_ := increment (write_index_ q);
              size_ := u16 (size_ q + 1) |}).

Definition dequeue (q : Queue) : option T * Queue :=
  if isEmpty q then (None, q)
  else
    (Some (nth (Z.to_nat (read_index_ q)) (items_ q) default),
     {| items_ := items_ q;
        read_index_ := increment (read_index_ q);
        write_index_ := write_index_ q;
        size_ := u16 (size_ q - 1) |}).

(** ** Refinement to a list *)

Definition contents (q : Queue) : list T :=
  ring default (items_ q) (Z.to_nat (read_index_ q)) (Z.to_nat (size_ q)).

Record wf (q : Queue) : Prop := {
  wf_items : length (items_ q) = Z.to_nat kCapacity;
  wf_read : 0 ≤ read_index_ q < kCapacity;
  wf_size : 0 ≤ size_ q ≤ kCapacity;
  wf_write : write_index_ q = (read_index_ q + size_ q) mod kCapacity;
}.

Hypothesis Hcap : 0 < kCapacity < 65536.

Lemma queue_increment_mod index : 0 ≤ index < kCapacity → increment index = (index + 1) mod kCapacity.
Proof.
  intros Hi. unfold increment. rewrite u16_id by (unfold is_u16; lia).
  destruct (Z.leb_spec kCapacity (index + 1)).
  - replace (index + 1) with kCapacity by lia. by rewrite Z.mod_same by lia.
  - by rewrite Z.mod_small by lia.
Qed.

Lemma queue_empty_wf : wf empty ∧ contents empty = [].
Proof.
  split; [split; simpl; try lia|done].
  - apply length_replicate.
  - by rewrite Z.mod_small by lia.
Qed.

Lemma queue_enqueue_spec item q :
  wf q →
  let '(ok, q') := enqueue item q in
  wf q' ∧ ok = bool_decide (length (contents q) < Z.to_nat kCapacity)%nat ∧
  contents q' = if ok then contents q ++ [item] else contents q.
Proof.
  intros [Hlen Hr Hs Hw]. unfold enqueue, isFull, contents. rewrite ring_length.
  destruct (Z.eqb_spec (size_ q) kCapacity) as [Hfull|Hroom].
  { rewrite bool_decide_eq_false_2 by lia. by split. }
  rewrite bool_decide_eq_true_2 by lia.
  pose proof (Z.mod_pos_bound (read_index_ q + size_ q) kCapacity ltac:(lia)) as Hb.
  assert (Hinc : increment (write_index_ q) = (read_index_ q + (size_ q + 1)) mod kCapacity).
  { rewrite queue_increment_mod, Hw by lia. rewrite Zplus_mod_idemp_l. f_equal. lia. }
  split_and!; [split; simpl| done |simpl].
  - by rewrite length_insert.
  - lia.
  - rewrite u16_id by (unfold is_u16; lia). lia.
  - by rewrite u16_id by (unfold is_u16; lia).
  - rewrite u16_id by (unfold is_u16; lia).
    replace (Z.to_nat (size_ q + 1)) with (S (Z.to_nat (size_ q))) by lia.
    rewrite <- ring_enqueue by lia. f_equal. f_equal. rewrite Hw, Hlen.
    rewrite Z2Nat.inj_mod, Z2Nat.inj_add by lia. done.
Qed.

Lemma queue_dequeue_spec q :
  wf q →
  let '(r, q') := dequeue q in
  wf q' ∧ r = head (contents q) ∧ contents q' = tail (contents q).
Proof.
  intros [Hlen Hr Hs Hw]. unfold dequeue, isEmpty, contents.
  destruct (Z.eqb_spec (size_ q) 0) as [E|Hne].
  { rewrite E. by split. }
  replace (Z.to_nat (size_ q)) with (S (Z.to_nat (size_ q - 1))) by lia.
  rewrite ring_cons by lia. simpl.
  rewrite queue_increment_mod by done. rewrite u16_id by (unfold is_u16; lia).
  split_and!; [split; simpl|done|].
  - done.
  - apply Z.mod_pos_bound. lia.
  - lia.
  - rewrite Hw, Zplus_mod_idemp_l. f_equal. lia.
  - f_equal. rewrite Hlen, Z2Nat.inj_mod, Z2Nat.inj_add by lia. done.
Qed.
(** ** Runs of operations *)

Inductive Op := Enqueue (item : T) | Dequeue.
Inductive Outcome := Accepted (ok : bool) | Item (item : option T).

Definition exec (op : Op) (q : Queue) : Outcome * Queue :=
  match op with
  | Enqueue item => let '(ok, q) := enqueue item q in (Accepted ok, q)
  | Dequeue => let '(r, q) := dequeue q in (Item r, q)
  end.

(** The same operations on a list of at most [kCapacity] elements. *)
Definition exec_fifo (op : Op) (l : list T) : Outcome * list T :=
  match op with
  | Enqueue item =>
      if bool_decide (length l < Z.to_nat kCapacity)%nat then (Accepted true, l ++ [item])
      else (Accepted false, l)
  | Dequeue => (Item (head l), tail l)
  end.

Lemma queue_exec_refines op q :
  wf q → wf (exec op q).2 ∧
  exec_fifo op (contents q) = ((exec op q).1, contents (exec op q).2).
Proof.
  intros Hq. destruct op as [item|]; simpl.
  - pose proof (queue_enqueue_spec item q Hq) as H. destruct (enqueue item q) as [ok q'].
    destruct H as (Hq' & -> & Hc). split; [done|]. simpl. by case_bool_decide; rewrite Hc.
  - pose proof (queue_dequeue_spec q Hq) as H. destruct (dequeue q) as [r q'].
    destruct H as (Hq' & -> & Hc). split; [done|]. simpl. by rewrite Hc.
Qed.

(** From the constructed queue, every sequence of [enqueue] and [dequeue]
    calls has the outcomes of the same sequence on a FIFO list bounded by
    [kCapacity], and leaves the indexes in range with that list as contents:
    elements come out in order and once, a full queue refuses and an empty one
    returns nothing. *)
Theorem queue_refines_fifo ops :
  let '(outcomes, q) := run_ops exec ops empty in
  wf q ∧ run_ops exec_fifo ops [] = (outcomes, contents q).
Proof.
  pose proof (run_ops_refines exec exec_fifo wf contents queue_exec_refines ops empty) as H.
  rewrite (proj2 queue_empty_wf) in H. destruct (run_ops exec ops empty). by apply H, queue_empty_wf.
Qed.
End queue.
Arguments Queue : clear implicits.

Definition queue_refines_fifo_witness_ops : list (Op (T:=Z)) :=
  [Enqueue 1; Enqueue 2; Enqueue 3; Dequeue; Enqueue 4; Dequeue; Dequeue; Dequeue].

Lemma queue_refines_fifo_witness :
  (run_ops (exec 0 2) queue_refines_fifo_witness_ops (empty 0 2)).1 =
    [Accepted true; Accepted true; Accepted false; Item (Some 1); Accepted true;
     Item (Some 2); Item (Some 4); Item None] ∧
  (let '(outcomes, q) := run_ops (exec 0 2) queue_refines_fifo_witness_ops (empty 0 2) in
   wf 2 q ∧ run_ops (exec_fifo 2) queue_refines_fifo_witness_ops [] = (outcomes, contents 0 q)).
Proof.
  split; [reflexivity|]. apply (queue_refines_fifo 0 2). lia.
Defined.
End Queue.

(** ** [RingBuffer] *)

Module RingBuffer.
Section ring_buffer.
(** [kCapacity] and the width of [IndexType] in bits. *)
Context {T : Type} (default : T) (kCapacity index_bits : Z).

Record RingBuffer := {
  buffer_ : list T;
  write_index_ : Z;
  read_index_ : Z;
}.

Definition castIndex (x : Z) : Z := x mod 2 ^ index_bits.

Definition empty : RingBuffer :=
  {| buffer_ := replicate (Z.to_nat (kCapacity + 1)) default; write_index_ := 0;
     read_index_ := 0 |}.

Definition increment (index : Z) : Z :=
  if index =? kCapacity then 0 else castIndex (index + 1).

Definition isEmpty (b : RingBuffer) : bool := write_index_ b =? read_index_ b.
Definition isFull (b : RingBuffer) : bool := increment (write_index_ b) =? read_index_ b.

Definition size (b : RingBuffer) : Z :=
  let writer := write_index_ b in
  let reader := read_index_ b in
  if reader <=? writer then castIndex (writer - reader)
  else castIndex ((kCapacity + 1 - reader) + writer).

Definition enqueue (item : T) (b : RingBuffer) : bool * RingBuffer :=
  if isFull b then (false, b)
  else
    (true, {| buffer_ := <[Z.to_nat (write_index_ b) := item]> (buffer_ b);
              write_index_ := increment (write_index_ b);
              read_index_ := read_index_ b |}).

Fixpoint enqueueSpan (items : list T) (b : RingBuffer) : bool * RingBuffer :=
  match items with
  | [] => (true, b)
  | item :: items' =>
      let '(ok, b) := enqueue item b in
      if negb ok then (false, b) else enqueueSpan items' b
  end.

Definition peek (b : RingBuffer) : option T :=
  if isEmpty b then None
  else Some (nth (Z.to_nat (read_index_ b)) (buffer_ b) default).

Definition dequeue (b : RingBuffer) : option T * RingBuffer :=
  if isEmpty b then (None, b)
  else
    (Some (nth (Z.to_nat (read_index_ b)) (buffer_ b) default),
     {| buffer_ := buffer_ b; write_index_ := write_index_ b;
        read_index_ := increment (read_index_ b) |}).

(** [dequeue] into an output span of [n] elements: what it stores, in order; the
    returned index is their number. *)
Fixpoint dequeueSpan (n : nat) (b : RingBuffer) : list T * RingBuffer :=
  match n with
  | O => ([], b)
  | S n' =>
      match dequeue b with
      | (None, b) => ([], b)
      | (Some item, b) => let '(items, b) := dequeueSpan n' b in (item :: items, b)
      end
  end.

(** The loop empties the buffer in at most [kCapacity] rounds. *)
Definition clear (b : RingBuffer) : RingBuffer :=
  while_upto (Z.to_nat kCapacity) (λ b, negb (isEmpty b)) (λ b, (dequeue b).2) b.

(** ** Refinement to a list *)

Definition count (b : RingBuffer) : Z := (write_index_ b - read_index_ b) mod (kCapacity + 1).
Definition contents (b : RingBuffer) : list T :=
  ring default (buffer_ b) (Z.to_nat (read_index_ b)) (Z.to_nat (count b)).

Record wf (b : RingBuffer) : Prop := {
  wf_buffer : length (buffer_ b) = Z.to_nat (kCapacity + 1);
  wf_write : 0 ≤ write_index_ b ≤ kCapacity;
  wf_read : 0 ≤ read_index_ b ≤ kCapacity;
}.

Hypothesis Hcap : 0 < kCapacity < 2 ^ index_bits.

Lemma increment_mod index :
  0 ≤ index ≤ kCapacity → increment index = (index + 1) mod (kCapacity + 1).
Proof.
  intros Hi. unfold increment, castIndex. destruct (Z.eqb_spec index kCapacity) as [->|].
  - by rewrite Z.mod_same by lia.
  - by rewrite !Z.mod_small by lia.
Qed.

Lemma count_bound b : 0 ≤ count b ≤ kCapacity.
Proof. unfold count. pose proof (Z.mod_pos_bound (write_index_ b - read_index_ b) (kCapacity + 1)). lia. Qed.

(** Index arithmetic modulo the number of slots. *)
Lemma mod_slots x y : 0 ≤ y ≤ kCapacity → (∃ q, x = q * (kCapacity + 1) + y) →
  x mod (kCapacity + 1) = y.
Proof. intros Hy [q ->]. rewrite Z.add_comm, Z.mod_add by lia. apply Z.mod_small. lia. Qed.

Lemma write_of_count b :
  wf b → write_index_ b = (read_index_ b + count b) mod (kCapacity + 1).
Proof.
  intros [_ Hw Hr]. unfold count. rewrite Zplus_mod_idemp_r.
  rewrite Z.mod_small by lia. lia.
Qed.

Lemma count_cases b :
  wf b → count b = write_index_ b - read_index_ b ∧ read_index_ b ≤ write_index_ b ∨
         count b = write_index_ b - read_index_ b + (kCapacity + 1) ∧
         write_index_ b < read_index_ b.
Proof.
  intros [_ Hw Hr]. unfold count. destruct (Z.le_gt_cases (read_index_ b) (write_index_ b)).
  - left. split; [|done]. apply Z.mod_small. lia.
  - right. split; [|done]. apply mod_slots; [lia|]. exists (-1). lia.
Qed.

Lemma isEmpty_count b : wf b → isEmpty b = (count b =? 0).
Proof.
  intros Hb. pose proof Hb as [_ Hw Hr]. unfold isEmpty.
  destruct (count_cases b Hb) as [[-> ?]|[-> ?]];
    destruct (Z.eqb_spec (write_index_ b) (read_index_ b)); symmetry;
    (apply Z.eqb_eq || apply Z.eqb_neq); lia.
Qed.

Lemma increment_cases index :
  0 ≤ index ≤ kCapacity →
  increment index = index + 1 ∧ index < kCapacity ∨ increment index = 0 ∧ index = kCapacity.
Proof.
  intros Hi. unfold increment, castIndex. destruct (Z.eqb_spec index kCapacity); [by right|].
  left. rewrite Z.mod_small; lia.
Qed.

Lemma isFull_count b : wf b → isFull b = (count b =? kCapacity).
Proof.
  intros Hb. pose proof Hb as [_ Hw Hr]. unfold isFull.
  destruct (count_cases b Hb) as [[-> ?]|[-> ?]], (increment_cases (write_index_ b) Hw) as [[-> ?]|[-> ?]];
    match goal with |- (?x =? ?y) = _ => destruct (Z.eqb_spec x y) end; symmetry;
    (apply Z.eqb_eq || apply Z.eqb_neq); lia.
Qed.

Lemma empty_wf : wf empty ∧ contents empty = [].
Proof. split; [split; simpl; try lia; apply length_replicate|done]. Qed.

Lemma size_spec b : wf b → size b = zlen (contents b).
Proof.
  intros Hb. unfold zlen, contents. rewrite ring_length.
  pose proof (count_bound b). pose proof Hb as [_ Hw Hr]. unfold size, castIndex.
  destruct (count_cases b Hb) as [[E ?]|[E ?]].
  - rewrite (proj2 (Z.leb_le _ _)) by lia. rewrite Z.mod_small; lia.
  - rewrite (proj2 (Z.leb_gt _ _)) by lia. rewrite Z.mod_small; lia.
Qed.

(** Publishing one more, or one fewer. *)
Lemma count_write b x :
  wf b → count b < kCapacity →
  count {| buffer_ := x; write_index_ := increment (write_index_ b);
           read_index_ := read_index_ b |} = count b + 1.
Proof.
  intros Hb Hroom. pose proof Hb as [_ Hw Hr]. unfold count at 1. simpl.
  apply mod_slots; [pose proof (count_bound b); lia|].
  destruct (count_cases b Hb) as [[E ?]|[E ?]], (increment_cases (write_index_ b) Hw) as [[-> ?]|[-> ?]];
    [exists 0|exists (-1)|exists (-1)|]; lia.
Qed.

Lemma count_read b x :
  wf b → 0 < count b →
  count {| buffer_ := x; write_index_ := write_index_ b;
           read_index_ := increment (read_index_ b) |} = count b - 1.
Proof.
  intros Hb Hne. pose proof Hb as [_ Hw Hr]. unfold count at 1. simpl.
  apply mod_slots; [pose proof (count_bound b); lia|].
  destruct (count_cases b Hb) as [[E ?]|[E ?]], (increment_cases (read_index_ b) Hr) as [[-> ?]|[-> ?]];
    [exists 0| |exists (-1)|exists 0]; lia.
Qed.

Lemma increment_range index : 0 ≤ index ≤ kCapacity → 0 ≤ increment index ≤ kCapacity.
Proof. intros Hi. destruct (increment_cases index Hi) as [[-> ?]|[-> ?]]; lia. Qed.

(** The slot the writer writes is the next of the range. *)
Lemma write_slot b :
  wf b → Z.to_nat (write_index_ b) =
    ((Z.to_nat (read_index_ b) + Z.to_nat (count b)) mod length (buffer_ b))%nat.
Proof.
  intros Hb. pose proof Hb as [Hlen Hw Hr]. pose proof (count_bound b).
  rewrite (write_of_count b Hb) at 1. rewrite Hlen, Z2Nat.inj_mod, Z2Nat.inj_add by lia. done.
Qed.

Lemma contents_write b item :
  wf b → count b < kCapacity →
  contents {| buffer_ := <[Z.to_nat (write_index_ b) := item]> (buffer_ b);
              write_index_ := increment (write_index_ b); read_index_ := read_index_ b |} =
    contents b ++ [item].
Proof.
  intros Hb Hroom. pose proof (count_bound b). unfold contents. rewrite count_write by done. simpl.
  replace (Z.to_nat (count b + 1)) with (S (Z.to_nat (count b))) by lia.
  rewrite (write_slot b Hb). apply ring_enqueue. destruct Hb as [-> _ _]. lia.
Qed.

Lemma contents_read b :
  wf b → 0 < count b →
  contents b = nth (Z.to_nat (read_index_ b)) (buffer_ b) default ::
    contents {| buffer_ := buffer_ b; write_index_ := write_index_ b;
                read_index_ := increment (read_index_ b) |}.
Proof.
  intros Hb Hne. pose proof Hb as [Hlen Hw Hr]. unfold contents. rewrite count_read by done. simpl.
  replace (Z.to_nat (count b)) with (S (Z.to_nat (count b - 1))) at 1 by lia.
  rewrite ring_cons by lia. f_equal. f_equal.
  rewrite increment_mod by done. rewrite Z2Nat.inj_mod, Z2Nat.inj_add by lia. by rewrite Hlen.
Qed.

Lemma enqueue_spec item b :
  wf b →
  let '(ok, b') := enqueue item b in
  wf b' ∧ ok = bool_decide (length (contents b) < Z.to_nat kCapacity)%nat ∧
  contents b' = if ok then contents b ++ [item] else contents b.
Proof.
  intros Hb. unfold enqueue. rewrite isFull_count by done. pose proof (count_bound b).
  assert (Hl : length (contents b) = Z.to_nat (count b)) by apply ring_length. rewrite Hl.
  destruct (Z.eqb_spec (count b) kCapacity).
  { rewrite bool_decide_eq_false_2 by lia. by split. }
  rewrite bool_decide_eq_true_2 by lia. split_and!; [|done|apply contents_write; lia || done].
  destruct Hb. split; simpl; [by rewrite length_insert|by apply increment_range|done].
Qed.

Lemma dequeue_spec b :
  wf b →
  let '(r, b') := dequeue b in
  wf b' ∧ r = head (contents b) ∧ contents b' = tail (contents b).
Proof.
  intros Hb. unfold dequeue. rewrite isEmpty_count by done. pose proof (count_bound b).
  destruct (Z.eqb_spec (count b) 0) as [E|].
  { unfold contents. rewrite E. by split. }
  rewrite contents_read by (done || lia). simpl. split_and!; try done.
  destruct Hb. split; simpl; [done|done|by apply increment_range].
Qed.

Lemma peek_spec b : wf b → peek b = head (contents b).
Proof.
  intros Hb. pose proof (dequeue_spec b Hb) as H. unfold dequeue, peek in *.
  destruct (isEmpty b); apply H.
Qed.

Lemma enqueueSpan_spec items b :
  wf b →
  let '(ok, b') := enqueueSpan items b in
  let room := (Z.to_nat kCapacity - length (contents b))%nat in
  wf b' ∧ ok = bool_decide (length items ≤ room)%nat ∧
  contents b' = contents b ++ take room items.
Proof.
  revert b. induction items as [|item items IH]; intros b Hb; simpl.
  { by rewrite take_nil, app_nil_r. }
  pose proof (enqueue_spec item b Hb) as Henq.
  assert (Hle : (length (contents b) ≤ Z.to_nat kCapacity)%nat)
    by (unfold contents; rewrite ring_length; pose proof (count_bound b); lia).
  destruct (enqueue item b) as [ok b1]. destruct Henq as (Hb1 & -> & Hc). case_bool_decide as Hroom.
  - simpl. specialize (IH b1 Hb1). destruct (enqueueSpan items b1) as [ok b2].
    destruct IH as (Hb2 & -> & Hc2). rewrite Hc, length_app in *. simpl in *.
    destruct (Z.to_nat kCapacity - length (contents b))%nat as [|room] eqn:E; [lia|].
    split_and!; [done|apply bool_decide_ext; lia|].
    rewrite Hc2, <- app_assoc. simpl. do 3 f_equal. lia.
  - simpl. replace (Z.to_nat kCapacity - length (contents b))%nat with 0%nat by lia.
    rewrite bool_decide_eq_false_2 by lia. simpl. rewrite app_nil_r. by split.
Qed.

Lemma dequeueSpan_spec n b :
  wf b →
  let '(items, b') := dequeueSpan n b in
  wf b' ∧ items = take n (contents b) ∧ contents b' = drop n (contents b).
Proof.
  revert b. induction n as [|n IH]; intros b Hb; simpl; [by rewrite drop_0|].
  pose proof (dequeue_spec b Hb) as Hdeq. destruct (dequeue b) as [r b1].
  destruct Hdeq as (Hb1 & -> & Hc). destruct (contents b) as [|x xs]; simpl in *.
  - by split_and!.
  - specialize (IH b1 Hb1). destruct (dequeueSpan n b1) as [items b2].
    destruct IH as (Hb2 & -> & Hc2). rewrite Hc in *. by split_and!.
Qed.

Lemma clear_spec b : wf b → wf (clear b) ∧ contents (clear b) = [].
Proof.
  intros Hb. unfold clear.
  destruct (while_upto_exit wf (λ b, length (contents b)) (λ b, negb (isEmpty b))
    (λ b, (dequeue b).2) (Z.to_nat kCapacity) b) as [Hwf Hexit].
  - intros b1 Hb1 Hne. pose proof (dequeue_spec b1 Hb1) as Hdeq.
    rewrite isEmpty_count in Hne by done. apply negb_true_iff, Z.eqb_neq in Hne.
    pose proof (count_bound b1).
    assert (Hl : length (contents b1) = Z.to_nat (count b1)) by apply ring_length.
    destruct (dequeue b1) as [r b2]. destruct Hdeq as (? & _ & E). split; [done|].
    cbn [snd]. rewrite E. destruct (contents b1); simpl in *; lia.
  - done.
  - unfold contents. rewrite ring_length. pose proof (count_bound b). lia.
  - split; [done|]. apply negb_false_iff in Hexit. rewrite isEmpty_count in Hexit by done.
    apply Z.eqb_eq in Hexit. unfold contents. by rewrite Hexit.
Qed.
(** ** Runs of operations *)

Inductive Op :=
  | Enqueue (item : T)
  | EnqueueSpan (items : list T)
  | Peek
  | Dequeue
  | DequeueSpan (n : nat)
  | Size
  | Clear.
Inductive Outcome :=
  | Accepted (ok : bool) | Item (item : option T) | Items (items : list T) | Count (n : Z) | Done.

Definition exec (op : Op) (b : RingBuffer) : Outcome * RingBuffer :=
  match op with
  | Enqueue item => let '(ok, b) := enqueue item b in (Accepted ok, b)
  | EnqueueSpan items => let '(ok, b) := enqueueSpan items b in (Accepted ok, b)
  | Peek => (Item (peek b), b)
  | Dequeue => let '(r, b) := dequeue b in (Item r, b)
  | DequeueSpan n => let '(items, b) := dequeueSpan n b in (Items items, b)
  | Size => (Count (size b), b)
  | Clear => (Done, clear b)
  end.

(** The same operations on a list of at most [kCapacity] elements: a span that
    does not fit is accepted as far as there is room. *)
Definition exec_fifo (op : Op) (l : list T) : Outcome * list T :=
  let room := (Z.to_nat kCapacity - length l)%nat in
  match op with
  | Enqueue item =>
      if bool_decide (0 < room)%nat then (Accepted true, l ++ [item]) else (Accepted false, l)
  | EnqueueSpan items =>
      (Accepted (bool_decide (length items ≤ room)%nat), l ++ take room items)
  | Peek => (Item (head l), l)
  | Dequeue => (Item (head l), tail l)
  | DequeueSpan n => (Items (take n l), drop n l)
  | Size => (Count (zlen l), l)
  | Clear => (Done, [])
  end.

Lemma exec_refines op b :
  wf b → wf (exec op b).2 ∧
  exec_fifo op (contents b) = ((exec op b).1, contents (exec op b).2).
Proof.
  intros Hb. destruct op as [item|items| | |n| |]; simpl.
  - pose proof (enqueue_spec item b Hb) as H. destruct (enqueue item b) as [ok b'].
    destruct H as (Hb' & -> & Hc). split; [done|]. simpl.
    rewrite (bool_decide_ext (0 < _)%nat (length (contents b) < Z.to_nat kCapacity)%nat) by lia.
    by case_bool_decide; rewrite Hc.
  - pose proof (enqueueSpan_spec items b Hb) as H. destruct (enqueueSpan items b) as [ok b'].
    destruct H as (Hb' & -> & Hc). split; [done|]. simpl. by rewrite Hc.
  - by rewrite peek_spec.
  - pose proof (dequeue_spec b Hb) as H. destruct (dequeue b) as [r b'].
    destruct H as (Hb' & -> & Hc). split; [done|]. simpl. by rewrite Hc.
  - pose proof (dequeueSpan_spec n b Hb) as H. destruct (dequeueSpan n b) as [items b'].
    destruct H as (Hb' & -> & Hc). split; [done|]. simpl. by rewrite Hc.
  - by rewrite size_spec.
  - destruct (clear_spec b Hb) as [Hb' ->]. done.
Qed.

(** C36: From the constructed ring buffer, every sequence of its operations
    (single and span [enqueue], [peek], single and span [dequeue], [size],
    [clear]) has the outcomes of the same sequence on a FIFO list bounded by
    [kCapacity] and leaves that list as contents, whatever unsigned [IndexType]
    can hold [kCapacity]. *)
Theorem ring_buffer_refines_fifo ops :
  let '(outcomes, b) := run_ops exec ops empty in
  wf b ∧ run_ops exec_fifo ops [] = (outcomes, contents b).
Proof.
  pose proof (run_ops_refines exec exec_fifo wf contents exec_refines ops empty) as H.
  rewrite (proj2 empty_wf) in H. destruct (run_ops exec ops empty). by apply H, empty_wf.
Qed.
End ring_buffer.
Arguments RingBuffer : clear implicits.

Definition ring_buffer_witness_ops : list (Op (T:=Z)) :=
  [EnqueueSpan [1; 2; 3; 4]; Size; Dequeue; Enqueue 5; Peek; DequeueSpan 2; Size; Clear; Peek].

Lemma ring_buffer_refines_fifo_witness :
  (run_ops (exec 0 3 8) ring_buffer_witness_ops (empty 0 3)).1 =
    [Accepted false; Count 3; Item (Some 1); Accepted true; Item (Some 2); Items [2; 3];
     Count 1; Done; Item None] ∧
  (let '(outcomes, b) := run_ops (exec 0 3 8) ring_buffer_witness_ops (empty 0 3) in
   wf 3 b ∧ run_ops (exec_fifo 3) ring_buffer_witness_ops [] = (outcomes, contents 0 3 b)).
Proof.
  split; [reflexivity|]. apply (ring_buffer_refines_fifo 0 3 8). lia.
Defined.
End RingBuffer.

(** ** One producer, one consumer

    [enqueue] and [dequeue] of the ring buffer as the sequences of their shared
    accesses: each index is an atomic that only its own side stores, so a side's
    own index can be read at any time and the steps are the load of the other
    index in the check, the access to the slot, and the store of the own index.
    The two sides interleave freely.  [sent] and [taken] record the elements in
    the order of the completed operations. *)

Module Spsc.
Import RingBuffer.
Section spsc.
Context {T : Type} (default : T) (kCapacity index_bits : Z).
Abbreviation increment := (RingBuffer.increment kCapacity index_bits).

Inductive Producer := PIdle | PChecked (item : T) | PWritten (item : T).
Inductive Consumer := CIdle | CChecked | CRead (item : T).

Record Shared := {
  rb : RingBuffer T;
  producer : Producer;
  consumer : Consumer;
  sent : list T;
  taken : list T;
}.

Definition set_write (i : Z) (b : RingBuffer T) : RingBuffer T :=
  {| buffer_ := buffer_ b; write_index_ := i; read_index_ := read_index_ b |}.
Definition set_read (i : Z) (b : RingBuffer T) : RingBuffer T :=
  {| buffer_ := buffer_ b; write_index_ := write_index_ b; read_index_ := i |}.
Definition set_slot (i : Z) (item : T) (b : RingBuffer T) : RingBuffer T :=
  {| buffer_ := <[Z.to_nat i := item]> (buffer_ b); write_index_ := write_index_ b;
     read_index_ := read_index_ b |}.

Inductive step : Shared → Shared → Prop :=
  | enqueue_full s :
      producer s = PIdle → isFull kCapacity index_bits (rb s) = true → step s s
  | enqueue_check s item :
      producer s = PIdle → isFull kCapacity index_bits (rb s) = false →
      step s {| rb := rb s; producer := PChecked item; consumer := consumer s;
                sent := sent s; taken := taken s |}
  | enqueue_write s item :
      producer s = PChecked item →
      step s {| rb := set_slot (write_index_ (rb s)) item (rb s); producer := PWritten item;
                consumer := consumer s; sent := sent s; taken := taken s |}
  | enqueue_publish s item :
      producer s = PWritten item →
      step s {| rb := set_write (increment (write_index_ (rb s))) (rb s); producer := PIdle;
                consumer := consumer s; sent := sent s ++ [item]; taken := taken s |}
  | dequeue_empty s :
      consumer s = CIdle → isEmpty (rb s) = true → step s s
  | dequeue_check s :
      consumer s = CIdle → isEmpty (rb s) = false →
      step s {| rb := rb s; producer := producer s; consumer := CChecked;
                sent := sent s; taken := taken s |}
  | dequeue_read s :
      consumer s = CChecked →
      step s {| rb := rb s; producer := producer s;
                consumer := CRead (nth (Z.to_nat (read_index_ (rb s))) (buffer_ (rb s)) default);
                sent := sent s; taken := taken s |}
  | dequeue_publish s item :
      consumer s = CRead item →
      step s {| rb := set_read (increment (read_index_ (rb s))) (rb s); producer := producer s;
                consumer := CIdle; sent := sent s; taken := taken s ++ [item] |}.

Definition start : Shared :=
  {| rb := empty default kCapacity; producer := PIdle; consumer := CIdle; sent := [];
     taken := [] |}.

(** The invariant of every interleaving: what is in the buffer is what was sent
    and not taken, and a side past its check still finds what it checked. *)
Record inv (s : Shared) : Prop := {
  inv_wf : wf kCapacity (rb s);
  inv_contents : sent s = taken s ++ contents default kCapacity (rb s);
  inv_producer :
    match producer s with
    | PIdle => True
    | PChecked _ => count kCapacity (rb s) < kCapacity
    | PWritten item => count kCapacity (rb s) < kCapacity ∧
        nth (Z.to_nat (write_index_ (rb s))) (buffer_ (rb s)) default = item
    end;
  inv_consumer :
    match consumer s with
    | CIdle => True
    | CChecked => 0 < count kCapacity (rb s)
    | CRead item => 0 < count kCapacity (rb s) ∧
        nth (Z.to_nat (read_index_ (rb s))) (buffer_ (rb s)) default = item
    end;
}.

Hypothesis Hcap : 0 < kCapacity < 2 ^ index_bits.

Lemma slots_differ (b : RingBuffer T) :
  wf kCapacity b → 0 < count kCapacity b → write_index_ b ≠ read_index_ b.
Proof.
  intros Hb Hc Heq. unfold count in Hc. rewrite Heq, Z.sub_diag, Z.mod_0_l in Hc by lia. lia.
Qed.

(** The store to the free slot is invisible to the reader. *)
Lemma contents_slot (b : RingBuffer T) item :
  wf kCapacity b → count kCapacity b < kCapacity →
  contents default kCapacity (set_slot (write_index_ b) item b) = contents default kCapacity b.
Proof.
  intros Hb Hroom. pose proof (count_bound kCapacity index_bits Hcap b).
  unfold contents, set_slot, count. simpl. fold (count kCapacity b).
  rewrite (write_slot kCapacity index_bits Hcap b Hb). apply ring_insert.
  destruct Hb as [-> _ _]. lia.
Qed.

Lemma publish_slot (b : RingBuffer T) item :
  wf kCapacity b → count kCapacity b < kCapacity →
  nth (Z.to_nat (write_index_ b)) (buffer_ b) default = item →
  contents default kCapacity (set_write (increment (write_index_ b)) b) =
    contents default kCapacity b ++ [item].
Proof.
  intros Hb Hroom Hslot. rewrite <- (contents_write default kCapacity index_bits Hcap) by done.
  f_equal. unfold set_write. f_equal. symmetry. apply list_insert_id.
  destruct (nth_lookup_or_length (buffer_ b) (Z.to_nat (write_index_ b)) default) as [->|Hlen];
    [by rewrite Hslot|]. destruct Hb as [Hl Hw _]. lia.
Qed.

Lemma step_inv s s' : inv s → step s s' → inv s'.
Proof.
  intros [Hb Hcon Hp Hc] Hstep. pose proof (count_bound kCapacity index_bits Hcap (rb s)) as Hbound.
  destruct Hstep as [s E Hfull|s item E Hfull|s item E|s item E|s E Hempty|s E Hempty|s E|s item E];
    rewrite ?E in *.
  - by split; rewrite ?E.
  - rewrite (isFull_count kCapacity index_bits Hcap) in Hfull by done. apply Z.eqb_neq in Hfull.
    split; simpl; try done. lia.
  - assert (Hwf : wf kCapacity (set_slot (write_index_ (rb s)) item (rb s)))
      by (destruct Hb; split; simpl; [by rewrite length_insert|done|done]).
    split; simpl; try done.
    + by rewrite contents_slot.
    + split; [done|]. rewrite nth_lookup, list_lookup_insert_eq; [done|].
      destruct Hb as [-> Hw _]. lia.
    + pose proof (slots_differ _ Hb) as Hne. destruct (consumer s) as [| |item']; try done.
      destruct Hc as [Hpos Hslot]. specialize (Hne Hpos).
      split; [done|]. rewrite nth_lookup, list_lookup_insert_ne, <- nth_lookup; [done|].
      destruct Hb as [_ Hw Hr]. lia.
  - destruct Hp as [Hroom Hslot].
    assert (Hcount : count kCapacity (set_write (increment (write_index_ (rb s))) (rb s)) =
      count kCapacity (rb s) + 1) by by apply count_write.
    split; simpl; try done.
    + destruct Hb. split; simpl; try done. by apply increment_range.
    + rewrite (publish_slot _ item), app_assoc, <- Hcon by done. done.
    + rewrite Hcount. destruct (consumer s); [done|lia|]. split; [lia|apply Hc].
  - by split; rewrite ?E.
  - rewrite (isEmpty_count kCapacity index_bits Hcap) in Hempty by done. apply Z.eqb_neq in Hempty.
    split; simpl; try done. lia.
  - by split.
  - destruct Hc as [Hpos Hslot].
    assert (Hcount : count kCapacity (set_read (increment (read_index_ (rb s))) (rb s)) =
      count kCapacity (rb s) - 1) by by apply count_read.
    split; simpl; try done.
    + destruct Hb. split; simpl; try done. by apply increment_range.
    + rewrite Hcon, (contents_read default kCapacity index_bits Hcap (rb s)) by done.
      rewrite Hslot, <- app_assoc. done.
    + rewrite Hcount. destruct (producer s); [done|lia|]. split; [lia|apply Hp].
Qed.

Lemma start_inv : inv start.
Proof. split; simpl; try done. apply (empty_wf default kCapacity index_bits Hcap). Qed.

Lemma reachable_inv s : rtc step start s → inv s.
Proof.
  revert s. apply (rtc_ind_r (R := step) inv start); [apply start_inv|].
  intros s1 s2 _ Hstep Hinv. by eapply step_inv.
Qed.

(** C35: However a producer's [enqueue] and a consumer's [dequeue] interleave
    access by access, the consumer gets exactly the elements the producer got
    accepted, in order and each once: what it has taken is a prefix of what was
    sent, at most the capacity is outstanding, the read slot is never the one
    being written, and a dequeue in flight returns the next element. *)
Theorem spsc_fifo s (Hreach : rtc step start s) :
  taken s `prefix_of` sent s ∧
  (length (sent s) - length (taken s) ≤ Z.to_nat kCapacity)%nat ∧
  (∀ item, consumer s = CRead item → sent s !! length (taken s) = Some item) ∧
  (∀ written, producer s = PWritten written ∨ producer s = PChecked written →
     consumer s ≠ CIdle → write_index_ (rb s) ≠ read_index_ (rb s)).
Proof.
  destruct (reachable_inv s Hreach) as [Hb Hcon Hp Hc].
  pose proof (count_bound kCapacity index_bits Hcap (rb s)) as Hbound. split_and?.
  - rewrite Hcon. by apply prefix_app_r.
  - rewrite Hcon, length_app. unfold contents. rewrite ring_length. lia.
  - intros item E. rewrite E in Hc. destruct Hc as [Hpos Hslot].
    rewrite Hcon, (contents_read default kCapacity index_bits Hcap (rb s)) by done.
    rewrite list_lookup_middle by done. by rewrite Hslot.
  - intros written _ Hbusy. apply slots_differ; [done|].
    destruct (consumer s); [done|done|apply Hc].
Qed.
End spsc.

(** Two elements through a buffer of capacity 1: the second check fails until the
    consumer has published. *)
Lemma spsc_fifo_witness :
  ∃ s : Shared (T:=Z), rtc (step 0 1 8) (start 0 1) s ∧ consumer s = CRead 7 ∧
  (taken s `prefix_of` sent s ∧
   (length (sent s) - length (taken s) ≤ Z.to_nat 1)%nat ∧
   (∀ item, consumer s = CRead item → sent s !! length (taken s) = Some item) ∧
   (∀ written, producer s = PWritten written ∨ producer s = PChecked written →
      consumer s ≠ CIdle → write_index_ (rb s) ≠ read_index_ (rb s))).
Proof.
  pose (s := {| rb := {| buffer_ := [7; 0]; write_index_ := 1; read_index_ := 0 |};
                producer := PIdle; consumer := CRead 7; sent := [7]; taken := [] |}).
  assert (Hs : rtc (step 0 1 8) (start 0 1) s).
  { eapply rtc_l; [by apply (enqueue_check _ _ _ _ 7)|].
    eapply rtc_l; [by eapply enqueue_write|].
    eapply rtc_l; [by eapply enqueue_publish|].
    eapply rtc_l; [by apply enqueue_full|].
    eapply rtc_l; [by eapply dequeue_check|].
    eapply rtc_once. by apply dequeue_read. }
  exists s. split; [done|]. split; [done|]. apply (spsc_fifo 0 1 8 ltac:(lia) s Hs).
Defined.
End Spsc.
