(* ===== verification/Packet.v ===== *)
(** * Packets ([core/packet.h], [core/packet.cpp])

    Addresses, the packed six-byte [Header] with its control byte, and
    [PacketBuffer]: the fixed-capacity buffer whose payload storage follows
    the prefix.  The storage is part of the record, so what an operation leaves
    behind in the unused part of a buffer is visible. *)

From S2P Require Import Prelude.
Local Open Scope Z_scope.

(** ** Addresses *)

Definition kBroadcastHostValue : Z := 0xFF.

Record HostId := mkHostId { host_value : Z }.
Record WireNumber := mkWireNumber { wire_value : Z }.
Record EndpointAddress := mkEndpointAddress { endpoint_value : Z }.

#[export] Instance HostId_eq_dec : EqDecision HostId.
Proof. solve_decision. Defined.
#[export] Instance WireNumber_eq_dec : EqDecision WireNumber.
Proof. solve_decision. Defined.
#[export] Instance EndpointAddress_eq_dec : EqDecision EndpointAddress.
Proof. solve_decision. Defined.

Definition isBroadcast (h : HostId) : bool := host_value h =? kBroadcastHostValue.

Inductive Namespace := kUser0 | kUser1 | kUser2 | kCommon.

Definition namespace_value (n : Namespace) : Z :=
  match n with kUser0 => 0 | kUser1 => 1 | kUser2 => 2 | kCommon => 3 end.

(** [static_cast<Namespace>(v)] of a two-bit value. *)
Definition namespace_cast (v : Z) : Namespace :=
  if v =? 0 then kUser0 else if v =? 1 then kUser1 else if v =? 2 then kUser2 else kCommon.

Definition kNamespaceMask : Z := 0xC000.
Definition kNamespaceShift : Z := 14.
Definition kEndpointIdMask : Z := 0x3FFF.

Definition endpoint_from (namespace_id : Namespace) (endpoint_id : Z) : EndpointAddress :=
  mkEndpointAddress
    (u16 (Z.lor (Z.shiftl (namespace_value namespace_id) kNamespaceShift)
                (Z.land endpoint_id kEndpointIdMask))).

Definition namespaceId (e : EndpointAddress) : Namespace :=
  namespace_cast (Z.shiftr (Z.land (endpoint_value e) kNamespaceMask) kNamespaceShift).

Definition endpointId (e : EndpointAddress) : Z :=
  Z.land (endpoint_value e) kEndpointIdMask.

(** ** The control byte *)

Inductive QoS := kCritical | kHigh | kNormal | kBackground.

Definition qos_value (q : QoS) : Z :=
  match q with kCritical => 0 | kHigh => 1 | kNormal => 2 | kBackground => 3 end.
Definition qos_cast (v : Z) : QoS :=
  if v =? 0 then kCritical else if v =? 1 then kHigh else if v =? 2 then kNormal
  else kBackground.

(** [TransportType] stays a number: the three bits of the control byte can hold
    values that are no enumerator. *)
Definition TransportType := Z.
Definition kSimple : TransportType := 0.
Definition kBits : TransportType := 1.
Definition kNumTransportTypes : TransportType := 2.

Record ControlFields := {
  cf_qos : QoS;
  cf_has_extensions : bool;
  cf_transport_type : TransportType;
}.

Definition cf_simple (q : QoS) : ControlFields :=
  {| cf_qos := q; cf_has_extensions := false; cf_transport_type := kSimple |}.
Definition cf_bits (q : QoS) : ControlFields :=
  {| cf_qos := q; cf_has_extensions := false; cf_transport_type := kBits |}.
Definition defaultControlFields : ControlFields := cf_simple kNormal.

Record ConnectionAddress := {
  conn_wire : WireNumber;
  conn_local_host : HostId;
  conn_remote_host : HostId;
  conn_endpoint : EndpointAddress;
}.

Record Header := {
  control : Z;
  wire : WireNumber;
  source : HostId;
  destination : HostId;
  endpoint : EndpointAddress;
}.

Definition kQoSMask : Z := 0xC0.
Definition kQoSShift : Z := 6.
Definition kHasExtensionsMask : Z := 0x08.
Definition kTransportTypeMask : Z := 0x07.
Definition sizeof_Header : nat := 6.

Definition set_control (c : Z) (h : Header) : Header :=
  {| control := c; wire := wire h; source := source h;
     destination := destination h; endpoint := endpoint h |}.

Definition hasSupportedControl (h : Header) : bool :=
  Z.land (control h) 0x3F <? kNumTransportTypes.

Definition qos (h : Header) : QoS :=
  qos_cast (Z.shiftr (Z.land (control h) kQoSMask) kQoSShift).

Definition hasExtensions (h : Header) : bool :=
  negb (Z.land (control h) kHasExtensionsMask =? 0).

Definition transportType (h : Header) : TransportType :=
  Z.land (control h) kTransportTypeMask.

Definition setQoS (q : QoS) (h : Header) : Header :=
  set_control (u8 (Z.lor (Z.land (control h) (u8 (Z.lnot kQoSMask)))
                         (Z.shiftl (qos_value q) kQoSShift))) h.

Definition setHasExtensions (has_extensions : bool) (h : Header) : Header :=
  if has_extensions
  then set_control (u8 (Z.lor (control h) kHasExtensionsMask)) h
  else set_control (u8 (Z.land (control h) (u8 (Z.lnot kHasExtensionsMask)))) h.

Definition setTransportType (t : TransportType) (h : Header) : Header :=
  set_control (u8 (Z.lor (Z.land (control h) (u8 (Z.lnot kTransportTypeMask))) (u8 t))) h.

Definition setControlFields (f : ControlFields) (h : Header) : Header :=
  setTransportType (cf_transport_type f)
    (setHasExtensions (cf_has_extensions f) (setQoS (cf_qos f) h)).

(** The packed layout: the object representation of a [Header], on the
    little-endian targets the headers are copied on with [memcpy]. *)
Definition header_bytes (h : Header) : bytes :=
  [control h; wire_value (wire h); host_value (source h); host_value (destination h);
   u8 (endpoint_value (endpoint h)); u8 (Z.shiftr (endpoint_value (endpoint h)) 8)].

Definition header_of_bytes (bs : bytes) : Header :=
  {| control := byte_at bs 0; wire := mkWireNumber (byte_at bs 1);
     source := mkHostId (byte_at bs 2); destination := mkHostId (byte_at bs 3);
     endpoint := mkEndpointAddress
       (u16 (Z.lor (u16 (byte_at bs 4)) (u16 (Z.shiftl (u16 (byte_at bs 5)) 8)))) |}.

(** ** Packet buffers *)

Record PacketBuffer := {
  capacity : Z;
  size : Z;
  ingressIndex : Z;
  header : Header;
  payload_storage : bytes;
}.

(** Assignments to the members. *)
Definition set_size (n : Z) (p : PacketBuffer) : PacketBuffer :=
  {| capacity := capacity p; size := n; ingressIndex := ingressIndex p;
     header := header p; payload_storage := payload_storage p |}.
Definition setIngressIndex (i : Z) (p : PacketBuffer) : PacketBuffer :=
  {| capacity := capacity p; size := size p; ingressIndex := i;
     header := header p; payload_storage := payload_storage p |}.
Definition set_header (h : Header) (p : PacketBuffer) : PacketBuffer :=
  {| capacity := capacity p; size := size p; ingressIndex := ingressIndex p;
     header := h; payload_storage := payload_storage p |}.
Definition set_storage (bs : bytes) (p : PacketBuffer) : PacketBuffer :=
  {| capacity := capacity p; size := size p; ingressIndex := ingressIndex p;
     header := header p; payload_storage := bs |}.

Definition empty_header : Header :=
  {| control := 0; wire := mkWireNumber 0; source := mkHostId 0;
     destination := mkHostId 0; endpoint := mkEndpointAddress 0 |}.

(** [WS_PACKET_BUFFER_DEFINE(name, payload_capacity)], default constructed. *)
Definition new_packet (payload_capacity : Z) : PacketBuffer :=
  {| capacity := payload_capacity; size := 0; ingressIndex := 0;
     header := empty_header;
     payload_storage := replicate (Z.to_nat payload_capacity) 0 |}.

Definition totalSize (p : PacketBuffer) : Z := u16 (size p + Z.of_nat sizeof_Header).

Definition payload (p : PacketBuffer) : bytes := take (Z.to_nat (size p)) (payload_storage p).

(** [memcpy(payload().data() + off, input, ...)]. *)
Definition write_payload (off : nat) (input : bytes) (p : PacketBuffer) : PacketBuffer :=
  set_storage (memcpy_at off input (payload_storage p)) p.

Definition headerAndPayload (p : PacketBuffer) : bytes :=
  take (Z.to_nat (totalSize p)) (header_bytes (header p) ++ payload_storage p).

Definition resize (new_size : Z) (p : PacketBuffer) : bool * PacketBuffer :=
  if capacity p <? new_size then (false, p) else (true, set_size new_size p).

(** [this->copyFrom(source)]; [same_object] is [this == &source]. *)
Definition copyFrom (same_object : bool) (source this : PacketBuffer)
    : bool * PacketBuffer :=
  if capacity this <? size source then (false, this)
  else if same_object then (true, this)
  else
    let this := set_header (header source) this in
    let this := set_size (size source) this in
    let this := setIngressIndex (ingressIndex source) this in
    if 0 <? size this then (true, write_payload 0 (payload source) this)
    else (true, this).

Definition initialize (new_size : Z) (f : ControlFields) (p : PacketBuffer)
    : bool * PacketBuffer :=
  let '(ok, p) := resize new_size p in
  if negb ok then (false, p)
  else (true, setIngressIndex 0 (set_header (setControlFields f (header p)) p)).

Definition initializeConnection (new_size : Z) (c : ConnectionAddress) (f : ControlFields)
    (p : PacketBuffer) : bool * PacketBuffer :=
  let '(ok, p) := initialize new_size f p in
  if negb ok then (false, p)
  else
    (true, set_header
       {| control := control (header p); wire := conn_wire c; source := conn_local_host c;
          destination := conn_remote_host c; endpoint := conn_endpoint c |} p).

Definition initializeResponseTo (request : Header) (new_size : Z) (f : ControlFields)
    (p : PacketBuffer) : bool * PacketBuffer :=
  let '(ok, p) := initialize new_size f p in
  if negb ok then (false, p)
  else
    (true, set_header
       {| control := control (header p); wire := wire request;
          source := destination request; destination := source request;
          endpoint := endpoint request |} p).

(** ** Well-formedness *)

Record header_wf (h : Header) : Prop := {
  hwf_control : is_u8 (control h);
  hwf_wire : is_u8 (wire_value (wire h));
  hwf_source : is_u8 (host_value (source h));
  hwf_destination : is_u8 (host_value (destination h));
  hwf_endpoint : is_u16 (endpoint_value (endpoint h));
}.

(** The object invariant of a packet: the members are in range and the payload
    storage has exactly [capacity] bytes. *)
Record packet_wf (p : PacketBuffer) : Prop := {
  pwf_capacity : is_u16 (capacity p);
  pwf_size : 0 ≤ size p ≤ capacity p;
  pwf_ingress : is_u8 (ingressIndex p);
  pwf_header : header_wf (header p);
  pwf_storage : length (payload_storage p) = Z.to_nat (capacity p);
  pwf_bytes : is_bytes (payload_storage p);
}.

#[export] Instance QoS_eq_dec : EqDecision QoS.
Proof. solve_decision. Defined.
#[export] Instance Namespace_eq_dec : EqDecision Namespace.
Proof. solve_decision. Defined.

(** ** Control-byte lemmas, by evaluation over the 256 control bytes *)

Lemma control_supported h :
  header_wf h →
  hasSupportedControl h = true ↔
    (transportType h = kSimple ∨ transportType h = kBits) ∧
    hasExtensions h = false ∧ Z.land (control h) 0x30 = 0.
Proof.
  intros [Hc _ _ _ _]. unfold hasSupportedControl, transportType, hasExtensions.
  pose proof (u8_forall (λ c, Bool.eqb (Z.land c 0x3F <? kNumTransportTypes)
    (((Z.land c kTransportTypeMask =? kSimple) || (Z.land c kTransportTypeMask =? kBits))
     && negb (negb (Z.land c kHasExtensionsMask =? 0)) && (Z.land c 0x30 =? 0)))
    eq_refl _ Hc) as H.
  apply eqb_prop in H. rewrite H.
  rewrite !andb_true_iff, orb_true_iff, !Z.eqb_eq, negb_true_iff. tauto.
Qed.

(** What [setControlFields] stores, on the control byte alone. *)
Definition control_with (c : Z) (f : ControlFields) : Z :=
  control (setControlFields f (set_control c empty_header)).

Lemma setControlFields_control f h :
  setControlFields f h = set_control (control_with (control h) f) h.
Proof. unfold control_with, setControlFields, setHasExtensions. by destruct (cf_has_extensions f). Qed.

Definition control_fields_check (q : QoS) (e : bool) (t c : Z) : bool :=
  let c' := control_with c {| cf_qos := q; cf_has_extensions := e; cf_transport_type := t |} in
  let h' := set_control c' empty_header in
  bool_decide (is_u8 c') && bool_decide (qos h' = q) && Bool.eqb (hasExtensions h') e
  && (transportType h' =? t) && (Z.land c' 0x30 =? Z.land c 0x30).

Lemma control_fields_spec q e t c :
  0 ≤ t < 8 → is_u8 c → control_fields_check q e t c = true.
Proof.
  intros Ht Hc. revert c Hc. apply u8_forall.
  assert (H : forallb (λ t, forallb (control_fields_check q e t) (seqZ 0 256)) (seqZ 0 8)
    = true) by (destruct q, e; vm_compute; reflexivity).
  rewrite forallb_forall in H. apply H, list_elem_of_In, elem_of_seqZ. lia.
Qed.

Lemma setControlFields_wf f h :
  0 ≤ cf_transport_type f < 8 → header_wf h → header_wf (setControlFields f h).
Proof.
  intros Ht [Hc ? ? ? ?]. rewrite setControlFields_control.
  destruct f as [q e t]. pose proof (control_fields_spec q e t _ Ht Hc) as H.
  unfold control_fields_check in H. rewrite !andb_true_iff in H.
  destruct H as [[[[H%bool_decide_eq_true _] _] _] _]. by split.
Qed.

(** ** Endpoint-address lemmas *)

Lemma namespace_cast_value n : namespace_cast (namespace_value n) = n.
Proof. by destruct n. Qed.

Lemma namespace_value_cast v : 0 ≤ v < 4 → namespace_value (namespace_cast v) = v.
Proof.
  intros Hv. unfold namespace_cast.
  destruct (Z.eqb_spec v 0), (Z.eqb_spec v 1), (Z.eqb_spec v 2); simpl; lia.
Qed.

Lemma endpointId_value e : endpointId e = endpoint_value e mod 16384.
Proof. unfold endpointId. by rewrite <- (Z.land_ones _ 14). Qed.

Lemma namespaceId_value e :
  namespaceId e = namespace_cast ((endpoint_value e / 16384) mod 4).
Proof.
  unfold namespaceId. rewrite Z.shiftr_land.
  change (Z.shiftr kNamespaceMask kNamespaceShift) with (Z.ones 2).
  by rewrite Z.land_ones, Z.shiftr_div_pow2.
Qed.

Lemma endpoint_from_value n id :
  endpoint_value (endpoint_from n id) = namespace_value n * 16384 + id mod 16384.
Proof.
  unfold endpoint_from. simpl. rewrite Z.lor_comm.
  change kEndpointIdMask with (Z.ones 14). rewrite Z.land_ones by done.
  change kNamespaceShift with 14. rewrite lor_shiftl_add by (try apply Z.mod_pos_bound; done).
  change (2 ^ 14) with 16384. assert (0 ≤ namespace_value n < 4) by by destruct n.
  word_lia.
Qed.

Lemma endpoint_eq (e e' : EndpointAddress) : endpoint_value e = endpoint_value e' → e = e'.
Proof. destruct e, e'. simpl. congruence. Qed.

(** ** Header layout lemmas *)

Lemma header_bytes_length h : length (header_bytes h) = sizeof_Header.
Proof. done. Qed.

Lemma header_bytes_bytes h : header_wf h → is_bytes (header_bytes h).
Proof. intros []. unfold header_bytes. solve_bytes. Qed.

Lemma header_roundtrip h rest :
  header_wf h → header_of_bytes (header_bytes h ++ rest) = h.
Proof.
  intros [_ _ _ _ He]. unfold header_of_bytes, byte_at. simpl.
  rewrite le16_join, le16_split by auto with word.
  by destruct h as [? [] [] [] []].
Qed.

Lemma header_of_bytes_wf bs : is_bytes bs → header_wf (header_of_bytes bs).
Proof.
  intros Hbs. assert (Hat : ∀ i, is_u8 (byte_at bs i)).
  { intros i. unfold byte_at. rewrite nth_lookup.
    destruct (bs !! i) as [b|] eqn:E; [by eapply Forall_lookup_1|by split]. }
  split; simpl; auto with word.
Qed.

(** ** Packet lemmas *)

Lemma length_payload p : packet_wf p → length (payload p) = Z.to_nat (size p).
Proof. intros []. unfold payload. rewrite length_take. lia. Qed.

Lemma payload_bytes p : packet_wf p → is_bytes (payload p).
Proof. intros []. by apply Forall_take. Qed.

Lemma write_payload_wf off input p :
  packet_wf p → is_bytes input → packet_wf (write_payload off input p).
Proof.
  intros [] Hin. split; simpl; try done.
  - by rewrite memcpy_at_length.
  - by apply memcpy_at_bytes.
Qed.

Lemma payload_write off input p :
  packet_wf p → (off + length input ≤ Z.to_nat (size p))%nat →
  payload (write_payload off input p) = memcpy_at off input (payload p).
Proof. intros [] Hlen. unfold payload. simpl. apply memcpy_at_take; lia. Qed.

Lemma resize_wf n p :
  packet_wf p → 0 ≤ n → packet_wf (resize n p).2 ∧
    (resize n p).1 = bool_decide (n ≤ capacity p).
Proof.
  intros [] Hn. unfold resize. destruct (Z.ltb_spec (capacity p) n).
  - rewrite bool_decide_eq_false_2 by lia. by split.
  - rewrite bool_decide_eq_true_2 by lia. split; [|done]. split; simpl; done || lia.
Qed.

Lemma new_packet_wf n : is_u16 n → packet_wf (new_packet n).
Proof.
  intros Hn. split; simpl; [done|unfold is_u16 in Hn; lia|by split|by repeat split|..].
  - by rewrite length_replicate.
  - apply Forall_replicate. by split.
Qed.

Lemma initialize_wf n f p :
  packet_wf p → 0 ≤ n → 0 ≤ cf_transport_type f < 8 →
  packet_wf (initialize n f p).2.
Proof.
  intros Hp Hn Ht. pose proof (resize_wf n p Hp Hn) as [Hwf _]. unfold initialize.
  destruct (resize n p) as [[] p']; [|done]. simpl in *. destruct Hwf.
  split; simpl; try done. by apply setControlFields_wf.
Qed.

(** The addresses of a connection are in range. *)
Record connection_wf (c : ConnectionAddress) : Prop := {
  cwf_wire : is_u8 (wire_value (conn_wire c));
  cwf_local : is_u8 (host_value (conn_local_host c));
  cwf_remote : is_u8 (host_value (conn_remote_host c));
  cwf_endpoint : is_u16 (endpoint_value (conn_endpoint c));
}.

(** A packet buffer with the same storage, possibly other contents. *)
Definition same_room (packet packet' : PacketBuffer) : Prop :=
  packet_wf packet' ∧ capacity packet' = capacity packet.

Lemma same_room_trans p1 p2 p3 : same_room p1 p2 → same_room p2 p3 → same_room p1 p3.
Proof. intros [? E] [? E']. split; [done|]. by rewrite E'. Qed.

Lemma initializeConnection_room n c q p :
  connection_wf c → packet_wf p → 0 ≤ n →
  (initializeConnection n c (cf_bits q) p).1 = (n <=? capacity p) ∧
  same_room p (initializeConnection n c (cf_bits q) p).2 ∧
  (n ≤ capacity p → size (initializeConnection n c (cf_bits q) p).2 = n).
Proof.
  intros [] Hp Hn. pose proof (initialize_wf n (cf_bits q) p Hp Hn ltac:(done)) as Hwf.
  unfold initializeConnection, initialize, resize in *. rewrite Z.leb_antisym.
  destruct (Z.ltb_spec (capacity p) n); simpl in *; [split_and!; done || lia|].
  split_and!; try done. destruct Hwf as [? ? ? [] ? ?]. by split; [split|].
Qed.

Lemma initializeConnection_addressed n c f p :
  n ≤ capacity p →
  let packet := (initializeConnection n c f p).2 in
  wire (header packet) = conn_wire c ∧ ingressIndex packet = 0.
Proof.
  intros Hn. unfold initializeConnection, initialize, resize.
  by rewrite (proj2 (Z.ltb_ge _ _) Hn).
Qed.

Lemma copy_payload source this :
  packet_wf source → packet_wf this → size source ≤ capacity this →
  let this' := set_size (size source) this in
  payload (write_payload 0 (payload source) this') = payload source.
Proof.
  intros Hs Ht Hle. simpl.
  assert (packet_wf (set_size (size source) this)) by (destruct Hs, Ht; split; simpl; done || lia).
  rewrite payload_write by (done || (rewrite length_payload by done; simpl; lia)).
  rewrite memcpy_at_app by (rewrite !length_payload by done; simpl; lia).
  rewrite drop_ge by (rewrite !length_payload by done; simpl; lia).
  by rewrite take_0, app_nil_r.
Qed.

(** ** Properties *)

(** The control byte is a faithful store for its three fields: after
    [setControlFields] each accessor returns what was set, the reserved bits
    are untouched and the address fields too. *)
Theorem control_fields_roundtrip (f : ControlFields) (h : Header) :
  0 ≤ cf_transport_type f < 8 → header_wf h →
  let h' := setControlFields f h in
  qos h' = cf_qos f ∧ hasExtensions h' = cf_has_extensions f ∧
  transportType h' = cf_transport_type f ∧
  Z.land (control h') 0x30 = Z.land (control h) 0x30 ∧
  h' = set_control (control h') h ∧ header_wf h'.
Proof.
  intros Ht Hwf. pose proof (setControlFields_wf f h Ht Hwf) as Hwf'. destruct Hwf as [Hc _ _ _ _].
  rewrite setControlFields_control in *. destruct f as [q e t].
  pose proof (control_fields_spec q e t _ Ht Hc) as H. unfold control_fields_check in H.
  rewrite !andb_true_iff, !bool_decide_eq_true, eqb_true_iff, !Z.eqb_eq in H.
  by destruct H as [[[[_ ?] ?] ?] ?].
Qed.

Lemma control_fields_roundtrip_witness :
  let h' := setControlFields (cf_bits kBackground) (set_control 0xFF empty_header) in
  qos h' = kBackground ∧ hasExtensions h' = false ∧ transportType h' = kBits ∧
  Z.land (control h') 0x30 = 0x30 ∧
  h' = set_control (control h') (set_control 0xFF empty_header) ∧ header_wf h'.
Proof.
  apply (control_fields_roundtrip (cf_bits kBackground) (set_control 0xFF empty_header)).
  - split; reflexivity || discriminate.
  - repeat split; discriminate.
Defined.

(** An endpoint address is exactly its namespace and its 14-bit endpoint
    id: packing and unpacking are inverse in both directions. *)
Theorem endpoint_address_roundtrip (n : Namespace) (id : Z) (e : EndpointAddress) :
  is_u16 id → is_u16 (endpoint_value e) →
  namespaceId (endpoint_from n id) = n ∧
  endpointId (endpoint_from n id) = id mod 2 ^ 14 ∧
  endpoint_from (namespaceId e) (endpointId e) = e.
Proof.
  intros Hid He. assert (0 ≤ namespace_value n < 4) by by destruct n.
  rewrite namespaceId_value, endpointId_value, endpoint_from_value.
  change (2 ^ 14) with 16384. split_and!.
  - rewrite <- (namespace_cast_value n) at 2. f_equal. word_lia.
  - word_lia.
  - apply endpoint_eq. rewrite endpoint_from_value, namespaceId_value, endpointId_value.
    rewrite namespace_value_cast by word_lia. word_lia.
Qed.

Lemma endpoint_address_roundtrip_witness :
  namespaceId (endpoint_from kCommon 0x3FFD) = kCommon ∧
  endpointId (endpoint_from kCommon 0x3FFD) = 0x3FFD mod 2 ^ 14 ∧
  endpoint_from (namespaceId (mkEndpointAddress 0x8001))
    (endpointId (mkEndpointAddress 0x8001)) = mkEndpointAddress 0x8001.
Proof.
  apply (endpoint_address_roundtrip kCommon 0x3FFD (mkEndpointAddress 0x8001));
    by_evaluation.
Defined.

(** The effect of copying a distinct packet. *)
Lemma copyFrom_effect (source this : PacketBuffer) :
  packet_wf source → packet_wf this →
  let '(ok, this') := copyFrom false source this in
  packet_wf this' ∧
  (if ok then
     size source ≤ capacity this ∧ header this' = header source ∧
     ingressIndex this' = ingressIndex source ∧ size this' = size source ∧
     payload this' = payload source ∧ capacity this' = capacity this ∧
     drop (Z.to_nat (size source)) (payload_storage this') =
       drop (Z.to_nat (size source)) (payload_storage this)
   else capacity this < size source ∧ this' = this).
Proof.
  intros Hs Ht. unfold copyFrom.
  destruct (Z.ltb_spec (capacity this) (size source)) as [|Hle]; [done|].
  pose proof (copy_payload source this Hs Ht Hle) as Hcopy.
  assert (Hwf : packet_wf (setIngressIndex (ingressIndex source)
    (set_size (size source) (set_header (header source) this))))
    by (destruct Hs, Ht; split; simpl; done || lia).
  cbv zeta. simpl size. destruct (Z.ltb_spec 0 (size source)).
  - split; [apply write_payload_wf; auto using payload_bytes|]. split_and!; try done.
    simpl. rewrite memcpy_at_app by (rewrite length_payload by done; destruct Hs, Ht; simpl; lia).
    rewrite length_payload by done. rewrite take_0. simpl.
    by rewrite drop_app_length' by by rewrite length_payload.
  - split; [done|]. assert (size source = 0) as E by (destruct Hs; lia).
    split_and!; try done. unfold payload. simpl. by rewrite E.
Qed.

(** [copyFrom] succeeds exactly when the source's payload fits; then the
    destination holds the source's header, ingress tag, size and payload, keeps
    its capacity and the bytes beyond the payload; otherwise it is unchanged. *)
Theorem copyFrom_spec (same_object : bool) (source this : PacketBuffer) :
  packet_wf source → packet_wf this → (same_object = true → source = this) →
  let '(ok, this') := copyFrom same_object source this in
  packet_wf this' ∧
  (if ok then
     size source ≤ capacity this ∧ header this' = header source ∧
     ingressIndex this' = ingressIndex source ∧ size this' = size source ∧
     payload this' = payload source ∧ capacity this' = capacity this ∧
     drop (Z.to_nat (size source)) (payload_storage this') =
       drop (Z.to_nat (size source)) (payload_storage this)
   else capacity this < size source ∧ this' = this).
Proof.
  intros Hs Ht Hsame. destruct same_object; [|by apply copyFrom_effect].
  destruct (Hsame eq_refl). unfold copyFrom.
  destruct (Z.ltb_spec (capacity source) (size source)); [done|]. by split_and!.
Qed.

Lemma copyFrom_spec_witness :
  let p := write_payload 0 [7; 8] (set_size 2 (new_packet 4)) in
  let '(ok, this') := copyFrom false p (new_packet 3) in
  packet_wf this' ∧
  (if ok then
     size p ≤ 3 ∧ header this' = header p ∧
     ingressIndex this' = ingressIndex p ∧ size this' = size p ∧
     payload this' = payload p ∧ capacity this' = 3 ∧
     drop (Z.to_nat (size p)) (payload_storage this') =
       drop (Z.to_nat (size p)) (payload_storage (new_packet 3))
   else 3 < size p ∧ this' = new_packet 3).
Proof.
  apply (copyFrom_spec false (write_payload 0 [7; 8] (set_size 2 (new_packet 4)))
    (new_packet 3)).
  - repeat split; by_evaluation.
  - repeat split; by_evaluation.
  - discriminate.
Defined.

(** [initialize] with a connection address and [initializeResponseTo] either
    fail on too small a buffer and change nothing, or produce a packet of the
    requested size, of local origin, with the control fields set and every
    address field taken from the connection (respectively from the request,
    with source and destination exchanged), payload bytes and capacity kept. *)
Theorem initialize_addressed_spec (n : Z) (c : ConnectionAddress) (request : Header)
    (f : ControlFields) (p : PacketBuffer) :
  let finish w s d e :=
    (true, {| capacity := capacity p; size := n; ingressIndex := 0;
              header := {| control := control (setControlFields f (header p)); wire := w;
                           source := s; destination := d; endpoint := e |};
              payload_storage := payload_storage p |}) in
  initializeConnection n c f p =
    (if capacity p <? n then (false, p)
     else finish (conn_wire c) (conn_local_host c) (conn_remote_host c) (conn_endpoint c)) ∧
  initializeResponseTo request n f p =
    (if capacity p <? n then (false, p)
     else finish (wire request) (destination request) (source request) (endpoint request)).
Proof.
  unfold initializeConnection, initializeResponseTo, initialize, resize.
  by destruct (capacity p <? n).
Qed.

(** *** The calls of a packet's methods, and the packets they reach *)

Inductive PacketCall :=
  | Resize (new_size : Z)
  | CopyFrom (source : PacketBuffer)
  | CopyFromItself
  | Initialize (new_size : Z) (f : ControlFields)
  | InitializeConnection (new_size : Z) (c : ConnectionAddress) (f : ControlFields)
  | InitializeResponse (request : Header) (new_size : Z) (f : ControlFields)
  | SetIngress (i : Z)
  | WritePayload (off : nat) (input : bytes).

Definition packet_call (c : PacketCall) (p : PacketBuffer) : bool * PacketBuffer :=
  match c with
  | Resize n => resize n p
  | CopyFrom source => copyFrom false source p
  | CopyFromItself => copyFrom true p p
  | Initialize n f => initialize n f p
  | InitializeConnection n c f => initializeConnection n c f p
  | InitializeResponse request n f => initializeResponseTo request n f p
  | SetIngress i => (true, setIngressIndex i p)
  | WritePayload off input => (true, write_payload off input p)
  end.

(** Arguments within their C++ types; a write within the payload's span. *)
Definition packet_call_ok (c : PacketCall) (p : PacketBuffer) : Prop :=
  match c with
  | Resize n => is_u16 n
  | CopyFrom source => packet_wf source
  | CopyFromItself => True
  | Initialize n f => is_u16 n ∧ 0 ≤ cf_transport_type f < 8
  | InitializeConnection n c f => is_u16 n ∧ 0 ≤ cf_transport_type f < 8 ∧ connection_wf c
  | InitializeResponse request n f => is_u16 n ∧ 0 ≤ cf_transport_type f < 8 ∧ header_wf request
  | SetIngress i => is_u8 i
  | WritePayload off input => is_bytes input ∧ (off + length input ≤ length (payload p))%nat
  end.

Inductive packet_reachable (n : Z) : PacketBuffer → Prop :=
  | reachable_new : packet_reachable n (new_packet n)
  | reachable_call c p :
      packet_reachable n p → packet_call_ok c p → packet_reachable n (packet_call c p).2.

Lemma initialize_outcome n f p :
  initialize n f p =
    if capacity p <? n then (false, p)
    else (true, setIngressIndex 0 (set_header (setControlFields f (header p)) (set_size n p))).
Proof. unfold initialize, resize. by destruct (capacity p <? n). Qed.

Lemma packet_call_wf c p :
  packet_wf p → packet_call_ok c p →
  same_room p (packet_call c p).2 ∧ ((packet_call c p).1 = false → (packet_call c p).2 = p).
Proof.
  intros Hp Hc. destruct c; cbn [packet_call packet_call_ok] in *.
  - pose proof (resize_wf new_size p Hp ltac:(apply Hc)) as [Hwf _]. unfold resize in *.
    by destruct (capacity p <? new_size).
  - pose proof (copyFrom_effect source0 p Hc Hp) as H. destruct (copyFrom false source0 p) as [[] p'].
    + by destruct H as (? & ? & ? & ? & ? & ? & ? & ?).
    + by destruct H as (? & ? & ->).
  - unfold copyFrom. by destruct (capacity p <? size p).
  - destruct Hc as [Hn Ht]. pose proof (initialize_wf new_size f p Hp ltac:(apply Hn) Ht) as Hwf.
    rewrite initialize_outcome in *. by destruct (capacity p <? new_size).
  - destruct Hc as (Hn & Ht & []). pose proof (initialize_wf new_size f p Hp ltac:(apply Hn) Ht) as Hwf.
    unfold initializeConnection. rewrite initialize_outcome in *.
    destruct (capacity p <? new_size); [done|]. cbn [negb] in *. destruct Hwf as [? ? ? [] ? ?].
    split; [|done]. split; [|done]. split; [done..|by split|done|done].
  - destruct Hc as (Hn & Ht & []). pose proof (initialize_wf new_size f p Hp ltac:(apply Hn) Ht) as Hwf.
    unfold initializeResponseTo. rewrite initialize_outcome in *.
    destruct (capacity p <? new_size); [done|]. cbn [negb] in *. destruct Hwf as [? ? ? [] ? ?].
    split; [|done]. split; [|done]. split; [done..|by split|done|done].
  - split; [|done]. destruct Hp. by split; [split|].
  - destruct Hc. split; [|done]. split; [|done]. by apply write_payload_wf.
Qed.

(** C34: The type invariant of packet buffers: every packet reached from a new one of any
    16-bit capacity by any sequence of its methods, with arguments of their types, is
    well formed: its members are in range, its storage has exactly its capacity, which
    never changes, and its payload span has exactly its size, at most the capacity; and a
    call that fails leaves it as it was. *)
Theorem packet_type_invariant (n : Z) (p : PacketBuffer) :
  is_u16 n → packet_reachable n p →
  packet_wf p ∧ capacity p = n ∧ zlen (payload p) = size p ∧ size p ≤ n ∧
  ∀ c, packet_call_ok c p → (packet_call c p).1 = false → (packet_call c p).2 = p.
Proof.
  intros Hn Hreach. assert (H : packet_wf p ∧ capacity p = n).
  { induction Hreach as [|c p _ [Hp Hcap] Hc]; [by split; [apply new_packet_wf|]|].
    destruct (packet_call_wf c p Hp Hc) as [[Hwf Hcap'] _]. split; [done|congruence]. }
  destruct H as [Hp Hcap]. pose proof (pwf_size p Hp) as Hsize. split_and!; [done|done| |lia|].
  - unfold zlen. rewrite length_payload by done. lia.
  - intros c Hc. by apply packet_call_wf.
Qed.

Lemma packet_type_invariant_witness :
  let p := (packet_call (WritePayload 1 [7; 8]) (packet_call (Resize 3) (new_packet 4)).2).2 in
  packet_wf p ∧ capacity p = 4 ∧ zlen (payload p) = size p ∧ size p ≤ 4 ∧
  (packet_call (Resize 5) p).2 = p.
Proof.
  intros p. destruct (packet_type_invariant 4 p) as (Hwf & Hcap & Hlen & Hsize & Hfail).
  - by_evaluation.
  - apply reachable_call; [apply reachable_call; [apply reachable_new|by_evaluation]|].
    split; [by_evaluation|apply Nat.leb_le; vm_compute; reflexivity].
  - split_and!; [exact Hwf|exact Hcap|exact Hlen|exact Hsize|apply Hfail; by_evaluation].
Defined.

(** The span [headerAndPayload] hands to a link is the six header bytes and
    the payload for every size up to 65529; above that [totalSize] wraps around
    and only the first [size + 6 - 65536] bytes are covered. *)
Theorem headerAndPayload_spec (p : PacketBuffer) :
  packet_wf p →
  headerAndPayload p =
    if size p <=? 65529 then header_bytes (header p) ++ payload p
    else take (Z.to_nat (size p + 6 - 65536)) (header_bytes (header p)).
Proof.
  intros Hp. pose proof Hp as []. unfold headerAndPayload, totalSize, payload.
  change (Z.of_nat sizeof_Header) with 6.
  assert (length (header_bytes (header p)) = 6%nat) as Hlen by done.
  destruct (Z.leb_spec (size p) 65529).
  - rewrite u16_id by (unfold is_u16; lia).
    rewrite take_app, take_ge by (rewrite Hlen; lia). f_equal. f_equal. lia.
  - assert (u16 (size p + 6) = size p + 6 - 65536) as -> by word_lia.
    rewrite take_app_le by (rewrite Hlen; word_lia). done.
Qed.

Lemma headerAndPayload_spec_witness :
  headerAndPayload (set_size 1 (new_packet 2)) =
    if size (set_size 1 (new_packet 2)) <=? 65529
    then header_bytes (header (set_size 1 (new_packet 2))) ++ payload (set_size 1 (new_packet 2))
    else take (Z.to_nat (size (set_size 1 (new_packet 2)) + 6 - 65536))
           (header_bytes (header (set_size 1 (new_packet 2)))).
Proof.
  apply (headerAndPayload_spec (set_size 1 (new_packet 2))).
  repeat split; by_evaluation.
Defined.
