(* ===== verification/Routing.v ===== *)
(** * Forwarding, dispatch and routing
      ([core/forwarding.h], [core/dispatch.h], [dispatch.cpp], [core/host.h],
      [host.cpp], [core/router.h], [router.cpp])

    The abstract classes are type classes over the environment [W]: an
    [EndpointReceiver] is a reference of type [R], so that a receiver listed in
    two dispatch entries is one receiver, and a [PacketForwarder] is the one the
    router was built with. *)

From S2P Require Import Prelude Packet.
Local Open Scope Z_scope.

(** ** Results *)

Module LinkAdmission.
Inductive t := kAccepted | kFull | kTooLarge | kRejected.
End LinkAdmission.
Module RouteResult.
Inductive t :=
  | kAccepted | kPartial | kFull | kTooLarge | kRejected
  | kNoRoute | kNoEgress | kInvalidIngress.
End RouteResult.
Module ReceiveResult.
Inductive t := kAccepted | kFull | kRejected.
End ReceiveResult.
Module DispatchResult.
Inductive t := kAccepted | kFull | kRejected | kNoEndpoint.
End DispatchResult.

#[export] Instance LinkAdmission_eq_dec : EqDecision LinkAdmission.t.
Proof. solve_decision. Defined.
#[export] Instance RouteResult_eq_dec : EqDecision RouteResult.t.
Proof. solve_decision. Defined.
#[export] Instance ReceiveResult_eq_dec : EqDecision ReceiveResult.t.
Proof. solve_decision. Defined.
#[export] Instance DispatchResult_eq_dec : EqDecision DispatchResult.t.
Proof. solve_decision. Defined.

(** An [InterfaceSet] is an 8-bit mask. *)
Definition kNoEgress : Z := 0.

(** [PacketForwarder::forward]. *)
Class PacketForwarder (W : Type) :=
  forwarder_forward : PacketBuffer → Z → State W RouteResult.t.

(** [EndpointReceiver::receive], of the receiver the reference names. *)
Class EndpointReceiver (R W : Type) :=
  receiver_receive : R → PacketBuffer → State W ReceiveResult.t.

Definition combineAdmission (current : RouteResult.t) (admission : LinkAdmission.t)
    : RouteResult.t :=
  let next :=
    match admission with
    | LinkAdmission.kAccepted => RouteResult.kAccepted
    | LinkAdmission.kFull => RouteResult.kFull
    | LinkAdmission.kTooLarge => RouteResult.kTooLarge
    | LinkAdmission.kRejected => RouteResult.kRejected
    end in
  if bool_decide (current = RouteResult.kNoEgress) || bool_decide (current = next) then next
  else if bool_decide (current = RouteResult.kPartial)
          || bool_decide (current = RouteResult.kAccepted)
          || bool_decide (next = RouteResult.kAccepted) then RouteResult.kPartial
  else if bool_decide (current = RouteResult.kRejected)
          || bool_decide (next = RouteResult.kRejected) then RouteResult.kRejected
  else RouteResult.kTooLarge.

(** ** Host identity *)

Definition kMaximumHostWires : nat := 6.

Record HostInfo := {
  host_id : HostId;
  wire_count : Z;
  wires : list WireNumber;
}.

Definition isMemberOf (h : HostInfo) (w : WireNumber) : bool :=
  existsb (λ index, bool_decide (nth index (wires h) (mkWireNumber 0) = w))
    (seq 0 (Nat.min (Z.to_nat (wire_count h)) kMaximumHostWires)).

(** ** Dispatch *)

Definition toDispatchResult (r : ReceiveResult.t) : DispatchResult.t :=
  match r with
  | ReceiveResult.kAccepted => DispatchResult.kAccepted
  | ReceiveResult.kFull => DispatchResult.kFull
  | ReceiveResult.kRejected => DispatchResult.kRejected
  end.

Definition resultPriority (r : DispatchResult.t) : Z :=
  match r with
  | DispatchResult.kAccepted => 3
  | DispatchResult.kFull => 2
  | DispatchResult.kRejected => 1
  | DispatchResult.kNoEndpoint => 0
  end.

(** [receiver] is [None] for a null pointer. *)
Record DispatchTableEntry (R : Type) := mkDispatchTableEntry {
  entry_endpoint : EndpointAddress;
  entry_receiver : option R;
}.
Arguments mkDispatchTableEntry {R}.
Arguments entry_endpoint {R}.
Arguments entry_receiver {R}.

(** [TransportFilterReceiver::receive] around the receiver [inner]. *)
Definition filteredReceive {R W} `{!EndpointReceiver R W} (inner : R)
    (transport : TransportType) (packet : PacketBuffer) : State W ReceiveResult.t :=
  if negb (hasSupportedControl (header packet))
     || negb (transportType (header packet) =? transport)
  then mret ReceiveResult.kRejected
  else receiver_receive inner packet.

Section dispatch.
Context {R W : Type} `{!EndpointReceiver R W}.
Implicit Types (entries : list (DispatchTableEntry R)).

(** The loop of [Dispatcher::dispatch]. *)
Fixpoint dispatchLoop (entries : list (DispatchTableEntry R)) (broadcast : bool)
    (host : HostInfo) (packet : PacketBuffer) (aggregate : DispatchResult.t)
    : State W DispatchResult.t :=
  match entries with
  | [] => mret aggregate
  | entry :: entries' =>
      match entry_receiver entry with
      | None => dispatchLoop entries' broadcast host packet aggregate
      | Some receiver =>
          if negb (bool_decide (entry_endpoint entry = endpoint (header packet)))
          then dispatchLoop entries' broadcast host packet aggregate
          else if negb broadcast
                  && negb (bool_decide (host_id host = destination (header packet)))
          then dispatchLoop entries' broadcast host packet aggregate
          else
            received ← receiver_receive receiver packet;
            let result := toDispatchResult received in
            if negb broadcast then mret result
            else
              dispatchLoop entries' broadcast host packet
                (if resultPriority aggregate <? resultPriority result then result else aggregate)
      end
  end.

(** [Dispatcher::dispatch(packet, host)]. *)
Definition dispatch (entries : list (DispatchTableEntry R)) (packet : PacketBuffer)
    (host : HostInfo) : State W DispatchResult.t :=
  if negb (hasSupportedControl (header packet)) then mret DispatchResult.kRejected
  else
  let broadcast := isBroadcast (destination (header packet)) in
  if broadcast && negb (isMemberOf host (wire (header packet)))
  then mret DispatchResult.kNoEndpoint
  else dispatchLoop entries broadcast host packet DispatchResult.kNoEndpoint.
End dispatch.

(** ** Routing *)

Record RouteTableEntry := mkRouteTableEntry {
  route_wire : WireNumber;
  wire_interfaces : Z;
}.

Record IngressResult := mkIngressResult {
  routing : RouteResult.t;
  delivery : DispatchResult.t;
}.

Section router.
Context {R W : Type} `{!EndpointReceiver R W, !PacketForwarder W}.

(** The loop of [Router::forward]. *)
Fixpoint forwardLoop (entries : list RouteTableEntry) (packet : PacketBuffer)
    (ingress ingress_mask : Z) : State W RouteResult.t :=
  match entries with
  | [] => mret RouteResult.kNoRoute
  | entry :: entries' =>
      if negb (bool_decide (route_wire entry = wire (header packet)))
      then forwardLoop entries' packet ingress ingress_mask
      else if negb (ingress_mask =? 0) && (Z.land (wire_interfaces entry) ingress_mask =? 0)
      then mret RouteResult.kInvalidIngress
      else
        let egress := u8 (Z.land (wire_interfaces entry) (Z.lnot ingress_mask)) in
        if (egress =? kNoEgress) && negb (ingress =? 0) then mret RouteResult.kNoEgress
        else forwarder_forward packet egress
  end.

(** [Router::forward]. *)
Definition routerForward (entries : list RouteTableEntry) (packet : PacketBuffer)
    : State W RouteResult.t :=
  let ingress := ingressIndex packet in
  if 8 <? ingress then mret RouteResult.kInvalidIngress
  else
  let ingress_mask := if ingress =? 0 then 0 else u8 (Z.shiftl 1 (ingress - 1)) in
  forwardLoop entries packet ingress ingress_mask.

(** [Router::receive] with an explicit host: the result and the packet, whose
    ingress tag it has stamped. *)
Definition routerReceive (entries : list RouteTableEntry)
    (dispatcher : list (DispatchTableEntry R)) (packet : PacketBuffer) (ingress_index : Z)
    (host : HostInfo) : State W (IngressResult * PacketBuffer) :=
  let packet := setIngressIndex ingress_index packet in
  if ingress_index =? 0
  then mret (mkIngressResult RouteResult.kInvalidIngress DispatchResult.kNoEndpoint, packet)
  else
  routing ← routerForward entries packet;
  if bool_decide (routing = RouteResult.kNoRoute)
     || bool_decide (routing = RouteResult.kInvalidIngress)
     || negb (isMemberOf host (wire (header packet)))
  then mret (mkIngressResult routing DispatchResult.kNoEndpoint, packet)
  else
  delivery ← dispatch dispatcher packet host;
  mret (mkIngressResult routing delivery, packet).
End router.

(** What the forwarder preserves, routing preserves. *)
Lemma routerForward_keeps {W} `{!PacketForwarder W} (P : W → Prop) entries packet :
  (∀ selected, preserves P (forwarder_forward packet selected)) →
  preserves P (routerForward entries packet).
Proof.
  intros Hforward. unfold routerForward. destruct (8 <? _); [apply preserves_ret|]. cbv zeta.
  generalize (if ingressIndex packet =? 0 then 0 else u8 (Z.shiftl 1 (ingressIndex packet - 1))).
  intros mask. induction entries as [|entry entries IH]; [apply preserves_ret|]. cbn [forwardLoop].
  destruct (negb _); [done|]. destruct (_ && _); [apply preserves_ret|]. cbv zeta.
  destruct (_ && _); [apply preserves_ret|apply Hforward].
Qed.

(** ** Observing the receivers

    The environment with the list of receivers offered a packet and their
    answers; a forwarder of the environment leaves the list alone. *)

Definition Offered (R W : Type) : Type := W * list (R * ReceiveResult.t).

#[export] Instance Offered_receiver {R W} `{!EndpointReceiver R W}
    : EndpointReceiver R (Offered R W) :=
  λ receiver packet '(w, log),
    let '(result, w') := receiver_receive receiver packet w in
    (result, (w', log ++ [(receiver, result)])).

#[export] Instance Offered_forwarder {R W} `{!PacketForwarder W} : PacketForwarder (Offered R W) :=
  λ packet egress_set, on_fst (forwarder_forward packet egress_set).

(** ** Specification *)

(** What a list of admissions amounts to. *)
Definition admission_outcome (l : list LinkAdmission.t) : RouteResult.t :=
  if bool_decide (Forall (λ a, a = LinkAdmission.kAccepted) l) then RouteResult.kAccepted
  else if bool_decide (LinkAdmission.kAccepted ∈ l) then RouteResult.kPartial
  else if bool_decide (LinkAdmission.kRejected ∈ l) then RouteResult.kRejected
  else if bool_decide (LinkAdmission.kTooLarge ∈ l) then RouteResult.kTooLarge
  else RouteResult.kFull.

(** The receivers registered for an endpoint. *)
Definition registered {R} (entries : list (DispatchTableEntry R)) (e : EndpointAddress) : list R :=
  omap (λ entry, if decide (entry_endpoint entry = e) then entry_receiver entry else None) entries.

(** The receivers a packet is for. *)
Definition addressed {R} (entries : list (DispatchTableEntry R)) (packet : PacketBuffer)
    (host : HostInfo) : list R :=
  let rs := registered entries (endpoint (header packet)) in
  if negb (hasSupportedControl (header packet)) then []
  else if isBroadcast (destination (header packet))
  then if isMemberOf host (wire (header packet)) then rs else []
  else if decide (host_id host = destination (header packet)) then take 1 rs else [].

(** The answer a dispatch amounts to: accepted when a receiver accepted, else full when
    one was full, else rejected; no endpoint when nobody was offered the packet. *)
Definition best (results : list ReceiveResult.t) (aggregate : DispatchResult.t) : Prop :=
  match aggregate with
  | DispatchResult.kAccepted => ReceiveResult.kAccepted ∈ results
  | DispatchResult.kFull =>
      ReceiveResult.kFull ∈ results ∧ ReceiveResult.kAccepted ∉ results
  | DispatchResult.kRejected =>
      results ≠ [] ∧ Forall (λ r, r = ReceiveResult.kRejected) results
  | DispatchResult.kNoEndpoint => results = []
  end.

(** One answer more. *)
Lemma best_snoc results aggregate received :
  best results aggregate →
  best (results ++ [received])
    (if resultPriority aggregate <? resultPriority (toDispatchResult received)
     then toDispatchResult received else aggregate).
Proof.
  destruct aggregate, received; simpl; rewrite ?elem_of_app, ?list_elem_of_singleton, ?list.Forall_app;
    try (intros ->); intuition (try done); try (by destruct results); try (by right);
    try by rewrite list.Forall_singleton.
  all: by match goal with
       | Hin : _ ∈ [] |- _ => apply elem_of_nil in Hin
       | Hall : Forall _ ?l, Hin : _ ∈ ?l |- _ =>
           pose proof (proj1 (list.Forall_forall _ _) Hall _ Hin)
       end.
Qed.

Lemma combine_snoc l a :
  l ≠ [] → combineAdmission (admission_outcome l) a = admission_outcome (l ++ [a]).
Proof.
  intros Hne. unfold admission_outcome.
  rewrite (bool_decide_ext _ _ (list.Forall_app _ l [a])).
  rewrite !(bool_decide_ext _ _ (elem_of_app l [a] _)).
  rewrite !bool_decide_and, !bool_decide_or.
  rewrite !(bool_decide_ext (_ ∈ [a]) _ (list_elem_of_singleton _ a)).
  assert (Hall : bool_decide (Forall (λ a, a = LinkAdmission.kAccepted) l) = true →
                 bool_decide (LinkAdmission.kAccepted ∈ l) = true).
  { rewrite !bool_decide_eq_true. destruct l as [|b l]; [done|]. intros [-> _]%Forall_cons_1.
    by left. }
  destruct (bool_decide (Forall _ l)); [rewrite Hall by done|];
    destruct (bool_decide (LinkAdmission.kAccepted ∈ l)), (bool_decide (LinkAdmission.kRejected ∈ l)),
      (bool_decide (LinkAdmission.kTooLarge ∈ l)), a; done || discriminate (Hall eq_refl).
Qed.

Section dispatch_lemmas.
Context {R W : Type} `{!EndpointReceiver R W}.
Implicit Types (entries : list (DispatchTableEntry R)).

(** The loop over the entries is a loop over the registered receivers. *)
Fixpoint offer_all (rs : list R) (packet : PacketBuffer) (aggregate : DispatchResult.t)
    : State W DispatchResult.t :=
  match rs with
  | [] => mret aggregate
  | r :: rs =>
      received ← receiver_receive r packet;
      offer_all rs packet
        (if resultPriority aggregate <? resultPriority (toDispatchResult received)
         then toDispatchResult received else aggregate)
  end.

Lemma dispatchLoop_broadcast entries host packet aggregate (w : W) :
  dispatchLoop entries true host packet aggregate w =
    offer_all (registered entries (endpoint (header packet))) packet aggregate w.
Proof.
  revert aggregate w. induction entries as [|[e r] entries IH]; intros aggregate w; simpl; [done|].
  unfold registered. simpl. fold (registered entries (endpoint (header packet))).
  destruct r as [r|]; [|destruct (decide _); apply IH].
  case_bool_decide; [rewrite decide_True by done|rewrite decide_False by done; apply IH].
  simpl. unfold mbind, State_bind. destruct (receiver_receive r packet w). apply IH.
Qed.

Lemma dispatchLoop_other entries host packet aggregate (w : W) :
  host_id host ≠ destination (header packet) →
  dispatchLoop entries false host packet aggregate w = (aggregate, w).
Proof.
  intros Hne. induction entries as [|[e r] entries IH]; simpl; [done|].
  destruct r as [r|]; [|done]. rewrite (bool_decide_eq_false_2 (host_id host = _)) by done.
  by destruct (bool_decide _).
Qed.

Lemma dispatchLoop_unicast entries host packet (w : W) :
  host_id host = destination (header packet) →
  dispatchLoop entries false host packet DispatchResult.kNoEndpoint w =
    offer_all (take 1 (registered entries (endpoint (header packet)))) packet
      DispatchResult.kNoEndpoint w.
Proof.
  intros Heq. induction entries as [|[e r] entries IH]; simpl; [done|].
  unfold registered. simpl. fold (registered entries (endpoint (header packet))).
  destruct r as [r|]; [|destruct (decide _); apply IH].
  case_bool_decide; [rewrite decide_True by done|rewrite decide_False by done; apply IH].
  rewrite (bool_decide_eq_true_2 (host_id host = _)) by done. simpl.
  unfold mbind, State_bind. by destruct (receiver_receive r packet w) as [[] ?].
Qed.

Lemma dispatch_addressed entries packet host (w : W) :
  dispatch entries packet host w =
    if hasSupportedControl (header packet)
    then offer_all (addressed entries packet host) packet DispatchResult.kNoEndpoint w
    else (DispatchResult.kRejected, w).
Proof.
  unfold dispatch, addressed. destruct (hasSupportedControl _); [simpl|done].
  destruct (isBroadcast _).
  - destruct (isMemberOf _ _); simpl; [apply dispatchLoop_broadcast|done].
  - simpl. destruct (decide _); [by apply dispatchLoop_unicast|by apply dispatchLoop_other].
Qed.
End dispatch_lemmas.

Lemma offer_all_best {R W} `{!EndpointReceiver R W} (rs : list R) packet aggregate (w : W) log :
  best (snd <$> log) aggregate →
  let '(result, (_, log')) := offer_all rs packet aggregate (w, log) in
  fst <$> log' = (fst <$> log) ++ rs ∧ best (snd <$> log') result.
Proof.
  revert aggregate w log. induction rs as [|r rs IH]; intros aggregate w log Hbest; simpl.
  { by rewrite app_nil_r. }
  unfold mbind at 1, State_bind, receiver_receive at 1, Offered_receiver at 1.
  destruct (receiver_receive r packet w) as [received w'].
  specialize (IH (if resultPriority aggregate <? resultPriority (toDispatchResult received)
    then toDispatchResult received else aggregate) w' (log ++ [(r, received)])).
  destruct (offer_all rs packet _ _) as [result [w'' log']].
  rewrite !fmap_app in IH. simpl in IH. rewrite <- app_assoc in IH. apply IH.
  by apply best_snoc.
Qed.

Definition iface_mask (ingress : Z) : Z := if ingress =? 0 then 0 else u8 (Z.shiftl 1 (ingress - 1)).

Lemma iface_mask_bit ingress i :
  0 ≤ ingress ≤ 8 → 0 ≤ i →
  Z.testbit (iface_mask ingress) i = negb (ingress =? 0) && (i =? ingress - 1).
Proof.
  intros Hing Hi. unfold iface_mask. destruct (Z.eqb_spec ingress 0); [apply Z.bits_0|]. simpl.
  unfold u8. change 256 with (2 ^ 8). destruct (Z.ltb_spec i 8).
  - rewrite Z.mod_pow2_bits_low by done.
    rewrite <- (testbit_bit16 (ingress - 1) i) by lia. unfold bit16.
    rewrite testbit_u16 by lia. destruct (Z.ltb_spec i 16); [done|lia].
  - rewrite Z.mod_pow2_bits_high by lia. symmetry. apply Z.eqb_neq. lia.
Qed.

Lemma forwardLoop_spec {W} `{!PacketForwarder W} entries packet ingress (w : W) :
  0 ≤ ingress ≤ 8 → Forall (λ e, is_u8 (wire_interfaces e)) entries →
  forwardLoop entries packet ingress (iface_mask ingress) w =
    match find (λ e, bool_decide (route_wire e = wire (header packet))) entries with
    | None => (RouteResult.kNoRoute, w)
    | Some e =>
        if negb (ingress =? 0) && negb (Z.testbit (wire_interfaces e) (ingress - 1))
        then (RouteResult.kInvalidIngress, w)
        else
        let egress := Z.ldiff (wire_interfaces e) (iface_mask ingress) in
        if (egress =? 0) && negb (ingress =? 0) then (RouteResult.kNoEgress, w)
        else forwarder_forward packet egress w
    end.
Proof.
  intros Hing. induction 1 as [|e entries He _ IH]; simpl; [done|].
  destruct (bool_decide (route_wire e = _)); [simpl|apply IH].
  assert (Hmask : (iface_mask ingress =? 0) = (ingress =? 0)).
  { destruct (Z.eqb_spec ingress 0) as [->|]; [done|]. apply Z.eqb_neq. intros E.
    pose proof (iface_mask_bit ingress (ingress - 1) Hing ltac:(lia)) as Hbit.
    rewrite E, Z.bits_0, Z.eqb_refl in Hbit. destruct (Z.eqb_spec ingress 0); done. }
  rewrite Hmask. destruct (Z.eqb_spec ingress 0) as [->|Hne]; simpl.
  - change (iface_mask 0) with 0. rewrite Z.ldiff_0_r, Z.land_m1_r.
    rewrite u8_id, !andb_false_r by done. done.
  - assert (Hland : (Z.land (wire_interfaces e) (iface_mask ingress) =? 0) =
      negb (Z.testbit (wire_interfaces e) (ingress - 1))).
    { destruct (Z.testbit _ (ingress - 1)) eqn:Hbit; simpl.
      - apply Z.eqb_neq. intros E. apply (f_equal (λ z, Z.testbit z (ingress - 1))) in E.
        rewrite Z.land_spec, Hbit, iface_mask_bit, Z.bits_0, Z.eqb_refl in E by lia.
        destruct (Z.eqb_spec ingress 0); done.
      - apply Z.eqb_eq. bitwise i Hi. rewrite iface_mask_bit by lia.
        destruct (Z.eqb_spec i (ingress - 1)) as [->|]; [by rewrite Hbit|].
        by rewrite !andb_false_r. }
    rewrite Hland. destruct (Z.testbit _ _); simpl; [|done].
    rewrite <- Z.ldiff_land. rewrite u8_id; [unfold kNoEgress; by destruct (_ && _)|].
    assert (0 ≤ Z.ldiff (wire_interfaces e) (iface_mask ingress))
      by (apply Z.ldiff_nonneg; left; apply He).
    split; [done|]. apply (below_pow2 8); [lia|done|]. intros i Hi.
    rewrite Z.ldiff_spec, (testbit_high 8) by (done || lia). done.
Qed.

Lemma dispatch_offered {R W} `{!EndpointReceiver R W} (entries : list (DispatchTableEntry R))
    (packet : PacketBuffer) (host : HostInfo) (w : W) :
  let '(result, (_, log)) := dispatch (W := Offered R W) entries packet host (w, []) in
  fst <$> log = addressed entries packet host ∧
  if hasSupportedControl (header packet) then best (snd <$> log) result
  else result = DispatchResult.kRejected.
Proof.
  rewrite dispatch_addressed. destruct (hasSupportedControl (header packet)) eqn:Hsup.
  - pose proof (offer_all_best (addressed entries packet host) packet
      DispatchResult.kNoEndpoint w []) as H.
    destruct (offer_all _ _ _ _) as [result [w' log]]. apply H.
    reflexivity.
  - by unfold addressed; rewrite Hsup.
Qed.

(** Routing does not touch the receivers: observing them changes nothing. *)
Lemma forwardLoop_offered {R W} `{!PacketForwarder W} entries packet ingress mask
    (wl : Offered R W) :
  forwardLoop (W := Offered R W) entries packet ingress mask wl =
    on_fst (forwardLoop entries packet ingress mask) wl.
Proof.
  destruct wl as [w log]. induction entries as [|e entries IH]; simpl; [done|].
  destruct (negb (bool_decide _)); [done|]. destruct (_ && _); [done|].
  by destruct (_ && _).
Qed.

Lemma routerForward_offered {R W} `{!PacketForwarder W} entries packet
    (wl : Offered R W) :
  routerForward (W := Offered R W) entries packet wl = on_fst (routerForward entries packet) wl.
Proof.
  unfold routerForward. destruct (_ <? _); [by destruct wl|apply forwardLoop_offered].
Qed.

(** A packet that is routed came in on an interface of its wire. *)
Lemma routerForward_ingress {W} `{!PacketForwarder W} entries packet (w : W) :
  0 < ingressIndex packet → Forall (λ e, is_u8 (wire_interfaces e)) entries →
  let r := (routerForward entries packet w).1 in
  r ≠ RouteResult.kNoRoute → r ≠ RouteResult.kInvalidIngress →
  ingressIndex packet ≤ 8 ∧
  ∃ e, e ∈ entries ∧ route_wire e = wire (header packet) ∧
    Z.testbit (wire_interfaces e) (ingressIndex packet - 1) = true.
Proof.
  intros Hing Hentries. cbv zeta. unfold routerForward.
  destruct (Z.ltb_spec 8 (ingressIndex packet)); [done|].
  fold (iface_mask (ingressIndex packet)). rewrite forwardLoop_spec by (done || lia).
  destruct (find _ entries) as [e|] eqn:Hfind; [|done].
  apply find_some in Hfind as [Hin%list_elem_of_In Hwire%bool_decide_eq_true].
  rewrite (proj2 (Z.eqb_neq _ _)) by lia. simpl.
  destruct (Z.testbit _ _) eqn:Hbit; simpl; [|done]. intros _ _. eauto.
Qed.

(** A packet of local origin on a configured wire goes to the forwarder, whatever
    the interfaces of the route. *)
Lemma routerForward_origin {W} `{!PacketForwarder W} entries packet (w : W) :
  ingressIndex packet = 0 → Forall (λ e, is_u8 (wire_interfaces e)) entries →
  match find (λ e, bool_decide (route_wire e = wire (header packet))) entries with
  | None => routerForward entries packet w = (RouteResult.kNoRoute, w)
  | Some e => routerForward entries packet w = forwarder_forward packet (wire_interfaces e) w
  end.
Proof.
  intros Hing Hentries. unfold routerForward. rewrite Hing.
  pose proof (forwardLoop_spec entries packet 0 w ltac:(lia) Hentries) as H. cbv zeta in *.
  change (8 <? 0) with false. cbn [Z.eqb].
  change (iface_mask 0) with 0 in H. rewrite H. destruct (find _ entries) as [e|]; [|done]. simpl.
  by rewrite Z.ldiff_0_r, andb_false_r.
Qed.

(** Routing calls the forwarder once, or not at all and then neither accepts nor
    reports congestion. *)
Lemma routerForward_cases {W} `{!PacketForwarder W} entries packet (w : W) :
  (∃ egress, routerForward entries packet w = forwarder_forward packet egress w) ∨
  ∃ r, routerForward entries packet w = (r, w) ∧
    r ≠ RouteResult.kAccepted ∧ r ≠ RouteResult.kFull.
Proof.
  unfold routerForward. destruct (8 <? _); [right; by eexists|]. cbv zeta.
  induction entries as [|e entries IH]; simpl; [right; by eexists|].
  destruct (negb (bool_decide _)); [apply IH|]. destruct (_ && _); [right; by eexists|].
  destruct (_ && _); [right; by eexists|left; by eexists].
Qed.

(** [receive] on a real ingress, with the monad's steps unfolded. *)
Lemma routerReceive_offered {R W} `{!EndpointReceiver R W, !PacketForwarder W} entries
    (dispatcher : list (DispatchTableEntry R)) packet ingress host (w : W) log :
  ingress ≠ 0 →
  let packet' := setIngressIndex ingress packet in
  routerReceive (W := Offered R W) entries dispatcher packet ingress host (w, log) =
    let '(r, w') := routerForward entries packet' w in
    if bool_decide (r = RouteResult.kNoRoute) || bool_decide (r = RouteResult.kInvalidIngress)
       || negb (isMemberOf host (wire (header packet)))
    then ((mkIngressResult r DispatchResult.kNoEndpoint, packet'), (w', log))
    else
      let '(d, wl) := dispatch (W := Offered R W) dispatcher packet' host (w', log) in
      ((mkIngressResult r d, packet'), wl).
Proof.
  intros Hne. cbv zeta. unfold routerReceive. rewrite (proj2 (Z.eqb_neq _ _)) by done.
  unfold mbind at 1, State_bind. rewrite (routerForward_offered (R := R)). unfold on_fst.
  destruct (routerForward entries _ w) as [r w'].
  change (header (setIngressIndex ingress packet)) with (header packet). by destruct (_ || _ || _).
Qed.

(** ** Properties *)

(** Fan-out admission: folding the links' answers from [kNoEgress] gives
    accepted when all links accepted, partial when only some did, and otherwise
    the documented precedence of rejection over size over congestion; so the
    outcome does not depend on the order of the links. *)
Theorem combineAdmission_fold (l : list LinkAdmission.t) :
  foldl combineAdmission RouteResult.kNoEgress l =
    if decide (l = []) then RouteResult.kNoEgress else admission_outcome l.
Proof.
  induction l as [|a l IH] using rev_ind; [done|]. rewrite foldl_app, IH. simpl.
  rewrite (decide_False (P := l ++ [a] = [])) by by destruct l.
  destruct (decide (l = [])) as [->|Hne]; [by destruct a|by apply combine_snoc].
Qed.

(** C23: dispatch: the receivers offered a packet are exactly those it is addressed
    to, in table order and once per entry (none for an unsupported control byte;
    for a broadcast every receiver registered for the endpoint if the host is on
    the wire; for a unicast to this host the first one).  The result is accepted
    when one of them accepted, full when none did and one was full, rejected when
    all of them rejected, and no endpoint when there was none; for an unsupported
    control byte it is rejected. *)
Theorem dispatch_delivers {R W} `{!EndpointReceiver R W}
    (entries : list (DispatchTableEntry R)) (packet : PacketBuffer) (host : HostInfo) (w : W) :
  let '(result, (_, log)) := dispatch (W := Offered R W) entries packet host (w, []) in
  fst <$> log = addressed entries packet host ∧
  if hasSupportedControl (header packet) then best (snd <$> log) result
  else result = DispatchResult.kRejected.
Proof. apply dispatch_offered. Qed.

(** Routing decision: the first route of the packet's wire decides; a packet
    received on an interface that is not on the wire is refused, one that has no
    interface left to go to stops, and otherwise the forwarder is called once
    with the wire's interfaces except the one the packet came in on, so a packet
    is never sent back where it came from. *)
Theorem routerForward_spec {W} `{!PacketForwarder W} (entries : list RouteTableEntry)
    (packet : PacketBuffer) (w : W) :
  0 ≤ ingressIndex packet → Forall (λ e, is_u8 (wire_interfaces e)) entries →
  let ingress := ingressIndex packet in
  if 8 <? ingress then routerForward entries packet w = (RouteResult.kInvalidIngress, w)
  else
  match find (λ e, bool_decide (route_wire e = wire (header packet))) entries with
  | None => routerForward entries packet w = (RouteResult.kNoRoute, w)
  | Some e =>
      let interfaces := wire_interfaces e in
      if negb (ingress =? 0) && negb (Z.testbit interfaces (ingress - 1))
      then routerForward entries packet w = (RouteResult.kInvalidIngress, w)
      else
      ∃ egress, (∀ i, 0 ≤ i → Z.testbit egress i = Z.testbit interfaces i
                  && negb (negb (ingress =? 0) && (i =? ingress - 1))) ∧
        routerForward entries packet w =
          if (egress =? 0) && negb (ingress =? 0) then (RouteResult.kNoEgress, w)
          else forwarder_forward packet egress w
  end.
Proof.
  intros Hing Hentries. cbv zeta. unfold routerForward.
  destruct (Z.ltb_spec 8 (ingressIndex packet)); [done|].
  fold (iface_mask (ingressIndex packet)). rewrite forwardLoop_spec by (done || lia).
  destruct (find _ entries) as [e|]; [|done]. destruct (_ && _); [done|].
  eexists. split; [|reflexivity]. intros i Hi. by rewrite Z.ldiff_spec, iface_mask_bit by lia.
Qed.

(** The concrete environment of the witnesses: two receivers, 0 full and any other
    accepting, and a forwarder that accepts and remembers the egress set. *)
Module Demo.
#[export] Instance demo_receivers : EndpointReceiver nat Z :=
  λ r _ w, (match r with O => ReceiveResult.kFull | _ => ReceiveResult.kAccepted end, w).
#[export] Instance demo_forwarder : PacketForwarder Z := λ _ egress _, (RouteResult.kAccepted, egress).
End Demo.
Import Demo.

Definition demo_packet (ingress : Z) : PacketBuffer :=
  setIngressIndex ingress (set_header
    {| control := 0x80; wire := mkWireNumber 3; source := mkHostId 1;
       destination := mkHostId 0xFF; endpoint := mkEndpointAddress 9 |} (new_packet 4)).

Lemma routerForward_spec_witness :
  let entries := [mkRouteTableEntry (mkWireNumber 2) 1; mkRouteTableEntry (mkWireNumber 3) 7] in
  ∃ egress, (∀ i, 0 ≤ i → Z.testbit egress i = Z.testbit 7 i
              && negb (negb (ingressIndex (demo_packet 2) =? 0)
                       && (i =? ingressIndex (demo_packet 2) - 1))) ∧
    routerForward entries (demo_packet 2) 99 =
      if (egress =? 0) && negb (ingressIndex (demo_packet 2) =? 0)
      then (RouteResult.kNoEgress, 99) else forwarder_forward (demo_packet 2) egress 99.
Proof.
  apply (routerForward_spec
    [mkRouteTableEntry (mkWireNumber 2) 1; mkRouteTableEntry (mkWireNumber 3) 7]
    (demo_packet 2) 99); by_evaluation.
Defined.

(** C24: ingress: a received packet is stamped with its interface and routed as
    [forward] would; it is dispatched, to exactly the receivers it is addressed
    to, when the route was found and the host is a member of the wire, and then
    the delivery is the best of their answers; otherwise no receiver is called
    and the delivery is [kNoEndpoint].  With a forwarder that answers admissions
    only, whatever is delivered came in on an interface of its wire's route. *)
Theorem routerReceive_spec {R W} `{!EndpointReceiver R W, !PacketForwarder W}
    (entries : list RouteTableEntry) (dispatcher : list (DispatchTableEntry R))
    (packet : PacketBuffer) (ingress : Z) (host : HostInfo) (w : W) :
  0 < ingress → Forall (λ e, is_u8 (wire_interfaces e)) entries →
  let out := routerReceive (W := Offered R W) entries dispatcher packet ingress host (w, []) in
  let result := out.1.1 in
  let packet' := out.1.2 in
  let log := out.2.2 in
  packet' = setIngressIndex ingress packet ∧
  routing result = (routerForward entries packet' w).1 ∧
  (if bool_decide (routing result = RouteResult.kNoRoute)
      || bool_decide (routing result = RouteResult.kInvalidIngress)
      || negb (isMemberOf host (wire (header packet)))
   then log = [] ∧ delivery result = DispatchResult.kNoEndpoint
   else
     (fst <$> log = addressed dispatcher packet' host ∧
      if hasSupportedControl (header packet) then best (snd <$> log) (delivery result)
      else delivery result = DispatchResult.kRejected) ∧
     ingress ≤ 8 ∧
     ∃ e, e ∈ entries ∧ route_wire e = wire (header packet) ∧
       Z.testbit (wire_interfaces e) (ingress - 1) = true).
Proof.
  intros Hing Hentries. cbv zeta. rewrite routerReceive_offered by lia.
  set (packet' := setIngressIndex ingress packet).
  pose proof (routerForward_ingress entries packet' w Hing Hentries) as Hroute.
  destruct (routerForward entries packet' w) as [r w'] eqn:Hfwd. cbn [fst] in Hroute.
  destruct (_ || _ || _) eqn:Hstop.
  - cbn [fst snd routing delivery]. rewrite Hfwd, Hstop. done.
  - pose proof (dispatch_offered dispatcher packet' host w') as Hdisp.
    destruct (dispatch (W := Offered R W) dispatcher packet' host (w', [])) as [answer [w'' log]].
    cbn [fst snd routing delivery]. rewrite Hfwd, Hstop.
    rewrite !orb_false_iff, !bool_decide_eq_false in Hstop.
    destruct Hstop as [[Hnoroute Hinvalid] _]. by pose proof (Hroute Hnoroute Hinvalid).
Qed.

Lemma routerReceive_spec_witness :
  let entries := [mkRouteTableEntry (mkWireNumber 3) 7] in
  let dispatcher := [mkDispatchTableEntry (mkEndpointAddress 9) (Some 1%nat);
                     mkDispatchTableEntry (mkEndpointAddress 9) (Some 0%nat)] in
  let host := {| host_id := mkHostId 5; wire_count := 1; wires := [mkWireNumber 3] |} in
  let out := routerReceive (W := Offered nat Z) entries dispatcher (demo_packet 0) 2 host (99, []) in
  let result := out.1.1 in
  let packet' := out.1.2 in
  let log := out.2.2 in
  fst <$> log = [1; 0]%nat ∧
  packet' = setIngressIndex 2 (demo_packet 0) ∧
  routing result = (routerForward entries packet' 99).1 ∧
  (if bool_decide (routing result = RouteResult.kNoRoute)
      || bool_decide (routing result = RouteResult.kInvalidIngress)
      || negb (isMemberOf host (wire (header (demo_packet 0))))
   then log = [] ∧ delivery result = DispatchResult.kNoEndpoint
   else
     (fst <$> log = addressed dispatcher packet' host ∧
      if hasSupportedControl (header (demo_packet 0)) then best (snd <$> log) (delivery result)
      else delivery result = DispatchResult.kRejected) ∧
     2 ≤ 8 ∧
     ∃ e, e ∈ entries ∧ route_wire e = wire (header (demo_packet 0)) ∧
       Z.testbit (wire_interfaces e) (2 - 1) = true).
Proof.
  cbv zeta. split; [reflexivity|].
  apply (routerReceive_spec (R := nat) [mkRouteTableEntry (mkWireNumber 3) 7]
    [mkDispatchTableEntry (mkEndpointAddress 9) (Some 1%nat);
     mkDispatchTableEntry (mkEndpointAddress 9) (Some 0%nat)]
    (demo_packet 0) 2 {| host_id := mkHostId 5; wire_count := 1; wires := [mkWireNumber 3] |} 99);
    by_evaluation.
Defined.
