(* ===== verification/Endpoints.v ===== *)
(** * Endpoint storage and domains
      ([core/mailbox.h], [mailbox.cpp], [core/endpoint_queue.h], [core/domain.h],
      [domain.cpp], the process-global identity of [core/host.cpp])

    The two receivers that store packets, as implementations of the
    [EndpointReceiver] interface of [Routing]: the snapshot mailbox and the packet
    queue; the domain context; and the forwarder that hands a domain's own traffic
    back to its dispatcher. *)

From S2P Require Import Prelude Containers Packet Routing.
Local Open Scope Z_scope.

(** ** [EndpointSnapshotReceiver] *)

Module Mailbox.

Definition kDefaultEndpointStorageCapacity : Z := 64.

Record EndpointSnapshotReceiver := {
  data_ : bytes;
  length_ : Z;
  occupied_ : bool;
  generation_ : Z;
}.

Definition empty : EndpointSnapshotReceiver :=
  {| data_ := replicate (Z.to_nat kDefaultEndpointStorageCapacity) 0; length_ := 0;
     occupied_ := false; generation_ := 0 |}.

Definition receive (packet : PacketBuffer) (m : EndpointSnapshotReceiver)
    : ReceiveResult.t * EndpointSnapshotReceiver :=
  let input := payload packet in
  if kDefaultEndpointStorageCapacity <? zlen input then (ReceiveResult.kRejected, m)
  else
    (ReceiveResult.kAccepted,
     {| data_ := if negb (zlen input =? 0) then memcpy_at 0 input (data_ m) else data_ m;
        length_ := u16 (zlen input); occupied_ := true;
        generation_ := u32 (generation_ m + 1) |}).

(** [read]: the output span afterwards, the length and the generation, or [None]
    for [false]. *)
Definition read (m : EndpointSnapshotReceiver) (output : bytes) : option (bytes * Z * Z) :=
  if negb (occupied_ m) || (zlen output <? length_ m) then None
  else
    Some (if 0 <? length_ m
          then memcpy_at 0 (take (Z.to_nat (length_ m)) (data_ m)) output else output,
          length_ m, generation_ m).

(** A sequence of receptions, from the constructed mailbox. *)
Definition receive_all (packets : list PacketBuffer) : EndpointSnapshotReceiver :=
  foldl (λ m packet, (receive packet m).2) empty packets.

(** What is kept: the payloads that fit, and the last of them. *)
Definition accepted (packets : list PacketBuffer) : list bytes :=
  List.filter (λ p, zlen p <=? kDefaultEndpointStorageCapacity) (payload <$> packets).

(** The state of a mailbox that has accepted the payloads [ps]. *)
Record holds (ps : list bytes) (m : EndpointSnapshotReceiver) : Prop := {
  holds_storage : length (data_ m) = Z.to_nat kDefaultEndpointStorageCapacity;
  holds_generation : generation_ m = u32 (zlen ps);
  holds_value :
    match list.last ps with
    | None => occupied_ m = false
    | Some p => occupied_ m = true ∧ length_ m = zlen p ∧
                zlen p ≤ kDefaultEndpointStorageCapacity ∧
                take (length p) (data_ m) = p
    end;
}.

Lemma receive_holds ps packet m :
  holds ps m →
  let '(r, m') := receive packet m in
  if zlen (payload packet) <=? kDefaultEndpointStorageCapacity
  then r = ReceiveResult.kAccepted ∧ holds (ps ++ [payload packet]) m'
  else r = ReceiveResult.kRejected ∧ m' = m.
Proof.
  intros [Hlen Hgen _]. unfold receive. set (p := payload packet).
  rewrite Z.leb_antisym. destruct (Z.ltb_spec kDefaultEndpointStorageCapacity (zlen p)); [done|].
  simpl. split; [done|].
  assert (Hfit : (length p ≤ length (data_ m))%nat)
    by (rewrite Hlen; unfold zlen, kDefaultEndpointStorageCapacity in *; lia).
  split; simpl.
  - destruct (negb _); [by rewrite memcpy_at_length|done].
  - rewrite Hgen. unfold zlen. rewrite length_app. simpl. word_lia.
  - rewrite last_snoc. unfold zlen, kDefaultEndpointStorageCapacity in *.
    split_and!; [done|apply u16_id; word_lia|done|].
    destruct (Z.eqb_spec (Z.of_nat (length p)) 0) as [E|]; simpl.
    + by destruct p.
    + rewrite memcpy_at_app by lia. rewrite take_0. simpl. apply take_app_length.
Qed.

Lemma receive_all_holds packets : holds (accepted packets) (receive_all packets).
Proof.
  unfold receive_all, accepted. induction packets as [|packet packets IH] using rev_ind; [done|].
  rewrite foldl_app, fmap_app, List.filter_app. simpl.
  pose proof (receive_holds _ packet _ IH) as H.
  destruct (receive packet _) as [r m']. simpl. destruct (_ <=? _).
  - apply H.
  - destruct H as [_ ->]. by rewrite app_nil_r.
Qed.

Lemma holds_read ps m output :
  holds ps m →
  read m output =
    match list.last ps with
    | Some p =>
        if zlen output <? zlen p then None
        else Some (p ++ drop (length p) output, zlen p, u32 (zlen ps))
    | None => None
    end.
Proof.
  intros [Hlen Hgen Hval]. unfold read. destruct (list.last ps) as [p|]; [|by rewrite Hval].
  destruct Hval as (-> & Hl & Hfit & Hp). rewrite Hl, Hgen. simpl.
  destruct (Z.ltb_spec (zlen output) (zlen p)) as [|Hle]; [done|]. unfold zlen in *.
  rewrite Nat2Z.id, Hp. destruct (Z.ltb_spec 0 (Z.of_nat (length p))) as [|Hz].
  - rewrite memcpy_at_app by lia. done.
  - by destruct p; [|simpl in Hz; lia].
Qed.

(** After any sequence of receptions the mailbox holds the payload of the last
    packet that fitted its 64 bytes, with the number of accepted packets modulo
    [2^32] as generation: [read] returns exactly that payload at the front of a
    long enough output, leaving the rest of it, and fails on a shorter one or on
    a mailbox that accepted nothing. *)
Theorem mailbox_latest (packets : list PacketBuffer) (output : bytes) :
  read (receive_all packets) output =
    match list.last (accepted packets) with
    | Some p =>
        if zlen output <? zlen p then None
        else Some (p ++ drop (length p) output, zlen p, u32 (zlen (accepted packets)))
    | None => None
    end.
Proof. apply holds_read, receive_all_holds. Qed.
End Mailbox.

(** ** [EndpointReceiverQueue] *)

Module EndpointQueue.
Section endpoint_queue.
Context (kPayloadCapacity kQueueCapacity : Z).

(** [StoredPacket]: a packet buffer of the endpoint's payload capacity. *)
Definition StoredPacket : PacketBuffer := new_packet kPayloadCapacity.

Record EndpointReceiverQueue := { queue_ : Queue.Queue PacketBuffer }.

Definition empty : EndpointReceiverQueue :=
  {| queue_ := Queue.empty StoredPacket kQueueCapacity |}.

Definition receive (packet : PacketBuffer) (q : EndpointReceiverQueue)
    : ReceiveResult.t * EndpointReceiverQueue :=
  let '(ok, stored) := copyFrom false packet StoredPacket in
  if negb ok then (ReceiveResult.kRejected, q)
  else
    let '(ok, queue) := Queue.enqueue kQueueCapacity stored (queue_ q) in
    (if ok then ReceiveResult.kAccepted else ReceiveResult.kFull, {| queue_ := queue |}).

(** [dequeue(output)]: the result and the output packet afterwards. *)
Definition dequeue (output : PacketBuffer) (q : EndpointReceiverQueue)
    : bool * PacketBuffer * EndpointReceiverQueue :=
  if capacity output <? kPayloadCapacity then (false, output, q)
  else
    match Queue.dequeue StoredPacket kQueueCapacity (queue_ q) with
    | (None, queue) => (false, output, {| queue_ := queue |})
    | (Some stored, queue) =>
        let '(ok, output) := copyFrom false stored output in (ok, output, {| queue_ := queue |})
    end.

(** ** Runs *)

Inductive Op := Receive (packet : PacketBuffer) | Dequeue (output : PacketBuffer).

(** What is seen of a packet: header, ingress tag and payload. *)
Definition view (p : PacketBuffer) : Header * Z * bytes := (header p, ingressIndex p, payload p).

Inductive Outcome :=
  | Received (r : ReceiveResult.t)
  | Dequeued (packet : option (Header * Z * bytes)).

Definition exec (op : Op) (q : EndpointReceiverQueue) : Outcome * EndpointReceiverQueue :=
  match op with
  | Receive packet => let '(r, q) := receive packet q in (Received r, q)
  | Dequeue output =>
      let '(ok, output, q) := dequeue output q in
      (Dequeued (if ok then Some (view output) else None), q)
  end.

(** The endpoint as a bounded list of packet views. *)
Definition exec_fifo (op : Op) (l : list (Header * Z * bytes))
    : Outcome * list (Header * Z * bytes) :=
  match op with
  | Receive packet =>
      if kPayloadCapacity <? size packet then (Received ReceiveResult.kRejected, l)
      else if bool_decide (length l < Z.to_nat kQueueCapacity)%nat
      then (Received ReceiveResult.kAccepted, l ++ [view packet])
      else (Received ReceiveResult.kFull, l)
  | Dequeue output =>
      if capacity output <? kPayloadCapacity then (Dequeued None, l)
      else (Dequeued (head l), tail l)
  end.

Definition op_wf (op : Op) : Prop :=
  match op with Receive packet => packet_wf packet | Dequeue output => packet_wf output end.

Definition contents (q : EndpointReceiverQueue) : list PacketBuffer :=
  Queue.contents StoredPacket (queue_ q).

Record wf (q : EndpointReceiverQueue) : Prop := {
  wf_queue : Queue.wf kQueueCapacity (queue_ q);
  wf_stored : Forall (λ p, packet_wf p ∧ capacity p = kPayloadCapacity) (contents q);
}.

Hypothesis Hpayload : is_u16 kPayloadCapacity.
Hypothesis Hqueue : 0 < kQueueCapacity < 65536.

Lemma copy_view source this :
  packet_wf source → packet_wf this →
  let '(ok, this') := copyFrom false source this in
  ok = negb (capacity this <? size source) ∧ packet_wf this' ∧ capacity this' = capacity this ∧
  (ok = true → view this' = view source).
Proof.
  intros Hs Ht. pose proof (copyFrom_effect source this Hs Ht) as H.
  destruct (copyFrom false source this) as [[] this']; unfold view.
  - destruct H as (Hwf & Hle & -> & -> & _ & -> & -> & _).
    by rewrite (proj2 (Z.ltb_ge _ _)) by done.
  - destruct H as (Hwf & Hlt & ->). by rewrite (proj2 (Z.ltb_lt _ _)) by done.
Qed.

Lemma stored_wf : packet_wf StoredPacket.
Proof. by apply new_packet_wf. Qed.

Lemma endpoint_empty_wf : wf empty ∧ contents empty = [].
Proof.
  destruct (Queue.queue_empty_wf StoredPacket kQueueCapacity Hqueue) as [Hq Hc].
  unfold contents. simpl. split; [split; [done|]|done]. unfold contents. simpl. by rewrite Hc.
Qed.

Lemma endpoint_dequeue_spec output q :
  wf q → packet_wf output → kPayloadCapacity ≤ capacity output →
  let '(ok, output', q') := dequeue output q in
  packet_wf output' ∧ capacity output' = capacity output ∧ wf q' ∧
  match contents q with
  | [] => ok = false ∧ contents q' = []
  | stored :: l => ok = true ∧ view output' = view stored ∧ contents q' = l
  end.
Proof.
  intros [Hq Hst] Hout Hcap. unfold dequeue. rewrite (proj2 (Z.ltb_ge _ _)) by done.
  pose proof (Queue.queue_dequeue_spec StoredPacket kQueueCapacity Hqueue _ Hq) as Hdeq.
  destruct (Queue.dequeue StoredPacket kQueueCapacity (queue_ q)) as [r queue].
  destruct Hdeq as (Hq' & -> & Hc). fold (contents q) in *.
  change (Queue.contents StoredPacket queue) with (contents {| queue_ := queue |}) in Hc.
  destruct (contents q) as [|stored l]; simpl in *.
  { split_and!; try done. split; [done|by rewrite Hc]. }
  apply list.Forall_cons in Hst as [[Hwf Hcap'] Hst].
  pose proof (copy_view stored output Hwf Hout) as Hcopy.
  destruct (copyFrom false stored output) as [ok output'].
  destruct Hcopy as (-> & Hwf' & Hcap'' & Hview).
  rewrite (proj2 (Z.ltb_ge _ _)) in * by (pose proof (pwf_size _ Hwf); lia).
  split_and!; try done; [split; [done|by rewrite Hc]|by apply Hview].
Qed.

Lemma endpoint_exec_refines op q :
  wf q ∧ op_wf op →
  wf (exec op q).2 ∧
  exec_fifo op (view <$> contents q) = ((exec op q).1, view <$> contents (exec op q).2).
Proof.
  intros [[Hq Hst] Hop]. destruct op as [packet|output]; simpl in *.
  - unfold receive. pose proof (copy_view packet StoredPacket Hop stored_wf) as Hcopy.
    destruct (copyFrom false packet StoredPacket) as [ok stored].
    destruct Hcopy as (-> & Hwf & Hcap & Hview). change (capacity StoredPacket) with kPayloadCapacity in *.
    destruct (kPayloadCapacity <? size packet); simpl in *; [done|].
    pose proof (Queue.queue_enqueue_spec StoredPacket kQueueCapacity Hqueue stored _ Hq) as Henq.
    destruct (Queue.enqueue kQueueCapacity stored (queue_ q)) as [ok queue].
    destruct Henq as (Hq' & -> & Hc). rewrite length_fmap. fold (contents q) in *.
    change (Queue.contents StoredPacket queue) with (contents {| queue_ := queue |}) in Hc.
    case_bool_decide; simpl; rewrite Hc; (split; [split; [done|rewrite Hc]|]); try done.
    + by apply Forall_app_2; [|apply Forall_singleton].
    + rewrite fmap_app. simpl. by rewrite Hview.
  - pose proof (endpoint_dequeue_spec output q (Build_wf _ Hq Hst) Hop) as Hdeq.
    destruct (Z.ltb_spec (capacity output) kPayloadCapacity) as [Hlt|Hle].
    { unfold dequeue. by rewrite (proj2 (Z.ltb_lt _ _)) by done. }
    specialize (Hdeq Hle). destruct (dequeue output q) as [[ok output'] q'].
    destruct Hdeq as (_ & _ & Hq' & Hres). split; [done|].
    destruct (contents q) as [|stored l]; simpl.
    + by destruct Hres as [-> ->].
    + by destruct Hres as (-> & -> & ->).
Qed.

Lemma run_wf ops q :
  wf q → Forall op_wf ops →
  let '(os, q') := run_ops exec ops q in
  wf q' ∧ run_ops exec_fifo ops (view <$> contents q) = (os, view <$> contents q').
Proof.
  intros Hq Hops. revert q Hq. induction Hops as [|op ops Hop _ IH]; intros q Hq; simpl; [done|].
  destruct (endpoint_exec_refines op q (conj Hq Hop)) as [Hq1 ->]. destruct (exec op q) as [o q1]. simpl in *.
  specialize (IH q1 Hq1). destruct (run_ops exec ops q1) as [os q2].
  destruct IH as [? ->]. done.
Qed.

(** From the constructed endpoint, any sequence of [receive] and [dequeue]
    calls behaves as a FIFO list of at most [kQueueCapacity] packets: a packet
    whose payload does not fit is rejected, one beyond the capacity is refused
    as full, every accepted packet is dequeued once, in order, with its header,
    ingress tag and payload, and a dequeue into too small a buffer fails
    without losing a packet. *)
Theorem endpoint_queue_fifo ops :
  Forall op_wf ops →
  let '(outcomes, q) := run_ops exec ops empty in
  wf q ∧ run_ops exec_fifo ops [] = (outcomes, view <$> contents q).
Proof.
  intros Hops. destruct endpoint_empty_wf as [Hwf Hc]. pose proof (run_wf ops empty Hwf Hops) as H.
  by rewrite Hc in H.
Qed.
End endpoint_queue.

Definition demo_packet (ingress : Z) (p : bytes) : PacketBuffer :=
  write_payload 0 p (setIngressIndex ingress (set_size (zlen p) (new_packet 6))).

Definition demo_ops : list Op :=
  [Receive (demo_packet 1 [7; 8]); Receive (demo_packet 0 [1; 2; 3; 4; 5]);
   Receive (demo_packet 2 [9]); Receive (demo_packet 3 [6]); Dequeue (new_packet 3);
   Dequeue (new_packet 4); Dequeue (new_packet 5); Dequeue (new_packet 4)].

Lemma endpoint_queue_fifo_witness :
  (run_ops (exec 4 2) demo_ops (empty 4 2)).1 =
    [Received ReceiveResult.kAccepted; Received ReceiveResult.kRejected;
     Received ReceiveResult.kAccepted; Received ReceiveResult.kFull; Dequeued None;
     Dequeued (Some (empty_header, 1, [7; 8])); Dequeued (Some (empty_header, 2, [9]));
     Dequeued None] ∧
  (let '(outcomes, q) := run_ops (exec 4 2) demo_ops (empty 4 2) in
   wf 4 2 q ∧ run_ops (exec_fifo 4 2) demo_ops [] = (outcomes, view <$> contents 4 q)).
Proof.
  split; [reflexivity|]. apply (endpoint_queue_fifo 4 2); [by_evaluation|lia|].
  repeat constructor; by_evaluation.
Defined.
End EndpointQueue.

(** ** Domains *)

Module Domain.

Record PublicationConfig := {
  publication_wire : WireNumber;
  publication_destination : HostId;
}.

(** The identity and the routes of the context's router. *)
Record DomainContext := {
  host_ : HostInfo;
  router_ : list RouteTableEntry;
}.

Definition connection (d : DomainContext) (publication : PublicationConfig)
    (e : EndpointAddress) : ConnectionAddress :=
  {| conn_wire := publication_wire publication; conn_local_host := host_id (host_ d);
     conn_remote_host := publication_destination publication; conn_endpoint := e |}.

Definition domainReceive {R W} `{!EndpointReceiver R W, !PacketForwarder W} (d : DomainContext)
    (packet : PacketBuffer) (ingress_index : Z) (dispatcher : list (DispatchTableEntry R))
    : State W (IngressResult * PacketBuffer) :=
  routerReceive (router_ d) dispatcher packet ingress_index (host_ d).

(** The environment of a local domain: the process-global identity, the
    forwarder's last result and whatever the receivers keep. *)
Record LocalWorld (W : Type) := mkLocalWorld {
  g_host_info : HostInfo;
  last_result_ : DispatchResult.t;
  receivers : W;
}.
Arguments mkLocalWorld {W}.
Arguments g_host_info {W}.
Arguments last_result_ {W}.
Arguments receivers {W}.

Definition set_last_result {W} (r : DispatchResult.t) (w : LocalWorld W) : LocalWorld W :=
  mkLocalWorld (g_host_info w) r (receivers w).

#[export] Instance LocalWorld_receiver {R W} `{!EndpointReceiver R W}
    : EndpointReceiver R (LocalWorld W) :=
  λ receiver packet w,
    let '(r, ws) := receiver_receive receiver packet (receivers w) in
    (r, mkLocalWorld (g_host_info w) (last_result_ w) ws).

Definition localHostInfo {W} : State (LocalWorld W) HostInfo := gets g_host_info.
Definition setLocalHostInfo {W} (host_info : HostInfo) : State (LocalWorld W) unit :=
  modify (λ w, mkLocalWorld host_info (last_result_ w) (receivers w)).

Section local.
Context {R W : Type} `{!EndpointReceiver R W}.

(** [Dispatcher::dispatch(packet)], with the process-global identity. *)
Definition dispatchLocal (entries : list (DispatchTableEntry R)) (packet : PacketBuffer)
    : State (LocalWorld W) DispatchResult.t :=
  host ← localHostInfo;
  dispatch entries packet host.

(** [LocalDispatchForwarder::forward]. *)
Definition localForward (dispatcher : list (DispatchTableEntry R)) (packet : PacketBuffer)
    (egress_set : Z) : State (LocalWorld W) RouteResult.t :=
  result ← dispatchLocal dispatcher packet;
  modify (set_last_result result);;
  mret
    (if bool_decide (result = DispatchResult.kAccepted) then RouteResult.kAccepted
     else if bool_decide (result = DispatchResult.kFull) then RouteResult.kFull
     else RouteResult.kRejected).

(** [Router::receive(packet, ingress_index, dispatcher)], with the process-global
    identity. *)
Definition routerReceiveLocal `{!PacketForwarder (LocalWorld W)} (entries : list RouteTableEntry)
    (dispatcher : list (DispatchTableEntry R)) (packet : PacketBuffer) (ingress_index : Z)
    : State (LocalWorld W) (IngressResult * PacketBuffer) :=
  host ← localHostInfo;
  routerReceive entries dispatcher packet ingress_index host.
End local.

Definition LocalDispatchForwarder {R W} `{!EndpointReceiver R W}
    (dispatcher : list (DispatchTableEntry R)) : PacketForwarder (LocalWorld W) :=
  localForward dispatcher.

(** ** Dispatch and forwarding in the local environment *)

Definition with_receivers {W} (w : LocalWorld W) (ws : W) : LocalWorld W :=
  mkLocalWorld (g_host_info w) (last_result_ w) ws.

Lemma dispatchLoop_local {R W} `{!EndpointReceiver R W} (entries : list (DispatchTableEntry R))
    broadcast host packet aggregate (w : LocalWorld W) :
  dispatchLoop (W := LocalWorld W) entries broadcast host packet aggregate w =
    let '(r, ws) := dispatchLoop entries broadcast host packet aggregate (receivers w) in
    (r, with_receivers w ws).
Proof.
  revert aggregate w. induction entries as [|[e receiver] entries IH]; intros aggregate w.
  { by destruct w. }
  cbn [dispatchLoop entry_receiver entry_endpoint]. destruct receiver as [receiver|]; [|apply IH].
  destruct (negb (bool_decide _)); [apply IH|]. destruct (_ && _); [apply IH|].
  unfold mbind, State_bind. unfold receiver_receive at 1, LocalWorld_receiver.
  destruct (receiver_receive receiver packet (receivers w)) as [received ws].
  destruct (negb broadcast); [done|]. rewrite IH. done.
Qed.

Lemma dispatch_local {R W} `{!EndpointReceiver R W} (entries : list (DispatchTableEntry R))
    packet host (w : LocalWorld W) :
  dispatch (W := LocalWorld W) entries packet host w =
    let '(r, ws) := dispatch entries packet host (receivers w) in (r, with_receivers w ws).
Proof.
  unfold dispatch. destruct (negb (hasSupportedControl _)); [by destruct w|].
  destruct (_ && _); [by destruct w|apply dispatchLoop_local].
Qed.

(** The local forwarder's answer for a dispatch result. *)
Definition local_route (r : DispatchResult.t) : RouteResult.t :=
  match r with
  | DispatchResult.kAccepted => RouteResult.kAccepted
  | DispatchResult.kFull => RouteResult.kFull
  | _ => RouteResult.kRejected
  end.

Lemma localForward_eq {R W} `{!EndpointReceiver R W} (entries : list (DispatchTableEntry R))
    packet egress (w : LocalWorld W) :
  localForward entries packet egress w =
    let '(r, ws) := dispatch entries packet (g_host_info w) (receivers w) in
    (local_route r, mkLocalWorld (g_host_info w) r ws).
Proof.
  unfold localForward, dispatchLocal, localHostInfo, gets, mbind, State_bind.
  rewrite dispatch_local. destruct (dispatch entries packet _ _) as [[] ws]; done.
Qed.

(** A router over a [LocalDispatchForwarder]: a packet of local origin on a
    wire without a route is [kNoRoute] and reaches no receiver; on a routed wire
    it is offered to exactly the receivers it is addressed to at the
    process-global host, the dispatch result is kept as the last result, and the
    route result is accepted or full when that is, and rejected when a receiver
    rejects or none is addressed. *)
Theorem local_domain_delivery {R W} `{!EndpointReceiver R W} (routes : list RouteTableEntry)
    (dispatcher : list (DispatchTableEntry R)) (packet : PacketBuffer) (host : HostInfo)
    (previous : DispatchResult.t) (w : W) :
  ingressIndex packet = 0 → Forall (λ e, is_u8 (wire_interfaces e)) routes →
  let start := mkLocalWorld host previous (w, []) in
  let out := routerForward (W := LocalWorld (Offered R W))
    (PacketForwarder0 := LocalDispatchForwarder dispatcher) routes packet start in
  if bool_decide (Exists (λ e, route_wire e = wire (header packet)) routes) then
    let log := (receivers out.2).2 in
    out.1 = local_route (last_result_ out.2) ∧
    g_host_info out.2 = host ∧
    fst <$> log = addressed dispatcher packet host ∧
    if hasSupportedControl (header packet) then best (snd <$> log) (last_result_ out.2)
    else last_result_ out.2 = DispatchResult.kRejected
  else out = (RouteResult.kNoRoute, start).
Proof.
  intros Hing Hroutes. cbv zeta.
  pose proof (routerForward_origin (W := LocalWorld (Offered R W))
    (PacketForwarder0 := LocalDispatchForwarder dispatcher) routes packet
    (mkLocalWorld host previous (w, [])) Hing Hroutes) as Hfwd.
  destruct (find _ routes) as [e|] eqn:Hfind; rewrite Hfwd.
  - apply find_some in Hfind as [Hin%list_elem_of_In Hwire%bool_decide_eq_true].
    rewrite bool_decide_eq_true_2 by (apply list.Exists_exists; eauto).
    unfold forwarder_forward, LocalDispatchForwarder. rewrite localForward_eq.
    pose proof (dispatch_offered dispatcher packet host w) as Hdisp. cbn [g_host_info receivers].
    destruct (dispatch (W := Offered R W) dispatcher packet host (w, [])) as [r [w' log]].
    done.
  - rewrite bool_decide_eq_false_2; [done|]. rewrite list.Exists_exists. intros (e & Hin & Hwire).
    apply list_elem_of_In, (find_none _ _ Hfind), bool_decide_eq_false in Hin. contradiction.
Qed.

Import Routing.Demo.

Lemma local_domain_delivery_witness :
  let routes := [mkRouteTableEntry (mkWireNumber 3) 0] in
  let dispatcher := [mkDispatchTableEntry (mkEndpointAddress 9) (Some 1%nat);
                     mkDispatchTableEntry (mkEndpointAddress 9) (Some 0%nat)] in
  let host := {| host_id := mkHostId 5; wire_count := 1; wires := [mkWireNumber 3] |} in
  let packet := Routing.demo_packet 0 in
  let start := mkLocalWorld host DispatchResult.kNoEndpoint (99, []) in
  let out := routerForward (W := LocalWorld (Offered nat Z))
    (PacketForwarder0 := LocalDispatchForwarder dispatcher) routes packet start in
  if bool_decide (Exists (λ e, route_wire e = wire (header packet)) routes) then
    let log := (receivers out.2).2 in
    out.1 = local_route (last_result_ out.2) ∧
    g_host_info out.2 = host ∧
    fst <$> log = addressed dispatcher packet host ∧
    if hasSupportedControl (header packet) then best (snd <$> log) (last_result_ out.2)
    else last_result_ out.2 = DispatchResult.kRejected
  else out = (RouteResult.kNoRoute, start).
Proof.
  apply (local_domain_delivery (R := nat) [mkRouteTableEntry (mkWireNumber 3) 0]
    [mkDispatchTableEntry (mkEndpointAddress 9) (Some 1%nat);
     mkDispatchTableEntry (mkEndpointAddress 9) (Some 0%nat)] (Routing.demo_packet 0)
    {| host_id := mkHostId 5; wire_count := 1; wires := [mkWireNumber 3] |}); by_evaluation.
Defined.
End Domain.

(** ** A store of receivers

    The endpoints of an application, addressed by index, as an implementation of
    the interface dispatch is proved against; a [TransportFilterReceiver] is a
    wrapper of another receiver. *)

Module Store.

Inductive Endpoint :=
  | Snapshot (m : Mailbox.EndpointSnapshotReceiver)
  | Queued (kPayloadCapacity kQueueCapacity : Z) (q : EndpointQueue.EndpointReceiverQueue).

Inductive Receiver :=
  | Direct (index : nat)
  | Filtered (inner : Receiver) (transport : TransportType).

Definition endpointReceive (packet : PacketBuffer) (e : Endpoint) : ReceiveResult.t * Endpoint :=
  match e with
  | Snapshot m => let '(r, m) := Mailbox.receive packet m in (r, Snapshot m)
  | Queued pc qc q =>
      let '(r, q) := EndpointQueue.receive pc qc packet q in (r, Queued pc qc q)
  end.

(** The index of a receiver that exists; a null pointer is skipped by dispatch. *)
Fixpoint storeReceive (receiver : Receiver) (packet : PacketBuffer)
    : State (list Endpoint) ReceiveResult.t :=
  match receiver with
  | Direct index => λ store,
      match store !! index with
      | Some e => let '(r, e) := endpointReceive packet e in (r, <[index := e]> store)
      | None => (ReceiveResult.kRejected, store)
      end
  | Filtered inner transport =>
      filteredReceive (R := unit) (EndpointReceiver0 := λ _ packet, storeReceive inner packet)
        tt transport packet
  end.

#[export] Instance store_receiver : EndpointReceiver Receiver (list Endpoint) := storeReceive.

Lemma filtered_mailbox packet store index m :
  hasSupportedControl (header packet) = true → transportType (header packet) = kSimple →
  store !! index = Some (Snapshot m) →
  storeReceive (Filtered (Direct index) kSimple) packet store =
    let '(r, m') := Mailbox.receive packet m in (r, <[index := Snapshot m']> store).
Proof.
  intros Hsup Htype Hm. cbn [storeReceive]. unfold filteredReceive.
  rewrite Hsup, Htype, Z.eqb_refl. unfold receiver_receive. simpl. rewrite Hm. simpl.
  by destruct (Mailbox.receive packet m).
Qed.

(** C25: End to end in a local domain: a simple-transport packet of local origin on
    a routed wire, addressed to this host, is accepted by the transport-filtered
    mailbox registered first for its endpoint; reading the mailbox afterwards
    gives the payload just sent with the next generation, and no other endpoint
    changes. *)
Theorem local_mailbox_delivery (routes : list RouteTableEntry)
    (dispatcher : list (DispatchTableEntry Receiver)) (packet : PacketBuffer) (host : HostInfo)
    (previous : DispatchResult.t) (store : list Endpoint) (index : nat)
    (received : list bytes) (m : Mailbox.EndpointSnapshotReceiver) :
  ingressIndex packet = 0 → Forall (λ e, is_u8 (wire_interfaces e)) routes →
  Exists (λ e, route_wire e = wire (header packet)) routes →
  hasSupportedControl (header packet) = true → transportType (header packet) = kSimple →
  destination (header packet) = host_id host → isBroadcast (host_id host) = false →
  head (registered dispatcher (endpoint (header packet))) = Some (Filtered (Direct index) kSimple) →
  store !! index = Some (Snapshot m) → Mailbox.holds received m →
  zlen (payload packet) ≤ Mailbox.kDefaultEndpointStorageCapacity →
  let out := routerForward (PacketForwarder0 := Domain.LocalDispatchForwarder dispatcher)
    routes packet (Domain.mkLocalWorld host previous store) in
  out.1 = RouteResult.kAccepted ∧
  ∃ m', Domain.receivers out.2 = <[index := Snapshot m']> store ∧
    Mailbox.read m' (replicate 64 0) =
      Some (payload packet ++ replicate (64 - length (payload packet)) 0,
            zlen (payload packet), u32 (zlen received + 1)).
Proof.
  intros Hing Hroutes Hroute Hsup Htype Hdest Hbc Hreg Hm Hheld Hfit. cbv zeta.
  pose proof (routerForward_origin (PacketForwarder0 := Domain.LocalDispatchForwarder dispatcher)
    routes packet (Domain.mkLocalWorld host previous store) Hing Hroutes) as Hfwd.
  destruct (find _ routes) as [e|] eqn:Hfind.
  2:{ apply list.Exists_exists in Hroute as (e & Hin & Hwire).
      apply list_elem_of_In, (find_none _ _ Hfind), bool_decide_eq_false in Hin. contradiction. }
  rewrite Hfwd. unfold forwarder_forward, Domain.LocalDispatchForwarder.
  rewrite Domain.localForward_eq. cbn [Domain.g_host_info Domain.receivers].
  assert (Hdisp : dispatch dispatcher packet host store =
    let '(r, st) := receiver_receive (Filtered (Direct index) kSimple) packet store in
    (toDispatchResult r, st)).
  { rewrite dispatch_addressed. unfold addressed. rewrite Hsup, Hdest, Hbc. simpl.
    rewrite decide_True by done. destruct (registered dispatcher _) as [|r rs]; [done|].
    injection Hreg as ->. simpl. unfold mbind, State_bind.
    by destruct (receiver_receive _ packet store) as [[] st]. }
  rewrite Hdisp. unfold receiver_receive, store_receiver.
  rewrite (filtered_mailbox packet store index m) by done.
  pose proof (Mailbox.receive_holds received packet m Hheld) as Hrecv.
  rewrite (proj2 (Z.leb_le _ _)) in Hrecv by done.
  destruct (Mailbox.receive packet m) as [r m']. destruct Hrecv as [-> Hheld'].
  split; [done|]. exists m'. split; [done|].
  rewrite (Mailbox.holds_read _ _ _ Hheld'), last_snoc.
  rewrite (proj2 (Z.ltb_ge _ _)) by (unfold zlen in *; rewrite length_replicate; done).
  rewrite drop_replicate. do 3 f_equal. unfold zlen. rewrite length_app. simpl. lia.
Qed.

Definition demo_store : list Endpoint :=
  [Snapshot Mailbox.empty; Queued 4 2 (EndpointQueue.empty 4 2)].

Lemma local_mailbox_delivery_witness :
  let packet := write_payload 0 [7; 8] (set_size 2 (set_header
    {| control := 0; wire := mkWireNumber 3; source := mkHostId 5; destination := mkHostId 5;
       endpoint := mkEndpointAddress 9 |} (new_packet 4))) in
  let out := routerForward (PacketForwarder0 := Domain.LocalDispatchForwarder
      [mkDispatchTableEntry (mkEndpointAddress 8) (Some (Direct 1));
       mkDispatchTableEntry (mkEndpointAddress 9) (Some (Filtered (Direct 0) kSimple))])
    [mkRouteTableEntry (mkWireNumber 3) 0] packet
    (Domain.mkLocalWorld {| host_id := mkHostId 5; wire_count := 0; wires := [] |}
       DispatchResult.kNoEndpoint demo_store) in
  out.1 = RouteResult.kAccepted ∧
  ∃ m', Domain.receivers out.2 = <[0%nat := Snapshot m']> demo_store ∧
    Mailbox.read m' (replicate 64 0) =
      Some (payload packet ++ replicate (64 - length (payload packet)) 0,
            zlen (payload packet), u32 (zlen (@nil bytes) + 1)).
Proof.
  apply (local_mailbox_delivery [mkRouteTableEntry (mkWireNumber 3) 0]
    [mkDispatchTableEntry (mkEndpointAddress 8) (Some (Direct 1));
     mkDispatchTableEntry (mkEndpointAddress 9) (Some (Filtered (Direct 0) kSimple))]
    (write_payload 0 [7; 8] (set_size 2 (set_header
       {| control := 0; wire := mkWireNumber 3; source := mkHostId 5; destination := mkHostId 5;
          endpoint := mkEndpointAddress 9 |} (new_packet 4))))
    {| host_id := mkHostId 5; wire_count := 0; wires := [] |} DispatchResult.kNoEndpoint
    demo_store 0 [] Mailbox.empty); first [reflexivity | split; reflexivity | by_evaluation].
Defined.
End Store.
