(* ===== verification/BitsCodec.v ===== *)
(** * BITS messages and their wire codec
      ([transports/bits/protocol.h], [transports/bits/codec.h], [codec.cpp])

    An encoder takes the contents of its output span and returns them after the
    call, [None] when it returns [false] and leaves the span alone; a decoder
    returns the fields it stores through its reference argument, [None] when it
    returns [false]. *)

From S2P Require Import Prelude.
Local Open Scope Z_scope.

(** ** Protocol constants and message types *)

Definition kProtocolVersion : Z := 0.
Definition kCompactProfile : Z := 0.
Definition kCompactWindowWidth : Z := 16.

Definition kSetupSize : Z := 10.
Definition kSegmentHeaderSize : Z := 4.
Definition kAckSize : Z := 6.
Definition kProbeSize : Z := 2.
Definition kRejectSize : Z := 3.
Definition kAbortSize : Z := 2.
Definition kUserDatagramHeaderSize : Z := 1.
Definition kMaximumCompactSegmentCount : Z := 65536.

Inductive MessageType :=
  | kSetup | kSegment | kAck | kProbe | kReject | kUserDatagram | kAbort.

#[export] Instance MessageType_eq_dec : EqDecision MessageType.
Proof. solve_decision. Defined.

Definition type_value (t : MessageType) : Z :=
  match t with
  | kSetup => 0 | kSegment => 1 | kAck => 2 | kProbe => 3 | kReject => 4
  | kUserDatagram => 5 | kAbort => 6
  end.

(** [static_cast<MessageType>(v)] of a value [decodeControl] has checked. *)
Definition type_cast (v : Z) : MessageType :=
  if v =? 0 then kSetup else if v =? 1 then kSegment else if v =? 2 then kAck
  else if v =? 3 then kProbe else if v =? 4 then kReject
  else if v =? 5 then kUserDatagram else kAbort.

Record Control := mkControl { version : Z; profile : Z; type : MessageType }.

Record Setup := mkSetup {
  setup_session_id : Z;
  initial_sequence_number : Z;
  final_segment_index : Z;
  segment_size : Z;
  final_segment_size : Z;
}.

Definition empty_setup : Setup := mkSetup 0 0 0 0 0.

Definition setupSegmentCount (s : Setup) : Z := u32 (u32 (final_segment_index s) + 1).

Definition setupTotalSize (s : Setup) : Z :=
  u32 (u32 (u32 (final_segment_index s) * segment_size s) + final_segment_size s).

Record SegmentHeader := mkSegmentHeader { seg_session_id : Z; segment_index : Z }.

Record Ack := mkAck {
  ack_session_id : Z;
  window_bitmap : Z;
  max_receive_sequence : Z;
  window_base : Z;
}.

Record Probe := mkProbe { probe_session_id : Z }.

Inductive RejectReason :=
  | kUnsupportedVersion | kUnsupportedProfile | kUnsupportedSegmentSize
  | kObjectTooLarge | kBusy | kInvalidArgument | kInternalError.

#[export] Instance RejectReason_eq_dec : EqDecision RejectReason.
Proof. solve_decision. Defined.

Definition reason_value (r : RejectReason) : Z :=
  match r with
  | kUnsupportedVersion => 0 | kUnsupportedProfile => 1 | kUnsupportedSegmentSize => 2
  | kObjectTooLarge => 3 | kBusy => 4 | kInvalidArgument => 5 | kInternalError => 6
  end.

Definition reason_cast (v : Z) : RejectReason :=
  if v =? 0 then kUnsupportedVersion else if v =? 1 then kUnsupportedProfile
  else if v =? 2 then kUnsupportedSegmentSize else if v =? 3 then kObjectTooLarge
  else if v =? 4 then kBusy else if v =? 5 then kInvalidArgument else kInternalError.

Record Reject := mkReject { reject_session_id : Z; reason : RejectReason }.

(** [struct Abort]. *)
Record AbortMessage := mkAbort { abort_session_id : Z }.

#[export] Instance Setup_eq_dec : EqDecision Setup.
Proof. solve_decision. Defined.
#[export] Instance Ack_eq_dec : EqDecision Ack.
Proof. solve_decision. Defined.

(** ** Codec *)

Definition kProfileMask : Z := 0x80.
Definition kProfileShift : Z := 7.
Definition kVersionMask : Z := 0x70.
Definition kVersionShift : Z := 4.
Definition kTypeMask : Z := 0x0F.

Definition writeU16 (value : Z) : bytes := [u8 value; u8 (Z.shiftr value 8)].

Definition readU16 (input : bytes) (off : nat) : Z :=
  u16 (Z.lor (u16 (byte_at input off)) (u16 (Z.shiftl (u16 (byte_at input (S off))) 8))).

Definition encodeControl (t : MessageType) : Z :=
  u8 (Z.lor (Z.lor (Z.shiftl kCompactProfile kProfileShift)
                   (Z.shiftl kProtocolVersion kVersionShift)) (type_value t)).

Definition decodeControl (encoded : Z) : option Control :=
  let profile := u8 (Z.shiftr (Z.land encoded kProfileMask) kProfileShift) in
  let version := u8 (Z.shiftr (Z.land encoded kVersionMask) kVersionShift) in
  let type := u8 (Z.land encoded kTypeMask) in
  if negb (profile =? kCompactProfile) || negb (version =? kProtocolVersion)
     || (type_value kAbort <? type)
  then None
  else Some (mkControl version profile (type_cast type)).

Definition hasType (input : bytes) (expected : MessageType) : bool :=
  match input with
  | [] => false
  | encoded :: _ =>
      match decodeControl encoded with
      | Some control => bool_decide (type control = expected)
      | None => false
      end
  end.

Definition encodeSetup (s : Setup) (output : bytes) : option bytes :=
  if zlen output <? kSetupSize then None
  else Some (memcpy_at 0
    ([encodeControl kSetup; setup_session_id s; initial_sequence_number s; 0]
     ++ writeU16 (final_segment_index s) ++ writeU16 (segment_size s)
     ++ writeU16 (final_segment_size s)) output).

Definition decodeSetupKnownType (input : bytes) : option Setup :=
  if negb (zlen input =? kSetupSize) || negb (byte_at input 3 =? 0) then None
  else Some (mkSetup (byte_at input 1) (byte_at input 2) (readU16 input 4)
               (readU16 input 6) (readU16 input 8)).

Definition decodeSetup (input : bytes) : option Setup :=
  if hasType input kSetup then decodeSetupKnownType input else None.

Definition encodeSegmentHeader (h : SegmentHeader) (output : bytes) : option bytes :=
  if zlen output <? kSegmentHeaderSize then None
  else Some (memcpy_at 0
    ([encodeControl kSegment; seg_session_id h] ++ writeU16 (segment_index h)) output).

Definition decodeSegmentHeaderKnownType (input : bytes) : option SegmentHeader :=
  if zlen input <? kSegmentHeaderSize then None
  else Some (mkSegmentHeader (byte_at input 1) (readU16 input 2)).

Definition decodeSegmentHeader (input : bytes) : option SegmentHeader :=
  if hasType input kSegment then decodeSegmentHeaderKnownType input else None.

Definition encodeAck (a : Ack) (output : bytes) : option bytes :=
  if zlen output <? kAckSize then None
  else Some (memcpy_at 0
    ([encodeControl kAck; ack_session_id a] ++ writeU16 (window_bitmap a)
     ++ [max_receive_sequence a; window_base a]) output).

Definition decodeAckKnownType (input : bytes) : option Ack :=
  if negb (zlen input =? kAckSize) then None
  else Some (mkAck (byte_at input 1) (readU16 input 2) (byte_at input 4) (byte_at input 5)).

Definition decodeAck (input : bytes) : option Ack :=
  if hasType input kAck then decodeAckKnownType input else None.

Definition encodeProbe (p : Probe) (output : bytes) : option bytes :=
  if zlen output <? kProbeSize then None
  else Some (memcpy_at 0 [encodeControl kProbe; probe_session_id p] output).

Definition decodeProbeKnownType (input : bytes) : option Probe :=
  if negb (zlen input =? kProbeSize) then None else Some (mkProbe (byte_at input 1)).

Definition decodeProbe (input : bytes) : option Probe :=
  if hasType input kProbe then decodeProbeKnownType input else None.

Definition encodeReject (r : Reject) (output : bytes) : option bytes :=
  if zlen output <? kRejectSize then None
  else Some (memcpy_at 0
    [encodeControl kReject; reject_session_id r; u8 (reason_value (reason r))] output).

Definition decodeRejectKnownType (input : bytes) : option Reject :=
  if negb (zlen input =? kRejectSize) || (reason_value kInternalError <? byte_at input 2)
  then None
  else Some (mkReject (byte_at input 1) (reason_cast (byte_at input 2))).

Definition decodeReject (input : bytes) : option Reject :=
  if hasType input kReject then decodeRejectKnownType input else None.

Definition encodeAbort (a : AbortMessage) (output : bytes) : option bytes :=
  if zlen output <? kAbortSize then None
  else Some (memcpy_at 0 [encodeControl kAbort; abort_session_id a] output).

Definition decodeAbortKnownType (input : bytes) : option AbortMessage :=
  if negb (zlen input =? kAbortSize) then None else Some (mkAbort (byte_at input 1)).

Definition decodeAbort (input : bytes) : option AbortMessage :=
  if hasType input kAbort then decodeAbortKnownType input else None.

Definition encodeUserDatagram (payload output : bytes) : option bytes :=
  if zlen output <? zlen payload + kUserDatagramHeaderSize then None
  else
    let output := memcpy_at 0 [encodeControl kUserDatagram] output in
    Some (if bool_decide (payload = []) then output
          else memcpy_at (Z.to_nat kUserDatagramHeaderSize) payload output).

Definition decodeUserDatagramKnownType (input : bytes) : option bytes :=
  if bool_decide (input = []) then None
  else Some (drop (Z.to_nat kUserDatagramHeaderSize) input).

Definition decodeUserDatagram (input : bytes) : option bytes :=
  if hasType input kUserDatagram then decodeUserDatagramKnownType input else None.

(** ** Specification: the wire layout of the seven messages *)

(** A segment message is its header here; the segment payload follows it. *)
Inductive Message :=
  | MSetup (s : Setup) | MSegment (h : SegmentHeader) | MAck (a : Ack) | MProbe (p : Probe)
  | MReject (r : Reject) | MUserDatagram (payload : bytes) | MAbort (a : AbortMessage).

Definition le16 (x : Z) : bytes := [x mod 256; x / 256].

Definition layout (m : Message) : bytes :=
  match m with
  | MSetup s => [0; setup_session_id s; initial_sequence_number s; 0]
      ++ le16 (final_segment_index s) ++ le16 (segment_size s) ++ le16 (final_segment_size s)
  | MSegment h => [1; seg_session_id h] ++ le16 (segment_index h)
  | MAck a => [2; ack_session_id a] ++ le16 (window_bitmap a)
      ++ [max_receive_sequence a; window_base a]
  | MProbe p => [3; probe_session_id p]
  | MReject r => [4; reject_session_id r; reason_value (reason r)]
  | MUserDatagram payload => 5 :: payload
  | MAbort a => [6; abort_session_id a]
  end.

(** A segment message with its payload. *)
Definition segment_with (session index : Z) (payload : bytes) : bytes :=
  layout (MSegment (mkSegmentHeader session index)) ++ payload.

(** The field widths. *)
Definition message_wf (m : Message) : Prop :=
  match m with
  | MSetup s => is_u8 (setup_session_id s) ∧ is_u8 (initial_sequence_number s) ∧
      is_u16 (final_segment_index s) ∧ is_u16 (segment_size s) ∧ is_u16 (final_segment_size s)
  | MSegment h => is_u8 (seg_session_id h) ∧ is_u16 (segment_index h)
  | MAck a => is_u8 (ack_session_id a) ∧ is_u16 (window_bitmap a) ∧
      is_u8 (max_receive_sequence a) ∧ is_u8 (window_base a)
  | MProbe p => is_u8 (probe_session_id p)
  | MReject r => is_u8 (reject_session_id r)
  | MUserDatagram payload => is_bytes payload
  | MAbort a => is_u8 (abort_session_id a)
  end.

(** The code's encoder and decoder of each message. *)
Definition encodeMessage (m : Message) (output : bytes) : option bytes :=
  match m with
  | MSetup s => encodeSetup s output
  | MSegment h => encodeSegmentHeader h output
  | MAck a => encodeAck a output
  | MProbe p => encodeProbe p output
  | MReject r => encodeReject r output
  | MUserDatagram payload => encodeUserDatagram payload output
  | MAbort a => encodeAbort a output
  end.

Definition decodes (input : bytes) (m : Message) : Prop :=
  match m with
  | MSetup s => decodeSetup input = Some s
  | MSegment h => decodeSegmentHeader input = Some h
  | MAck a => decodeAck input = Some a
  | MProbe p => decodeProbe input = Some p
  | MReject r => decodeReject input = Some r
  | MUserDatagram payload => decodeUserDatagram input = Some payload
  | MAbort a => decodeAbort input = Some a
  end.

(** Only a segment message has bytes after its layout. *)
Definition is_message (input : bytes) (m : Message) : Prop :=
  match m with
  | MSegment _ => ∃ segment_payload, input = layout m ++ segment_payload
  | _ => input = layout m
  end.

(** ** Codec lemmas *)

Lemma writeU16_le16 x : is_u16 x → writeU16 x = le16 x.
Proof. intros Hx. unfold writeU16, le16. rewrite shiftr8. f_equal; f_equal. word_lia. Qed.

(** The two halves of a word read from a byte string. *)
Lemma readU16_lo (input : bytes) off :
  is_u8 (byte_at input off) → is_u8 (byte_at input (S off)) →
  readU16 input off mod 256 = byte_at input off.
Proof. intros H1 H2. unfold readU16. rewrite le16_join by done. word_lia. Qed.

Lemma readU16_hi (input : bytes) off :
  is_u8 (byte_at input off) → is_u8 (byte_at input (S off)) →
  readU16 input off / 256 = byte_at input (S off).
Proof. intros H1 H2. unfold readU16. rewrite le16_join by done. word_lia. Qed.

Lemma readU16_le16 (input : bytes) off x :
  is_u16 x → byte_at input off = x mod 256 → byte_at input (S off) = x / 256 →
  readU16 input off = x.
Proof.
  intros Hx H1 H2. unfold readU16. rewrite H1, H2, le16_join by word_lia. word_lia.
Qed.

Lemma readU16_range input off : is_u16 (readU16 input off).
Proof. apply u16_range. Qed.

Lemma type_value_cast v : 0 ≤ v ≤ 6 → type_value (type_cast v) = v.
Proof.
  intros Hv. assert (v = 0 ∨ v = 1 ∨ v = 2 ∨ v = 3 ∨ v = 4 ∨ v = 5 ∨ v = 6) as Hcases by lia.
  by destruct Hcases as [->|[->|[->|[->|[->|[->| ->]]]]]].
Qed.

Lemma type_cast_value t : type_cast (type_value t) = t.
Proof. by destruct t. Qed.

Lemma reason_value_cast v : 0 ≤ v ≤ 6 → reason_value (reason_cast v) = v.
Proof.
  intros Hv. assert (v = 0 ∨ v = 1 ∨ v = 2 ∨ v = 3 ∨ v = 4 ∨ v = 5 ∨ v = 6) as Hcases by lia.
  by destruct Hcases as [->|[->|[->|[->|[->|[->| ->]]]]]].
Qed.

Lemma reason_cast_value r : reason_cast (reason_value r) = r.
Proof. by destruct r. Qed.

Lemma encodeControl_value t : encodeControl t = type_value t.
Proof. by destruct t. Qed.

Lemma decodeControl_spec b :
  is_u8 b →
  decodeControl b = if b <=? 6 then Some (mkControl 0 0 (type_cast b)) else None.
Proof.
  intros Hb. destruct (Z.leb_spec b 6) as [Hle|Hgt].
  - assert (b = 0 ∨ b = 1 ∨ b = 2 ∨ b = 3 ∨ b = 4 ∨ b = 5 ∨ b = 6) as Hcases
      by (unfold is_u8 in Hb; lia).
    by destruct Hcases as [->|[->|[->|[->|[->|[->| ->]]]]]].
  - pose proof (u8_forall (λ b, (b <=? 6) || match decodeControl b with None => true | _ => false end)
      eq_refl b Hb) as H. cbv beta in H.
    destruct (decodeControl b); [|done]. apply orb_true_iff in H as [H|H]; [|done].
    apply Z.leb_le in H. lia.
Qed.

Lemma decodeControl_encodeControl t : decodeControl (encodeControl t) = Some (mkControl 0 0 t).
Proof. by destruct t. Qed.

Lemma decodeControl_Some b c :
  is_u8 b → decodeControl b = Some c → b = type_value (type c) ∧ c = mkControl 0 0 (type c).
Proof.
  intros Hb. rewrite decodeControl_spec by done.
  destruct (Z.leb_spec b 6); [|done]. intros [= <-]. simpl.
  rewrite type_value_cast by (unfold is_u8 in Hb; lia). done.
Qed.

Lemma hasType_spec input t :
  is_bytes input → hasType input t = true ↔ ∃ rest, input = type_value t :: rest.
Proof.
  intros Hin. destruct input as [|b input]; [split; [done|by intros [? ?]]|]. simpl.
  apply Forall_cons_1 in Hin as [Hb _]. split.
  - destruct (decodeControl b) as [c|] eqn:E; [|done].
    intros <-%bool_decide_eq_true. apply decodeControl_Some in E as [-> _]; [|done].
    by exists input.
  - intros [rest [= -> ->]]. rewrite <- encodeControl_value, decodeControl_encodeControl.
    by apply bool_decide_eq_true.
Qed.

Lemma layout_bytes m : message_wf m → is_bytes (layout m).
Proof.
  assert (Hle : ∀ x, is_u16 x → is_bytes (le16 x)).
  { intros x Hx. unfold le16. solve_bytes; word_lia. }
  assert (Hr : ∀ r, is_u8 (reason_value r)) by by intros [].
  destruct m; simpl; intros Hwf; solve_bytes; try tauto; try (by apply Hle; tauto); try word_lia;
    apply Hr || done.
Qed.

(** A byte string of known length, as its bytes. *)
Ltac split_bytes :=
  match goal with H : is_bytes _ |- _ =>
    unfold is_bytes in H; rewrite ?List.Forall_cons_iff in H end;
  destruct_and!.
Ltac explode input :=
  unfold zlen in *;
  repeat (destruct input as [|? input]; simpl in *; try lia);
  split_bytes.

(** The receive paths dispatch on the control byte themselves and then use the
    decoders for a known type: these accept exactly the encodings. *)
Ltac decoded_fields input :=
  explode input; split;
  [by split_and?; auto using readU16_range
  |eexists; try unfold le16; by rewrite ?readU16_lo, ?readU16_hi by done].
Ltac known_fields :=
  destruct_and!; unfold byte_at; simpl; f_equal; f_equal; by apply readU16_le16.

Lemma decodeSetupKnownType_spec input s :
  is_bytes input →
  decodeSetupKnownType input = Some s ↔
    message_wf (MSetup s) ∧ ∃ b, input = b :: drop 1 (layout (MSetup s)).
Proof.
  intros Hin. unfold decodeSetupKnownType, kSetupSize. split.
  - destruct (Z.eqb_spec (zlen input) 10); [|done].
    destruct (Z.eqb_spec (byte_at input 3) 0) as [H3|]; [|done]. intros [= <-].
    explode input. unfold byte_at in H3. simpl in H3. subst.
    split; [by split_and!; auto using readU16_range|eexists].
    unfold le16. by rewrite !readU16_lo, !readU16_hi by done.
  - intros (Hwf & b & ->). destruct s. simpl in *. known_fields.
Qed.

Lemma decodeSegmentHeaderKnownType_spec input h :
  is_bytes input →
  decodeSegmentHeaderKnownType input = Some h ↔
    message_wf (MSegment h) ∧ ∃ b rest, input = b :: drop 1 (layout (MSegment h)) ++ rest.
Proof.
  intros Hin. unfold decodeSegmentHeaderKnownType, kSegmentHeaderSize. split.
  - destruct (Z.ltb_spec (zlen input) 4); [done|]. intros [= <-].
    do 4 (destruct input as [|? input]; [unfold zlen in *; simpl in *; lia|]).
    split_bytes. simpl. split; [by split_and!; auto using readU16_range|].
    eexists _, _. by rewrite readU16_lo, readU16_hi by done.
  - intros (Hwf & b & rest & ->). destruct h. simpl in *.
    match goal with |- (if zlen ?l <? 4 then _ else _) = _ =>
      destruct (Z.ltb_spec (zlen l) 4) as [Hlt|_]; [unfold zlen in Hlt; simpl in Hlt; lia|] end.
    known_fields.
Qed.

Lemma decodeAckKnownType_spec input a :
  is_bytes input →
  decodeAckKnownType input = Some a ↔
    message_wf (MAck a) ∧ ∃ b, input = b :: drop 1 (layout (MAck a)).
Proof.
  intros Hin. unfold decodeAckKnownType, kAckSize. split.
  - destruct (Z.eqb_spec (zlen input) 6); [|done]. intros [= <-]. decoded_fields input.
  - intros (Hwf & b & ->). destruct a. simpl in *. known_fields.
Qed.

Lemma decodeProbeKnownType_spec input p :
  is_bytes input →
  decodeProbeKnownType input = Some p ↔
    message_wf (MProbe p) ∧ ∃ b, input = b :: drop 1 (layout (MProbe p)).
Proof.
  intros Hin. unfold decodeProbeKnownType, kProbeSize. split.
  - destruct (Z.eqb_spec (zlen input) 2); [|done]. intros [= <-]. decoded_fields input.
  - intros (Hwf & b & ->). by destruct p.
Qed.

Lemma decodeRejectKnownType_spec input r :
  is_bytes input →
  decodeRejectKnownType input = Some r ↔
    message_wf (MReject r) ∧ ∃ b, input = b :: drop 1 (layout (MReject r)).
Proof.
  intros Hin. unfold decodeRejectKnownType, kRejectSize. split.
  - destruct (Z.eqb_spec (zlen input) 3); [|done].
    destruct (Z.ltb_spec (reason_value kInternalError) (byte_at input 2)) as [|Hle]; [done|].
    intros [= <-]. explode input. unfold byte_at in *. simpl in *.
    split; [done|eexists]. rewrite reason_value_cast by (unfold is_u8 in *; lia). done.
  - intros (Hwf & b & ->). destruct r as [? []]; done.
Qed.

Lemma decodeAbortKnownType_spec input a :
  is_bytes input →
  decodeAbortKnownType input = Some a ↔
    message_wf (MAbort a) ∧ ∃ b, input = b :: drop 1 (layout (MAbort a)).
Proof.
  intros Hin. unfold decodeAbortKnownType, kAbortSize. split.
  - destruct (Z.eqb_spec (zlen input) 2); [|done]. intros [= <-]. decoded_fields input.
  - intros (Hwf & b & ->). by destruct a.
Qed.

Lemma decodeUserDatagramKnownType_spec input payload :
  is_bytes input →
  decodeUserDatagramKnownType input = Some payload ↔
    message_wf (MUserDatagram payload) ∧
    ∃ b, input = b :: drop 1 (layout (MUserDatagram payload)).
Proof.
  intros Hin. unfold decodeUserDatagramKnownType. split.
  - case_bool_decide; [done|]. intros [= <-].
    destruct input as [|b input]; [done|]. split_bytes. by eauto.
  - intros (Hwf & b & ->). done.
Qed.

(** A public decoder is its known-type decoder behind the control-byte check. *)
Lemma public_decoder {A} input t (d : option A) (x : A) (wf : Prop) (fields : bytes) :
  is_bytes input → (d = Some x ↔ wf ∧ ∃ b, input = b :: fields) →
  (if hasType input t then d else None) = Some x ↔ wf ∧ input = type_value t :: fields.
Proof.
  intros Hin Hd. pose proof (hasType_spec input t Hin) as Ht.
  destruct (hasType input t).
  - destruct (proj1 Ht eq_refl) as [rest ->]. rewrite Hd. split.
    + by intros (Hwf & b & [= -> ->]).
    + intros [Hwf [= ->]]. eauto.
  - split; [done|]. intros [_ ->]. discriminate (proj2 Ht (ex_intro _ _ eq_refl)).
Qed.

Lemma segment_with_header message h :
  is_bytes message → decodeSegmentHeader message = Some h →
  segment_with (seg_session_id h) (segment_index h) (drop (Z.to_nat kSegmentHeaderSize) message) = message.
Proof.
  intros Hb. unfold decodeSegmentHeader. destruct (hasType message kSegment) eqn:Ht; [|done].
  apply hasType_spec in Ht as [rest ->]; [|done].
  intros (_ & b & payload & [= <- ->])%decodeSegmentHeaderKnownType_spec; [|done]. by destruct h.
Qed.

Lemma setup_layout message s :
  is_bytes message → decodeSetup message = Some s → layout (MSetup s) = message.
Proof.
  intros Hb. unfold decodeSetup. destruct (hasType message kSetup) eqn:Ht; [|done].
  apply hasType_spec in Ht as [rest ->]; [|done].
  by intros (_ & b & [= <- ->])%decodeSetupKnownType_spec.
Qed.

(** What an encoder that emits the bytes [wire] does. *)
Lemma emit_spec (wire output : bytes) :
  (if zlen output <? zlen wire then None else Some (memcpy_at 0 wire output)) =
  (if zlen output <? zlen wire then None
   else Some (wire ++ drop (length wire) output)).
Proof.
  destruct (Z.ltb_spec (zlen output) (zlen wire)); [done|].
  rewrite memcpy_at_app; [done|]. unfold zlen in *. lia.
Qed.

Lemma emit_datagram (payload output : bytes) :
  encodeUserDatagram payload output =
    if zlen output <? zlen (5 :: payload) then None
    else Some (memcpy_at 0 (5 :: payload) output).
Proof.
  unfold encodeUserDatagram, kUserDatagramHeaderSize.
  replace (zlen payload + 1) with (zlen (5 :: payload)) by (unfold zlen; simpl; lia).
  destruct (zlen output <? zlen (5 :: payload)) eqn:E; [done|]. f_equal.
  case_bool_decide as Hp; [by rewrite Hp|].
  apply Z.ltb_ge in E. unfold zlen in E. destruct output as [|o output]; simpl in E; [lia|].
  rewrite !memcpy_at_app by (rewrite ?length_app; simpl; lia). done.
Qed.

(** Every encoder writes its layout or refuses. *)
Lemma encode_layout (m : Message) (output : bytes) :
  message_wf m →
  encodeMessage m output =
    if zlen output <? zlen (layout m) then None
    else Some (layout m ++ drop (length (layout m)) output).
Proof.
  destruct m as [s|h|a|p|[? r]|payload|a]; simpl encodeMessage; intros Hwf; simpl in Hwf;
    unfold encodeSetup, encodeSegmentHeader, encodeAck, encodeProbe, encodeReject,
      encodeAbort; rewrite ?emit_datagram; destruct_and?; rewrite ?writeU16_le16 by done.
  5: destruct r.
  all: match goal with |- _ = if _ <? zlen ?wire then _ else _ => apply (emit_spec wire) end.
Qed.

(** ** Properties *)

(** C20: every encoder writes exactly the documented layout of its message at the
    front of the output and nothing after it, and refuses an output that is too
    small without touching it. *)
Theorem bits_encoders_spec (m : Message) (output : bytes) :
  message_wf m →
  encodeMessage m output =
    if zlen output <? zlen (layout m) then None
    else Some (layout m ++ drop (length (layout m)) output).
Proof. apply encode_layout. Qed.

Lemma bits_encoders_spec_witness :
  encodeMessage (MAck (mkAck 7 0x8001 0xFF 0xFE)) (replicate 8 0xAA) =
    if zlen (replicate 8 0xAA) <? 6 then None
    else Some ([2; 7; 0x01; 0x80; 0xFF; 0xFE] ++ [0xAA; 0xAA]).
Proof.
  apply (bits_encoders_spec (MAck (mkAck 7 0x8001 0xFF 0xFE)) (replicate 8 0xAA)).
  split_and!; by_evaluation.
Defined.

(** C19: every decoder accepts exactly the encodings of its message type, with
    exactly the encoded fields: no other control byte, length, reserved byte or
    reject reason is accepted, and two different messages never share a wire
    form.  Together with the encoders' specification this is the round trip. *)
Theorem bits_decoders_spec (input : bytes) (m : Message) :
  is_bytes input → decodes input m ↔ message_wf m ∧ is_message input m.
Proof.
  intros Hin. destruct m as [s|h|a|p|r|payload|a]; simpl decodes.
  - by apply public_decoder, decodeSetupKnownType_spec.
  - unfold decodeSegmentHeader. pose proof (hasType_spec input kSegment Hin) as Ht.
    pose proof (decodeSegmentHeaderKnownType_spec input h Hin) as Hd.
    destruct (hasType input kSegment).
    + destruct (proj1 Ht eq_refl) as [rest ->]. rewrite Hd. split.
      * intros (Hwf & b & rest' & [= <- ->]). split; [done|]. by exists rest'.
      * intros [Hwf [rest' [= ->]]]. split; [done|]. by exists 1, rest'.
    + split; [done|]. intros [_ [rest ->]]. discriminate (proj2 Ht (ex_intro _ _ eq_refl)).
  - by apply public_decoder, decodeAckKnownType_spec.
  - by apply public_decoder, decodeProbeKnownType_spec.
  - by apply public_decoder, decodeRejectKnownType_spec.
  - by apply public_decoder, decodeUserDatagramKnownType_spec.
  - by apply public_decoder, decodeAbortKnownType_spec.
Qed.

Lemma bits_decoders_spec_witness :
  decodes [0; 7; 250; 0; 2; 1; 64; 0; 1; 0] (MSetup (mkSetup 7 250 258 64 1)) ↔
  message_wf (MSetup (mkSetup 7 250 258 64 1)) ∧
  is_message [0; 7; 250; 0; 2; 1; 64; 0; 1; 0] (MSetup (mkSetup 7 250 258 64 1)).
Proof.
  apply (bits_decoders_spec [0; 7; 250; 0; 2; 1; 64; 0; 1; 0]
    (MSetup (mkSetup 7 250 258 64 1))). by_evaluation.
Defined.
