(* ===== verification/BitsEngine.v ===== *)
(** * The synchronous BITS receiver
      ([transports/bits/receiver_engine.h], [receiver_engine.cpp])

    [BitsReceiverEngine] as a record, one definition per member function, in the
    state monad over the engine and its environment [W].  The two abstract
    classes the engine calls, [ReceiverCallbacks] and [ReceiverPduSender], are
    type classes over [W].  The build-time window limit is the variable
    [max_width]: the branches of [#if ... MAX_WINDOW_WIDTH == 1] are
    [if narrow]. *)

From S2P Require Import Prelude BitsCodec.
Local Open Scope Z_scope.

(** ** Enumerations *)

Module ProcessResult.
Inductive t := kIdle | kProgress | kError | kBlocked.
End ProcessResult.
Module TransferState.
Inductive t := kIdle | kStarting | kActive | kCompleted | kRejected | kAborted | kError.
End TransferState.
Module SendResult.
Inductive t := kSent | kTooLarge | kNoRoute | kInvalidState | kFull | kRejected | kPartial.
End SendResult.
Module TransferAdmission.
Inductive t := kAccepted | kBusy | kTooLarge | kRejected.
End TransferAdmission.
Module FailureReason.
Inductive t := kSinkRejected | kSendFailed | kInactivityTimeout.
End FailureReason.
Module AbortReason.
Inductive t := kLocal | kPeer.
End AbortReason.

#[export] Instance ProcessResult_eq_dec : EqDecision ProcessResult.t.
Proof. solve_decision. Defined.
#[export] Instance TransferState_eq_dec : EqDecision TransferState.t.
Proof. solve_decision. Defined.
#[export] Instance SendResult_eq_dec : EqDecision SendResult.t.
Proof. solve_decision. Defined.
#[export] Instance TransferAdmission_eq_dec : EqDecision TransferAdmission.t.
Proof. solve_decision. Defined.
#[export] Instance FailureReason_eq_dec : EqDecision FailureReason.t.
Proof. solve_decision. Defined.

Record TransferInfo := mkTransferInfo {
  info_session_id : Z; info_total_size : Z; info_segment_size : Z }.

(** ** The interfaces the engine calls *)

Class ReceiverCallbacks (W : Type) := {
  beginTransfer : TransferInfo → State W TransferAdmission.t;
  onTransferFailed : FailureReason.t → State W unit;
  onSegment : Z → bytes → State W bool;
  onDatagram : bytes → State W unit;
  onTransferComplete : State W unit;
  onTransferAborted : AbortReason.t → State W unit;
}.

(** [prepare] returns the span it hands out, as its contents; [store] is the
    caller writing that span. *)
Class ReceiverPduSender (W : Type) := {
  prepare : Z → State W bytes;
  store : bytes → State W unit;
  sendPrepared : State W SendResult.t;
}.

Record ReceiverEngineConfig := {
  maximum_segment_size : Z;
  receive_window_width : Z;
  maximum_object_size : Z;
  inactivity_timeout_ms : Z;
}.

Record Engine := {
  config : ReceiverEngineConfig;
  state : TransferState.t;
  setup : Setup;
  last_send : SendResult.t;
  last_activity_ms : Z;
  segment_count : Z;
  contiguous_count : Z;
  next_object_offset : Z;    (* the narrow build only *)
  granted_end : Z;
  receive_bitmap : Z;        (* the wide build only *)
}.

(** Assignments to the members. *)
Definition set_state v e := {| config := config e; state := v; setup := setup e;
  last_send := last_send e; last_activity_ms := last_activity_ms e;
  segment_count := segment_count e; contiguous_count := contiguous_count e;
  next_object_offset := next_object_offset e; granted_end := granted_end e;
  receive_bitmap := receive_bitmap e |}.
Definition set_last_send v e := {| config := config e; state := state e; setup := setup e;
  last_send := v; last_activity_ms := last_activity_ms e;
  segment_count := segment_count e; contiguous_count := contiguous_count e;
  next_object_offset := next_object_offset e; granted_end := granted_end e;
  receive_bitmap := receive_bitmap e |}.
Definition set_last_activity_ms v e := {| config := config e; state := state e;
  setup := setup e; last_send := last_send e; last_activity_ms := v;
  segment_count := segment_count e; contiguous_count := contiguous_count e;
  next_object_offset := next_object_offset e; granted_end := granted_end e;
  receive_bitmap := receive_bitmap e |}.
Definition set_granted_end v e := {| config := config e; state := state e;
  setup := setup e; last_send := last_send e; last_activity_ms := last_activity_ms e;
  segment_count := segment_count e; contiguous_count := contiguous_count e;
  next_object_offset := next_object_offset e; granted_end := v;
  receive_bitmap := receive_bitmap e |}.
(** [contiguous_count_] and the field that goes with it in each build. *)
Definition set_contiguous n offset bitmap e := {| config := config e; state := state e;
  setup := setup e; last_send := last_send e; last_activity_ms := last_activity_ms e;
  segment_count := segment_count e; contiguous_count := n;
  next_object_offset := offset; granted_end := granted_end e;
  receive_bitmap := bitmap |}.

(** ** Helper functions *)

Definition sequenceFor (s : Setup) (segment_index : Z) : Z :=
  u8 (initial_sequence_number s + u8 segment_index).

Definition baseSequence (s : Setup) (contiguous_count : Z) : Z :=
  if contiguous_count =? 0 then u8 (initial_sequence_number s - 1)
  else sequenceFor s (u32 (contiguous_count - 1)).

Definition setupMatches (lhs rhs : Setup) : bool :=
  (setup_session_id lhs =? setup_session_id rhs)
  && (initial_sequence_number lhs =? initial_sequence_number rhs)
  && (final_segment_index lhs =? final_segment_index rhs)
  && (segment_size lhs =? segment_size rhs)
  && (final_segment_size lhs =? final_segment_size rhs).

(** The loop clears one bit a round, so sixteen rounds empty the word. *)
Definition popcount16 (value : Z) : Z :=
  snd (while_upto 16 (λ '(value, _), negb (value =? 0))
    (λ '(value, count), (u16 (Z.land value (u16 (value - 1))), u8 (count + 1))) (value, 0)).

Definition lowBitMask (count : Z) : Z :=
  if kCompactWindowWidth <=? count then 0xFFFF
  else if count =? 0 then 0 else u16 (u32 (Z.shiftl 1 count) - 1).

(** ** The engine *)

Section Engine.
Context {W : Type} `{!ReceiverCallbacks W, !ReceiverPduSender W}.
(** [WIRESPACES_BITS_RECEIVER_MAX_WINDOW_WIDTH], 1 to 16. *)
Variable max_width : Z.

Definition narrow : bool := max_width =? 1.

Definition Op := State (Engine * W).

Definition engine : Op Engine := gets fst.
Definition update (f : Engine → Engine) : Op unit := modify (λ '(e, w), (f e, w)).
Definition call {A} (m : State W A) : Op A := on_snd m.

Definition new_engine (c : ReceiverEngineConfig) : Engine := {|
  config :=
    if max_width <? receive_window_width c
    then {| maximum_segment_size := maximum_segment_size c;
            receive_window_width := max_width;
            maximum_object_size := maximum_object_size c;
            inactivity_timeout_ms := inactivity_timeout_ms c |}
    else c;
  state := TransferState.kIdle;
  setup := empty_setup;
  last_send := SendResult.kSent;
  last_activity_ms := 0;
  segment_count := 0;
  contiguous_count := 0;
  next_object_offset := 0;
  granted_end := 0;
  receive_bitmap := 0;
|}.

Definition fail (reason : FailureReason.t) : Op unit :=
  e ← engine;
  if bool_decide (state e = TransferState.kActive)
  then update (set_state TransferState.kError);; call (onTransferFailed reason)
  else mret tt.

Definition poll (now_ms : Z) : Op ProcessResult.t :=
  e ← engine;
  if negb (bool_decide (state e = TransferState.kActive))
     || (inactivity_timeout_ms (config e) =? 0)
     || (u32 (now_ms - last_activity_ms e) <? inactivity_timeout_ms (config e))
  then mret ProcessResult.kIdle
  else fail FailureReason.kInactivityTimeout;; mret ProcessResult.kError.

(** [BitsReceiverEngine::sendPrepared]. *)
Definition engineSendPrepared : Op bool :=
  r ← call sendPrepared;
  update (set_last_send r);;
  mret (bool_decide (r = SendResult.kSent) || bool_decide (r = SendResult.kFull)).

(** The PDU of [sendAck], given the prepared storage. *)
Definition ackContents (e : Engine) (storage : bytes) : option bytes :=
  if narrow then
    let window_base :=
      u8 (initial_sequence_number (setup e) + u8 (contiguous_count e) - 1) in
    let max_receive_sequence :=
      if contiguous_count e <? segment_count e then u8 (window_base + 1) else window_base in
    Some (memcpy_at 0 [encodeControl kAck; setup_session_id (setup e); 0; 0;
                       max_receive_sequence; window_base] storage)
  else
    let window_base := baseSequence (setup e) (contiguous_count e) in
    let max_receive_sequence :=
      if contiguous_count e <? granted_end e
      then sequenceFor (setup e) (u32 (granted_end e - 1)) else window_base in
    let window_span := u8 (u32 (granted_end e - contiguous_count e)) in
    encodeAck (mkAck (setup_session_id (setup e))
                 (u16 (Z.land (receive_bitmap e) (lowBitMask window_span)))
                 max_receive_sequence window_base) storage.

Definition sendAck : Op bool :=
  storage ← call (prepare kAckSize);
  e ← engine;
  match (if zlen storage =? kAckSize then ackContents e storage else None) with
  | None =>
      update (set_last_send SendResult.kTooLarge);;
      fail FailureReason.kSendFailed;; mret false
  | Some contents =>
      call (store contents);;
      sent ← engineSendPrepared;
      if negb sent then fail FailureReason.kSendFailed;; mret sent else mret sent
  end.

Definition sendReject (session_id : Z) (r : RejectReason) : Op bool :=
  storage ← call (prepare kRejectSize);
  update (set_last_send SendResult.kTooLarge);;
  match (if zlen storage =? kRejectSize then encodeReject (mkReject session_id r) storage
         else None) with
  | None => mret false
  | Some contents => call (store contents);; engineSendPrepared
  end.

Definition sendAbort : Op bool :=
  e ← engine;
  storage ← call (prepare kAbortSize);
  update (set_last_send SendResult.kTooLarge);;
  match (if zlen storage =? kAbortSize
         then encodeAbort (mkAbort (setup_session_id (setup e))) storage else None) with
  | None => mret false
  | Some contents => call (store contents);; engineSendPrepared
  end.

(** The loop of [updateGrant]: [granted_end], [window_span] and [unreceived]
    advance together.  [window_span] grows to at most the window width. *)
Definition updateGrant (e : Engine) : Engine :=
  if narrow then
    set_granted_end (if contiguous_count e <? segment_count e
                     then u32 (contiguous_count e + 1) else contiguous_count e) e
  else
    let window_span := u32 (granted_end e - contiguous_count e) in
    let unreceived :=
      u8 (window_span -
          popcount16 (u16 (Z.land (receive_bitmap e) (lowBitMask (u8 window_span))))) in
    let width := receive_window_width (config e) in
    let '(granted, _, _) :=
      while_upto 256
        (λ '(granted, span, unreceived),
           (granted <? segment_count e) && (span <? width) && (unreceived <? width))
        (λ '(granted, span, unreceived),
           (u32 (granted + 1), u32 (span + 1), u8 (unreceived + 1)))
        (granted_end e, window_span, unreceived) in
    set_granted_end granted e.

(** The loop that moves the received prefix out of the bitmap. *)
Definition slide (contiguous bitmap : Z) : Z * Z :=
  while_upto 16 (λ '(_, bitmap), negb (Z.land bitmap 1 =? 0))
    (λ '(contiguous, bitmap), (u32 (contiguous + 1), u16 (Z.shiftr bitmap 1)))
    (contiguous, bitmap).

(** Record an accepted segment of [size] bytes at [window_offset]. *)
Definition accept_segment (window_offset size : Z) (e : Engine) : Engine :=
  if narrow then
    set_contiguous (u32 (contiguous_count e + 1)) (u32 (next_object_offset e + size))
      (receive_bitmap e) e
  else
    let '(contiguous, bitmap) :=
      slide (contiguous_count e)
        (u16 (Z.lor (receive_bitmap e) (u16 (Z.shiftl 1 window_offset)))) in
    set_contiguous contiguous (next_object_offset e) bitmap e.

Definition handleSegment (message : bytes) (now_ms : Z) : Op bool :=
  e ← engine;
  match decodeSegmentHeaderKnownType message with
  | None => mret false
  | Some header =>
      let index := segment_index header in
      if (negb (bool_decide (state e = TransferState.kActive))
          && negb (bool_decide (state e = TransferState.kCompleted)))
         || negb (seg_session_id header =? setup_session_id (setup e))
         || (segment_count e <=? index)
      then mret true
      else
      let expected_size :=
        if index =? final_segment_index (setup e)
        then final_segment_size (setup e) else segment_size (setup e) in
      let segment_payload := drop (Z.to_nat kSegmentHeaderSize) message in
      if negb (zlen segment_payload =? expected_size) then mret false
      else
      update (if index <? granted_end e then set_last_activity_ms now_ms else id);;
      if index <? contiguous_count e then sendAck
      else if bool_decide (state e = TransferState.kCompleted) || (granted_end e <=? index)
      then sendAck
      else
      let window_offset := u32 (index - contiguous_count e) in
      let segment_bit := u16 (Z.shiftl 1 window_offset) in
      if (if narrow then negb (index =? contiguous_count e)
          else (receive_window_width (config e) <=? window_offset)
               || negb (Z.land (receive_bitmap e) segment_bit =? 0))
      then sendAck
      else
      let object_offset :=
        if narrow then next_object_offset e
        else u32 (u32 index * segment_size (setup e)) in
      accepted ← call (onSegment object_offset segment_payload);
      if negb accepted then fail FailureReason.kSinkRejected;; mret false
      else
      update (accept_segment window_offset (zlen segment_payload));;
      update updateGrant;;
      e ← engine;
      (if contiguous_count e =? segment_count e
       then update (set_state TransferState.kCompleted);; call onTransferComplete
       else mret tt);;
      sendAck
  end.

Definition begin_active (requested : Setup) (requested_segment_count now_ms : Z)
    (e : Engine) : Engine :=
  {| config := config e;
     state := TransferState.kActive;
     setup := requested;
     last_send := last_send e;
     last_activity_ms := now_ms;
     segment_count := requested_segment_count;
     contiguous_count := 0;
     next_object_offset := if narrow then 0 else next_object_offset e;
     granted_end := 0;
     receive_bitmap := if narrow then receive_bitmap e else 0 |}.

Definition handleSetup (payload : bytes) (now_ms : Z) : Op bool :=
  if zlen payload <? 2 then mret false
  else match decodeSetupKnownType payload with
  | None => sendReject (byte_at payload 1) kInvalidArgument
  | Some requested =>
      if (segment_size requested =? 0) || (final_segment_size requested =? 0)
         || (segment_size requested <? final_segment_size requested)
      then sendReject (setup_session_id requested) kInvalidArgument
      else
      let requested_total_size := setupTotalSize requested in
      e ← engine;
      if maximum_object_size (config e) <? requested_total_size
      then sendReject (setup_session_id requested) kObjectTooLarge
      else
      let requested_segment_count := setupSegmentCount requested in
      if (receive_window_width (config e) =? 0)
         || (maximum_segment_size (config e) <? segment_size requested)
      then sendReject (setup_session_id requested) kUnsupportedSegmentSize
      else if bool_decide (state e = TransferState.kActive) then
        if setupMatches (setup e) requested
        then update (set_last_activity_ms now_ms);; sendAck
        else sendReject (setup_session_id requested) kBusy
      else
      admission ← call (beginTransfer (mkTransferInfo (setup_session_id requested)
                                         requested_total_size (segment_size requested)));
      match admission with
      | TransferAdmission.kAccepted =>
          update (begin_active requested requested_segment_count now_ms);;
          update updateGrant;;
          sendAck
      | TransferAdmission.kBusy => sendReject (setup_session_id requested) kBusy
      | TransferAdmission.kTooLarge => sendReject (setup_session_id requested) kObjectTooLarge
      | TransferAdmission.kRejected => sendReject (setup_session_id requested) kInvalidArgument
      end
  end.

Definition handleAbort (payload : bytes) : Op bool :=
  e ← engine;
  match decodeAbortKnownType payload with
  | None => mret false
  | Some abort_message =>
      if negb (bool_decide (state e = TransferState.kActive))
         || negb (abort_session_id abort_message =? setup_session_id (setup e))
      then mret true
      else
      update (set_state TransferState.kAborted);;
      call (onTransferAborted AbortReason.kPeer);;
      mret true
  end.

Definition handleProbe (message : bytes) (now_ms : Z) : Op bool :=
  e ← engine;
  match decodeProbeKnownType message with
  | None => mret false
  | Some probe =>
      if (negb (bool_decide (state e = TransferState.kActive))
          && negb (bool_decide (state e = TransferState.kCompleted)))
         || negb (probe_session_id probe =? setup_session_id (setup e))
      then mret true
      else update (set_last_activity_ms now_ms);; sendAck
  end.

Definition handleControl (message : bytes) (t : MessageType) (now_ms : Z) : Op bool :=
  match t with
  | kSetup => handleSetup message now_ms
  | kProbe => handleProbe message now_ms
  | kUserDatagram =>
      match decodeUserDatagramKnownType message with
      | None => mret false
      | Some payload => call (onDatagram payload);; mret true
      end
  | kAbort => handleAbort message
  | kSegment | kAck | kReject => mret false
  end.

Definition process (message : bytes) (now_ms : Z) : Op ProcessResult.t :=
  polled ← poll now_ms;
  if bool_decide (polled = ProcessResult.kError) then mret ProcessResult.kError
  else
  update (set_last_send SendResult.kSent);;
  match message with
  | [] => mret ProcessResult.kError
  | encoded :: _ =>
      match decodeControl encoded with
      | None => mret ProcessResult.kError
      | Some control =>
          handled ← (if bool_decide (type control = kSegment)
                     then handleSegment message now_ms
                     else handleControl message (type control) now_ms);
          if negb handled then mret ProcessResult.kError
          else
          e ← engine;
          mret (if bool_decide (last_send e = SendResult.kFull)
                then ProcessResult.kBlocked else ProcessResult.kProgress)
      end
  end.

Definition sendDatagram (payload : bytes) : Op SendResult.t :=
  if 65535 - kUserDatagramHeaderSize <? zlen payload then mret SendResult.kTooLarge
  else
  let message_size := u16 (zlen payload + kUserDatagramHeaderSize) in
  storage ← call (prepare message_size);
  match (if zlen storage =? message_size then encodeUserDatagram payload storage
         else None) with
  | None => mret SendResult.kTooLarge
  | Some contents => call (store contents);; call sendPrepared
  end.

Definition abort : Op SendResult.t :=
  e ← engine;
  if negb (bool_decide (state e = TransferState.kActive)) then mret SendResult.kInvalidState
  else
  sendAbort;;
  update (set_state TransferState.kAborted);;
  call (onTransferAborted AbortReason.kLocal);;
  e ← engine;
  mret (last_send e).
End Engine.

(** ** Helper-function lemmas *)

(** The number of set bits among the low [n]. *)
Fixpoint bit_count (n : nat) (v : Z) : Z :=
  match n with
  | O => 0
  | S n => Z.b2z (Z.odd v) + bit_count n (Z.div2 v)
  end.

Lemma bit_count_bound n v : 0 ≤ bit_count n v ≤ Z.of_nat n.
Proof.
  revert v. induction n as [|n IH]; intros v; simpl bit_count; [lia|].
  specialize (IH (Z.div2 v)). destruct (Z.odd v); simpl Z.b2z; lia.
Qed.

Lemma bit_count_0 n : bit_count n 0 = 0.
Proof. by induction n. Qed.

Lemma bit_count_below n m v : 0 ≤ v < 2 ^ Z.of_nat n → bit_count (n + m) v = bit_count n v.
Proof.
  revert v. induction n as [|n IH]; intros v Hv; simpl.
  - replace v with 0 by (simpl in Hv; lia). apply bit_count_0.
  - f_equal. apply IH. rewrite Z.div2_div. rewrite Nat2Z.inj_succ, Z.pow_succ_r in Hv by lia.
    split; [apply Z.div_pos; lia|apply Z.div_lt_upper_bound; lia].
Qed.

(** [value & (value - 1)] clears the lowest set bit. *)
Lemma bit_count_clear n v :
  0 < v < 2 ^ Z.of_nat n → bit_count n (Z.land v (v - 1)) = bit_count n v - 1.
Proof.
  revert v. induction n as [|n IH]; intros v Hv; [simpl in Hv; lia|]. simpl.
  rewrite Z.div2_spec, Z.shiftr_land, <- !Z.div2_spec.
  rewrite <- !Z.bit0_odd, Z.land_spec, !Z.bit0_odd.
  rewrite Nat2Z.inj_succ, Z.pow_succ_r in Hv by lia.
  pose proof (Zdiv2_odd_eqn v) as E. pose proof (Zdiv2_odd_eqn (v - 1)) as E'.
  rewrite Z.odd_sub in *. change (Z.odd 1) with true in *.
  destruct (Z.odd v); simpl in *.
  - replace (Z.div2 (v - 1)) with (Z.div2 v) by lia. rewrite Z.land_diag. lia.
  - replace (Z.div2 (v - 1)) with (Z.div2 v - 1) by lia. rewrite IH by lia. lia.
Qed.

Arguments bit_count : simpl never.

(** [popcount16] counts the set bits, and its loop ends within 16 rounds. *)
Lemma popcount16_count v : is_u16 v → popcount16 v = bit_count 16 v.
Proof.
  intros Hv. unfold popcount16.
  pose proof (while_upto_exit
    (λ '(value, count), is_u16 value ∧ 0 ≤ count ∧ count + bit_count 16 value = bit_count 16 v)
    (λ '(value, _), Z.to_nat (bit_count 16 value))
    (λ '(value, _), negb (value =? 0))
    (λ '(value, count), (u16 (Z.land value (u16 (value - 1))), u8 (count + 1)))
    16 (v, 0)) as Hloop.
  destruct (while_upto _ _ _ _) as [value count].
  destruct Hloop as [(Hu & Hc & Hsum) Hexit].
  - intros [x c] (Hx & Hc & Hsum) Hne. apply negb_true_iff, Z.eqb_neq in Hne.
    assert (E : u16 (x - 1) = x - 1) by (apply u16_id; unfold is_u16 in *; lia).
    rewrite E, (u16_id (Z.land _ _)) by auto with word.
    pose proof (bit_count_clear 16 x) as Hclear. change (2 ^ Z.of_nat 16) with 65536 in Hclear.
    rewrite Hclear by (unfold is_u16 in *; lia). pose proof (bit_count_bound 16 v).
    pose proof (bit_count_bound 16 (Z.land x (x - 1))) as Hb.
    rewrite Hclear in Hb by (unfold is_u16 in *; lia).
    assert (u8 (c + 1) = c + 1) as -> by word_lia.
    split; [split_and!; auto with word; lia|lia].
  - split_and!; done || lia.
  - pose proof (bit_count_bound 16 v). lia.
  - apply negb_false_iff, Z.eqb_eq in Hexit. subst. rewrite bit_count_0 in Hsum. cbn [snd]. lia.
Qed.

Lemma lowBitMask_ones n : 0 ≤ n ≤ 16 → lowBitMask n = Z.ones n.
Proof.
  intros Hn. assert (H : forallb (λ n, lowBitMask n =? Z.ones n) (seqZ 0 17) = true)
    by (vm_compute; reflexivity).
  rewrite forallb_forall in H. apply Z.eqb_eq, H, list_elem_of_In, elem_of_seqZ. lia.
Qed.

(** The window loop of [updateGrant] raises the grant to the end of the object or
    the full width, whichever comes first. *)
Lemma grant_loop count width n granted span unreceived :
  0 ≤ granted ≤ count → count < 2 ^ 32 → 0 ≤ unreceived ≤ span → span ≤ width →
  width < 256 → width - span ≤ Z.of_nat n →
  (while_upto n
     (λ '(granted, span, unreceived),
        (granted <? count) && (span <? width) && (unreceived <? width))
     (λ '(granted, span, unreceived),
        (u32 (granted + 1), u32 (span + 1), u8 (unreceived + 1)))
     (granted, span, unreceived)).1.1 = Z.min count (granted + (width - span)).
Proof.
  revert granted span unreceived. change (2 ^ 32) with 4294967296.
  induction n as [|n IH]; intros granted span unreceived Hg Hc Hu Hs Hw Hn; simpl while_upto.
  { cbn [fst]. lia. }
  destruct (Z.ltb_spec granted count); simpl; [|lia].
  destruct (Z.ltb_spec span width); simpl; [|lia].
  destruct (Z.ltb_spec unreceived width); [|lia].
  rewrite !u32_id by (unfold is_u32; lia). rewrite u8_id by (unfold is_u8; lia).
  rewrite IH by lia. lia.
Qed.

(** Sliding moves the maximal run of received segments at the window's start
    into the contiguous prefix. *)
Lemma slide_run n contiguous bitmap :
  is_u16 bitmap → bitmap < 2 ^ Z.of_nat n → 0 ≤ contiguous → contiguous + Z.of_nat n < 2 ^ 32 →
  ∃ k, 0 ≤ k ≤ Z.of_nat n ∧
    while_upto n (λ '(_, bitmap), negb (Z.land bitmap 1 =? 0))
      (λ '(contiguous, bitmap), (u32 (contiguous + 1), u16 (Z.shiftr bitmap 1)))
      (contiguous, bitmap) = (contiguous + k, Z.shiftr bitmap k) ∧
    (∀ i, 0 ≤ i < k → Z.testbit bitmap i = true) ∧ Z.testbit bitmap k = false.
Proof.
  revert contiguous bitmap. induction n as [|n IH]; intros c b Hb Hlt Hc Hbound.
  { exists 0. replace b with 0 by (unfold is_u16 in Hb; simpl in Hlt; lia).
    rewrite Z.add_0_r. split_and!; done || lia || (intros; lia). }
  simpl while_upto. destruct (Z.testbit b 0) eqn:H0.
  - assert (Z.land b 1 ≠ 0) by (rewrite land_1_bit0; congruence).
    destruct (Z.eqb_spec (Z.land b 1) 0); [done|]. simpl.
    rewrite Nat2Z.inj_succ, Z.pow_succ_r in Hlt by lia. change (2 ^ 32) with 4294967296 in *.
    rewrite u32_id by (unfold is_u32; lia). rewrite u16_id by auto with word.
    destruct (IH (c + 1) (Z.shiftr b 1)) as (k & Hk & -> & Hrun & Hend);
      [auto with word| |lia|lia|].
    { rewrite Z.shiftr_div_pow2 by done. change (2 ^ 1) with 2.
      apply Z.div_lt_upper_bound; lia. }
    exists (k + 1). rewrite Z.shiftr_shiftr by lia. rewrite testbit_shiftr in Hend by lia.
    split_and!; [lia|lia|f_equal; [lia|f_equal; lia]| |done].
    intros i Hi. destruct (decide (i = 0)) as [->|]; [done|].
    specialize (Hrun (i - 1)). rewrite testbit_shiftr in Hrun by lia.
    replace (i - 1 + 1) with i in Hrun by lia. apply Hrun. lia.
  - assert (Z.land b 1 = 0) as -> by by rewrite land_1_bit0. simpl.
    exists 0. rewrite Z.add_0_r. split_and!; done || lia || (intros; lia).
Qed.

Lemma slide_spec contiguous bitmap :
  is_u16 bitmap → 0 ≤ contiguous → contiguous + 16 < 2 ^ 32 →
  ∃ k, 0 ≤ k ≤ 16 ∧ slide contiguous bitmap = (contiguous + k, Z.shiftr bitmap k) ∧
    (∀ i, 0 ≤ i < k → Z.testbit bitmap i = true) ∧ Z.testbit bitmap k = false.
Proof. intros Hb Hc Hbound. apply (slide_run 16); try done. apply Hb. Qed.

(** ** The engine invariant *)

(** The segment geometry a [Setup] describes. *)
Definition segment_bytes (s : Setup) (i : Z) : Z :=
  if i =? final_segment_index s then final_segment_size s else segment_size s.
Definition segment_offset (s : Setup) (i : Z) : Z := i * segment_size s.
Definition segments (s : Setup) : Z := final_segment_index s + 1.
Definition object_bytes (s : Setup) : Z :=
  final_segment_index s * segment_size s + final_segment_size s.

Definition setup_valid (s : Setup) : Prop :=
  message_wf (MSetup s) ∧ 0 < final_segment_size s ≤ segment_size s.

Definition slice (object : bytes) (offset size : Z) : bytes :=
  take (Z.to_nat size) (drop (Z.to_nat offset) object).

Lemma slice_bytes object offset size : is_bytes object → is_bytes (slice object offset size).
Proof. intros Hb. unfold slice. by apply Forall_take, Forall_drop. Qed.

Definition info_of (s : Setup) : TransferInfo :=
  mkTransferInfo (setup_session_id s) (object_bytes s) (segment_size s).

Lemma setup_geometry s :
  setup_valid s →
  setupSegmentCount s = segments s ∧ setupTotalSize s = object_bytes s ∧
  1 ≤ segments s ≤ 65536 ∧ 0 < object_bytes s < 2 ^ 32.
Proof.
  intros [Hwf Hsz]. simpl in Hwf. destruct_and!.
  unfold setupSegmentCount, setupTotalSize, segments, object_bytes, is_u16 in *.
  assert (0 ≤ final_segment_index s * segment_size s ≤ 65535 * 65535) by nia.
  change (2 ^ 32) with 4294967296.
  rewrite !(u32_id (final_segment_index s)) by (unfold is_u32; lia).
  rewrite !(u32_id (_ * _)) by (unfold is_u32; lia).
  rewrite !u32_id by (unfold is_u32; lia). lia.
Qed.

(** The segments accepted so far: the contiguous prefix and the bitmap. *)
Definition received (e : Engine) (i : Z) : Prop :=
  0 ≤ i < contiguous_count e ∨
  contiguous_count e ≤ i ∧ Z.testbit (receive_bitmap e) (i - contiguous_count e) = true.

#[export] Instance received_dec e i : Decision (received e i).
Proof. unfold received. apply _. Defined.

(** The state of a transfer that has been set up. *)
Record transfer_wf (max_width : Z) (e : Engine) : Prop := {
  twf_setup : setup_valid (setup e);
  twf_count : segment_count e = segments (setup e);
  twf_width : 1 ≤ receive_window_width (config e);
  twf_contiguous : 0 ≤ contiguous_count e ≤ segment_count e;
  twf_grant : granted_end e =
    Z.min (segment_count e) (contiguous_count e + receive_window_width (config e));
  twf_bitmap : is_u16 (receive_bitmap e);
  twf_first : Z.testbit (receive_bitmap e) 0 = false;
  twf_window : ∀ i, 0 ≤ i → Z.testbit (receive_bitmap e) i = true →
    contiguous_count e + i < granted_end e;
  twf_narrow : narrow max_width = true →
    receive_bitmap e = 0 ∧
    (contiguous_count e < segment_count e →
     next_object_offset e = segment_offset (setup e) (contiguous_count e));
}.

Record engine_wf (max_width : Z) (e : Engine) : Prop := {
  ewf_width : 0 ≤ receive_window_width (config e) ≤ max_width;
  ewf_segment_size : is_u16 (maximum_segment_size (config e));
  ewf_object_size : is_u32 (maximum_object_size (config e));
  ewf_timeout : is_u32 (inactivity_timeout_ms (config e));
  ewf_narrow : narrow max_width = true → receive_bitmap e = 0;
  ewf_state :
    match state e with
    | TransferState.kActive => transfer_wf max_width e ∧ contiguous_count e < segment_count e
    | TransferState.kCompleted => transfer_wf max_width e ∧ contiguous_count e = segment_count e
    | TransferState.kStarting | TransferState.kRejected => False
    | _ => True
    end;
}.

(** ** Grant and window *)

Lemma updateGrant_closed max_width e :
  0 ≤ contiguous_count e ≤ granted_end e → granted_end e ≤ segment_count e →
  segment_count e ≤ 65536 → granted_end e - contiguous_count e ≤ receive_window_width (config e) →
  receive_window_width (config e) ≤ 16 →
  (narrow max_width = true → receive_window_width (config e) = 1) →
  is_u16 (receive_bitmap e) →
  updateGrant max_width e =
    set_granted_end (Z.min (segment_count e)
                       (contiguous_count e + receive_window_width (config e))) e.
Proof.
  intros Hc Hg Hn Hspan Hw Hnarrow Hb. unfold updateGrant. destruct (narrow max_width).
  { rewrite Hnarrow by done. destruct (Z.ltb_spec (contiguous_count e) (segment_count e)).
    - rewrite u32_id by (unfold is_u32; lia). f_equal. lia.
    - f_equal. lia. }
  set (span := granted_end e - contiguous_count e).
  rewrite (u32_id span), (u8_id span) by (unfold is_u32, is_u8; lia).
  set (masked := Z.land (receive_bitmap e) (lowBitMask span)).
  assert (Hmasked : 0 ≤ masked < 2 ^ span).
  { unfold masked. rewrite lowBitMask_ones, Z.land_ones by lia.
    apply Z.mod_pos_bound, Z.pow_pos_nonneg; lia. }
  assert (is_u16 masked) by (unfold masked; auto with word).
  rewrite u16_id, popcount16_count by done.
  assert (Hcount : 0 ≤ bit_count 16 masked ≤ span).
  { replace 16%nat with (Z.to_nat span + (16 - Z.to_nat span))%nat by lia.
    rewrite bit_count_below by (rewrite Z2Nat.id; lia).
    pose proof (bit_count_bound (Z.to_nat span) masked). lia. }
  rewrite u8_id by (unfold is_u8; lia).
  pose proof (grant_loop (segment_count e) (receive_window_width (config e)) 256
    (granted_end e) span (span - bit_count 16 masked)) as Hloop.
  destruct (while_upto _ _ _ _) as [[granted ?] ?]. simpl in Hloop.
  rewrite Hloop by (change (2 ^ 32) with 4294967296; lia). f_equal. lia.
Qed.

(** Accepting segment [index] of the window adds exactly it to the received set,
    moves the contiguous prefix past every received segment, and regrants. *)
(** A segment of the window recorded: the transfer goes on with it received. *)
Definition recorded (max_width index : Z) (e e' : Engine) : Prop :=
  transfer_wf max_width e' ∧ config e' = config e ∧ state e' = state e ∧ setup e' = setup e ∧
  last_send e' = last_send e ∧ last_activity_ms e' = last_activity_ms e ∧
  (∀ i, received e' i ↔ received e i ∨ i = index).

Section accept.
Variables (max_width index : Z) (e : Engine).
Hypothesis width_bounds : 1 ≤ max_width ≤ 16.
Hypothesis width_fits : receive_window_width (config e) ≤ max_width.
Hypothesis in_transfer : transfer_wf max_width e.
Hypothesis in_window : contiguous_count e ≤ index < granted_end e.

Abbreviation after := (updateGrant max_width (accept_segment max_width (index - contiguous_count e)
  (segment_bytes (setup e) index) e)).

(** The narrow build: the segment is the next one. *)
Lemma accept_narrow : narrow max_width = true → index = contiguous_count e →
  recorded max_width index e after.
Proof.
  intros Hn Hidx. destruct in_transfer as [Hs Hcount Hw Hc Hg Hb Hfirst Hwin Hnar].
  pose proof in_window as Hi. pose proof (setup_geometry _ Hs) as (_ & _ & Hsegs & Hbytes).
  unfold recorded, accept_segment. rewrite Hn, Hidx in *. destruct (Hnar eq_refl) as [Hb0 Hoff].
  assert (receive_window_width (config e) = 1)
    by (unfold narrow in Hn; apply Z.eqb_eq in Hn; lia).
  rewrite u32_id by (unfold is_u32; lia).
  rewrite updateGrant_closed by (simpl; rewrite ?Hb0; done || lia).
  simpl. split_and!; try done.
  + split; simpl; try done; try lia.
    * intros i Hi0. by rewrite Hb0, Z.bits_0.
    * intros _. split; [done|]. intros Hlt. rewrite Hoff by lia.
      unfold segment_bytes, segment_offset in *.
      destruct (Z.eqb_spec (contiguous_count e) (final_segment_index (setup e)));
        [unfold segments in *; lia|].
      assert (0 ≤ contiguous_count e * segment_size (setup e)
        ∧ contiguous_count e * segment_size (setup e) + segment_size (setup e)
           ≤ object_bytes (setup e)).
      { destruct Hs as [_ Hs]. unfold object_bytes, segments in *. nia. }
      change (2 ^ 32) with 4294967296 in *. destruct Hs as [_ Hs].
      rewrite u32_id by (unfold is_u32; lia). lia.
  + intros i. unfold received. simpl. rewrite Hb0, !Z.bits_0. intuition (done || lia).
Qed.

(** The wide build: its bit is set and the window slides. *)
Lemma accept_wide : narrow max_width = false → recorded max_width index e after.
Proof.
  intros Hn. destruct in_transfer as [Hs Hcount Hw Hc Hg Hb Hfirst Hwin Hnar].
  pose proof in_window as Hi. pose proof (setup_geometry _ Hs) as (_ & _ & Hsegs & Hbytes).
  unfold recorded, accept_segment. rewrite Hn.
  set (w := index - contiguous_count e). assert (0 ≤ w < 16) by lia.
  fold (bit16 w). set (bitmap := Z.lor (receive_bitmap e) (bit16 w)).
  assert (Hbm : is_u16 bitmap) by (unfold bitmap, bit16; auto with word).
  rewrite (u16_id bitmap) by done.
  assert (Hbits : ∀ i, 0 ≤ i → Z.testbit bitmap i = true ↔
    Z.testbit (receive_bitmap e) i = true ∨ i = w).
  { intros i Hi0. unfold bitmap. autorewrite with testbit.
    by rewrite orb_true_iff, Z.eqb_eq. }
  destruct (slide_spec (contiguous_count e) bitmap) as (k & Hk & -> & Hrun & Hend);
    [done|lia|change (2 ^ 32) with 4294967296; lia|].
  assert (Hin : ∀ i, 0 ≤ i → Z.testbit bitmap i = true → contiguous_count e + i < granted_end e).
  { intros i Hi0 [?| ->]%Hbits; [by apply Hwin|unfold w; lia|done]. }
  assert (Hck : contiguous_count e + k ≤ granted_end e).
  { destruct (decide (k = 0)); [lia|]. enough (contiguous_count e + (k - 1) < granted_end e)
      by lia. apply Hin; [lia|]. apply Hrun. lia. }
  rewrite updateGrant_closed by (simpl; rewrite ?Hn; auto with word; done || lia).
  simpl. split_and!; try done.
  + split; simpl; try done; try lia; auto with word.
    * by rewrite <- Z.bit0_odd, testbit_shiftr by lia.
    * intros i Hi0. rewrite testbit_shiftr by lia. intros Ht%Hin; lia.
    * by rewrite Hn.
  + intros i. unfold received. simpl. destruct (decide (contiguous_count e ≤ i)) as [Hge|].
    * specialize (Hbits (i - contiguous_count e)). specialize (Hrun (i - contiguous_count e)).
      destruct (decide (i < contiguous_count e + k)).
      -- assert (Z.testbit (receive_bitmap e) (i - contiguous_count e) = true
           ∨ i - contiguous_count e = w) as Hor by (apply Hbits; [lia|apply Hrun; lia]).
         split; [intros _|intros _; left; lia].
         destruct Hor; [left; right; by split|right; unfold w in *; lia].
      -- rewrite testbit_shiftr by lia.
         replace (i - (contiguous_count e + k) + k) with (i - contiguous_count e) by lia.
         rewrite Hbits by lia. unfold w. intuition (done || lia).
    * intuition lia.
Qed.

Lemma accept_segment_spec :
  (narrow max_width = true → index = contiguous_count e) → recorded max_width index e after.
Proof. intros Hidx. destruct (narrow max_width) eqn:Hn; [apply accept_narrow; auto|by apply accept_wide]. Qed.
End accept.

(** ** Observing the environment

    [Traced W] is the environment [W], whatever it does, with a log of the calls
    it received and what it answered. *)

Inductive Event :=
  | EBegin (info : TransferInfo) (admission : TransferAdmission.t)
  | EFailed (reason : FailureReason.t)
  | ESegment (object_offset : Z) (payload : bytes) (accepted : bool)
  | EDatagram (payload : bytes)
  | EComplete
  | EAborted (reason : AbortReason.t)
  | EPrepare (size available : Z)
  | EStore (contents : bytes)
  | ESend (result : SendResult.t).

Definition Traced (W : Type) : Type := W * list Event.

Definition traced {W A} (m : State W A) (event : A → Event) : State (Traced W) A :=
  λ '(w, log), let '(a, w') := m w in (a, (w', log ++ [event a])).

#[export] Instance Traced_callbacks W `{!ReceiverCallbacks W} : ReceiverCallbacks (Traced W) := {
  beginTransfer info := traced (beginTransfer info) (EBegin info);
  onTransferFailed reason := traced (onTransferFailed reason) (λ _, EFailed reason);
  onSegment offset payload := traced (onSegment offset payload) (ESegment offset payload);
  onDatagram payload := traced (onDatagram payload) (λ _, EDatagram payload);
  onTransferComplete := traced onTransferComplete (λ _, EComplete);
  onTransferAborted reason := traced (onTransferAborted reason) (λ _, EAborted reason);
}.

#[export] Instance Traced_sender W `{!ReceiverPduSender W} : ReceiverPduSender (Traced W) := {
  prepare size := traced (prepare size) (λ storage, EPrepare size (zlen storage));
  store contents := traced (store contents) (λ _, EStore contents);
  sendPrepared := traced sendPrepared ESend;
}.

(** ** Specification: what a service sees

    The legal call sequences of one service, as an automaton with the deliveries
    of the open transfer: a transfer opens with an accepted [beginTransfer], only
    an open transfer delivers segments, and exactly one of completion, failure
    and abort closes it; completion is reported only when the deliveries are
    exactly the object's segments, each once. *)

Inductive Monitor :=
  | Closed
  | Open (info : TransferInfo) (deliveries : list (Z * bytes))
  | Done (info : TransferInfo) (deliveries : list (Z * bytes)).

(** The offset and size of each delivery. *)
Definition shape (ds : list (Z * bytes)) : list (Z * Z) :=
  map (λ '(offset, payload), (offset, zlen payload)) ds.

(** Offset and size of each segment of an object. *)
Definition tiles (info : TransferInfo) : list (Z * Z) :=
  let size := info_segment_size info in
  let count := (info_total_size info + size - 1) / size in
  map (λ i, (i * size, Z.min size (info_total_size info - i * size))) (seqZ 0 count).

Definition observe (m : Monitor) (event : Event) : option Monitor :=
  match event, m with
  | (EDatagram _ | EPrepare _ _ | EStore _ | ESend _), _ => Some m
  | EBegin _ _, Open _ _ => None
  | EBegin info TransferAdmission.kAccepted, _ => Some (Open info [])
  | EBegin _ _, _ => Some m
  | ESegment offset payload accepted, Open info ds =>
      Some (Open info (if accepted then ds ++ [(offset, payload)] else ds))
  | EComplete, Open info ds =>
      if bool_decide (shape ds ≡ₚ tiles info) then Some (Done info ds) else None
  | (EFailed _ | EAborted _), Open _ _ => Some Closed
  | _, _ => None
  end.

Definition monitor (log : list Event) : option Monitor :=
  foldl (λ m event, m ≫= λ m, observe m event) (Some Closed) log.

Lemma monitor_snoc log event :
  monitor (log ++ [event]) = monitor log ≫= λ m, observe m event.
Proof. unfold monitor. by rewrite foldl_app. Qed.

Definition tile (s : Setup) (i : Z) : Z * Z := (segment_offset s i, segment_bytes s i).

Lemma tiles_setup s : setup_valid s → tiles (info_of s) = map (tile s) (seqZ 0 (segments s)).
Proof.
  intros [Hwf Hsz]. simpl in Hwf. destruct_and!. unfold tiles, info_of, object_bytes. simpl.
  assert (Hcount : (final_segment_index s * segment_size s + final_segment_size s
    + segment_size s - 1) / segment_size s = segments s).
  { unfold segments. symmetry. apply Z.div_unique with (final_segment_size s - 1); lia. }
  rewrite Hcount. apply map_ext_in. intros i Hi%list_elem_of_In%elem_of_seqZ.
  unfold tile, segment_offset, segment_bytes, segments in *. f_equal.
  destruct (Z.eqb_spec i (final_segment_index s)) as [->|]; [lia|].
  assert (i * segment_size s + segment_size s ≤ final_segment_index s * segment_size s) by nia.
  lia.
Qed.

Lemma tile_inj s i j : setup_valid s → tile s i = tile s j → i = j.
Proof. intros [_ Hsz]. unfold tile, segment_offset. intros [= Hij _]. nia. Qed.

(** The engine and the monitor agree: the deliveries of the open transfer, or of
    the last completed one, are the received segments, each once, and each of
    them [arrived] in a segment message of the transfer's session with its index, as
    the setup itself had. *)
Definition delivered (arrived : bytes → Prop) (e : Engine) (ds : list (Z * bytes)) : Prop :=
  NoDup (shape ds) ∧ (∀ t, t ∈ shape ds ↔ ∃ i, received e i ∧ t = tile (setup e) i) ∧
  Forall (λ '(offset, payload), ∃ i, offset = segment_offset (setup e) i ∧
            arrived (segment_with (setup_session_id (setup e)) i payload)) ds ∧
  arrived (layout (MSetup (setup e))).

Definition agrees (arrived : bytes → Prop) (e : Engine) (m : Monitor) : Prop :=
  match state e with
  | TransferState.kActive => ∃ ds, m = Open (info_of (setup e)) ds ∧ delivered arrived e ds
  | TransferState.kCompleted => ∃ ds, m = Done (info_of (setup e)) ds ∧ delivered arrived e ds
  | _ => m = Closed
  end.

Lemma delivered_accept arrived e e' ds index payload :
  setup_valid (setup e) → setup e' = setup e →
  (∀ i, received e' i ↔ received e i ∨ i = index) → ¬ received e index →
  zlen payload = segment_bytes (setup e) index →
  arrived (segment_with (setup_session_id (setup e)) index payload) →
  delivered arrived e ds → delivered arrived e' (ds ++ [(segment_offset (setup e) index, payload)]).
Proof.
  intros Hs Hsetup Hrec Hnew Hlen Harr (Hnd & Hds & Hsrc & Hreq). unfold delivered, shape in *.
  rewrite map_app. simpl. rewrite Hlen. fold (tile (setup e) index). rewrite Hsetup. split_and!.
  - apply list.NoDup_app. split_and!; [done| |apply NoDup_singleton].
    intros t Ht ->%list_elem_of_singleton. apply Hds in Ht as (i & Hi & Heq%tile_inj); [|done].
    by subst.
  - intros t. rewrite elem_of_app, list_elem_of_singleton, Hds. split.
    + intros [(i & Hi & ->)| ->]; [exists i|exists index]; rewrite Hrec; auto.
    + intros (i & [Hi| ->]%Hrec & ->); [left; by exists i|by right].
  - apply Forall_app_2; [done|]. repeat constructor. by exists index.
  - done.
Qed.

(** With every segment received, the deliveries are the whole object. *)
Lemma delivered_complete arrived max_width e ds :
  transfer_wf max_width e → contiguous_count e = segment_count e → delivered arrived e ds →
  shape ds ≡ₚ tiles (info_of (setup e)).
Proof.
  intros [Hs Hcount ? ? ? ? ? Hwin ?] Hall (Hnd & Hds & _ & _). rewrite tiles_setup by done.
  apply NoDup_Permutation; [done| |].
  - assert (Inj (=) (=) (tile (setup e))) by (intros i j; by apply tile_inj).
    apply (NoDup_fmap_2 (tile (setup e))), NoDup_seqZ.
  - intros t. rewrite Hds. rewrite <- Hcount, list_elem_of_In, in_map_iff. split.
    + intros (i & Hi & ->). exists i. split; [done|]. apply list_elem_of_In, elem_of_seqZ.
      destruct Hi as [?|[? Ht]]; [lia|]. apply Hwin in Ht; lia.
    + intros (i & <- & Hi%list_elem_of_In%elem_of_seqZ). exists i.
      split; [|done]. left. lia.
Qed.

Lemma segment_offset_u32 s i :
  setup_valid s → 0 ≤ i < segments s → u32 (u32 i * segment_size s) = segment_offset s i.
Proof.
  intros Hs Hi. pose proof (setup_geometry s Hs) as (_ & _ & Hn & Hobj).
  destruct Hs as [Hwf Hsz]. unfold segment_offset, segments, object_bytes in *.
  change (2 ^ 32) with 4294967296 in *. rewrite (u32_id i) by (unfold is_u32; lia).
  assert (i * segment_size s ≤ final_segment_index s * segment_size s) by nia.
  rewrite u32_id; [done|]. unfold is_u32. nia.
Qed.

(** What the guards of [handleSegment] leave: the next segment in the narrow
    build, one with a clear bit in the wide build. *)
Definition duplicate (max_width : Z) (e : Engine) (index : Z) : bool :=
  let window_offset := u32 (index - contiguous_count e) in
  if narrow max_width then negb (index =? contiguous_count e)
  else (receive_window_width (config e) <=? window_offset)
       || negb (Z.land (receive_bitmap e) (u16 (Z.shiftl 1 window_offset)) =? 0).

Lemma fresh_segment max_width e index :
  1 ≤ max_width ≤ 16 →
  engine_wf max_width e → transfer_wf max_width e →
  contiguous_count e ≤ index < granted_end e → duplicate max_width e index = false →
  (narrow max_width = true → index = contiguous_count e) ∧ ¬ received e index ∧
  u32 (index - contiguous_count e) = index - contiguous_count e ∧
  (if narrow max_width then next_object_offset e
   else u32 (u32 index * segment_size (setup e))) = segment_offset (setup e) index.
Proof.
  intros Hmax Hwf Htwf Hi Hdup. pose proof Htwf as [Hs Hcount ? ? ? Hb ? ? Hnar].
  pose proof (setup_geometry _ Hs) as (_ & _ & Hn & _).
  unfold duplicate, received in *. rewrite (u32_id (index - _)) in * by (unfold is_u32; lia).
  destruct (narrow max_width).
  - apply negb_false_iff, Z.eqb_eq in Hdup. destruct (Hnar eq_refl) as [Hb0 Hoff].
    rewrite Hb0, Z.bits_0. subst. split_and!; auto; [intuition (done || lia)|].
    apply Hoff. lia.
  - apply orb_false_iff in Hdup as [Hwidth Hbit]. apply Z.leb_gt in Hwidth.
    apply negb_false_iff, Z.eqb_eq in Hbit. fold (bit16 (index - contiguous_count e)) in Hbit.
    destruct Hwf as [? _ _ _ _ _]. rewrite land_bit16 in Hbit by lia.
    split_and!; [done|rewrite Hbit; intuition (done || lia)|done|].
    apply segment_offset_u32; [done|lia].
Qed.

(** The engine after an accepted setup. *)
Definition opened (max_width : Z) (requested : Setup) (now : Z) (e : Engine) : Engine :=
  updateGrant max_width
    (begin_active max_width requested (setupSegmentCount requested) now e).

Lemma opened_spec max_width requested now e :
  1 ≤ max_width ≤ 16 → engine_wf max_width e → setup_valid requested →
  1 ≤ receive_window_width (config e) →
  let e' := opened max_width requested now e in
  engine_wf max_width e' ∧ state e' = TransferState.kActive ∧ setup e' = requested ∧
  config e' = config e ∧ last_activity_ms e' = now ∧ segment_count e' = segments requested ∧
  (∀ i, ¬ received e' i).
Proof.
  intros Hmax [Hw1 Hw2 Hw3 Hw4 Hw5 _] Hs Hw. unfold opened.
  pose proof (setup_geometry _ Hs) as (-> & _ & Hn & _).
  assert (Hnarrow : narrow max_width = true → receive_window_width (config e) = 1)
    by (unfold narrow; intros ?%Z.eqb_eq; lia).
  assert (Hb0 : receive_bitmap (begin_active max_width requested (segments requested) now e) = 0)
    by (simpl; destruct (narrow max_width); auto).
  rewrite updateGrant_closed by (rewrite ?Hb0; simpl; done || lia).
  assert (Htwf : transfer_wf max_width
    (set_granted_end (Z.min (segments requested) (0 + receive_window_width (config e)))
      (begin_active max_width requested (segments requested) now e))).
  { split; simpl in *; rewrite ?Hb0; try done; try lia.
    - intros i _. by rewrite Z.bits_0.
    - intros ->. split; [done|]. by unfold segment_offset. }
  split_and!; try done.
  - split; simpl; try done. split; [done|lia].
  - intros i [?|[_ Hi]]; simpl in *; [lia|]. by rewrite Hb0, Z.bits_0 in Hi.
Qed.

(** ** Invariant of the engine and its log *)

(** What the other encoders write is not an ACK. *)
Lemma headed_other t rest output :
  t ≠ kAck → (length rest < length output)%nat →
  hasType (memcpy_at 0 (encodeControl t :: rest) output) kAck = false.
Proof.
  intros Ht Hlen. rewrite memcpy_at_app by (simpl; lia). rewrite take_0. cbn [app hasType].
  rewrite decodeControl_encodeControl. cbn [type]. by apply bool_decide_eq_false_2.
Qed.

Lemma encoded_other output contents :
  (∃ r, encodeReject r output = Some contents) ∨ (∃ a, encodeAbort a output = Some contents) ∨
  (∃ p, encodeUserDatagram p output = Some contents) →
  hasType contents kAck = false.
Proof.
  unfold encodeReject, encodeAbort, kRejectSize, kAbortSize, zlen.
  intros [[r E]|[[a E]|[p E]]].
  - destruct (Z.ltb_spec (Z.of_nat (length output)) 3); [done|]. injection E as <-.
    apply headed_other; [done|simpl; lia].
  - destruct (Z.ltb_spec (Z.of_nat (length output)) 2); [done|]. injection E as <-.
    apply headed_other; [done|simpl; lia].
  - rewrite emit_datagram in E. destruct (Z.ltb_spec (zlen output) (zlen (5 :: p))) as [|Hlen]; [done|].
    injection E as <-. apply (headed_other kUserDatagram); [done|]. unfold zlen in Hlen. simpl in *. lia.
Qed.

Section invariant.
Context {W : Type} `{!ReceiverCallbacks W, !ReceiverPduSender W}.
Variable max_width : Z.
Hypothesis Hmax : 1 ≤ max_width ≤ 16.
(** The messages that arrive. *)
Variable arrived : bytes → Prop.

(** Every ACK in the log was truthful: an engine that agreed with the log before it,
    and had a transfer, encoded its state in it. *)
Definition vouched_by (log : list Event) (contents : bytes) (e : Engine) : Prop :=
  (engine_wf max_width e ∧ ∃ m, monitor log = Some m ∧ agrees arrived e m) ∧
  (state e = TransferState.kActive ∨ state e = TransferState.kCompleted) ∧
  ∃ storage, zlen storage = kAckSize ∧ ackContents max_width e storage = Some contents.
Definition vouched (log : list Event) : Prop :=
  ∀ before contents after, log = before ++ EStore contents :: after → hasType contents kAck = true →
    ∃ e, vouched_by before contents e.

Definition inv (s : Engine * Traced W) : Prop :=
  engine_wf max_width s.1 ∧ (∃ m, monitor s.2.2 = Some m ∧ agrees arrived s.1 m) ∧ vouched s.2.2.

Lemma vouched_nil : vouched [].
Proof. by intros [|? ?] contents after. Qed.

Lemma vouched_prefix log more : vouched (log ++ more) → vouched log.
Proof.
  intros Hv before contents after ->. apply (Hv before contents (after ++ more)).
  by rewrite <- app_assoc.
Qed.

Lemma vouched_snoc log event :
  vouched log →
  (∀ contents, event = EStore contents → hasType contents kAck = true → ∃ e, vouched_by log contents e) →
  vouched (log ++ [event]).
Proof.
  intros Hlog Hevent before contents after Heq Hack. destruct after as [|last after _] using rev_ind.
  - apply app_inj_tail in Heq as [-> ->]. by apply Hevent.
  - rewrite app_comm_cons, app_assoc in Heq. apply app_inj_tail in Heq as [-> _].
    by eapply Hlog.
Qed.

(** Any event but an ACK. *)
Lemma vouched_other log event :
  vouched log → (∀ contents, event = EStore contents → hasType contents kAck = false) →
  vouched (log ++ [event]).
Proof. intros Hlog Hev. apply vouched_snoc; [done|]. intros contents E Hack. by rewrite (Hev _ E) in Hack. Qed.

Lemma wp_call {A} (m : State W A) event e w log (Q : A → Engine * Traced W → Prop) :
  (∀ a w', Q a (e, (w', log ++ [event a]))) → wp (call (traced m event)) (e, (w, log)) Q.
Proof. unfold wp, call, on_snd, traced. destruct (m w). simpl. auto. Qed.

Definition neutral (event : Event) : Prop :=
  (∀ m, observe m event = Some m) ∧
  (∀ contents, event = EStore contents → hasType contents kAck = false).

Lemma inv_neutral event e w w' log :
  neutral event → inv (e, (w, log)) → inv (e, (w', log ++ [event])).
Proof.
  intros [Hn Hack] (Hwf & (m & Hm & Hag) & Hv). split; [done|]. split; [|by apply vouched_other].
  simpl in *. exists m. rewrite monitor_snoc, Hm. split; [apply Hn|done].
Qed.

Lemma inv_last_send r e wl : inv (e, wl) → inv (set_last_send r e, wl).
Proof.
  intros ([? ? ? ? ? Hst] & (m & Hm & Hag) & Hv). split; [|by split; [exists m|]].
  split; try done. revert Hst. simpl.
  destruct (state e); try done; intros [[] ?]; by split.
Qed.

Lemma inv_last_activity n e wl : inv (e, wl) → inv (set_last_activity_ms n e, wl).
Proof.
  intros ([? ? ? ? ? Hst] & (m & Hm & Hag) & Hv). split; [|by split; [exists m|]].
  split; try done. revert Hst. simpl.
  destruct (state e); try done; intros [[] ?]; by split.
Qed.

(** Leaving the active state is the closing event. *)
Lemma inv_close event st e w w' log :
  state e = TransferState.kActive →
  (∀ info ds, observe (Open info ds) event = Some Closed) →
  st = TransferState.kAborted ∨ st = TransferState.kError →
  inv (e, (w, log)) → inv (set_state st e, (w', log ++ [event])).
Proof.
  intros Hact Hobs Hst ([] & (m & Hm & Hag) & Hv). split; [|split].
  - split; try done. simpl. by destruct Hst as [-> | ->].
  - exists Closed. simpl in *. unfold agrees in *. rewrite Hact in Hag.
    destruct Hag as (ds & -> & _). rewrite monitor_snoc, Hm. simpl.
    split; [apply Hobs|by destruct Hst as [-> | ->]].
  - apply vouched_other; [done|]. intros contents ->. discriminate (Hobs (info_of (setup e)) []).
Qed.

Lemma wp_engine {S} (s : Engine * S) (Q : Engine → Engine * S → Prop) :
  Q s.1 s → wp engine s Q.
Proof. done. Qed.

Lemma wp_update {S} f (e : Engine) (w : S) (Q : unit → Engine * S → Prop) :
  Q tt (f e, w) → wp (update f) (e, w) Q.
Proof. done. Qed.

(** Each computation that only sends changes nothing but [last_send]. *)
Definition only_sends {A} (m : Op (W := Traced W) A) : Prop :=
  ∀ e wl, inv (e, wl) → wp m (e, wl) (λ _ s', inv s' ∧ ∃ r, s'.1 = set_last_send r e).

Lemma engineSendPrepared_inv : only_sends engineSendPrepared.
Proof.
  intros e [w log] Hinv. apply wp_bind, wp_call. intros r w'. apply wp_bind, wp_update, wp_ret.
  split; [by apply inv_last_send, (inv_neutral (ESend r)) with w|by exists r].
Qed.

Lemma fail_inv reason s : inv s → wp (fail reason) s (λ _, inv).
Proof.
  destruct s as [e [w log]]. intros Hinv. apply wp_bind, wp_engine. simpl.
  case_bool_decide as Hact; [|done]. apply wp_bind, wp_update, wp_call. intros [] w'.
  apply (inv_close (EFailed reason)) with w; auto.
Qed.

Lemma store_and_send contents :
  hasType contents kAck = false → only_sends (call (store contents);; engineSendPrepared).
Proof.
  intros Hack e [w log] Hinv. apply wp_bind, wp_call. intros [] w'.
  apply engineSendPrepared_inv. apply (inv_neutral (EStore contents)) with w; [|done].
  by split; [|intros ? [= <-]].
Qed.

(** [sendReject] and [sendAbort]: prepare, then store and send, or give up. *)
Lemma prepared_inv size (encoded : bytes → option bytes) :
  (∀ storage contents, encoded storage = Some contents → hasType contents kAck = false) →
  only_sends
    (storage ← call (prepare size);
     update (set_last_send SendResult.kTooLarge);;
     match encoded storage with
     | None => mret false
     | Some contents => call (store contents);; engineSendPrepared
     end).
Proof.
  intros Hack e [w log] Hinv. apply wp_bind, wp_call. intros storage w'. apply wp_bind, wp_update.
  assert (Hinv' : inv (set_last_send SendResult.kTooLarge e,
    (w', log ++ [EPrepare size (zlen storage)])))
    by by apply inv_last_send, (inv_neutral (EPrepare size (zlen storage))) with w.
  specialize (Hack storage). destruct (encoded storage) as [contents|]; [|apply wp_ret; split;
    [done|by eexists]].
  eapply wp_mono; [apply store_and_send; [by apply Hack|done]|]. intros _ s' [? [r ->]].
  split; [done|by exists r].
Qed.

Lemma sendReject_inv session r : only_sends (sendReject session r).
Proof.
  apply (prepared_inv kRejectSize (λ storage, if zlen storage =? kRejectSize
    then encodeReject (mkReject session r) storage else None)).
  intros storage contents. destruct (_ =? _); [|done]. intros E.
  apply (encoded_other storage). eauto.
Qed.

Lemma sendAbort_inv : only_sends sendAbort.
Proof.
  intros e wl. apply (prepared_inv kAbortSize (λ storage, if zlen storage =? kAbortSize
    then encodeAbort (mkAbort (setup_session_id (setup e))) storage else None)).
  intros storage contents. destruct (_ =? _); [|done]. intros E.
  apply (encoded_other storage). eauto.
Qed.

(** The ACK of an engine with a transfer. *)
Lemma inv_ack contents storage e w w' log :
  (if zlen storage =? kAckSize then ackContents max_width e storage else None) = Some contents →
  state e = TransferState.kActive ∨ state e = TransferState.kCompleted →
  inv (e, (w, log)) → inv (e, (w', log ++ [EStore contents])).
Proof.
  intros Hcontents Hst (Hwf & (m & Hm & Hag) & Hv). split; [done|]. split.
  - exists m. cbn [fst snd] in *. by rewrite monitor_snoc, Hm.
  - apply vouched_snoc; [done|]. intros ? [= <-] _. exists e. split; [by split; [|exists m]|].
    split; [done|]. destruct (Z.eqb_spec (zlen storage) kAckSize); [|done]. by exists storage.
Qed.

Lemma sendAck_inv s :
  inv s → state s.1 = TransferState.kActive ∨ state s.1 = TransferState.kCompleted →
  wp (sendAck max_width) s (λ _, inv).
Proof.
  destruct s as [e [w log]]. intros Hinv Hst. apply wp_bind, wp_call. intros storage w'.
  apply (inv_neutral (EPrepare kAckSize (zlen storage)) _ w w') in Hinv; [|done].
  apply wp_bind, wp_engine. simpl.
  destruct (if _ =? _ then _ else _) as [contents|] eqn:Hcontents.
  - apply wp_bind, wp_call. intros [] w''. apply wp_bind.
    eapply wp_mono; [apply engineSendPrepared_inv; by apply (inv_ack contents storage) with w'|].
    intros sent s' [Hinv' _]. simpl. destruct sent; [done|].
    apply wp_bind. eapply wp_mono; [by apply fail_inv|done].
  - apply wp_bind, wp_update, wp_bind.
    eapply wp_mono; [by apply fail_inv, inv_last_send|]. done.
Qed.

(** The transfer a segment message addresses. *)
Lemma active_transfer e wl :
  inv (e, wl) → state e = TransferState.kActive ∨ state e = TransferState.kCompleted →
  transfer_wf max_width e.
Proof. intros [[] _] [Hst|Hst]; simpl in *; rewrite Hst in *; tauto. Qed.

Lemma updateGrant_state e : state (updateGrant max_width e) = state e.
Proof. unfold updateGrant. destruct (narrow max_width); [done|].
by destruct (while_upto _ _ _ _) as [[? ?] ?]. Qed.
Lemma accept_state o n e : state (accept_segment max_width o n e) = state e.
Proof. unfold accept_segment. destruct (narrow max_width); [done|]. by destruct (slide _ _). Qed.

(** The new segment of an active transfer, once the sink has taken it. *)
Lemma accept_inv e w w' log index payload :
  inv (e, (w, log)) → state e = TransferState.kActive →
  contiguous_count e ≤ index < granted_end e →
  (narrow max_width = true → index = contiguous_count e) → ¬ received e index →
  zlen payload = segment_bytes (setup e) index →
  arrived (segment_with (setup_session_id (setup e)) index payload) →
  let e' := updateGrant max_width (accept_segment max_width (index - contiguous_count e)
            (zlen payload) e) in
  let log' := log ++ [ESegment (segment_offset (setup e) index) payload true] in
  if contiguous_count e' =? segment_count e'
  then inv (set_state TransferState.kCompleted e', (w', log' ++ [EComplete]))
  else inv (e', (w', log')).
Proof.
  intros Hinv Hact Hi Hidx Hnew Hlen Harr. pose proof (active_transfer _ _ Hinv (or_introl Hact)) as Htwf.
  destruct Hinv as ([Hw1 Hw2 Hw3 Hw4 Hw5 _] & (m & Hm & Hag) & Hv). simpl in *. rewrite Hlen.
  destruct (accept_segment_spec max_width index e) as (Ht' & Hc' & Hst' & Hs' & _ & _ & Hrec);
    try done; [lia|].
  unfold agrees in Hag. rewrite Hact in Hag. destruct Hag as (ds & -> & Hds).
  pose proof (delivered_accept _ _ _ _ _ _ (twf_setup _ _ Htwf) Hs' Hrec Hnew Hlen
    Harr Hds) as Hds'.
  set (e' := updateGrant _ _) in *.
  assert (Hm' : monitor (log ++ [ESegment (segment_offset (setup e) index) payload true]) =
    Some (Open (info_of (setup e))
            (ds ++ [(segment_offset (setup e) index, payload)])))
    by by rewrite monitor_snoc, Hm.
  pose proof (twf_narrow _ _ Ht') as Hnar.
  assert (Hv' : vouched (log ++ [ESegment (segment_offset (setup e) index) payload true]))
    by by apply vouched_other.
  destruct (Z.eqb_spec (contiguous_count e') (segment_count e')) as [Hall|Hmore].
  - split; [split; simpl; rewrite ?Hc'; try done; [by intros []%Hnar|by split; [destruct Ht'; split|]]|].
    split; [|by apply vouched_other]. exists (Done (info_of (setup e'))
      (ds ++ [(segment_offset (setup e) index, payload)])). rewrite <- Hs' in *. split.
    + simpl. rewrite monitor_snoc, Hm'. simpl. rewrite bool_decide_eq_true_2; [done|].
      by apply (delivered_complete arrived max_width).
    + by eexists.
  - split; [split; simpl; rewrite ?Hc', ?Hst', ?Hact; try done; [by intros []%Hnar|]|].
    + split; [done|]. destruct Ht'. lia.
    + split; [|done]. eexists. split; [exact Hm'|]. unfold agrees. cbn [fst]. rewrite Hst', Hact, Hs'. eauto.
Qed.

Lemma inv_refused offset payload e w w' log :
  state e = TransferState.kActive →
  inv (e, (w, log)) → inv (e, (w', log ++ [ESegment offset payload false])).
Proof.
  intros Hact (Hwf & (m & Hm & Hag) & Hv). split; [done|]. split; [|by apply vouched_other].
  exists m. split; [|done]. simpl in *. unfold agrees in Hag. rewrite Hact in Hag.
  destruct Hag as (ds & -> & _).
  by rewrite monitor_snoc, Hm.
Qed.

Lemma handleSegment_inv message now s :
  (∀ h, decodeSegmentHeaderKnownType message = Some h →
     arrived (segment_with (seg_session_id h) (segment_index h)
       (drop (Z.to_nat kSegmentHeaderSize) message))) →
  inv s → wp (handleSegment max_width message now) s (λ _, inv).
Proof.
  destruct s as [e [w log]]. intros Harr Hinv. apply wp_bind, wp_engine. simpl.
  destruct (decodeSegmentHeaderKnownType message) as [[session index]|]; [simpl|done].
  specialize (Harr _ eq_refl). simpl in Harr.
  destruct (_ || _) eqn:Hguard; [done|].
  apply orb_false_iff in Hguard as [Hguard Hcount].
  apply orb_false_iff in Hguard as [Hst ->%negb_false_iff%Z.eqb_eq].
  destruct (zlen _ =? _) eqn:Hsize; [simpl|done]. apply Z.eqb_eq in Hsize.
  apply wp_bind, wp_update.
  set (e1 := (if index <? granted_end e then _ else _) e).
  assert (He1 : inv (e1, (w, log))).
  { unfold e1. destruct (_ <? _); [by apply inv_last_activity|done]. }
  assert (Heq : config e1 = config e ∧ state e1 = state e ∧ setup e1 = setup e ∧
    segment_count e1 = segment_count e ∧ contiguous_count e1 = contiguous_count e ∧
    next_object_offset e1 = next_object_offset e ∧
    granted_end e1 = granted_end e ∧ receive_bitmap e1 = receive_bitmap e)
    by (unfold e1; by destruct (_ <? _)).
  destruct Heq as (Hcfg & Hst1 & Hset & Hcnt & Hcon & Hoff & Hgr & Hbm).
  rewrite <- ?Hcfg, <- ?Hst1, <- ?Hset, <- ?Hcnt, <- ?Hcon, <- ?Hoff, <- ?Hgr, <- ?Hbm in *.
  clearbody e1. clear Hinv Hcfg Hst1 Hset Hcnt Hcon Hoff Hgr Hbm e. rename e1 into e.
  apply Z.leb_gt in Hcount.
  assert (Hstate : state e = TransferState.kActive ∨ state e = TransferState.kCompleted)
    by (apply andb_false_iff in Hst as [Hst|Hst]; apply negb_false_iff, bool_decide_eq_true in Hst;
        auto).
  clear Hst. pose proof (active_transfer _ _ He1 Hstate) as Htwf.
  destruct (Z.ltb_spec index (contiguous_count e)); [by apply sendAck_inv|].
  case_bool_decide as Hdone; [by apply sendAck_inv|]. destruct Hstate as [Hact|?]; [|done].
  destruct (Z.leb_spec (granted_end e) index); [by apply sendAck_inv; [|left]|]. simpl.
  fold (duplicate max_width e index). destruct (duplicate max_width e index) eqn:Hdup; [by apply
    sendAck_inv; [|left]|].
  destruct (fresh_segment max_width e index) as (Hidx & Hnew & -> & ->);
    [done|apply He1|done|lia|done|].
  apply wp_bind, wp_call. intros [] w'; simpl.
  2: by apply wp_bind; eapply wp_mono; [by eapply fail_inv, inv_refused|].
  apply wp_bind, wp_update, wp_bind, wp_update, wp_bind, wp_engine.
  pose proof (λ w', accept_inv e w w' log index _ He1 Hact (conj H H0) Hidx Hnew Hsize Harr) as Haccept.
  cbn [fst]. set (e' := updateGrant _ _) in *. apply wp_bind. cbv zeta in Haccept.
  destruct (contiguous_count e' =? segment_count e').
  - apply wp_bind, wp_update, wp_call. intros [] w''. by apply sendAck_inv; [|right].
  - apply wp_ret, sendAck_inv; [done|]. left. cbn [fst]. unfold e'. by rewrite updateGrant_state, accept_state.
Qed.

Lemma begin_inv e w w' log requested now :
  inv (e, (w, log)) → state e ≠ TransferState.kActive → setup_valid requested →
  1 ≤ receive_window_width (config e) → arrived (layout (MSetup requested)) →
  inv (opened max_width requested now e,
       (w', log ++ [EBegin (info_of requested) TransferAdmission.kAccepted])).
Proof.
  intros (Hwf & (m & Hm & Hag) & Hv) Hidle Hs Hw Harr. simpl in *.
  destruct (opened_spec max_width requested now e) as (Hwf' & Hst & Hset & _ & _ & _ & Hrec);
    try done.
  split; [done|]. split; [|by apply vouched_other]. exists (Open (info_of requested) []). simpl. split.
  - rewrite monitor_snoc, Hm. unfold agrees in Hag.
    by destruct (state e); simpl in *; try destruct Hag as (? & -> & _); subst.
  - unfold agrees. rewrite Hst, Hset. exists []. split; [done|].
    split_and!; [apply NoDup_nil_2| |apply Forall_nil_2|by rewrite Hset].
    intros t. simpl. rewrite elem_of_nil. split; [done|]. intros (i & Hi%Hrec & _). done.
Qed.

Lemma inv_declined info admission e w w' log :
  state e ≠ TransferState.kActive → admission ≠ TransferAdmission.kAccepted →
  inv (e, (w, log)) → inv (e, (w', log ++ [EBegin info admission])).
Proof.
  intros Hidle Hadm (Hwf & (m & Hm & Hag) & Hv). split; [done|]. split; [|by apply vouched_other].
  exists m. split; [|done]. simpl in *. rewrite monitor_snoc, Hm. unfold agrees in Hag.
  by destruct (state e), admission; simpl in *; try destruct Hag as (? & -> & _); subst.
Qed.

Lemma wp_reject session r s : inv s → wp (sendReject session r) s (λ _, inv).
Proof.
  destruct s as [e wl]. intros Hinv.
  eapply wp_mono; [by apply sendReject_inv|]. by intros ? ? [? _].
Qed.

Lemma handleSetup_inv payload now s :
  is_bytes payload →
  (∀ requested, decodeSetupKnownType payload = Some requested → arrived (layout (MSetup requested))) →
  inv s → wp (handleSetup max_width payload now) s (λ _, inv).
Proof.
  intros Hbytes Harr Hinv. unfold handleSetup. destruct (zlen payload <? 2); [done|].
  pose proof (decodeSetupKnownType_spec payload) as Hdec.
  destruct (decodeSetupKnownType payload) as [requested|]; [|by apply wp_reject].
  destruct (proj1 (Hdec requested Hbytes) eq_refl) as [Hwf _]. specialize (Harr _ eq_refl).
  destruct (_ || _ || _) eqn:Hsizes; [by apply wp_reject|].
  rewrite !orb_false_iff, !Z.eqb_neq, Z.ltb_ge in Hsizes.
  assert (Hs : setup_valid requested)
    by (split; [done|]; simpl in Hwf; unfold is_u16 in *; lia).
  pose proof (setup_geometry _ Hs) as (_ & Htotal & _).
  destruct s as [e [w log]]. apply wp_bind, wp_engine. cbn [fst].
  destruct (_ <? _); [by apply wp_reject|].
  destruct (_ || _) eqn:Hwidth; [by apply wp_reject|].
  apply orb_false_iff in Hwidth as [Hwidth%Z.eqb_neq _].
  case_bool_decide as Hact.
  { destruct (setupMatches _ _); [|by apply wp_reject].
    apply wp_bind, wp_update, sendAck_inv; [by apply inv_last_activity|by left]. }
  apply wp_bind, wp_call. intros admission w'. rewrite Htotal. fold (info_of requested).
  destruct admission.
  - destruct Hinv as [Hewf Hrest]. pose proof Hewf as [? _ _ _ _ _]. cbn [fst] in *.
    apply wp_bind, wp_update, wp_bind, wp_update, sendAck_inv.
    + apply (begin_inv _ w); try done. lia.
    + left. by apply (opened_spec max_width requested now e); [..|lia].
  - by apply wp_reject, (inv_declined _ _ _ w).
  - by apply wp_reject, (inv_declined _ _ _ w).
  - by apply wp_reject, (inv_declined _ _ _ w).
Qed.

Lemma handleProbe_inv message now s :
  inv s → wp (handleProbe max_width message now) s (λ _, inv).
Proof.
  destruct s as [e wl]. intros Hinv. apply wp_bind, wp_engine. simpl.
  destruct (decodeProbeKnownType message); [|done]. destruct (_ || _) eqn:Hguard; [done|].
  apply orb_false_iff in Hguard as [Hst _].
  apply wp_bind, wp_update, sendAck_inv; [by apply inv_last_activity|].
  apply andb_false_iff in Hst as [Hst|Hst]; apply negb_false_iff, bool_decide_eq_true in Hst; auto.
Qed.

Lemma handleAbort_inv message s : inv s → wp (handleAbort message) s (λ _, inv).
Proof.
  destruct s as [e [w log]]. intros Hinv. apply wp_bind, wp_engine. simpl.
  destruct (decodeAbortKnownType message); [|done].
  destruct (_ || _) eqn:Hguard; [done|].
  apply orb_false_iff in Hguard as [Hact%negb_false_iff%bool_decide_eq_true _].
  apply wp_bind, wp_update, wp_bind, wp_call. intros [] w'.
  apply wp_ret, (inv_close (EAborted AbortReason.kPeer)) with w; auto.
Qed.

Lemma handleControl_inv message t now s :
  is_bytes message → hasType message t = true → arrived message → inv s →
  wp (handleControl max_width message t now) s (λ _, inv).
Proof.
  intros Hbytes Ht Harr Hinv. destruct t; simpl; try done.
  - apply handleSetup_inv; [done| |done]. intros requested Hdec.
    rewrite (setup_layout message requested); [done|done|]. unfold decodeSetup. by rewrite Ht.
  - by apply handleProbe_inv.
  - destruct (decodeUserDatagramKnownType message) as [payload|]; [|done].
    destruct s as [e [w log]]. apply wp_bind, wp_call. intros [] w'.
    apply wp_ret. by apply (inv_neutral (EDatagram payload)) with w.
  - by apply handleAbort_inv.
Qed.

Lemma poll_inv now s :
  inv s → wp (poll now) s (λ r s', inv s' ∧
    (r = ProcessResult.kIdle ∧ s' = s ∨
     r = ProcessResult.kError ∧ state s.1 = TransferState.kActive ∧
     state s'.1 = TransferState.kError)).
Proof.
  destruct s as [e [w log]]. intros Hinv. apply wp_bind, wp_engine. cbn [fst].
  destruct (_ || _) eqn:Hguard; [by apply wp_ret; auto|].
  apply orb_false_iff in Hguard as [Hguard _].
  apply orb_false_iff in Hguard as [Hact%negb_false_iff%bool_decide_eq_true _].
  apply wp_bind, wp_bind, wp_engine. cbn [fst]. rewrite bool_decide_eq_true_2 by done.
  apply wp_bind, wp_update, wp_call. intros [] w'. apply wp_ret. split; [|by right].
  apply (inv_close (EFailed FailureReason.kInactivityTimeout)) with w; auto.
Qed.

Lemma process_inv message now s :
  is_bytes message → arrived message → inv s → wp (process max_width message now) s (λ _, inv).
Proof.
  intros Hbytes Harr Hinv. apply wp_bind. eapply wp_mono; [by apply poll_inv|].
  intros r s' [Hinv' _]. case_bool_decide; [done|]. destruct s' as [e wl].
  apply wp_bind, wp_update. apply (inv_last_send SendResult.kSent) in Hinv'.
  destruct message as [|encoded message]; [done|].
  destruct (decodeControl encoded) as [control|] eqn:Hcontrol; [|done]. apply wp_bind.
  assert (Ht : hasType (encoded :: message) (type control) = true)
    by (simpl; rewrite Hcontrol; by apply bool_decide_eq_true).
  apply (wp_mono _ _ (λ _, inv)).
  - case_bool_decide as Hseg; [|by apply handleControl_inv]. apply handleSegment_inv; [|done].
    intros h Hdec. rewrite segment_with_header; [done|done|].
    unfold decodeSegmentHeader. by rewrite <- Hseg, Ht.
  - intros handled s'' Hinv''. destruct (negb handled); [done|].
    by apply wp_bind, wp_engine, wp_ret.
Qed.

Lemma sendDatagram_inv payload s : inv s → wp (sendDatagram payload) s (λ _, inv).
Proof.
  destruct s as [e [w log]]. intros Hinv. unfold sendDatagram. destruct (_ <? _); [done|].
  apply wp_bind, wp_call. intros storage w'.
  match goal with |- context [EPrepare ?n ?k] =>
    apply (inv_neutral (EPrepare n k) _ w w') in Hinv; [|done] end.
  destruct (if _ : bool then _ else _) as [contents|] eqn:E; [|done].
  apply wp_bind, wp_call. intros [] w''. apply wp_call. intros r w'''.
  apply (inv_neutral (ESend r)) with w''; [done|]. apply (inv_neutral (EStore contents)) with w'; [|done].
  split; [done|]. intros ? [= <-]. destruct (_ =? _); [|done]. apply (encoded_other storage). eauto.
Qed.

Lemma abort_inv s : inv s → wp abort s (λ _, inv).
Proof.
  destruct s as [e [w log]]. intros Hinv. apply wp_bind, wp_engine. cbn [fst].
  destruct (negb _) eqn:Hact; [done|]. apply negb_false_iff, bool_decide_eq_true in Hact.
  apply wp_bind. eapply wp_mono; [by apply sendAbort_inv|].
  intros _ [e' [w' log']] [Hinv' [r Heq]]. simpl in Heq. subst e'.
  apply wp_bind, wp_update, wp_bind, wp_call. intros [] w''. apply wp_bind, wp_engine, wp_ret.
  apply (inv_close (EAborted AbortReason.kLocal)) with w'; auto.
Qed.
End invariant.
