(* ===== verification/BitsEngineRuns.v ===== *)
(** * Runs of the BITS receiver engine

    Sequences of calls of the engine's public functions in an arbitrary
    environment: the session protocol the service sees, exactly-once delivery
    and reassembly of the object, what an ACK reports, and completion of a
    transfer in a cooperative environment. *)

From S2P Require Import Prelude BitsCodec BitsEngine.
Local Open Scope Z_scope.

(** ** Runs *)

(** The public member functions. *)
Inductive EngineCall :=
  | CProcess (message : bytes) (now_ms : Z)
  | CPoll (now_ms : Z)
  | CSendDatagram (payload : bytes)
  | CAbort.

Definition run_call {W} `{!ReceiverCallbacks W, !ReceiverPduSender W} (max_width : Z)
    (c : EngineCall) (s : Engine * W) : Engine * W :=
  match c with
  | CProcess message now_ms => (process max_width message now_ms s).2
  | CPoll now_ms => (poll now_ms s).2
  | CSendDatagram payload => (sendDatagram payload s).2
  | CAbort => (abort s).2
  end.

Definition run_calls {W} `{!ReceiverCallbacks W, !ReceiverPduSender W} (max_width : Z)
    (cs : list EngineCall) (s : Engine * W) : Engine * W :=
  foldl (λ s c, run_call max_width c s) s cs.

Definition config_wf (c : ReceiverEngineConfig) : Prop :=
  is_u16 (maximum_segment_size c) ∧ is_u8 (receive_window_width c) ∧
  is_u32 (maximum_object_size c) ∧ is_u32 (inactivity_timeout_ms c).

#[export] Instance config_wf_dec c : Decision (config_wf c).
Proof. unfold config_wf. apply _. Defined.

Definition call_wf (c : EngineCall) : Prop :=
  match c with CProcess message _ => is_bytes message | _ => True end.

#[export] Instance call_wf_dec c : Decision (call_wf c).
Proof. destruct c; simpl; apply _. Defined.

(** The messages among the calls of a run. *)
Definition arrived_in (cs : list EngineCall) (message : bytes) : Prop :=
  ∃ now, CProcess message now ∈ cs.

Section runs.
Context {W : Type} `{!ReceiverCallbacks W, !ReceiverPduSender W}.
Variable max_width : Z.
Hypothesis Hmax : 1 ≤ max_width ≤ 16.
Variable arrived : bytes → Prop.

Lemma inv_new c (w : W) : config_wf c → inv max_width arrived (new_engine max_width c, (w, [])).
Proof.
  intros (H1 & H2 & H3 & H4). split; [|by split; [exists Closed|apply vouched_nil]].
  unfold is_u8 in H2. split; simpl; try done; destruct (Z.ltb_spec max_width
    (receive_window_width c)); simpl; done || lia.
Qed.

Lemma run_call_inv c (s : Engine * Traced W) :
  call_wf c → (∀ message now, c = CProcess message now → arrived message) →
  inv max_width arrived s → inv max_width arrived (run_call max_width c s).
Proof.
  intros Hc Hcov Hinv. destruct c as [message now|now|payload|]; simpl.
  - apply process_inv; eauto.
  - destruct (poll_inv max_width arrived now s Hinv) as [? _]. done.
  - by apply (sendDatagram_inv max_width arrived).
  - by apply (abort_inv max_width arrived).
Qed.

Lemma run_calls_inv cs (s : Engine * Traced W) :
  Forall call_wf cs → (∀ message now, CProcess message now ∈ cs → arrived message) →
  inv max_width arrived s → inv max_width arrived (run_calls max_width cs s).
Proof.
  intros Hcs. revert s. induction Hcs as [|c cs Hc Hcs IH]; intros s Hcov Hinv; [done|].
  apply IH.
  - intros message now Hin. apply (Hcov message now). by right.
  - apply run_call_inv; [done| |done]. intros message now ->. apply (Hcov message now). by left.
Qed.
End runs.

(** What has arrived stays arrived. *)
Lemma inv_mono {W} max_width (arrived arrived' : bytes → Prop) (s : Engine * Traced W) :
  (∀ message, arrived message → arrived' message) →
  inv max_width arrived s → inv max_width arrived' s.
Proof.
  intros Hmono (Hwf & (m & Hm & Hag) & Hv).
  assert (Hagrees : ∀ e m, agrees arrived e m → agrees arrived' e m).
  { intros e m' Hag'. assert (Hdel : ∀ ds, delivered arrived e ds → delivered arrived' e ds).
    { intros ds (Hnd & Hds & Hsrc & Hreq). split_and!; [done|done| |auto].
      eapply list.Forall_impl; [exact Hsrc|]. intros [offset p] (i & ? & ?). exists i. auto. }
    unfold agrees in *. destruct (state e); try done; destruct Hag' as (ds & -> & Hd); eauto. }
  split; [done|]. split; [exists m; auto|].
  intros before contents after E Hack. destruct (Hv _ _ _ E Hack) as (e & [Hewf (m' & ? & ?)] & Hrest).
  exists e. split; [|done]. split; [done|]. exists m'. auto.
Qed.

(** Every run establishes the invariant, for what arrives during it. *)
Lemma run_inv {W} `{!ReceiverCallbacks W, !ReceiverPduSender W} max_width c cs (w : W) :
  1 ≤ max_width ≤ 16 → config_wf c → Forall call_wf cs →
  inv max_width (arrived_in cs)
    (run_calls (W := Traced W) max_width cs (new_engine max_width c, (w, []))).
Proof.
  intros Hmax Hc Hcs. apply run_calls_inv; try done; [|by apply inv_new].
  intros message now Hin. by exists now.
Qed.

(** ** Reassembly *)

(** What a sink holds that stores each delivery at its offset. *)
Definition write_all (ds : list (Z * bytes)) (buffer : bytes) : bytes :=
  foldl (λ buffer '(offset, payload), memcpy_at (Z.to_nat offset) payload buffer) buffer ds.

Lemma memcpy_slice_lookup object buffer offset payload k :
  length buffer = length object → payload = slice object offset (zlen payload) →
  (Z.to_nat offset ≤ k < Z.to_nat offset + length payload)%nat ∧ (k < length object)%nat →
  memcpy_at (Z.to_nat offset) payload buffer !! k = object !! k.
Proof.
  intros Hlen Hp [Hk Hko]. unfold memcpy_at. rewrite list_lookup_inserts by lia.
  rewrite Hp. unfold slice, zlen. rewrite Nat2Z.id, lookup_take_lt, lookup_drop by lia.
  f_equal. lia.
Qed.

Lemma memcpy_other_lookup buffer offset payload k :
  ¬ (offset ≤ k < offset + length payload)%nat →
  memcpy_at offset payload buffer !! k = buffer !! k.
Proof.
  intros Hk. unfold memcpy_at. destruct (decide (k < offset)%nat).
  - by apply list_lookup_inserts_lt.
  - apply list_lookup_inserts_ge. lia.
Qed.

Lemma write_all_lookup object ds buffer k :
  length buffer = length object → (k < length object)%nat →
  Forall (λ '(offset, payload), payload = slice object offset (zlen payload)) ds →
  (buffer !! k = object !! k ∨ ∃ offset payload, (offset, payload) ∈ ds ∧
     (Z.to_nat offset ≤ k < Z.to_nat offset + length payload)%nat) →
  write_all ds buffer !! k = object !! k.
Proof.
  intros Hlen Hk Hds. revert buffer Hlen.
  induction Hds as [|[offset payload] ds Hp Hds IH]; intros buffer Hlen Hcov; simpl.
  { destruct Hcov as [?|(? & ? & []%elem_of_nil & _)]. done. }
  apply IH; [by rewrite memcpy_at_length|].
  destruct (decide (Z.to_nat offset ≤ k < Z.to_nat offset + length payload)%nat) as [Hin|Hout].
  - left. by apply memcpy_slice_lookup.
  - destruct Hcov as [Heq|(o & p & [[= -> ->]|Hin]%elem_of_cons & Hr)].
    + left. by rewrite memcpy_other_lookup.
    + done.
    + right. eauto.
Qed.

Lemma tile_covers s k :
  setup_valid s → 0 ≤ k < object_bytes s →
  ∃ i, 0 ≤ i < segments s ∧ segment_offset s i ≤ k < segment_offset s i + segment_bytes s i.
Proof.
  intros [Hwf Hsz] Hk. simpl in Hwf. destruct_and!.
  unfold object_bytes, segments, segment_offset, segment_bytes, is_u16 in *.
  destruct (decide (k < final_segment_index s * segment_size s)).
  - pose proof (Z.div_mod k (segment_size s) ltac:(lia)).
    pose proof (Z.mod_pos_bound k (segment_size s) ltac:(lia)).
    assert (0 ≤ k / segment_size s < final_segment_index s)
      by (split; [apply Z.div_pos; lia|apply Z.div_lt_upper_bound; lia]).
    exists (k / segment_size s). destruct (Z.eqb_spec (k / segment_size s) (final_segment_index s)); lia.
  - exists (final_segment_index s). rewrite Z.eqb_refl. lia.
Qed.

(** Storing an object's segments, in any order, rebuilds the object. *)
Lemma write_all_object s object ds buffer :
  setup_valid s → zlen object = object_bytes s → length buffer = length object →
  shape ds ≡ₚ tiles (info_of s) →
  Forall (λ '(offset, payload), payload = slice object offset (zlen payload)) ds →
  write_all ds buffer = object.
Proof.
  intros Hs Hobj Hlen Hshape Hds.
  assert (Hlen' : length (write_all ds buffer) = length object).
  { rewrite <- Hlen. clear. revert buffer. induction ds as [|[o p] ds IH]; intros buffer; [done|].
    simpl. by rewrite IH, memcpy_at_length. }
  apply list_eq. intros k. destruct (decide (k < length object)%nat) as [Hk|];
    [|by rewrite !lookup_ge_None_2 by lia].
  apply write_all_lookup; try done. right.
  destruct (tile_covers s (Z.of_nat k)) as (i & Hi & Hki); [done|unfold zlen in Hobj; lia|].
  assert (Htile : tile s i ∈ shape ds).
  { rewrite Hshape, tiles_setup by done. apply list_elem_of_In, in_map, list_elem_of_In.
    apply elem_of_seqZ. lia. }
  apply list_elem_of_In, in_map_iff in Htile as ([o p] & Heq & Hin).
  apply (f_equal fst) in Heq as Ho. apply (f_equal snd) in Heq as Hp. simpl in Ho, Hp. subst o.
  exists (segment_offset s i), p. split; [by apply list_elem_of_In|].
  unfold zlen in Hp. rewrite <- Hp in Hki.
  assert (0 ≤ segment_offset s i) by (destruct Hs; unfold segment_offset; nia). lia.
Qed.

(** ** Functional behaviour of a segment and of the ACK *)

(** The end of [process] after [handleSegment] has run up to its [sendAck]. *)
Definition acknowledge {W} `{!ReceiverCallbacks W, !ReceiverPduSender W} (max_width : Z)
    : State (Engine * W) ProcessResult.t :=
  handled ← sendAck max_width;
  if negb handled then mret ProcessResult.kError
  else
  e ← engine;
  mret (if bool_decide (last_send e = SendResult.kFull)
        then ProcessResult.kBlocked else ProcessResult.kProgress).

Definition expired (now : Z) (e : Engine) : bool :=
  negb (inactivity_timeout_ms (config e) =? 0)
  && (inactivity_timeout_ms (config e) <=? u32 (now - last_activity_ms e)).

Lemma wp_equal {S A} (m : State S A) s r : wp m s (λ a s', (a, s') = r) → m s = r.
Proof. unfold wp. intros <-. by destruct (m s). Qed.

Lemma wp_self {S A} (m : State S A) s : wp m s (λ a s', (a, s') = m s).
Proof. unfold wp. by destruct (m s). Qed.

Lemma received_at_window max_width e i :
  transfer_wf max_width e → 0 ≤ i →
  received e (contiguous_count e + i) ↔ Z.testbit (receive_bitmap e) i = true.
Proof.
  intros [] Hi. unfold received. replace (contiguous_count e + i - contiguous_count e) with i by lia.
  intuition lia.
Qed.

(** The contiguous count is the least segment not received. *)
Lemma contiguous_least max_width e n :
  transfer_wf max_width e → 0 ≤ n → (∀ i, received e i ↔ 0 ≤ i < n) → contiguous_count e = n.
Proof.
  intros Htwf Hn Hrec. pose proof (twf_contiguous _ _ Htwf) as Hcont.
  pose proof (received_at_window _ e 0 Htwf) as Hc. rewrite Z.add_0_r, (twf_first _ _ Htwf) in Hc.
  destruct (Z.lt_total (contiguous_count e) n) as [Hlt|[Heq|Hgt]]; [|done|].
  - assert (Hr : received e (contiguous_count e)) by (apply Hrec; lia). apply Hc in Hr; [done|lia].
  - assert (Hr : received e n) by (left; lia). apply Hrec in Hr. lia.
Qed.

Section segment.
Context {W : Type} `{!ReceiverCallbacks W, !ReceiverPduSender W}.
Variable max_width : Z.
Hypothesis Hmax : 1 ≤ max_width ≤ 16.

Lemma bind_eq {A B} (m m' : Op (W := W) A) s s' (k : A → Op (W := W) B) :
  m s = m' s' → (m ≫= k) s = (m' ≫= k) s'.
Proof. unfold mbind, State_bind. by intros ->. Qed.

Lemma poll_idle e (w : W) now :
  (state e = TransferState.kActive → expired now e = false) →
  poll now (e, w) = (ProcessResult.kIdle, (e, w)).
Proof.
  intros Hexp. apply wp_equal, wp_bind, wp_engine. cbn [fst].
  case_bool_decide as Hact; [|done]. specialize (Hexp Hact). unfold expired in Hexp.
  apply andb_false_iff in Hexp as [Hexp|Hexp].
  - apply negb_false_iff in Hexp. by rewrite Hexp.
  - apply Z.leb_gt, Z.ltb_lt in Hexp. by rewrite Hexp, orb_true_r.
Qed.

(** [process] of a segment message is [handleSegment] and the report on it. *)
Lemma process_segment e (w : W) rest now s :
  (state e = TransferState.kActive → expired now e = false) →
  handleSegment max_width (1 :: rest) now (set_last_send SendResult.kSent e, w) =
    sendAck max_width s →
  process max_width (1 :: rest) now (e, w) = acknowledge max_width s.
Proof.
  intros Hexp Hseg. unfold process. rewrite (bind_eq _ (mret ProcessResult.kIdle) _ (e, w))
    by by apply poll_idle.
  unfold acknowledge. etransitivity; [|apply bind_eq, Hseg]. reflexivity.
Qed.

(** The segment messages of the current transfer. *)
Definition segment_message (e : Engine) (index : Z) (payload : bytes) : bytes :=
  layout (MSegment (mkSegmentHeader (setup_session_id (setup e)) index)) ++ payload.

Lemma decode_segment_message e index payload :
  setup_valid (setup e) → 0 ≤ index < segments (setup e) → is_bytes payload →
  decodeSegmentHeaderKnownType (segment_message e index payload) =
    Some (mkSegmentHeader (setup_session_id (setup e)) index).
Proof.
  intros [Hwf _] Hi Hb. assert (Hm : message_wf
    (MSegment (mkSegmentHeader (setup_session_id (setup e)) index))).
  { destruct Hwf as (? & _ & ? & _). split; simpl; [done|]. unfold segments, is_u16 in *. lia. }
  apply decodeSegmentHeaderKnownType_spec.
  - apply Forall_app_2; [by apply layout_bytes|done].
  - split; [done|]. by exists 1, payload.
Qed.

Definition renew (now index : Z) (e : Engine) : Engine :=
  if index <? granted_end e then set_last_activity_ms now e else e.

Lemma handleSegment_guarded e (w : W) index payload now :
  transfer_wf max_width e →
  state e = TransferState.kActive ∨ state e = TransferState.kCompleted →
  0 ≤ index < segment_count e → zlen payload = segment_bytes (setup e) index →
  is_bytes payload →
  handleSegment max_width (segment_message e index payload) now (e, w) =
    (if (index <? contiguous_count e) || bool_decide (state e = TransferState.kCompleted)
        || (granted_end e <=? index) || duplicate max_width e index
     then sendAck max_width
     else
       accepted ← call (onSegment (if narrow max_width then next_object_offset e
                                   else u32 (u32 index * segment_size (setup e))) payload);
       if negb accepted then fail FailureReason.kSinkRejected;; mret false
       else
       update (accept_segment max_width (u32 (index - contiguous_count e)) (zlen payload));;
       update (updateGrant max_width);;
       e ← engine;
       (if contiguous_count e =? segment_count e
        then update (set_state TransferState.kCompleted);; call onTransferComplete
        else mret tt);;
       sendAck max_width) (renew now index e, w).
Proof.
  intros Htwf Hst Hi Hlen Hb. unfold handleSegment. rewrite decode_segment_message;
    [|by destruct Htwf|by rewrite <- (twf_count _ _ Htwf)|done].
  apply wp_equal, wp_bind, wp_engine. cbn [fst segment_index seg_session_id].
  rewrite Z.eqb_refl, (proj2 (Z.leb_gt _ _)), !orb_false_r by lia.
  replace (_ && _) with false by (by destruct Hst as [-> | ->]).
  change (drop _ (segment_message e index payload)) with payload.
  unfold segment_bytes in Hlen. rewrite <- Hlen, Z.eqb_refl. simpl negb. cbv iota.
  apply wp_bind, wp_update. fold (duplicate max_width e index).
  replace ((if index <? granted_end e then set_last_activity_ms now else id) e)
    with (renew now index e) by (unfold renew; by destruct (_ <? _)).
  destruct (index <? contiguous_count e); [apply wp_self|].
  destruct (bool_decide (state e = TransferState.kCompleted)); [apply wp_self|].
  destruct (granted_end e <=? index); [apply wp_self|]. cbn [orb].
  destruct (duplicate max_width e index); apply wp_self.
Qed.

Lemma seen_guard e index :
  engine_wf max_width e → transfer_wf max_width e → 0 ≤ index < segment_count e →
  received e index ∨ granted_end e ≤ index →
  (index <? contiguous_count e) || bool_decide (state e = TransferState.kCompleted)
    || (granted_end e <=? index) || duplicate max_width e index = true.
Proof.
  intros Hwf Htwf Hi Hseen. destruct (Z.ltb_spec index (contiguous_count e)); [done|].
  destruct (bool_decide _); [done|]. destruct (Z.leb_spec (granted_end e) index); [done|]. simpl.
  destruct Hseen as [[?|[_ Hbit]]|?]; [lia| |lia]. pose proof Htwf as [Hs ? ? ? ? ? ? ? Hnar].
  pose proof (setup_geometry _ Hs) as (_ & _ & Hn & _). destruct Hwf as [? _ _ _ _ _].
  unfold duplicate. destruct (narrow max_width).
  - destruct (Hnar eq_refl) as [Hb0 _]. by rewrite Hb0, Z.bits_0 in Hbit.
  - rewrite u32_id by (unfold is_u32; lia). fold (bit16 (index - contiguous_count e)).
    apply orb_true_intro. right. apply negb_true_iff, Z.eqb_neq. rewrite land_bit16 by lia.
    by rewrite Hbit.
Qed.

(** The engine and environment after the sink has taken segment [index]. *)
Definition after_accept (index : Z) (payload : bytes) (e : Engine) (w : W) : Engine * W :=
  let e := updateGrant max_width
    (accept_segment max_width (index - contiguous_count e) (zlen payload) e) in
  if contiguous_count e =? segment_count e
  then (set_state TransferState.kCompleted e, (onTransferComplete w).2) else (e, w).

Lemma after_accept_world index payload e w :
  let s := after_accept index payload e w in
  s.2 = if contiguous_count s.1 =? segment_count s.1 then (onTransferComplete w).2 else w.
Proof.
  unfold after_accept. cbv zeta.
  destruct (_ =? _) eqn:E; cbn [fst snd contiguous_count segment_count set_state]; by rewrite E.
Qed.

Lemma handleSegment_fresh e (w w' : W) index payload now :
  engine_wf max_width e → transfer_wf max_width e → state e = TransferState.kActive →
  contiguous_count e ≤ index < granted_end e → ¬ received e index →
  (narrow max_width = true → index = contiguous_count e) →
  zlen payload = segment_bytes (setup e) index → is_bytes payload →
  onSegment (segment_offset (setup e) index) payload w = (true, w') →
  handleSegment max_width (segment_message e index payload) now (e, w) =
    sendAck max_width (after_accept index payload (set_last_activity_ms now e) w').
Proof.
  intros Hwf Htwf Hact Hi Hnew Hidx Hlen Hb Hsink. pose proof Htwf as [Hs ? ? ? ? ? ? ? ?].
  pose proof (setup_geometry _ Hs) as (_ & _ & Hn & _).
  rewrite handleSegment_guarded by (done || auto || lia).
  assert (Hdup : duplicate max_width e index = false).
  { destruct (duplicate max_width e index) eqn:Hdup; [|done]. exfalso.
    unfold duplicate in Hdup. rewrite u32_id in Hdup by (unfold is_u32; lia).
    destruct (narrow max_width).
    - rewrite Hidx, Z.eqb_refl in Hdup by done. done.
    - destruct Hwf as [? _ _ _ _ _]. apply orb_true_iff in Hdup as [Hw%Z.leb_le|Hbit]; [lia|].
      apply negb_true_iff, Z.eqb_neq in Hbit. fold (bit16 (index - contiguous_count e)) in Hbit.
      rewrite land_bit16 in Hbit by lia. apply Hnew. right. split; [lia|].
      by apply not_false_is_true. }
  destruct (fresh_segment max_width e index) as (_ & _ & -> & ->); try done.
  rewrite Hdup, Hact, !orb_false_r, (proj2 (Z.ltb_ge _ _)), (proj2 (Z.leb_gt _ _)) by lia.
  cbn [orb].
  unfold renew. rewrite (proj2 (Z.ltb_lt _ _)) by lia.
  unfold after_accept. cbn [contiguous_count set_last_activity_ms].
  apply wp_equal, wp_bind. unfold wp at 1, call, on_snd. rewrite Hsink. cbn [fst snd negb].
  apply wp_bind, wp_update, wp_bind, wp_update, wp_bind, wp_engine, wp_bind. cbn [fst].
  set (e' := updateGrant _ _). destruct (contiguous_count e' =? segment_count e').
  - apply wp_bind, wp_update. unfold wp at 1, call, on_snd. destruct (onTransferComplete w').
    apply wp_self.
  - apply wp_ret, wp_self.
Qed.
End segment.

(** ** Cooperative environments

    A sink that takes what it is offered and a sender with storage whose PDUs are
    sent or find the queue full: what a transfer needs to make progress. *)

Class Cooperative (W : Type) `{!ReceiverCallbacks W, !ReceiverPduSender W} : Prop := {
  coop_begin : ∀ info w, (beginTransfer info w).1 = TransferAdmission.kAccepted;
  coop_segment : ∀ offset payload w, (onSegment offset payload w).1 = true;
  coop_prepare : ∀ n w, 0 ≤ n → zlen (prepare n w).1 = n;
  coop_send : ∀ w, (sendPrepared w).1 = SendResult.kSent ∨ (sendPrepared w).1 = SendResult.kFull;
}.

Section cooperative.
Context {W : Type} `{!ReceiverCallbacks W, !ReceiverPduSender W, !Cooperative W}.
Variable max_width : Z.
Hypothesis Hmax : 1 ≤ max_width ≤ 16.

Lemma ackContents_some e storage :
  zlen storage = kAckSize → is_Some (ackContents max_width e storage).
Proof.
  intros Hlen. unfold ackContents, encodeAck. rewrite Hlen. destruct (narrow max_width); by eexists.
Qed.

Lemma sendAck_cooperative e (w : W) :
  wp (sendAck max_width) (e, w) (λ sent s, sent = true ∧
    ∃ r, (r = SendResult.kSent ∨ r = SendResult.kFull) ∧ s.1 = set_last_send r e).
Proof.
  apply wp_bind. unfold wp at 1, call, on_snd.
  pose proof (coop_prepare kAckSize w ltac:(done)) as Hlen.
  destruct (prepare kAckSize w) as [storage w']. cbn [fst snd] in *.
  apply wp_bind, wp_engine. cbn [fst]. rewrite Hlen, Z.eqb_refl.
  destruct (ackContents_some e storage Hlen) as [contents ->].
  apply wp_bind. unfold wp at 1, call, on_snd. destruct (store contents w') as [[] w''].
  cbn [fst snd]. apply wp_bind, wp_bind. unfold wp at 1, call, on_snd.
  pose proof (coop_send w'') as Hsend. destruct (sendPrepared w'') as [r w''']. cbn [fst snd] in *.
  apply wp_bind, wp_update, wp_ret. by destruct Hsend as [-> | ->]; (split; [done|eauto]).
Qed.

(** What [after_accept] leaves. *)
Lemma after_accept_spec e (w : W) index payload :
  engine_wf max_width e → transfer_wf max_width e → contiguous_count e ≤ index < granted_end e →
  (narrow max_width = true → index = contiguous_count e) →
  zlen payload = segment_bytes (setup e) index →
  let e' := (after_accept max_width index payload e w).1 in
  transfer_wf max_width e' ∧ setup e' = setup e ∧ config e' = config e ∧
  last_activity_ms e' = last_activity_ms e ∧ segment_count e' = segment_count e ∧
  (∀ i, received e' i ↔ received e i ∨ i = index) ∧
  state e' = if contiguous_count e' =? segment_count e then TransferState.kCompleted
             else state e.
Proof.
  intros Hwf Htwf Hi Hidx Hlen. unfold after_accept. rewrite Hlen.
  destruct (accept_segment_spec max_width index e) as (Ht' & Hc' & Hst' & Hs' & _ & Ha' & Hrec);
    try done; [by destruct Hwf as [[_ ?] _ _ _ _ _]|].
  set (e' := updateGrant _ _) in *.
  assert (Hn : segment_count e' = segment_count e)
    by (rewrite (twf_count _ _ Ht'), (twf_count _ _ Htwf); by f_equal).
  rewrite Hn. destruct (contiguous_count e' =? segment_count e) eqn:E; simpl.
  - split_and!; try done; [by destruct Ht'|by rewrite E].
  - by split_and!; [..|rewrite E].
Qed.

Lemma engine_wf_last_send r e : engine_wf max_width e → engine_wf max_width (set_last_send r e).
Proof.
  intros [? ? ? ? ? Hst]. split; try done. revert Hst. simpl.
  destruct (state e); try done; intros [[] ?]; by split.
Qed.

Lemma engine_wf_last_activity n e :
  engine_wf max_width e → engine_wf max_width (set_last_activity_ms n e).
Proof.
  intros [? ? ? ? ? Hst]. split; try done. revert Hst. simpl.
  destruct (state e); try done; intros [[] ?]; by split.
Qed.

(** A new segment, from the message to the acknowledgement. *)
Lemma process_fresh e (w w' : W) index payload now :
  engine_wf max_width e → state e = TransferState.kActive → expired now e = false →
  contiguous_count e ≤ index < granted_end e → ¬ received e index →
  (narrow max_width = true → index = contiguous_count e) →
  zlen payload = segment_bytes (setup e) index → is_bytes payload →
  onSegment (segment_offset (setup e) index) payload w = (true, w') →
  process max_width (segment_message e index payload) now (e, w) =
    acknowledge max_width (after_accept max_width index payload
      (set_last_activity_ms now (set_last_send SendResult.kSent e)) w').
Proof.
  intros Hwf Hact Hexp Hi Hnew Hidx Hlen Hb Hsink.
  pose proof (ewf_state _ _ Hwf) as Htwf. rewrite Hact in Htwf. destruct Htwf as [Htwf _].
  apply process_segment; [done|].
  apply (handleSegment_fresh max_width Hmax (set_last_send SendResult.kSent e) w w'); try done;
    [by apply engine_wf_last_send|by destruct Htwf].
Qed.

(** One segment of an in-order transfer. *)
Lemma process_in_order e (w : W) index payload now :
  engine_wf max_width e → state e = TransferState.kActive → expired now e = false →
  0 ≤ index < segment_count e → (∀ i, received e i ↔ 0 ≤ i < index) →
  zlen payload = segment_bytes (setup e) index → is_bytes payload →
  wp (process max_width (segment_message e index payload) now) (e, w) (λ _ s,
    engine_wf max_width s.1 ∧ setup s.1 = setup e ∧ config s.1 = config e ∧
    last_activity_ms s.1 = now ∧ segment_count s.1 = segment_count e ∧
    (∀ i, received s.1 i ↔ 0 ≤ i < index + 1) ∧
    state s.1 = if index + 1 =? segment_count e then TransferState.kCompleted
                else TransferState.kActive).
Proof.
  intros Hwf Hact Hexp Hi Hrec Hlen Hb.
  pose proof (ewf_state _ _ Hwf) as Hst. rewrite Hact in Hst. destruct Hst as [Htwf _].
  pose proof (contiguous_least _ _ _ Htwf (proj1 Hi) Hrec) as Hc.
  assert (Hgr : contiguous_count e ≤ index < granted_end e) by (destruct Htwf; lia).
  pose proof (coop_segment (segment_offset (setup e) index) payload w) as Hsink.
  destruct (onSegment _ payload w) as [b w'] eqn:Hseg. simpl in Hsink. subst b.
  unfold wp. rewrite (process_fresh e w w') by (done || (rewrite Hrec; lia)).
  set (e1 := set_last_activity_ms now (set_last_send SendResult.kSent e)).
  assert (Hwf1 : engine_wf max_width e1)
    by by apply engine_wf_last_activity, engine_wf_last_send.
  destruct (after_accept_spec e1 w' index payload) as (Ht & Hs & Hcf & Ha & Hn & Hr & Hst);
    try done; [by destruct Htwf|].
  destruct (after_accept _ _ _ _ _) as [e' w'']. cbn [fst] in *.
  change (received e1) with (received e) in Hr.
  assert (Hrec' : ∀ i, received e' i ↔ 0 ≤ i < index + 1)
    by (intros i; rewrite Hr, Hrec; lia).
  rewrite (contiguous_least _ _ (index + 1) Ht) in Hst by (done || lia).
  fold (wp (acknowledge max_width) (e', w'') (λ _ s, engine_wf max_width s.1 ∧ setup s.1 = setup e
    ∧ config s.1 = config e ∧ last_activity_ms s.1 = now ∧ segment_count s.1 = segment_count e
    ∧ (∀ i, received s.1 i ↔ 0 ≤ i < index + 1) ∧
    state s.1 = if index + 1 =? segment_count e then TransferState.kCompleted
                else TransferState.kActive)).
  apply wp_bind. eapply wp_mono; [apply sendAck_cooperative|].
  intros sent [e2 w2] [-> (r & _ & Heq)]. simpl in Heq. subst e2.
  apply wp_bind, wp_engine, wp_ret. cbn [fst]. split_and!; try done; [|simpl; by rewrite Hst, <- Hact].
  apply engine_wf_last_send. destruct Hwf as [? ? ? ? ? _].
  pose proof (contiguous_least _ _ (index + 1) Ht ltac:(lia) Hrec') as Hc'.
  split; rewrite ?Hcf; try done; [by intros []%(twf_narrow _ _ Ht)|].
  rewrite Hst. simpl. rewrite Hact. destruct (Z.eqb_spec (index + 1) (segment_count e)).
  - split; [done|]. rewrite Hn. simpl. lia.
  - split; [done|]. rewrite Hn. simpl. lia.
Qed.

Lemma handleSetup_accepts e (w : W) s now :
  state e ≠ TransferState.kActive → setup_valid s →
  1 ≤ receive_window_width (config e) →
  object_bytes s ≤ maximum_object_size (config e) →
  segment_size s ≤ maximum_segment_size (config e) →
  handleSetup max_width (layout (MSetup s)) now (e, w) =
    sendAck max_width (opened max_width s now e, (beginTransfer (info_of s) w).2).
Proof.
  intros Hidle Hs Hw Hobj Hseg. pose proof (setup_geometry _ Hs) as (_ & Htotal & _).
  apply wp_equal. unfold handleSetup. change (zlen (layout (MSetup s)) <? 2) with false.
  cbv iota. rewrite (proj2 (decodeSetupKnownType_spec _ s (layout_bytes (MSetup s) (proj1 Hs))))
    by (split; [apply Hs|by exists 0]).
  pose proof Hs as [_ Hsz]. rewrite (proj2 (Z.eqb_neq (segment_size s) 0)),
    (proj2 (Z.eqb_neq (final_segment_size s) 0)), (proj2 (Z.ltb_ge _ _)) by lia.
  cbn [orb]. apply wp_bind, wp_engine. cbn [fst].
  rewrite Htotal, (proj2 (Z.ltb_ge _ (object_bytes s))) by done.
  rewrite (proj2 (Z.eqb_neq (receive_window_width (config e)) 0)), (proj2 (Z.ltb_ge _ _)) by lia.
  cbn [orb]. rewrite bool_decide_eq_false_2 by done.
  apply wp_bind. unfold wp at 1, call, on_snd. fold (info_of s).
  pose proof (coop_begin (info_of s) w) as Hadm.
  destruct (beginTransfer (info_of s) w) as [adm w']. cbn [fst snd] in *. subst adm.
  apply wp_bind, wp_update, wp_bind, wp_update, wp_self.
Qed.

Lemma process_setup_opens e (w : W) s now :
  state e ≠ TransferState.kActive → setup_valid s →
  1 ≤ receive_window_width (config e) →
  object_bytes s ≤ maximum_object_size (config e) →
  segment_size s ≤ maximum_segment_size (config e) →
  process max_width (layout (MSetup s)) now (e, w) =
    acknowledge max_width (opened max_width s now (set_last_send SendResult.kSent e),
                           (beginTransfer (info_of s) w).2).
Proof.
  intros Hidle Hs Hw Hobj Hseg.
  unfold process. rewrite (bind_eq _ (mret ProcessResult.kIdle) _ (e, w)) by by apply poll_idle.
  unfold acknowledge. etransitivity; [|apply bind_eq, handleSetup_accepts; done].
  reflexivity.
Qed.

(** A setup within the limits opens the transfer with nothing received. *)
Lemma process_setup e (w : W) s now :
  engine_wf max_width e → state e ≠ TransferState.kActive → setup_valid s →
  1 ≤ receive_window_width (config e) →
  object_bytes s ≤ maximum_object_size (config e) →
  segment_size s ≤ maximum_segment_size (config e) →
  wp (process max_width (layout (MSetup s)) now) (e, w) (λ _ s',
    engine_wf max_width s'.1 ∧ setup s'.1 = s ∧ config s'.1 = config e ∧
    last_activity_ms s'.1 = now ∧ segment_count s'.1 = segments s ∧
    (∀ i, received s'.1 i ↔ 0 ≤ i < 0) ∧ state s'.1 = TransferState.kActive).
Proof.
  intros Hwf Hidle Hs Hw Hobj Hseg. set (e0 := set_last_send SendResult.kSent e).
  unfold wp. rewrite process_setup_opens by done.
  destruct (opened_spec max_width s now e0) as (Hwf' & Hst & Hset & Hcf & Ha & Hn & Hrec);
    try done; [by apply engine_wf_last_send|].
  set (e1 := opened max_width s now e0) in *.
  apply (wp_bind (sendAck max_width) _ (e1, _)
    (λ _ s', engine_wf max_width s'.1 ∧ setup s'.1 = s ∧ config s'.1 = config e ∧
    last_activity_ms s'.1 = now ∧ segment_count s'.1 = segments s ∧
    (∀ i, received s'.1 i ↔ 0 ≤ i < 0) ∧ state s'.1 = TransferState.kActive)).
  eapply wp_mono; [apply sendAck_cooperative|].
  intros sent [e2 w2] [-> (r & _ & Heq)]. simpl in Heq. subst e2.
  apply wp_bind, wp_engine, wp_ret. cbn [fst]. split_and!; try done.
  - by apply engine_wf_last_send.
  - intros i. split; [by intros ?%Hrec|lia].
Qed.
End cooperative.

(** A completed engine's deliveries rebuild the object its segments are slices
    of. *)
Lemma completed_object {W} max_width arrived e (w : W) log object :
  inv max_width arrived (e, (w, log)) → state e = TransferState.kCompleted →
  zlen object = object_bytes (setup e) →
  (∀ index payload, arrived (segment_with (setup_session_id (setup e)) index payload) →
     zlen payload = segment_bytes (setup e) index →
     payload = slice object (segment_offset (setup e) index) (zlen payload)) →
  ∃ ds, monitor log = Some (Done (info_of (setup e)) ds) ∧
    ∀ buffer, length buffer = length object → write_all ds buffer = object.
Proof.
  intros (Hwf & (m & Hm & Hag) & _). cbn [fst snd] in *.
  intros Hdone Hobj Hhonest. pose proof (ewf_state _ _ Hwf) as Hst. simpl in *.
  rewrite Hdone in Hst. destruct Hst as [Htwf Hall]. unfold agrees in Hag. rewrite Hdone in Hag.
  destruct Hag as (ds & -> & Hds). exists ds. split; [done|]. intros buffer Hbuf.
  pose proof (delivered_complete _ _ _ _ Htwf Hall Hds) as Hshape.
  apply (write_all_object (setup e)); try done; [by destruct Htwf|].
  destruct Hds as (_ & Htiles & Hsrc & _). rewrite list.Forall_forall in Hsrc |- *.
  intros [offset payload] Hin. destruct (Hsrc _ Hin) as (i & -> & Harr).
  apply (Hhonest i payload Harr).
  assert (Ht : (segment_offset (setup e) i, zlen payload) ∈ shape ds).
  { apply list_elem_of_In, in_map_iff. exists (segment_offset (setup e) i, payload).
    split; [done|by apply list_elem_of_In]. }
  apply Htiles in Ht as (j & _ & [= Hij ->]). f_equal.
  destruct (twf_setup _ _ Htwf) as [_ ?]. unfold segment_offset in Hij. nia.
Qed.

(** ** A concrete environment

    A sink that stores every delivery in a buffer and a sender whose PDUs are all
    sent: the environment of the examples below. *)

Module BufferSink.
#[export] Instance callbacks : ReceiverCallbacks bytes := {
  beginTransfer info _ :=
    (TransferAdmission.kAccepted, replicate (Z.to_nat (info_total_size info)) 0);
  onTransferFailed _ buffer := (tt, buffer);
  onSegment offset payload buffer := (true, memcpy_at (Z.to_nat offset) payload buffer);
  onDatagram _ buffer := (tt, buffer);
  onTransferComplete buffer := (tt, buffer);
  onTransferAborted _ buffer := (tt, buffer);
}.
#[export] Instance sender : ReceiverPduSender bytes := {
  prepare size buffer := (replicate (Z.to_nat size) 0, buffer);
  store _ buffer := (tt, buffer);
  sendPrepared buffer := (SendResult.kSent, buffer);
}.
#[export] Instance cooperative : Cooperative bytes.
Proof.
  split; [done|done| |by left]. intros n w Hn. unfold zlen. simpl. rewrite length_replicate. lia.
Qed.

End BufferSink.
Import BufferSink.

Definition demo_config : ReceiverEngineConfig :=
  {| maximum_segment_size := 8; receive_window_width := 4; maximum_object_size := 64;
     inactivity_timeout_ms := 5000 |}.
(** Three segments of 2, 2 and 1 bytes. *)
Definition demo_setup : Setup := mkSetup 7 250 2 2 1.
Definition demo_segment (index : Z) (payload : bytes) : EngineCall :=
  CProcess (layout (MSegment (mkSegmentHeader 7 index)) ++ payload) 100.
(** Out of order, with a duplicate. *)
Definition demo_calls : list EngineCall :=
  [CProcess (layout (MSetup demo_setup)) 0; demo_segment 2 [15]; demo_segment 0 [11; 12];
   demo_segment 2 [15]; demo_segment 1 [13; 14]].

(** ** Properties *)

(** C3: the service sees a legal session whatever its callbacks and the sender
    do and whatever PDUs arrive: transfers open with an accepted
    [beginTransfer] while none is open, only an open transfer delivers
    segments, exactly one completion, failure or abort closes it, and completion
    comes exactly when the deliveries are the object's segments, each once, at
    its own offset and with its own size.  Throughout, the received set of the
    engine is what was delivered, every delivered payload arrived in a segment
    message of the transfer's session with that index, and the engine's
    invariant holds. *)
Theorem engine_session_protocol {W} `{!ReceiverCallbacks W, !ReceiverPduSender W}
    (max_width : Z) (c : ReceiverEngineConfig) (cs : list EngineCall) (w : W) :
  1 ≤ max_width ≤ 16 → config_wf c → Forall call_wf cs →
  let s := run_calls (W := Traced W) max_width cs (new_engine max_width c, (w, [])) in
  engine_wf max_width s.1 ∧
  ∃ m, monitor s.2.2 = Some m ∧ agrees (arrived_in cs) s.1 m.
Proof. intros Hmax Hc Hcs. by destruct (run_inv max_width c cs w Hmax Hc Hcs) as (? & ? & _). Qed.

Lemma engine_session_protocol_witness :
  let s := run_calls (W := Traced bytes) 16 demo_calls (new_engine 16 demo_config, ([], [])) in
  engine_wf 16 s.1 ∧ ∃ m, monitor s.2.2 = Some m ∧ agrees (arrived_in demo_calls) s.1 m.
Proof.
  apply (engine_session_protocol (W := bytes) 16 demo_config demo_calls []).
  - split; discriminate.
  - by_evaluation.
  - by_evaluation.
Defined.

(** C4: a completed transfer rebuilds the object: if every segment message that
    arrived for the session carries its slice of an object of the announced
    geometry, then a sink that stores each accepted segment at its offset holds
    exactly that object, whatever it held before and in whatever order the
    segments came, duplicates, losses and foreign PDUs included. *)
Theorem engine_reassembles_object {W} `{!ReceiverCallbacks W, !ReceiverPduSender W}
    (max_width : Z) (c : ReceiverEngineConfig) (cs : list EngineCall) (w : W) (object : bytes) :
  1 ≤ max_width ≤ 16 → config_wf c → Forall call_wf cs →
  let s := run_calls (W := Traced W) max_width cs (new_engine max_width c, (w, [])) in
  let setup := setup s.1 in
  state s.1 = TransferState.kCompleted →
  zlen object = object_bytes setup →
  (∀ index payload, arrived_in cs (segment_with (setup_session_id setup) index payload) →
     zlen payload = segment_bytes setup index →
     payload = slice object (segment_offset setup index) (zlen payload)) →
  ∃ ds, monitor s.2.2 = Some (Done (info_of setup) ds) ∧
    ∀ buffer, length buffer = length object → write_all ds buffer = object.
Proof.
  intros Hmax Hc Hcs. pose proof (run_inv max_width c cs w Hmax Hc Hcs) as Hinv.
  destruct (run_calls _ _ _) as [e [w' log]]. cbn [fst snd]. by eapply completed_object.
Qed.

Lemma demo_arrivals index payload :
  arrived_in demo_calls (segment_with 7 index payload) →
  (index, payload) ∈ [(2, [15]); (0, [11; 12]); (1, [13; 14])].
Proof.
  intros [now Hin]. unfold demo_calls, demo_segment in Hin. simpl in Hin.
  rewrite !elem_of_cons in Hin. pose proof (Z.div_mod index 256 ltac:(lia)) as Hdm.
  destruct Hin as [Heq|[Heq|[Heq|[Heq|[Heq|[]%elem_of_nil]]]]]; injection Heq; try discriminate;
    intros _ -> H1 H0; rewrite H1, H0 in Hdm; rewrite Hdm; by_evaluation.
Qed.

Lemma engine_reassembles_object_witness :
  let s := run_calls (W := Traced bytes) 16 demo_calls (new_engine 16 demo_config, ([], [])) in
  ∃ ds, monitor s.2.2 = Some (Done (info_of (setup s.1)) ds) ∧
    ∀ buffer, length buffer = length [11; 12; 13; 14; 15] →
      write_all ds buffer = [11; 12; 13; 14; 15].
Proof.
  apply (engine_reassembles_object (W := bytes) 16 demo_config demo_calls [] [11; 12; 13; 14; 15]).
  - split; discriminate.
  - by_evaluation.
  - by_evaluation.
  - vm_compute; reflexivity.
  - vm_compute; reflexivity.
  - assert (setup (run_calls (W := Traced bytes) 16 demo_calls
      (new_engine 16 demo_config, ([], []))).1 = demo_setup) as -> by (vm_compute; reflexivity).
    intros index payload Harr%demo_arrivals. rewrite !elem_of_cons in Harr.
    by destruct Harr as [[= -> ->]|[[= -> ->]|[[= -> ->]|[]%elem_of_nil]]].
Defined.

(** The ACK of an engine in the middle of a transfer. *)
Lemma engine_ack (max_width : Z) (e : Engine) (storage : bytes) :
  1 ≤ max_width ≤ 16 → engine_wf max_width e → transfer_wf max_width e →
  zlen storage = kAckSize →
  ∃ a, ackContents max_width e storage = Some (layout (MAck a)) ∧ message_wf (MAck a) ∧
    ack_session_id a = setup_session_id (setup e) ∧
    window_base a = (initial_sequence_number (setup e) + contiguous_count e - 1) mod 256 ∧
    max_receive_sequence a = (initial_sequence_number (setup e) + granted_end e - 1) mod 256 ∧
    ∀ i, 0 ≤ i →
      Z.testbit (window_bitmap a) i = true ↔ received e (contiguous_count e + i).
Proof.
  intros Hmax Hwf Htwf Hlen. pose proof Htwf as [Hs Hcount Hw Hc Hg Hb Hfirst Hwin Hnar].
  pose proof (setup_geometry _ Hs) as (_ & _ & Hn & _). pose proof Hs as [(Hsess & Hisn & _) _].
  destruct Hwf as [Hwidth _ _ _ _ _].
  assert (Hfull : ∀ a, message_wf (MAck a) → encodeAck a storage = Some (layout (MAck a))).
  { intros a (H1 & H2 & H3 & H4). unfold encodeAck. rewrite Hlen.
    change (kAckSize <? kAckSize) with false. rewrite writeU16_le16 by done. f_equal.
    rewrite memcpy_at_app by (unfold zlen, kAckSize in Hlen;
      simpl; lia). rewrite drop_ge by (unfold zlen, kAckSize in Hlen; simpl; lia). done. }
  unfold ackContents. destruct (narrow max_width) eqn:Hnarrow.
  - destruct (Hnar eq_refl) as [Hb0 _]. apply Z.eqb_eq in Hnarrow.
    set (base := u8 (initial_sequence_number (setup e) + u8 (contiguous_count e) - 1)).
    set (top := if contiguous_count e <? segment_count e then u8 (base + 1) else base).
    exists (mkAck (setup_session_id (setup e)) 0 top base).
    assert (is_u8 base ∧ is_u8 top) as [? ?]
      by (unfold top, base; destruct (_ <? _); auto with word).
    split_and!; try done.
    + rewrite <- Hfull by done. unfold encodeAck. by rewrite Hlen.
    + simpl. unfold base. word_lia.
    + simpl. unfold top, base. destruct (Z.ltb_spec (contiguous_count e) (segment_count e)); word_lia.
    + intros i Hi. rewrite (received_at_window max_width) by done. by rewrite Hb0.
  - set (span := granted_end e - contiguous_count e). assert (0 ≤ span ≤ 16) by lia.
    rewrite (u32_id span), (u8_id span) by (unfold is_u32, is_u8; lia).
    set (base := baseSequence _ _). set (top := if _ <? _ then _ else _).
    rewrite u16_id by auto with word.
    assert (Hbase : base = (initial_sequence_number (setup e) + contiguous_count e - 1) mod 256).
    { unfold base, baseSequence, sequenceFor. destruct (Z.eqb_spec (contiguous_count e) 0) as [->|].
      - word_lia.
      - word_lia. }
    assert (Htop : top = (initial_sequence_number (setup e) + granted_end e - 1) mod 256).
    { unfold top, sequenceFor. destruct (Z.ltb_spec (contiguous_count e) (granted_end e)).
      - word_lia.
      - rewrite Hbase. f_equal. lia. }
    exists (mkAck (setup_session_id (setup e))
      (Z.land (receive_bitmap e) (lowBitMask span)) top base).
    split_and!; try done.
    + apply Hfull. split_and!; simpl; [done|auto with word|rewrite Htop; word_lia|rewrite Hbase; word_lia].
    + split_and!; simpl; [done|auto with word|rewrite Htop; word_lia|rewrite Hbase; word_lia].
    + intros i Hi. rewrite (received_at_window max_width) by done. simpl.
      rewrite lowBitMask_ones, Z.land_spec, andb_true_iff by lia. split; [tauto|]. intros Hbit.
      split; [done|]. apply Z.ones_spec_low. apply Hwin in Hbit; unfold span; lia.
Qed.

(** An ACK is truthful: in either build the PDU is a well-formed ACK of the
    session whose window base and receive limit are the sequence numbers of the
    last contiguous segment and of the last granted one, and whose bitmap has
    exactly the bits of the segments received beyond the contiguous prefix. *)
Theorem ack_reports_received (max_width : Z) (e : Engine) (storage : bytes) :
  1 ≤ max_width ≤ 16 → engine_wf max_width e → transfer_wf max_width e →
  zlen storage = kAckSize →
  ∃ a, ackContents max_width e storage = Some (layout (MAck a)) ∧ message_wf (MAck a) ∧
    ack_session_id a = setup_session_id (setup e) ∧
    window_base a = (initial_sequence_number (setup e) + contiguous_count e - 1) mod 256 ∧
    max_receive_sequence a = (initial_sequence_number (setup e) + granted_end e - 1) mod 256 ∧
    ∀ i, 0 ≤ i →
      Z.testbit (window_bitmap a) i = true ↔ received e (contiguous_count e + i).
Proof. apply engine_ack. Qed.

(** An engine in the middle of the demonstration transfer, segment 2 received. *)
Definition demo_engine (max_width : Z) : Engine :=
  (run_calls (W := Traced bytes) max_width (take 2 demo_calls)
     (new_engine max_width demo_config, ([], []))).1.

Lemma demo_engine_wf : engine_wf 16 (demo_engine 16) ∧ transfer_wf 16 (demo_engine 16).
Proof.
  destruct (run_inv (W := bytes) 16 demo_config (take 2 demo_calls) []) as [Hwf _];
    [done|by_evaluation|by_evaluation|].
  split; [exact Hwf|]. pose proof (ewf_state _ _ Hwf) as Hst. fold (demo_engine 16) in Hst.
  assert (state (demo_engine 16) = TransferState.kActive) as E by (vm_compute; reflexivity).
  rewrite E in Hst. apply Hst.
Qed.

Lemma ack_reports_received_witness :
  ∃ a, ackContents 16 (demo_engine 16) (replicate 6 0) = Some (layout (MAck a)) ∧
    message_wf (MAck a) ∧ ack_session_id a = setup_session_id (setup (demo_engine 16)) ∧
    window_base a = (initial_sequence_number (setup (demo_engine 16))
                     + contiguous_count (demo_engine 16) - 1) mod 256 ∧
    max_receive_sequence a = (initial_sequence_number (setup (demo_engine 16))
                     + granted_end (demo_engine 16) - 1) mod 256 ∧
    ∀ i, 0 ≤ i → Z.testbit (window_bitmap a) i = true ↔
      received (demo_engine 16) (contiguous_count (demo_engine 16) + i).
Proof.
  apply (ack_reports_received 16 (demo_engine 16) (replicate 6 0));
    [by_evaluation|apply demo_engine_wf|apply demo_engine_wf|reflexivity].
Defined.

(** A new segment is delivered: an active transfer that has not expired hands
    a granted segment it has not received (in the narrow build, the next one) to
    the sink at its offset, and when the sink takes it the received set grows by
    exactly that segment, the activity time is renewed, the transfer completes
    (with one [onTransferComplete]) exactly when nothing is missing, and the
    call ends with the acknowledgement of that state. *)
Theorem segment_accepted {W} `{!ReceiverCallbacks W, !ReceiverPduSender W}
    (max_width : Z) (e : Engine) (w w' : W) (index : Z) (payload : bytes) (now : Z) :
  1 ≤ max_width ≤ 16 → engine_wf max_width e →
  state e = TransferState.kActive → expired now e = false →
  contiguous_count e ≤ index < granted_end e → ¬ received e index →
  (narrow max_width = true → index = contiguous_count e) →
  zlen payload = segment_bytes (setup e) index → is_bytes payload →
  onSegment (segment_offset (setup e) index) payload w = (true, w') →
  ∃ e', transfer_wf max_width e' ∧ setup e' = setup e ∧ last_activity_ms e' = now ∧
    (∀ i, received e' i ↔ received e i ∨ i = index) ∧
    let completed := contiguous_count e' =? segment_count e in
    state e' = (if completed then TransferState.kCompleted else TransferState.kActive) ∧
    process max_width (segment_message e index payload) now (e, w) =
      acknowledge max_width (e', if completed then (onTransferComplete w').2 else w').
Proof.
  intros Hmax Hwf Hact Hexp Hi Hnew Hidx Hlen Hb Hsink.
  rewrite (process_fresh max_width Hmax e w w') by done.
  pose proof (ewf_state _ _ Hwf) as Hst. rewrite Hact in Hst. destruct Hst as [Htwf _].
  set (e1 := set_last_activity_ms now (set_last_send SendResult.kSent e)).
  destruct (after_accept_spec max_width Hmax e1 w' index payload)
    as (Ht & Hs & _ & Ha & Hn & Hrec & Hst); try done.
  { by apply engine_wf_last_activity, engine_wf_last_send. }
  { by destruct Htwf. }
  exists (after_accept max_width index payload e1 w').1.
  split_and!; try done. cbv zeta. change (segment_count e) with (segment_count e1).
  split; [by rewrite Hst, <- Hact|]. f_equal. rewrite <- Hn, <- after_accept_world.
  apply surjective_pairing.
Qed.

Lemma segment_accepted_witness :
  ∃ e', transfer_wf 16 e' ∧ setup e' = setup (demo_engine 16) ∧ last_activity_ms e' = 200 ∧
    (∀ i, received e' i ↔ received (demo_engine 16) i ∨ i = 0) ∧
    let completed := contiguous_count e' =? segment_count (demo_engine 16) in
    state e' = (if completed then TransferState.kCompleted else TransferState.kActive) ∧
    process 16 (segment_message (demo_engine 16) 0 [11; 12]) 200 (demo_engine 16, replicate 5 0) =
      acknowledge 16 (e', if completed
        then (onTransferComplete (W := bytes) [11; 12; 0; 0; 0]).2 else [11; 12; 0; 0; 0]).
Proof.
  apply (segment_accepted 16 (demo_engine 16) (replicate 5 0) [11; 12; 0; 0; 0] 0 [11; 12] 200).
  - by_evaluation.
  - apply demo_engine_wf.
  - vm_compute; reflexivity.
  - vm_compute; reflexivity.
  - by_evaluation.
  - by_evaluation.
  - discriminate.
  - vm_compute; reflexivity.
  - by_evaluation.
  - vm_compute; reflexivity.
Defined.

(** A segment is never delivered twice: one that was received already, or that
    is not granted, only renews the activity time (inside the grant) and is
    answered with an ACK of the unchanged state; the sink is not called. *)
Theorem segment_not_delivered_again {W} `{!ReceiverCallbacks W, !ReceiverPduSender W}
    (max_width : Z) (e : Engine) (w : W) (index : Z) (payload : bytes) (now : Z) :
  1 ≤ max_width ≤ 16 → engine_wf max_width e →
  state e = TransferState.kActive ∨ state e = TransferState.kCompleted →
  (state e = TransferState.kActive → expired now e = false) →
  0 ≤ index < segment_count e → received e index ∨ granted_end e ≤ index →
  zlen payload = segment_bytes (setup e) index → is_bytes payload →
  process max_width (segment_message e index payload) now (e, w) =
    acknowledge max_width (renew now index (set_last_send SendResult.kSent e), w).
Proof.
  intros Hmax Hwf Hst Hexp Hi Hseen Hlen Hb.
  assert (Htwf : transfer_wf max_width e).
  { pose proof (ewf_state _ _ Hwf) as H. destruct Hst as [E|E]; rewrite E in H; apply H. }
  apply process_segment; [done|].
  etransitivity; [apply (handleSegment_guarded max_width (set_last_send SendResult.kSent e));
    done || by destruct Htwf|].
  rewrite seen_guard; [done|done|by apply engine_wf_last_send|by destruct Htwf|done|done].
Qed.

Lemma segment_not_delivered_again_witness :
  process 16 (segment_message (demo_engine 16) 2 [99]) 200 (demo_engine 16, [1; 2; 3; 4; 5]) =
    acknowledge 16 (renew 200 2 (set_last_send SendResult.kSent (demo_engine 16)),
                    [1; 2; 3; 4; 5]).
Proof.
  apply (segment_not_delivered_again 16 (demo_engine 16) [1; 2; 3; 4; 5] 2 [99] 200).
  - by_evaluation.
  - apply demo_engine_wf.
  - left. vm_compute; reflexivity.
  - intros _. vm_compute; reflexivity.
  - by_evaluation.
  - left. by_evaluation.
  - vm_compute; reflexivity.
  - by_evaluation.
Defined.

(** ** An undisturbed transfer *)

#[export] Instance Traced_cooperative W
    `{!ReceiverCallbacks W, !ReceiverPduSender W, !Cooperative W} : Cooperative (Traced W).
Proof.
  split.
  - intros info [w log]. simpl. pose proof (coop_begin info w). by destruct (beginTransfer info w).
  - intros o p [w log]. simpl. pose proof (coop_segment o p w). by destruct (onSegment o p w).
  - intros n [w log] Hn. simpl. pose proof (coop_prepare n w Hn). by destruct (prepare n w).
  - intros [w log]. simpl. pose proof (coop_send w). by destruct (sendPrepared w).
Qed.

(** The segments of an object from index [i] on, at the given times. *)
Definition segment_calls (s : Setup) (object : bytes) (times : Z → Z) (from count : Z)
    : list EngineCall :=
  map (λ i, CProcess (layout (MSegment (mkSegmentHeader (setup_session_id s) i))
                      ++ slice object (segment_offset s i) (segment_bytes s i)) (times (i + 1)))
    (seqZ from count).

(** A whole transfer: the setup at [times 0], then every segment in order. *)
Definition transfer_calls (s : Setup) (object : bytes) (times : Z → Z) : list EngineCall :=
  CProcess (layout (MSetup s)) (times 0) :: segment_calls s object times 0 (segments s).

Lemma slice_length s object i :
  setup_valid s → zlen object = object_bytes s → 0 ≤ i < segments s →
  zlen (slice object (segment_offset s i) (segment_bytes s i)) = segment_bytes s i.
Proof.
  intros [_ Hsz] Hlen Hi.
  unfold zlen, slice, segments, segment_offset, segment_bytes, object_bytes in *.
  rewrite length_take, length_drop.
  destruct (Z.eqb_spec i (final_segment_index s)) as [->|]; [nia|].
  assert (i * segment_size s + segment_size s ≤ final_segment_index s * segment_size s) by nia.
  nia.
Qed.

Section transfer.
Context {W : Type} `{!ReceiverCallbacks W, !ReceiverPduSender W, !Cooperative W}.
Variable max_width : Z.
Hypothesis Hmax : 1 ≤ max_width ≤ 16.
Variables (s : Setup) (object : bytes) (times : Z → Z) (timeout : Z).
Hypothesis Hobj : zlen object = object_bytes s.
Hypothesis Hbytes : is_bytes object.
(** No gap of the transfer reaches the inactivity timeout. *)
Hypothesis Htimes : ∀ i, timeout = 0 ∨ u32 (times (i + 1) - times i) < timeout.

Hypothesis Hs : setup_valid s.

(** The engine before segment [from] of the transfer. *)
Definition at_segment (from : Z) (e : Engine) : Prop :=
  engine_wf max_width e ∧ setup e = s ∧ inactivity_timeout_ms (config e) = timeout ∧
  last_activity_ms e = times from ∧ segment_count e = segments s ∧
  (∀ i, received e i ↔ 0 ≤ i < from) ∧
  state e = if from =? segments s then TransferState.kCompleted else TransferState.kActive.

Lemma at_segment_step from e (w : W) :
  0 ≤ from < segments s → at_segment from e →
  at_segment (from + 1) (process max_width
    (segment_message e from (slice object (segment_offset s from) (segment_bytes s from)))
    (times (from + 1)) (e, w)).2.1.
Proof.
  intros Hfrom (Hwf & Hset & Hto & Hlast & Hcnt & Hrec & Hst).
  rewrite (proj2 (Z.eqb_neq _ _)) in Hst by lia.
  destruct (process_in_order max_width Hmax e w from
    (slice object (segment_offset s from) (segment_bytes s from)) (times (from + 1)))
    as (Hwf' & Hset' & Hcf' & Ha' & Hn' & Hrec' & Hst'); try done.
  - unfold expired. rewrite Hto, Hlast. destruct (Htimes from) as [->|]; [done|].
    by rewrite (proj2 (Z.leb_gt _ _)), andb_false_r.
  - lia.
  - rewrite Hset. by apply slice_length.
  - by apply slice_bytes.
  - split_and!; try done; [by rewrite Hset'|by rewrite Hcf'|by rewrite Hn'|].
    by rewrite Hst', Hcnt.
Qed.

Lemma segments_complete n e (w : W) from :
  from + Z.of_nat n = segments s → 0 ≤ from → at_segment from e →
  at_segment (segments s)
    (run_calls max_width (segment_calls s object times from (Z.of_nat n)) (e, w)).1.
Proof.
  revert e w from. induction n as [|n IH]; intros e w from Hn Hfrom Hat.
  { by replace (segments s) with from by lia. }
  unfold segment_calls. rewrite seqZ_cons by lia. cbn [map]. unfold run_calls. cbn [foldl].
  fold (run_calls (W := W) max_width). pose proof (at_segment_step from e w) as Hstep.
  unfold segment_message in Hstep. rewrite (proj1 (proj2 Hat)) in Hstep.
  cbn [run_call]. destruct (process _ _ _ (e, w)) as [? [e' w']]. cbn [fst snd] in *.
  replace (Z.succ from) with (from + 1) by lia.
  replace (Z.pred (Z.of_nat (S n))) with (Z.of_nat n) by lia.
  apply (IH e' w' (from + 1)); [lia|lia|]. apply Hstep; [lia|done].
Qed.

Lemma transfer_completes e (w : W) :
  engine_wf max_width e → state e ≠ TransferState.kActive →
  inactivity_timeout_ms (config e) = timeout →
  1 ≤ receive_window_width (config e) →
  object_bytes s ≤ maximum_object_size (config e) →
  segment_size s ≤ maximum_segment_size (config e) →
  at_segment (segments s) (run_calls max_width (transfer_calls s object times) (e, w)).1.
Proof.
  intros Hwf Hidle Hto Hw Hsize Hseg.
  pose proof (process_setup max_width Hmax e w s (times 0) Hwf Hidle Hs Hw Hsize Hseg) as Hsetup.
  pose proof (setup_geometry _ Hs) as (_ & _ & Hn & _).
  unfold transfer_calls, run_calls. cbn [foldl run_call].
  fold (run_calls (W := W) max_width). unfold wp in Hsetup.
  destruct (process _ _ _ (e, w)) as [? [e' w']]. cbn [fst snd] in *.
  destruct Hsetup as (Hwf' & Hset & Hcf & Ha & Hcnt & Hrec & Hst).
  replace (segments s) with (Z.of_nat (Z.to_nat (segments s))) at 2 by lia.
  apply segments_complete; [lia|done|]. split_and!; try done; [by rewrite Hcf|].
  by rewrite (proj2 (Z.eqb_neq _ _)) by lia.
Qed.
End transfer.

Lemma transfer_calls_wf s object times :
  setup_valid s → is_bytes object → Forall call_wf (transfer_calls s object times).
Proof.
  intros Hs Hb. constructor; [apply layout_bytes, Hs|].
  apply list.Forall_forall. intros call Hin. apply list_elem_of_In, in_map_iff in Hin.
  destruct Hin as (i & <- & Hi). apply list_elem_of_In, elem_of_seqZ in Hi.
  destruct Hs as [(Hsess & _ & Hfin & _) _].
  apply Forall_app_2; [|by apply slice_bytes]. apply (layout_bytes (MSegment _)).
  split; simpl; [done|]. unfold segments, is_u16 in *. lia.
Qed.

Lemma arrived_in_transfer s object times session index payload :
  arrived_in (transfer_calls s object times) (segment_with session index payload) →
  payload = slice object (segment_offset s index) (segment_bytes s index).
Proof.
  intros [now [Heq|Hin]%elem_of_cons]; [discriminate|].
  apply list_elem_of_In, in_map_iff in Hin as (i & Heq & _). injection Heq.
  intros _ <- Hhi Hlo _. enough (i = index) as -> by done.
  rewrite (Z.div_mod i 256), (Z.div_mod index 256) by lia. lia.
Qed.

Lemma in_order_completes {W}
    `{!ReceiverCallbacks W, !ReceiverPduSender W, !Cooperative W}
    (max_width : Z) (c : ReceiverEngineConfig) (s : Setup) (object : bytes)
    (times : Z → Z) (w : W) :
  1 ≤ max_width ≤ 16 → config_wf c → 1 ≤ receive_window_width c → setup_valid s →
  object_bytes s ≤ maximum_object_size c → segment_size s ≤ maximum_segment_size c →
  zlen object = object_bytes s → is_bytes object →
  (∀ i, inactivity_timeout_ms c = 0 ∨
        u32 (times (i + 1) - times i) < inactivity_timeout_ms c) →
  let final := run_calls (W := Traced W) max_width (transfer_calls s object times)
                 (new_engine max_width c, (w, [])) in
  state final.1 = TransferState.kCompleted ∧
  ∃ ds, monitor final.2.2 = Some (Done (info_of s) ds) ∧
    ∀ buffer, length buffer = length object → write_all ds buffer = object.
Proof.
  intros Hmax Hc Hw Hs Hsize Hseg Hobj Hb Htimes.
  pose proof (inv_new max_width Hmax (λ _, True) c w Hc) as [Hwf _].
  destruct (transfer_completes (W := Traced W) max_width Hmax s object times _ Hobj Hb Htimes Hs
    (new_engine max_width c) (w, [])) as (_ & Hset & _ & _ & _ & _ & Hst); try done;
    try (simpl; by destruct (_ <? _)); [simpl; by destruct (_ <? _); simpl; lia|].
  rewrite Z.eqb_refl in Hst. split; [done|].
  pose proof (run_inv max_width c (transfer_calls s object times) w Hmax Hc
    (transfer_calls_wf s object times Hs Hb)) as Hinv.
  destruct (run_calls _ _ _) as [e [w' log]]. cbn [fst snd] in *. rewrite <- Hset.
  eapply completed_object; [done|done|by rewrite Hset|]. rewrite Hset.
  intros index payload Harr Hlen. rewrite Hlen. by eapply arrived_in_transfer.
Qed.

(** C9: an undisturbed transfer completes: in a cooperative environment, the
    setup and the segments of an object in order, without a gap as long as the
    inactivity timeout (ACKs may be lost), leave the receiver completed with
    deliveries that rebuild the object, in both builds, for every window width
    and every geometry within the configured limits. *)
Theorem in_order_transfer_completes {W}
    `{!ReceiverCallbacks W, !ReceiverPduSender W, !Cooperative W}
    (max_width : Z) (c : ReceiverEngineConfig) (s : Setup) (object : bytes)
    (times : Z → Z) (w : W) :
  1 ≤ max_width ≤ 16 → config_wf c → 1 ≤ receive_window_width c → setup_valid s →
  object_bytes s ≤ maximum_object_size c → segment_size s ≤ maximum_segment_size c →
  zlen object = object_bytes s → is_bytes object →
  (∀ i, inactivity_timeout_ms c = 0 ∨
        u32 (times (i + 1) - times i) < inactivity_timeout_ms c) →
  let final := run_calls (W := Traced W) max_width (transfer_calls s object times)
                 (new_engine max_width c, (w, [])) in
  state final.1 = TransferState.kCompleted ∧
  ∃ ds, monitor final.2.2 = Some (Done (info_of s) ds) ∧
    ∀ buffer, length buffer = length object → write_all ds buffer = object.
Proof. apply in_order_completes. Qed.

Lemma in_order_transfer_completes_witness :
  let final := run_calls (W := Traced bytes) 16
                 (transfer_calls demo_setup [11; 12; 13; 14; 15] (λ i, u32 (4294967290 + 10 * i)))
                 (new_engine 16 demo_config, ([], [])) in
  state final.1 = TransferState.kCompleted ∧
  ∃ ds, monitor final.2.2 = Some (Done (info_of demo_setup) ds) ∧
    ∀ buffer, length buffer = length [11; 12; 13; 14; 15] →
      write_all ds buffer = [11; 12; 13; 14; 15].
Proof.
  apply (in_order_transfer_completes (W := bytes) 16 demo_config demo_setup
    [11; 12; 13; 14; 15] (λ i, u32 (4294967290 + 10 * i)) []).
  - by_evaluation.
  - by_evaluation.
  - by_evaluation.
  - split; [split_and!|]; by_evaluation.
  - by_evaluation.
  - by_evaluation.
  - reflexivity.
  - by_evaluation.
  - intros i. right. cbn [inactivity_timeout_ms demo_config]. word_lia.
Defined.

(** The inactivity timeout is measured by the wrapping clock: with true times
    less than a full wrap apart, [poll] fails an active transfer exactly when the
    time since the last activity has reached the timeout (never with timeout 0):
    then the state is [kError], the service gets one [onTransferFailed] and
    nothing is sent; otherwise nothing changes. *)
Theorem poll_expires {W} `{!ReceiverCallbacks W, !ReceiverPduSender W}
    (e : Engine) (w : W) (last time : Z) :
  last_activity_ms e = u32 last → last ≤ time < last + 2 ^ 32 →
  poll (u32 time) (e, w) =
    if bool_decide (state e = TransferState.kActive) &&
       negb (inactivity_timeout_ms (config e) =? 0) &&
       (inactivity_timeout_ms (config e) <=? time - last)
    then (ProcessResult.kError,
          (set_state TransferState.kError e,
           (onTransferFailed FailureReason.kInactivityTimeout w).2))
    else (ProcessResult.kIdle, (e, w)).
Proof.
  intros Hlast Htime. change (2 ^ 32) with 4294967296 in Htime.
  assert (Hgap : u32 (u32 time - last_activity_ms e) = time - last) by (rewrite Hlast; word_lia).
  apply wp_equal, wp_bind, wp_engine. cbn [fst]. rewrite Hgap.
  case_bool_decide as Hact; [|done]. destruct (_ =? 0); [done|]. cbn [negb orb andb].
  rewrite Z.ltb_antisym. destruct (_ <=? _); [|done]. cbn [negb].
  apply wp_bind, wp_bind, wp_engine. cbn [fst]. rewrite bool_decide_eq_true_2 by done.
  apply wp_bind, wp_update. unfold wp at 1, call, on_snd.
  by destruct (onTransferFailed _ w) as [[] w'].
Qed.

Lemma poll_expires_witness :
  poll (u32 4294967400) (set_last_activity_ms (u32 4294962000) (demo_engine 16), [0]) =
    if bool_decide (state (set_last_activity_ms (u32 4294962000) (demo_engine 16))
                    = TransferState.kActive) &&
       negb (inactivity_timeout_ms (config (set_last_activity_ms (u32 4294962000) (demo_engine 16)))
             =? 0) &&
       (inactivity_timeout_ms (config (set_last_activity_ms (u32 4294962000) (demo_engine 16)))
        <=? 4294967400 - 4294962000)
    then (ProcessResult.kError,
          (set_state TransferState.kError
             (set_last_activity_ms (u32 4294962000) (demo_engine 16)),
           (onTransferFailed (W := bytes) FailureReason.kInactivityTimeout [0]).2))
    else (ProcessResult.kIdle, (set_last_activity_ms (u32 4294962000) (demo_engine 16), [0])).
Proof.
  apply (poll_expires (set_last_activity_ms (u32 4294962000) (demo_engine 16)) [0]
    4294962000 4294967400); [reflexivity|by_evaluation].
Defined.
