(* ===== verification/BitsTransmitter.v ===== *)
(** * The BITS transmitter
      ([transports/bits/bits.h], [bits.cpp]: [BitsTransmitter])

    The session machine that sends an object in segments: one definition per
    member function, in the state monad over the transmitter, with its two packet
    buffers, and an environment [W] holding what the callbacks and the router's
    forwarder keep.  The object span, which the caller must keep valid and
    unchanged during the transfer, is a value of the session; the two packet
    buffers of the storage are distinct. *)

From S2P Require Import Prelude Packet Routing BitsCodec BitsEngine.
Local Open Scope Z_scope.

(** ** Configuration and results *)

Record TimingConfig := {
  retransmission_timeout_ms : Z;
  probe_timeout_ms : Z;
  max_retries : Z;
}.

Module StartResult.
Inductive t := kStarted | kBusy | kInvalidArgument | kPacketTooSmall.
End StartResult.

#[export] Instance StartResult_eq_dec : EqDecision StartResult.t.
Proof. solve_decision. Defined.

Class TransmitterCallbacks (W : Type) := {
  txDatagram : bytes → State W unit;
  txTransferComplete : State W unit;
  txTransferRejected : RejectReason → State W unit;
  txTransferAborted : State W unit;
}.

(** ** Shared helpers of [bits.cpp] *)

Definition sendResult (result : RouteResult.t) : SendResult.t :=
  match result with
  | RouteResult.kAccepted => SendResult.kSent
  | RouteResult.kPartial => SendResult.kPartial
  | RouteResult.kFull => SendResult.kFull
  | RouteResult.kTooLarge => SendResult.kTooLarge
  | RouteResult.kRejected => SendResult.kRejected
  | _ => SendResult.kNoRoute
  end.

(** A [ConnectionConfig] is a [ConnectionAddress]. *)
Definition matchesConnection (packet : PacketBuffer) (connection : ConnectionAddress) : bool :=
  let h := header packet in
  hasSupportedControl h && (transportType h =? kBits)
  && bool_decide (wire h = conn_wire connection)
  && bool_decide (source h = conn_remote_host connection)
  && bool_decide (destination h = conn_local_host connection)
  && bool_decide (endpoint h = conn_endpoint connection).

Definition copyPacket (source destination : PacketBuffer) : bool * PacketBuffer :=
  let '(ok, destination) := resize (size source) destination in
  if negb ok then (false, destination)
  else
    let destination := set_header (header source) destination in
    if 0 <? size source then (true, write_payload 0 (payload source) destination)
    else (true, destination).

Definition segmentCount (total_size segment_size : Z) : Z :=
  let whole_segments := total_size / segment_size in
  u32 (whole_segments + (if total_size mod segment_size =? 0 then 0 else 1)).

Definition elapsed (now_ms start_ms duration_ms : Z) : bool :=
  duration_ms <=? u32 (now_ms - start_ms).

(** ** The transmitter *)

Module Transmitter.

(** [sequenceFor], [baseSequence] and [lowBitMask] of [bits.cpp]. *)
Definition sequenceFor (s : Setup) (segment_index : Z) : Z :=
  u8 (initial_sequence_number s + u8 segment_index).

Definition baseSequence (s : Setup) (contiguous_count : Z) : Z :=
  if contiguous_count =? 0 then u8 (initial_sequence_number s - 1)
  else sequenceFor s (u32 (contiguous_count - 1)).

Definition lowBitMask (count : Z) : Z :=
  if kCompactWindowWidth <=? count then 0xFFFF
  else if count =? 0 then 0 else u16 (Z.shiftl 1 count - 1).

Record TransferSession := {
  state : TransferState.t;
  object : bytes;
  setup : Setup;
  segment_count : Z;
  acknowledged_count : Z;
  granted_end : Z;
  sent_bitmap : Z;
  acknowledged_bitmap : Z;
  segment_last_send_ms : list Z;
  segment_retry_count : list Z;
  setup_last_send_ms : Z;
  probe_last_send_ms : Z;
  setup_retry_count : Z;
  probe_retry_count : Z;
  setup_sent : bool;
  probe_timer_active : bool;
}.

(** Assignments to the members of the session. *)
Definition set_state v s := {| state := v; object := object s; setup := setup s;
  segment_count := segment_count s; acknowledged_count := acknowledged_count s;
  granted_end := granted_end s; sent_bitmap := sent_bitmap s;
  acknowledged_bitmap := acknowledged_bitmap s; segment_last_send_ms := segment_last_send_ms s;
  segment_retry_count := segment_retry_count s; setup_last_send_ms := setup_last_send_ms s;
  probe_last_send_ms := probe_last_send_ms s; setup_retry_count := setup_retry_count s;
  probe_retry_count := probe_retry_count s; setup_sent := setup_sent s;
  probe_timer_active := probe_timer_active s |}.
Definition set_granted_end v s := {| state := state s; object := object s; setup := setup s;
  segment_count := segment_count s; acknowledged_count := acknowledged_count s; granted_end := v;
  sent_bitmap := sent_bitmap s; acknowledged_bitmap := acknowledged_bitmap s;
  segment_last_send_ms := segment_last_send_ms s; segment_retry_count := segment_retry_count s;
  setup_last_send_ms := setup_last_send_ms s; probe_last_send_ms := probe_last_send_ms s;
  setup_retry_count := setup_retry_count s; probe_retry_count := probe_retry_count s;
  setup_sent := setup_sent s; probe_timer_active := probe_timer_active s |}.
Definition set_setup_sent v s := {| state := state s; object := object s; setup := setup s;
  segment_count := segment_count s; acknowledged_count := acknowledged_count s;
  granted_end := granted_end s; sent_bitmap := sent_bitmap s;
  acknowledged_bitmap := acknowledged_bitmap s; segment_last_send_ms := segment_last_send_ms s;
  segment_retry_count := segment_retry_count s; setup_last_send_ms := setup_last_send_ms s;
  probe_last_send_ms := probe_last_send_ms s; setup_retry_count := setup_retry_count s;
  probe_retry_count := probe_retry_count s; setup_sent := v;
  probe_timer_active := probe_timer_active s |}.
Definition set_setup_last_send_ms v s := {| state := state s; object := object s;
  setup := setup s; segment_count := segment_count s; acknowledged_count := acknowledged_count s;
  granted_end := granted_end s; sent_bitmap := sent_bitmap s;
  acknowledged_bitmap := acknowledged_bitmap s; segment_last_send_ms := segment_last_send_ms s;
  segment_retry_count := segment_retry_count s; setup_last_send_ms := v;
  probe_last_send_ms := probe_last_send_ms s; setup_retry_count := setup_retry_count s;
  probe_retry_count := probe_retry_count s; setup_sent := setup_sent s;
  probe_timer_active := probe_timer_active s |}.
Definition set_setup_retry_count v s := {| state := state s; object := object s; setup := setup s;
  segment_count := segment_count s; acknowledged_count := acknowledged_count s;
  granted_end := granted_end s; sent_bitmap := sent_bitmap s;
  acknowledged_bitmap := acknowledged_bitmap s; segment_last_send_ms := segment_last_send_ms s;
  segment_retry_count := segment_retry_count s; setup_last_send_ms := setup_last_send_ms s;
  probe_last_send_ms := probe_last_send_ms s; setup_retry_count := v;
  probe_retry_count := probe_retry_count s; setup_sent := setup_sent s;
  probe_timer_active := probe_timer_active s |}.
Definition set_probe_last_send_ms v s := {| state := state s; object := object s;
  setup := setup s; segment_count := segment_count s; acknowledged_count := acknowledged_count s;
  granted_end := granted_end s; sent_bitmap := sent_bitmap s;
  acknowledged_bitmap := acknowledged_bitmap s; segment_last_send_ms := segment_last_send_ms s;
  segment_retry_count := segment_retry_count s; setup_last_send_ms := setup_last_send_ms s;
  probe_last_send_ms := v; setup_retry_count := setup_retry_count s;
  probe_retry_count := probe_retry_count s; setup_sent := setup_sent s;
  probe_timer_active := probe_timer_active s |}.
Definition set_probe_retry_count v s := {| state := state s; object := object s; setup := setup s;
  segment_count := segment_count s; acknowledged_count := acknowledged_count s;
  granted_end := granted_end s; sent_bitmap := sent_bitmap s;
  acknowledged_bitmap := acknowledged_bitmap s; segment_last_send_ms := segment_last_send_ms s;
  segment_retry_count := segment_retry_count s; setup_last_send_ms := setup_last_send_ms s;
  probe_last_send_ms := probe_last_send_ms s; setup_retry_count := setup_retry_count s;
  probe_retry_count := v; setup_sent := setup_sent s;
  probe_timer_active := probe_timer_active s |}.
Definition set_probe_timer_active v s := {| state := state s; object := object s;
  setup := setup s; segment_count := segment_count s; acknowledged_count := acknowledged_count s;
  granted_end := granted_end s; sent_bitmap := sent_bitmap s;
  acknowledged_bitmap := acknowledged_bitmap s; segment_last_send_ms := segment_last_send_ms s;
  segment_retry_count := segment_retry_count s; setup_last_send_ms := setup_last_send_ms s;
  probe_last_send_ms := probe_last_send_ms s; setup_retry_count := setup_retry_count s;
  probe_retry_count := probe_retry_count s; setup_sent := setup_sent s;
  probe_timer_active := v |}.

(** The window bookkeeping as a whole. *)
Definition set_window acked sent bitmap sends retries s := {| state := state s;
  object := object s; setup := setup s; segment_count := segment_count s;
  acknowledged_count := acked; granted_end := granted_end s; sent_bitmap := sent;
  acknowledged_bitmap := bitmap; segment_last_send_ms := sends; segment_retry_count := retries;
  setup_last_send_ms := setup_last_send_ms s; probe_last_send_ms := probe_last_send_ms s;
  setup_retry_count := setup_retry_count s; probe_retry_count := probe_retry_count s;
  setup_sent := setup_sent s; probe_timer_active := probe_timer_active s |}.

Definition zeroes : list Z := replicate (Z.to_nat kCompactWindowWidth) 0.

Definition new_session : TransferSession := {|
  state := TransferState.kIdle; object := []; setup := empty_setup; segment_count := 0;
  acknowledged_count := 0; granted_end := 0; sent_bitmap := 0; acknowledged_bitmap := 0;
  segment_last_send_ms := zeroes; segment_retry_count := zeroes; setup_last_send_ms := 0;
  probe_last_send_ms := 0; setup_retry_count := 0; probe_retry_count := 0;
  setup_sent := false; probe_timer_active := false |}.

Record Transmitter := {
  connection_ : ConnectionAddress;
  timing_ : TimingConfig;
  datagram_ingress : PacketBuffer;
  transmit_packet : PacketBuffer;
  datagram_occupied_ : bool;
  session_ : TransferSession;
  last_send_ : SendResult.t;
}.

Definition set_datagram_ingress v t := {| connection_ := connection_ t; timing_ := timing_ t;
  datagram_ingress := v; transmit_packet := transmit_packet t;
  datagram_occupied_ := datagram_occupied_ t; session_ := session_ t;
  last_send_ := last_send_ t |}.
Definition set_transmit_packet v t := {| connection_ := connection_ t; timing_ := timing_ t;
  datagram_ingress := datagram_ingress t; transmit_packet := v;
  datagram_occupied_ := datagram_occupied_ t; session_ := session_ t;
  last_send_ := last_send_ t |}.
Definition set_datagram_occupied_ v t := {| connection_ := connection_ t; timing_ := timing_ t;
  datagram_ingress := datagram_ingress t; transmit_packet := transmit_packet t;
  datagram_occupied_ := v; session_ := session_ t; last_send_ := last_send_ t |}.
Definition set_session_ v t := {| connection_ := connection_ t; timing_ := timing_ t;
  datagram_ingress := datagram_ingress t; transmit_packet := transmit_packet t;
  datagram_occupied_ := datagram_occupied_ t; session_ := v; last_send_ := last_send_ t |}.
Definition set_last_send_ v t := {| connection_ := connection_ t; timing_ := timing_ t;
  datagram_ingress := datagram_ingress t; transmit_packet := transmit_packet t;
  datagram_occupied_ := datagram_occupied_ t; session_ := session_ t; last_send_ := v |}.

Definition new_transmitter (connection : ConnectionAddress) (timing : TimingConfig)
    (ingress transmit : PacketBuffer) : Transmitter := {|
  connection_ := connection; timing_ := timing; datagram_ingress := ingress;
  transmit_packet := transmit; datagram_occupied_ := false; session_ := new_session;
  last_send_ := SendResult.kSent |}.

Section transmitter.
Context {W : Type} `{!TransmitterCallbacks W, !PacketForwarder W}.
(** The route table of [router_]. *)
Variable routes : list RouteTableEntry.

Definition Op := State (Transmitter * W).

Definition self : Op Transmitter := gets fst.
Definition session : Op TransferSession := gets (λ s, session_ s.1).
Definition update (f : Transmitter → Transmitter) : Op unit := modify (λ '(t, w), (f t, w)).
Definition updateSession (f : TransferSession → TransferSession) : Op unit :=
  update (λ t, set_session_ (f (session_ t)) t).
Definition call {A} (m : State W A) : Op A := on_snd m.

Definition receive (packet : PacketBuffer) (t : Transmitter) : ReceiveResult.t * Transmitter :=
  if negb (matchesConnection packet (connection_ t)) then (ReceiveResult.kRejected, t)
  else match payload packet with
  | [] => (ReceiveResult.kRejected, t)
  | encoded :: _ =>
      match decodeControl encoded with
      | Some (mkControl _ _ (kAck | kReject | kAbort | kUserDatagram)) =>
          if datagram_occupied_ t then (ReceiveResult.kFull, t)
          else
          let '(ok, ingress) := copyPacket packet (datagram_ingress t) in
          let t := set_datagram_ingress ingress t in
          if negb ok then (ReceiveResult.kRejected, t)
          else (ReceiveResult.kAccepted, set_datagram_occupied_ true t)
      | _ => (ReceiveResult.kRejected, t)
      end
  end.

Definition preparePacket (payload_size : Z) (q : QoS) : Op bool :=
  update (set_last_send_ SendResult.kTooLarge);;
  t ← self;
  let '(ok, packet) :=
    initializeConnection payload_size (connection_ t) (cf_bits q) (transmit_packet t) in
  update (set_transmit_packet packet);;
  mret ok.

(** An encoder writing [transmit_packet.payload()]. *)
Definition encodeInto (encode : bytes → option bytes) : Op bool :=
  t ← self;
  match encode (payload (transmit_packet t)) with
  | None => mret false
  | Some contents =>
      update (set_transmit_packet (write_payload 0 contents (transmit_packet t)));; mret true
  end.

Definition forwardPacket : Op bool :=
  t ← self;
  result ← call (routerForward routes (transmit_packet t));
  update (set_last_send_ (sendResult result));;
  mret (bool_decide (sendResult result = SendResult.kSent)).

(** The common [preparePacket(..) && encode(..) && forwardPacket()]. *)
Definition sendMessage (payload_size : Z) (q : QoS) (encode : bytes → option bytes) : Op bool :=
  prepared ← preparePacket payload_size q;
  if negb prepared then mret false
  else
  encoded ← encodeInto encode;
  if negb encoded then mret false else forwardPacket.

Definition sendSetup (now_ms : Z) (retransmission : bool) : Op bool :=
  s ← session;
  sent ← sendMessage kSetupSize kNormal (encodeSetup (setup s));
  if negb sent then mret false
  else
  updateSession (λ s, set_setup_last_send_ms now_ms (set_setup_sent true s));;
  (if retransmission
   then updateSession (λ s, set_setup_retry_count (u8 (setup_retry_count s + 1)) s)
   else mret tt);;
  mret true.

(** The bytes [segment_index] stands for. *)
Definition segmentPayloadSize (s : TransferSession) (segment_index : Z) : Z :=
  if segment_index =? final_segment_index (setup s)
  then final_segment_size (setup s) else segment_size (setup s).

Definition segmentBytes (s : TransferSession) (segment_index : Z) : bytes :=
  take (Z.to_nat (segmentPayloadSize s segment_index))
    (drop (Z.to_nat (u32 (segment_index * segment_size (setup s)))) (object s)).

(** The session after an admitted segment transmission. *)
Definition segmentSent (window_offset now_ms : Z) (retransmission : bool)
    (s : TransferSession) : TransferSession :=
  let slot := Z.to_nat window_offset in
  set_probe_timer_active false
    (set_window (acknowledged_count s)
       (u16 (Z.lor (sent_bitmap s) (bit16 window_offset)))
       (acknowledged_bitmap s)
       (<[slot := now_ms]> (segment_last_send_ms s))
       (<[slot := if retransmission then u8 (nth slot (segment_retry_count s) 0 + 1) else 0]>
          (segment_retry_count s)) s).

Definition sendSegment (window_offset now_ms : Z) (retransmission : bool) : Op bool :=
  s ← session;
  let segment_index := u32 (acknowledged_count s + window_offset) in
  if segment_count s <=? segment_index then mret false
  else
  let message_size := u16 (kSegmentHeaderSize + segmentPayloadSize s segment_index) in
  prepared ← preparePacket message_size kBackground;
  if negb prepared then mret false
  else
  encoded ← encodeInto
    (encodeSegmentHeader (mkSegmentHeader (setup_session_id (setup s)) (u16 segment_index)));
  if negb encoded then mret false
  else
  update (λ t, set_transmit_packet
    (write_payload (Z.to_nat kSegmentHeaderSize) (segmentBytes s segment_index)
       (transmit_packet t)) t);;
  sent ← forwardPacket;
  if negb sent then mret false
  else updateSession (segmentSent window_offset now_ms retransmission);; mret true.

Definition sendProbe (now_ms : Z) : Op bool :=
  s ← session;
  sent ← sendMessage kProbeSize kNormal (encodeProbe (mkProbe (setup_session_id (setup s))));
  if negb sent then mret false
  else
  updateSession (λ s, set_probe_retry_count (u8 (probe_retry_count s + 1))
                        (set_probe_last_send_ms now_ms s));;
  mret true.

Definition sendAbort : Op bool :=
  s ← session;
  sendMessage kAbortSize kNormal (encodeAbort (mkAbort (setup_session_id (setup s)))).

Definition retryLimitReached (retry_count : Z) (t : Transmitter) : bool :=
  max_retries (timing_ t) <=? retry_count.

(** The two loops of [shiftWindow] move an array down and clear its end. *)
Definition shiftArray (count : Z) (l : list Z) : list Z :=
  drop (Z.to_nat count) l ++ replicate (Z.to_nat count) 0.

Definition shiftWindow (count : Z) (s : TransferSession) : TransferSession :=
  if count =? 0 then s
  else if kCompactWindowWidth <=? count
  then set_window (acknowledged_count s) 0 0 zeroes zeroes s
  else set_window (acknowledged_count s)
         (u16 (Z.shiftr (sent_bitmap s) count)) (u16 (Z.shiftr (acknowledged_bitmap s) count))
         (shiftArray count (segment_last_send_ms s)) (shiftArray count (segment_retry_count s)) s.

Definition transitionToAborted : Op unit :=
  s ← session;
  if bool_decide (state s = TransferState.kAborted) then mret tt
  else updateSession (set_state TransferState.kAborted);; call txTransferAborted.

Definition isRunning (s : TransferSession) : bool :=
  bool_decide (state s = TransferState.kStarting) || bool_decide (state s = TransferState.kActive).

(** The cumulative advance and the grant an ACK announces, relative to the base
    the transmitter has reached. *)
Definition ackAdvance (a : Ack) (s : TransferSession) : Z :=
  u8 (window_base a - baseSequence (setup s) (acknowledged_count s)).
Definition ackGrant (a : Ack) : Z := u8 (max_receive_sequence a - window_base a).

Definition ackIgnored (a : Ack) (s : TransferSession) : bool :=
  let advance := ackAdvance a s in
  let grant_span := ackGrant a in
  (kCompactWindowWidth <? advance)
  || (segment_count s <? u32 (acknowledged_count s + advance))
  || (kCompactWindowWidth <? grant_span)
  || (segment_count s <? u32 (acknowledged_count s + advance + grant_span))
  || negb (Z.land (window_bitmap a) (not16 (lowBitMask grant_span)) =? 0).

(** The session after an ACK that is not ignored. *)
Definition ackApplied (a : Ack) (s : TransferSession) : TransferSession :=
  let advance := ackAdvance a s in
  let grant_span := ackGrant a in
  let s := shiftWindow advance s in
  let acked := u32 (acknowledged_count s + advance) in
  let bitmap := u16 (Z.lor (acknowledged_bitmap s)
    (Z.land (Z.land (window_bitmap a) (lowBitMask grant_span)) (sent_bitmap s))) in
  let s := set_window acked (sent_bitmap s) bitmap (segment_last_send_ms s)
    (segment_retry_count s) s in
  let advertised_end := u32 (acked + grant_span) in
  let s := set_granted_end
    (if granted_end s <? advertised_end then advertised_end else granted_end s) s in
  set_probe_retry_count 0 (set_probe_timer_active false (set_setup_sent true s)).

Definition handleAck (message : bytes) : Op bool :=
  match decodeAckKnownType message with
  | None => mret false
  | Some a =>
      s ← session;
      if negb (isRunning s) || negb (ack_session_id a =? setup_session_id (setup s))
         || negb (setup_sent s)
      then mret true
      else if ackIgnored a s then mret true
      else
      let advanced_mask := lowBitMask (ackAdvance a s) in
      if negb (Z.land (sent_bitmap s) advanced_mask =? advanced_mask) then mret true
      else
      updateSession (ackApplied a);;
      s ← session;
      (if acknowledged_count s =? segment_count s
       then updateSession (set_state TransferState.kCompleted);; call txTransferComplete
       else updateSession (set_state TransferState.kActive));;
      mret true
  end.

Definition handleReject (message : bytes) : Op bool :=
  match decodeRejectKnownType message with
  | None => mret false
  | Some r =>
      s ← session;
      if negb (isRunning s) || negb (reject_session_id r =? setup_session_id (setup s))
      then mret true
      else
      updateSession (set_state TransferState.kRejected);;
      call (txTransferRejected (reason r));;
      mret true
  end.

Definition handleAbort (message : bytes) : Op bool :=
  match decodeAbortKnownType message with
  | None => mret false
  | Some abort_message =>
      s ← session;
      if negb (isRunning s)
         || negb (abort_session_id abort_message =? setup_session_id (setup s))
      then mret true
      else transitionToAborted;; mret true
  end.

Definition handleDatagram : Op bool :=
  t ← self;
  let message := payload (datagram_ingress t) in
  match message with
  | [] => mret false
  | encoded :: _ =>
      match decodeControl encoded with
      | None => mret false
      | Some control =>
          match type control with
          | kAck => handleAck message
          | kReject => handleReject message
          | kAbort => handleAbort message
          | kUserDatagram =>
              match decodeUserDatagramKnownType message with
              | None => mret false
              | Some p => call (txDatagram p);; mret true
              end
          | kSetup | kSegment | kProbe => mret false
          end
      end
  end.

(** What [process] returns after a send: progress, blocked by a full link, or an
    error that ends the session. *)
Definition afterSend (sent : bool) : Op ProcessResult.t :=
  if sent then mret ProcessResult.kProgress
  else
  t ← self;
  if bool_decide (last_send_ t = SendResult.kFull) then mret ProcessResult.kBlocked
  else updateSession (set_state TransferState.kError);; mret ProcessResult.kError.

(** The retry limit was reached. *)
Definition giveUp : Op ProcessResult.t :=
  sendAbort;;
  transitionToAborted;;
  mret ProcessResult.kError.

Definition idleOr (progressed : bool) : ProcessResult.t :=
  if progressed then ProcessResult.kProgress else ProcessResult.kIdle.

Definition processStarting (progressed : bool) (now_ms : Z) : Op ProcessResult.t :=
  t ← self;
  let s := session_ t in
  if negb (setup_sent s) then sent ← sendSetup now_ms false; afterSend sent
  else if elapsed now_ms (setup_last_send_ms s) (retransmission_timeout_ms (timing_ t)) then
    if retryLimitReached (setup_retry_count s) t then giveUp
    else sent ← sendSetup now_ms true; afterSend sent
  else mret (idleOr progressed).

(** The first loop of the active state: segments of the window never sent. *)
Definition sendNew (window_span now_ms : Z) : Op (option ProcessResult.t) :=
  for_each (seqZ 0 window_span) (λ offset,
    s ← session;
    if Z.land (sent_bitmap s) (bit16 offset) =? 0
    then sent ← sendSegment offset now_ms false; r ← afterSend sent; mret (Some r)
    else mret None).

Definition outstandingOf (window_span : Z) (s : TransferSession) : Z :=
  u16 (Z.land (Z.land (sent_bitmap s) (not16 (acknowledged_bitmap s))) (lowBitMask window_span)).

(** The second: outstanding segments whose timer has run out. *)
Definition resend (outstanding window_span now_ms : Z) : Op (option ProcessResult.t) :=
  for_each (seqZ 0 window_span) (λ offset,
    t ← self;
    let s := session_ t in
    let slot := Z.to_nat offset in
    if (Z.land outstanding (bit16 offset) =? 0)
       || negb (elapsed now_ms (nth slot (segment_last_send_ms s) 0)
                  (retransmission_timeout_ms (timing_ t)))
    then mret None
    else if retryLimitReached (nth slot (segment_retry_count s) 0) t
    then r ← giveUp; mret (Some r)
    else sent ← sendSegment offset now_ms true; r ← afterSend sent; mret (Some r)).

Definition probe (outstanding : Z) (progressed : bool) (now_ms : Z) : Op ProcessResult.t :=
  t ← self;
  let s := session_ t in
  if (acknowledged_count s <? segment_count s) && (outstanding =? 0) then
    if negb (probe_timer_active s) then
      updateSession (λ s, set_probe_last_send_ms now_ms (set_probe_timer_active true s));;
      mret (idleOr progressed)
    else if elapsed now_ms (probe_last_send_ms s) (probe_timeout_ms (timing_ t)) then
      if retryLimitReached (probe_retry_count s) t then giveUp
      else sent ← sendProbe now_ms; afterSend sent
    else mret (idleOr progressed)
  else
    updateSession (λ s, set_probe_retry_count 0 (set_probe_timer_active false s));;
    mret (idleOr progressed).

Definition processActive (progressed : bool) (now_ms : Z) : Op ProcessResult.t :=
  s ← session;
  let window_span := u8 (u32 (granted_end s - acknowledged_count s)) in
  r ← sendNew window_span now_ms;
  match r with
  | Some r => mret r
  | None =>
      s ← session;
      let outstanding := outstandingOf window_span s in
      r ← resend outstanding window_span now_ms;
      match r with
      | Some r => mret r
      | None => probe outstanding progressed now_ms
      end
  end.

Definition process (now_ms : Z) : Op ProcessResult.t :=
  t ← self;
  let progressed := datagram_occupied_ t in
  handled ← (if progressed
             then handled ← handleDatagram; update (set_datagram_occupied_ false);; mret handled
             else mret true);
  if negb handled
  then updateSession (set_state TransferState.kError);; mret ProcessResult.kError
  else
  s ← session;
  match state s with
  | TransferState.kStarting => processStarting progressed now_ms
  | TransferState.kActive => processActive progressed now_ms
  | _ => mret (idleOr progressed)
  end.

Definition sendDatagram (p : bytes) : Op SendResult.t :=
  t ← self;
  let room := capacity (transmit_packet t) in
  if (room <? kUserDatagramHeaderSize) || (room - kUserDatagramHeaderSize <? zlen p)
  then mret SendResult.kTooLarge
  else
  let message_size := u16 (zlen p + kUserDatagramHeaderSize) in
  prepared ← preparePacket message_size kNormal;
  if negb prepared then mret SendResult.kTooLarge
  else
  encoded ← encodeInto (encodeUserDatagram p);
  if negb encoded then mret SendResult.kTooLarge
  else
  forwardPacket;;
  t ← self;
  mret (last_send_ t).

Definition abort : Op SendResult.t :=
  s ← session;
  if negb (isRunning s) then mret SendResult.kInvalidState
  else
  sendAbort;;
  transitionToAborted;;
  t ← self;
  mret (last_send_ t).

(** [resetTransferTracking] and the assignments before it in [startTransfer]. *)
Definition startedSession (obj : bytes) (requested : Setup) (count : Z) : TransferSession := {|
  state := TransferState.kStarting; object := obj; setup := requested; segment_count := count;
  acknowledged_count := 0; granted_end := 0; sent_bitmap := 0; acknowledged_bitmap := 0;
  segment_last_send_ms := zeroes; segment_retry_count := zeroes; setup_last_send_ms := 0;
  probe_last_send_ms := 0; setup_retry_count := 0; probe_retry_count := 0;
  setup_sent := false; probe_timer_active := false |}.

Definition startTransfer (obj : bytes) (segment_size session_id initial_sequence_number : Z)
    (t : Transmitter) : StartResult.t * Transmitter :=
  if isRunning (session_ t) then (StartResult.kBusy, t)
  else if bool_decide (obj = []) || (segment_size =? 0) || (0xFFFFFFFF <? zlen obj)
  then (StartResult.kInvalidArgument, t)
  else
  let object_size := u32 (zlen obj) in
  let count := segmentCount object_size segment_size in
  if (count =? 0) || (kMaximumCompactSegmentCount <? count)
  then (StartResult.kInvalidArgument, t)
  else if (capacity (transmit_packet t) <? kSetupSize)
          || (capacity (transmit_packet t) <? u32 (segment_size + kSegmentHeaderSize))
  then (StartResult.kPacketTooSmall, t)
  else
  let final_segment_index := u16 (count - 1) in
  let final_segment_size := u16 (u32 (object_size - u32 (final_segment_index * segment_size))) in
  (StartResult.kStarted,
   set_session_ (startedSession obj
     (mkSetup session_id initial_sequence_number final_segment_index segment_size
        final_segment_size) count) t).
End transmitter.
End Transmitter.
