(* ===== verification/BitsTransmitterKeeps.v ===== *)
(** * What the transmitter preserves ([transports/bits/bits.cpp])

    A predicate of the transmitter that its ordinary steps respect, and one of its
    environment that the callbacks and the forwarder respect, hold after every operation:
    only the pending message, an ACK above all, can move the window and end a transfer.
    The composed systems state their invariants of the transmitter with it. *)

From S2P Require Import Prelude Packet Routing BitsCodec BitsEngine BitsTransmitter.
Import Transmitter.
Local Open Scope Z_scope.

(** The object and the setup of a session: what a transfer is about. *)
Definition carried (s : TransferSession) : bytes * Setup := (object s, setup s).

(** A step that leaves the transfer, the base of the window and the pending message alone,
    and completes nothing. *)
Record mild (t t' : Transmitter) : Prop := {
  mild_carried : carried (session_ t') = carried (session_ t);
  mild_count : segment_count (session_ t') = segment_count (session_ t);
  mild_acknowledged : acknowledged_count (session_ t') = acknowledged_count (session_ t);
  mild_completed :
    state (session_ t') = TransferState.kCompleted → state (session_ t) = TransferState.kCompleted;
  mild_connection : connection_ t' = connection_ t;
  mild_room : capacity (transmit_packet t') = capacity (transmit_packet t);
  mild_ingress : datagram_ingress t' = datagram_ingress t;
  mild_occupied : datagram_occupied_ t' = true → datagram_occupied_ t = true;
}.

Lemma capacity_initializeConnection n c q p :
  capacity (initializeConnection n c q p).2 = capacity p.
Proof. unfold initializeConnection, Packet.initialize, resize. by destruct (capacity p <? n). Qed.

Section keeps.
Context {W : Type} `{!TransmitterCallbacks W, !PacketForwarder W}.
Variables (routes : list RouteTableEntry) (I : Transmitter → Prop) (P : W → Prop).
Hypothesis mild_keeps : ∀ t t', mild t t' → I t → I t'.
Hypothesis datagram_keeps : ∀ p, preserves P (txDatagram p).
Hypothesis rejected_keeps : ∀ r, preserves P (txTransferRejected r).
Hypothesis aborted_keeps : preserves P txTransferAborted.
Hypothesis forward_keeps : ∀ packet selected, preserves P (forwarder_forward packet selected).

Definition kept (s : Transmitter * W) : Prop := I s.1 ∧ P s.2.

Hypothesis ack_keeps : ∀ s, kept s → datagram_occupied_ s.1 = true →
  hasType (payload (datagram_ingress s.1)) kAck = true →
  kept (handleAck (payload (datagram_ingress s.1)) s).2.

Lemma kept_update f : (∀ t, mild t (f t)) → preserves kept (update f).
Proof. intros Hf [t w] [Hi Hw]. split; [|done]. exact (mild_keeps _ _ (Hf t) Hi). Qed.

Lemma kept_updateSession f :
  (∀ s, carried (f s) = carried s ∧ segment_count (f s) = segment_count s ∧
        acknowledged_count (f s) = acknowledged_count s ∧
        (state (f s) = TransferState.kCompleted → state s = TransferState.kCompleted)) →
  preserves kept (updateSession f).
Proof. intros Hf. apply kept_update. intros t. destruct (Hf (session_ t)) as (? & ? & ? & ?). by split. Qed.

Lemma kept_call {A} (m : State W A) : preserves P m → preserves kept (call m).
Proof.
  intros Hm [t w] [Hi Hw]. unfold call, on_snd. specialize (Hm w Hw). by destruct (m w).
Qed.

Lemma kept_preparePacket n q : preserves kept (preparePacket (W := W) n q).
Proof.
  intros [t w] [Hi Hw]. unfold preparePacket, mbind, State_bind. cbn -[initializeConnection].
  pose proof (capacity_initializeConnection n (connection_ t) (cf_bits q) (transmit_packet t)) as Hcap.
  destruct (initializeConnection _ _ _ _) as [ok packet]. cbn in *. split; [|done].
  by apply (mild_keeps t).
Qed.

Lemma kept_encodeInto encode : preserves kept (encodeInto (W := W) encode).
Proof.
  intros [t w] [Hi Hw]. unfold encodeInto, mbind, State_bind. cbn -[write_payload].
  destruct (encode _); [|done]. split; [|done]. by apply (mild_keeps t).
Qed.

Lemma kept_forwardPacket : preserves kept (forwardPacket routes).
Proof.
  unfold forwardPacket, self.
  keep ltac:(first [ by apply kept_update | apply kept_call, routerForward_keeps; apply forward_keeps ]).
Qed.
#[local] Hint Resolve kept_preparePacket kept_encodeInto kept_forwardPacket : keeps.

Ltac send := unfold self, session; keep ltac:(first
  [ by apply kept_update | by apply kept_updateSession
  | apply kept_call; first [apply datagram_keeps|apply rejected_keeps|apply aborted_keeps]
  | by (apply kept_updateSession; intros []) ]).

Lemma kept_message n q encode : preserves kept (sendMessage routes n q encode).
Proof. unfold sendMessage. send. Qed.
#[local] Hint Resolve kept_message : keeps.
Lemma kept_setup now again : preserves kept (sendSetup routes now again).
Proof. unfold sendSetup. send. Qed.
Lemma kept_segment offset now again : preserves kept (sendSegment routes offset now again).
Proof. unfold sendSegment. send. Qed.
Lemma kept_probe now : preserves kept (sendProbe routes now).
Proof. unfold sendProbe. send. Qed.
Lemma kept_abort_message : preserves kept (sendAbort routes).
Proof. unfold sendAbort. send. Qed.
Lemma kept_aborted : preserves kept transitionToAborted.
Proof. unfold transitionToAborted. send. Qed.
Lemma kept_after sent : preserves kept (afterSend sent).
Proof. unfold afterSend. send. Qed.
#[local] Hint Resolve kept_setup kept_segment kept_probe kept_abort_message kept_aborted
  kept_after : keeps.
Lemma kept_giveUp : preserves kept (giveUp routes).
Proof. unfold giveUp. send. Qed.
#[local] Hint Resolve kept_giveUp : keeps.
Lemma kept_processStarting progressed now : preserves kept (processStarting routes progressed now).
Proof. unfold processStarting. send. Qed.
Lemma kept_processActive progressed now : preserves kept (processActive routes progressed now).
Proof. unfold processActive, sendNew, resend, probe. send. Qed.
Lemma kept_handleReject message : preserves kept (handleReject message).
Proof. unfold handleReject. send. Qed.
Lemma kept_handleAbort message : preserves kept (handleAbort message).
Proof. unfold handleAbort. send. Qed.
#[local] Hint Resolve kept_processStarting kept_processActive kept_handleReject
  kept_handleAbort : keeps.

(** The pending message. *)
Lemma kept_handleDatagram s : kept s → datagram_occupied_ s.1 = true → kept (handleDatagram s).2.
Proof.
  intros Hs Hocc. pose proof (ack_keeps s Hs Hocc) as Hack. destruct s as [t w].
  unfold handleDatagram, mbind at 1, State_bind at 1, self, gets. cbn [fst snd] in *. cbv zeta.
  destruct (payload (datagram_ingress t)) as [|encoded rest]; [done|].
  cbn [hasType] in Hack. destruct (decodeControl encoded) as [control|]; [|done].
  destruct (type control) eqn:Etype; try done.
  - apply Hack. by rewrite bool_decide_eq_true_2.
  - by apply kept_handleReject.
  - destruct (decodeUserDatagramKnownType _) as [p|]; [|done].
    revert Hs. generalize (t, w). change (preserves kept (call (txDatagram p);; mret true)). send.
  - by apply kept_handleAbort.
Qed.

Lemma kept_process now : preserves kept (process routes now).
Proof.
  intros s Hs. unfold process.
  match goal with |- kept ((self ≫= ?f) s).2 => change (kept (f s.1 s).2) end. cbv beta zeta.
  refine (preserves_from kept _ _ s _ _); [|intros handled; send].
  destruct (datagram_occupied_ s.1) eqn:Hocc; [|done].
  refine (preserves_from kept _ _ s _ _); [by apply kept_handleDatagram|]. intros handled. send.
Qed.

Lemma kept_abort : preserves kept (abort routes).
Proof. unfold abort. send. Qed.
Lemma kept_sendDatagram p : preserves kept (sendDatagram routes p).
Proof. unfold sendDatagram. send. Qed.
End keeps.
