(* ===== verification/BitsTransmitterRuns.v ===== *)
(** * Runs of the BITS transmitter ([transports/bits/bits.cpp])

    The invariant of the session, the abstract protocol monitor every run obeys,
    and the behaviour of single calls. *)

From S2P Require Import Prelude Packet Routing BitsCodec BitsEngine BitsTransmitter.
Import Transmitter.
Local Open Scope Z_scope.

(** ** The window of a session *)

(** Segment [i] has been handed to the link and admitted. *)
Definition was_sent (s : TransferSession) (i : Z) : Prop :=
  0 ≤ i < acknowledged_count s ∨
  acknowledged_count s ≤ i ∧ Z.testbit (sent_bitmap s) (i - acknowledged_count s) = true.

(** The receiver has reported segment [i]. *)
Definition was_acknowledged (s : TransferSession) (i : Z) : Prop :=
  0 ≤ i < acknowledged_count s ∨
  acknowledged_count s ≤ i ∧ Z.testbit (acknowledged_bitmap s) (i - acknowledged_count s) = true.

Record window_wf (s : TransferSession) : Prop := {
  ww_setup : setup_valid (setup s);
  ww_count : segment_count s = segments (setup s);
  ww_object : zlen (object s) = object_bytes (setup s);
  ww_bytes : is_bytes (object s);
  ww_acked : 0 ≤ acknowledged_count s ≤ granted_end s;
  ww_granted : granted_end s ≤ segment_count s;
  ww_span : granted_end s - acknowledged_count s ≤ 16;
  ww_sent : is_u16 (sent_bitmap s);
  ww_sent_window : ∀ i, 0 ≤ i → Z.testbit (sent_bitmap s) i = true →
    acknowledged_count s + i < granted_end s;
  ww_acknowledged : is_u16 (acknowledged_bitmap s);
  ww_subset : ∀ i, 0 ≤ i → Z.testbit (acknowledged_bitmap s) i = true →
    Z.testbit (sent_bitmap s) i = true;
  ww_sends : length (segment_last_send_ms s) = 16%nat;
  ww_retries : length (segment_retry_count s) = 16%nat;
}.

Lemma lowBitMask_engine count : 0 ≤ count → lowBitMask count = BitsEngine.lowBitMask count.
Proof.
  intros Hc. unfold lowBitMask, BitsEngine.lowBitMask, kCompactWindowWidth.
  destruct (Z.leb_spec 16 count); [done|]. destruct (count =? 0); [done|].
  rewrite (u32_id (Z.shiftl 1 count)); [done|]. rewrite Z.shiftl_1_l.
  pose proof (Z.pow_nonneg 2 count). pose proof (Z.pow_le_mono_r 2 count 16).
  change (2 ^ 16) with 65536 in *. unfold is_u32. lia.
Qed.

Lemma testbit_lowBitMask count i :
  0 ≤ count ≤ 16 → 0 ≤ i → Z.testbit (lowBitMask count) i = (i <? count).
Proof.
  intros Hc Hi. rewrite lowBitMask_engine, lowBitMask_ones by lia.
  destruct (Z.ltb_spec i count); [apply Z.ones_spec_low|apply Z.ones_spec_high]; lia.
Qed.

Lemma lowBitMask_u16 count : 0 ≤ count ≤ 16 → is_u16 (lowBitMask count).
Proof.
  intros Hc. unfold lowBitMask. destruct (_ <=? _); [by unfold is_u16|].
  destruct (_ =? _); [by unfold is_u16|apply u16_range].
Qed.

Lemma masked_bits x count :
  0 ≤ count ≤ 16 → Z.land x (lowBitMask count) = lowBitMask count ↔
  ∀ i, 0 ≤ i < count → Z.testbit x i = true.
Proof.
  intros Hc. split.
  - intros H i Hi. apply (f_equal (λ z, Z.testbit z i)) in H.
    rewrite Z.land_spec, testbit_lowBitMask in H by lia.
    rewrite (proj2 (Z.ltb_lt _ _)), andb_true_r in H by lia. done.
  - intros H. apply Z.bits_inj'. intros i Hi. rewrite Z.land_spec, testbit_lowBitMask by lia.
    destruct (Z.ltb_spec i count); [by rewrite H|apply andb_false_r].
Qed.

Lemma beyond_mask x count :
  0 ≤ count ≤ 16 → is_u16 x → Z.land x (not16 (lowBitMask count)) = 0 →
  ∀ i, 0 ≤ i → Z.testbit x i = true → i < count.
Proof.
  intros Hc Hx H i Hi Hbit. apply (f_equal (λ z, Z.testbit z i)) in H.
  rewrite Z.land_spec, testbit_not16, testbit_lowBitMask, Hbit, Z.bits_0 in H by lia.
  destruct (Z.ltb_spec i 16); [|by rewrite is_u16_testbit in Hbit].
  destruct (Z.ltb_spec i count); [done|discriminate].
Qed.

(** Shifting the window by acknowledged segments keeps every slot's segment. *)
Lemma shiftWindow_spec n s :
  window_wf s → 0 ≤ n ≤ 16 →
  let s' := shiftWindow n s in
  (∀ i, 0 ≤ i → Z.testbit (sent_bitmap s') i = Z.testbit (sent_bitmap s) (i + n)) ∧
  (∀ i, 0 ≤ i →
     Z.testbit (acknowledged_bitmap s') i = Z.testbit (acknowledged_bitmap s) (i + n)) ∧
  is_u16 (sent_bitmap s') ∧ is_u16 (acknowledged_bitmap s') ∧
  length (segment_last_send_ms s') = 16%nat ∧ length (segment_retry_count s') = 16%nat ∧
  Forall (λ r, r ∈ 0 :: segment_retry_count s) (segment_retry_count s') ∧
  s' = set_window (acknowledged_count s) (sent_bitmap s') (acknowledged_bitmap s')
         (segment_last_send_ms s') (segment_retry_count s') s.
Proof.
  intros [] Hn. unfold shiftWindow, kCompactWindowWidth.
  destruct (Z.eqb_spec n 0) as [->|Hne].
  { cbv zeta. split_and?; try done; try (intros; by rewrite Z.add_0_r); [|by destruct s].
    apply list.Forall_forall. intros r Hr. by right. }
  destruct (Z.leb_spec 16 n); cbv zeta; simpl.
  - split_and?; try done; try by repeat constructor.
    all: intros i Hi; rewrite Z.bits_0, is_u16_testbit by (done || lia); done.
  - rewrite !u16_id by auto with word.
    split_and?; try done; auto with word; try (intros; apply Z.shiftr_spec; lia).
    3: { apply Forall_app_2; [|apply Forall_replicate; by left].
         apply Forall_drop, list.Forall_forall. intros r Hr. by right. }
    all: unfold shiftArray; rewrite length_app, length_drop, length_replicate; lia.
Qed.

(** The cumulative advance, the span it grants: bounds and effect. *)
Lemma ackIgnored_false a s :
  message_wf (MAck a) → window_wf s → ackIgnored a s = false →
  let advance := ackAdvance a s in
  let grant := ackGrant a in
  0 ≤ advance ≤ 16 ∧ 0 ≤ grant ≤ 16 ∧
  acknowledged_count s + advance + grant ≤ segment_count s ∧
  ∀ i, 0 ≤ i → Z.testbit (window_bitmap a) i = true → i < grant.
Proof.
  intros (_ & Hb & _) [] Hign. cbv zeta.
  pose proof (setup_geometry _ ww_setup0) as (_ & _ & Hn & _).
  assert (Ha : is_u8 (ackAdvance a s)) by apply u8_range.
  assert (Hg : is_u8 (ackGrant a)) by apply u8_range. unfold is_u8 in *.
  unfold ackIgnored, kCompactWindowWidth in Hign.
  rewrite !orb_false_iff, !Z.ltb_ge, negb_false_iff, Z.eqb_eq in Hign.
  destruct Hign as [[[[H1 H2] H3] H4] H5].
  rewrite u32_id in H4 by (unfold is_u32; lia). split_and!; try lia.
  apply (beyond_mask (window_bitmap a) (ackGrant a)); [lia|done|done].
Qed.

(** Masking away bits that are not there. *)
Lemma mask_within x y count :
  0 ≤ count ≤ 16 → (∀ i, 0 ≤ i → Z.testbit x i = true → i < count) →
  Z.land (Z.land x (lowBitMask count)) y = Z.land x y.
Proof.
  intros Hc Hx. apply Z.bits_inj'. intros i Hi. rewrite !Z.land_spec, testbit_lowBitMask by lia.
  destruct (Z.testbit x i) eqn:E; [|done]. by rewrite (proj2 (Z.ltb_lt _ _)) by auto.
Qed.

Lemma max_ltb a b : (if a <? b then b else a) = a `max` b.
Proof. destruct (Z.ltb_spec a b); lia. Qed.

Lemma ackApplied_spec a s :
  message_wf (MAck a) → window_wf s → ackIgnored a s = false →
  (∀ i, 0 ≤ i < ackAdvance a s → Z.testbit (sent_bitmap s) i = true) →
  let s' := ackApplied a s in
  window_wf s' ∧ state s' = state s ∧ object s' = object s ∧ setup s' = setup s ∧
  segment_count s' = segment_count s ∧ setup_sent s' = true ∧
  setup_retry_count s' = setup_retry_count s ∧
  acknowledged_count s' = acknowledged_count s + ackAdvance a s ∧
  granted_end s' = Z.max (granted_end s) (acknowledged_count s' + ackGrant a) ∧
  (∀ i, 0 ≤ i → was_sent s' i ↔ was_sent s i) ∧
  (∀ i, 0 ≤ i → was_acknowledged s' i ↔
     was_acknowledged s i ∨ i < acknowledged_count s' ∨
     was_sent s i ∧ acknowledged_count s' ≤ i ∧
       Z.testbit (window_bitmap a) (i - acknowledged_count s') = true) ∧
  Forall (λ r, r ∈ 0 :: segment_retry_count s) (segment_retry_count s').
Proof.
  intros Ha Hwf Hign Hmask. pose proof Hwf as [].
  destruct (ackIgnored_false a s Ha Hwf Hign) as (Hadv & Hgrant & Hend & Hbits). cbv zeta.
  pose proof (setup_geometry _ ww_setup0) as (_ & _ & Hn & _).
  destruct (shiftWindow_spec (ackAdvance a s) s Hwf Hadv)
    as (Hsent & Hack & Hsu & Hau & Hls & Hlr & Hr & Heq).
  unfold ackApplied. set (n := ackAdvance a s) in *. set (g := ackGrant a) in *.
  set (s1 := shiftWindow n s) in *. clearbody s1.
  rewrite mask_within by done. set (bitmap := Z.lor (acknowledged_bitmap s1) _).
  assert (Hbitmap : is_u16 bitmap) by (apply lor_u16; auto with word).
  rewrite (u16_id bitmap) by done. rewrite Heq. simpl.
  rewrite !(u32_id (acknowledged_count s + n)) by (unfold is_u32; lia).
  rewrite !(u32_id (acknowledged_count s + n + g)) by (unfold is_u32; lia).
  assert (Hbit : ∀ i, 0 ≤ i → Z.testbit bitmap i =
    Z.testbit (acknowledged_bitmap s) (i + n)
    || Z.testbit (window_bitmap a) i && Z.testbit (sent_bitmap s) (i + n)).
  { intros i Hi. unfold bitmap. by rewrite Z.lor_spec, Z.land_spec, Hack, Hsent. }
  rewrite max_ltb. split_and!; try done.
  - split; simpl; try done; try lia.
    + intros i Hi. rewrite Hsent by done. intros ?%ww_sent_window0; lia.
    + intros i Hi. rewrite Hbit, Hsent by done.
      rewrite orb_true_iff, andb_true_iff. intros [?%ww_subset0|[_ ?]]; [done|lia|done].
  - intros i Hi. unfold was_sent. simpl. split; intros [?|[Hge Ht]].
    + destruct (decide (i < acknowledged_count s)); [by left|right].
      split; [lia|]. apply Hmask. lia.
    + rewrite Hsent in Ht by lia. right. split; [lia|]. rewrite <- Ht. f_equal. lia.
    + left. lia.
    + destruct (decide (i < acknowledged_count s + n)); [left; lia|right]. split; [lia|].
      rewrite Hsent by lia. rewrite <- Ht. f_equal. lia.
  - intros i Hi. unfold was_acknowledged, was_sent. simpl.
    destruct (decide (i < acknowledged_count s + n)).
    { split; [intros _; right; by left|intros _; left; lia]. }
    rewrite Hbit by lia.
    replace (i - (acknowledged_count s + n) + n) with (i - acknowledged_count s) by lia.
    rewrite orb_true_iff, andb_true_iff. intuition lia.
Qed.

(** ** Observing a transmitter

    The environment with a log of the PDUs handed to the forwarder, with its
    answers, and of the callbacks; a driver adds the starts and failures. *)

Inductive Event :=
  | Started (obj : bytes) (s : Setup)
  | Sent (pdu : bytes) (result : RouteResult.t)
  | GotDatagram (p : bytes)
  | Complete
  | Refused (r : RejectReason)
  | Aborted
  | Failed.

Record Traced (W : Type) : Type := mkTraced { world : W; log_of : list Event }.
Arguments mkTraced {W}.
Arguments world {W}.
Arguments log_of {W}.

Definition traced {W A} (m : State W A) (event : A → Event) : State (Traced W) A :=
  λ wl, let '(a, w') := m (world wl) in (a, mkTraced w' (log_of wl ++ [event a])).

#[export] Instance Traced_callbacks {W} `{!TransmitterCallbacks W}
    : TransmitterCallbacks (Traced W) := {|
  txDatagram p := traced (txDatagram p) (λ _, GotDatagram p);
  txTransferComplete := traced txTransferComplete (λ _, Complete);
  txTransferRejected r := traced (txTransferRejected r) (λ _, Refused r);
  txTransferAborted := traced txTransferAborted (λ _, Aborted) |}.

#[export] Instance Traced_forwarder {W} `{!PacketForwarder W} : PacketForwarder (Traced W) :=
  λ packet egress, traced (forwarder_forward packet egress) (Sent (payload packet)).

(** The protocol a transmitter promises: between a start and its one terminal
    event it sends the announced setup, probes and aborts of its session, and
    segments that are exactly their slice of the object; it reports completion
    only when the link has admitted every segment. *)
Inductive Phase := Closed | Open (obj : bytes) (s : Setup) (admitted : list Z).

Definition all_admitted (s : Setup) (admitted : list Z) : bool :=
  forallb (λ i, bool_decide (i ∈ admitted)) (seqZ 0 (segments s)).

Definition segment_slice (obj : bytes) (s : Setup) (i : Z) : bytes :=
  slice obj (segment_offset s i) (segment_bytes s i).

Definition observe_pdu (obj : bytes) (s : Setup) (admitted : list Z) (pdu : bytes)
    (result : RouteResult.t) : option Phase :=
  let unchanged (m : Message) :=
    if bool_decide (pdu = layout m) then Some (Open obj s admitted) else None in
  match hd 0 pdu with
  | 0 => unchanged (MSetup s)
  | 1 =>
      match decodeSegmentHeaderKnownType pdu with
      | Some h =>
          let i := segment_index h in
          if (seg_session_id h =? setup_session_id s) && (i <? segments s)
             && bool_decide (drop 4 pdu = segment_slice obj s i)
          then Some (Open obj s (if bool_decide (result = RouteResult.kAccepted)
                                 then i :: admitted else admitted))
          else None
      | None => None
      end
  | 3 => unchanged (MProbe (mkProbe (setup_session_id s)))
  | 6 => unchanged (MAbort (mkAbort (setup_session_id s)))
  | _ => None
  end.

Definition observe (p : Phase) (event : Event) : option Phase :=
  match event, p with
  | Started obj s, Closed => Some (Open obj s [])
  | Sent pdu result, _ =>
      if hd 0 pdu =? 5 then Some p
      else match p with
      | Open obj s admitted => observe_pdu obj s admitted pdu result
      | Closed => None
      end
  | GotDatagram _, _ => Some p
  | Complete, Open _ s admitted => if all_admitted s admitted then Some Closed else None
  | (Refused _ | Aborted), Open _ _ _ => Some Closed
  | Failed, _ => Some Closed
  | _, _ => None
  end.

Definition monitor (log : list Event) : option Phase :=
  foldl (λ p event, p ≫= λ p, observe p event) (Some Closed) log.

Lemma tx_monitor_snoc log event : monitor (log ++ [event]) = monitor log ≫= λ p, observe p event.
Proof. unfold monitor. by rewrite foldl_app. Qed.

(** ** The invariant *)

Record session_wf (t : Transmitter) : Prop := {
  sw_window : window_wf (session_ t);
  sw_open : acknowledged_count (session_ t) < segment_count (session_ t);
  sw_setup_room : kSetupSize ≤ capacity (transmit_packet t);
  sw_segment_room :
    segment_size (setup (session_ t)) + kSegmentHeaderSize ≤ capacity (transmit_packet t);
}.

Record tx_wf (t : Transmitter) : Prop := {
  tx_connection : connection_wf (connection_ t);
  tx_ingress : packet_wf (datagram_ingress t);
  tx_transmit : packet_wf (transmit_packet t);
  tx_session : isRunning (session_ t) = true → session_wf t;
}.

Definition agrees (t : Transmitter) (p : Phase) : Prop :=
  if isRunning (session_ t) then
    ∃ admitted, p = Open (object (session_ t)) (setup (session_ t)) admitted ∧
      ∀ i, was_sent (session_ t) i → i ∈ admitted
  else p = Closed.

(** ** Rules for the accessors *)

Section rules.
Context {W : Type}.

Lemma wp_tx_self (s : Transmitter * W) (Q : Transmitter → Transmitter * W → Prop) :
  Q s.1 s → wp self s Q.
Proof. done. Qed.

Lemma wp_session (s : Transmitter * W) (Q : TransferSession → Transmitter * W → Prop) :
  Q (session_ s.1) s → wp session s Q.
Proof. done. Qed.

Lemma wp_tx_update f t (w : W) (Q : unit → Transmitter * W → Prop) :
  Q tt (f t, w) → wp (update f) (t, w) Q.
Proof. done. Qed.

Lemma wp_updateSession f t (w : W) (Q : unit → Transmitter * W → Prop) :
  Q tt (set_session_ (f (session_ t)) t, w) → wp (updateSession f) (t, w) Q.
Proof. done. Qed.

(** A call of the environment leaves the transmitter alone. *)
Lemma wp_call_self {A} (m : State W A) t w (Q : A → Transmitter * W → Prop) :
  (∀ a w', m w = (a, w') → Q a (t, w')) → wp (call m) (t, w) Q.
Proof. intros H. unfold wp, call, on_snd. destruct (m w) as [a w'] eqn:E. by apply H. Qed.
End rules.

Section invariant.
Context {W : Type} `{!TransmitterCallbacks W, !PacketForwarder W}.
Variable routes : list RouteTableEntry.

Definition inv (s : Transmitter * Traced W) : Prop :=
  tx_wf s.1 ∧ ∃ p, monitor (log_of s.2) = Some p ∧ agrees s.1 p.

Lemma wp_tx_call {A} (m : State W A) event t w log (Q : A → Transmitter * Traced W → Prop) :
  (∀ a w', Q a (t, mkTraced w' (log ++ [event a]))) → wp (call (traced m event)) (t, mkTraced w log) Q.
Proof. intros H. unfold wp, call, on_snd, traced. simpl. destruct (m w) as [a w']. apply H. Qed.

(** Sending: the transmitter with another packet in its buffer and another last
    result. *)
Definition sending (packet : PacketBuffer) (r : SendResult.t) (t : Transmitter) : Transmitter :=
  set_last_send_ r (set_transmit_packet packet t).

Lemma preparePacket_spec n q t (wl : Traced W) :
  connection_wf (connection_ t) → packet_wf (transmit_packet t) → 0 ≤ n →
  ∃ packet, preparePacket n q (t, wl) =
      (n <=? capacity (transmit_packet t), (sending packet SendResult.kTooLarge t, wl)) ∧
    same_room (transmit_packet t) packet ∧
    (n ≤ capacity (transmit_packet t) → size packet = n ∧
       wire (header packet) = conn_wire (connection_ t) ∧ ingressIndex packet = 0).
Proof.
  intros Hc Hp Hn. destruct (initializeConnection_room n _ q _ Hc Hp Hn) as (Hok & Hroom & Hsize).
  eexists. split; [|split; [exact Hroom|]].
  2: { intros Hle. split; [by apply Hsize|by apply initializeConnection_addressed]. }
  unfold preparePacket, self, update, gets, modify, mbind, State_bind. simpl.
  by destruct (initializeConnection n _ _ _) as [ok packet]; simpl in *; subst ok.
Qed.

Lemma sendResult_sent r :
  bool_decide (sendResult r = SendResult.kSent) = bool_decide (r = RouteResult.kAccepted).
Proof. by destruct r. Qed.

Lemma wp_forwardPacket t w log (Q : bool → Transmitter * Traced W → Prop) :
  (∀ r, routerForward routes (transmit_packet t) (mkTraced w log) = (r, mkTraced w log) →
     r ≠ RouteResult.kAccepted → r ≠ RouteResult.kFull →
     Q false (set_last_send_ (sendResult r) t, mkTraced w log)) →
  (∀ egress r w', forwarder_forward (transmit_packet t) egress w = (r, w') →
     Q (bool_decide (r = RouteResult.kAccepted))
     (set_last_send_ (sendResult r) t, mkTraced w' (log ++ [Sent (payload (transmit_packet t)) r]))) →
  wp (forwardPacket (W := Traced W) routes) (t, mkTraced w log) Q.
Proof.
  intros Hno Hyes. apply wp_bind, wp_tx_self. simpl. apply wp_bind.
  unfold wp at 1, call, on_snd.
  destruct (routerForward_cases (W := Traced W) routes (transmit_packet t) (mkTraced w log))
    as [[egress ->]|(r & Hroute & Hr & Hr')].
  - unfold forwarder_forward, Traced_forwarder, traced. cbn [world log_of].
    fold (forwarder_forward (W := W)).
    destruct (forwarder_forward (transmit_packet t) egress w) as [r w'] eqn:Hforward. simpl.
    apply wp_bind, wp_tx_update, wp_ret. rewrite sendResult_sent. by apply (Hyes egress).
  - rewrite Hroute. simpl. apply wp_bind, wp_tx_update, wp_ret.
    rewrite sendResult_sent, bool_decide_eq_false_2 by done.
    by apply Hno.
Qed.

(** A packet that carries [pdu] on the connection, and whether it reaches the forwarder. *)
Definition on_connection (t : Transmitter) (pdu : bytes) (packet : PacketBuffer) : Prop :=
  payload packet = pdu ∧ wire (header packet) = conn_wire (connection_ t) ∧ ingressIndex packet = 0.
Definition not_forwarded (pdu : bytes) (t : Transmitter) (wl : Traced W) : Prop :=
  capacity (transmit_packet t) < zlen pdu ∨
  ∃ packet r, on_connection t pdu packet ∧ routerForward routes packet wl = (r, wl).
Definition forwarded (pdu : bytes) (t : Transmitter) (w : W) (r : RouteResult.t) (w' : W) : Prop :=
  ∃ packet egress, on_connection t pdu packet ∧ forwarder_forward packet egress w = (r, w').

(** The two ways a send ends: nothing handed over, and the result is not that of a
    full link, or the PDU handed over once. *)
Definition send_cases (pdu : bytes) t w log (Q : bool → Transmitter * Traced W → Prop) : Prop :=
  (∀ packet r, same_room (transmit_packet t) packet → not_forwarded pdu t (mkTraced w log) →
     r ≠ SendResult.kSent → r ≠ SendResult.kFull → Q false (sending packet r t, mkTraced w log)) ∧
  (∀ packet r w', same_room (transmit_packet t) packet → forwarded pdu t w r w' →
     Q (bool_decide (r = RouteResult.kAccepted))
       (sending packet (sendResult r) t, mkTraced w' (log ++ [Sent pdu r]))).

Lemma sent_result r : r ≠ RouteResult.kAccepted → r ≠ RouteResult.kFull →
  sendResult r ≠ SendResult.kSent ∧ sendResult r ≠ SendResult.kFull.
Proof. by destruct r. Qed.

(** Writing an encoded message at the front of the payload. *)
Lemma write_encoded m packet :
  packet_wf packet → message_wf m → zlen (layout m) ≤ size packet →
  ∃ contents, encodeMessage m (payload packet) = Some contents ∧
    same_room packet (write_payload 0 contents packet) ∧
    payload (write_payload 0 contents packet) = contents ∧
    contents = layout m ++ drop (length (layout m)) (payload packet).
Proof.
  intros Hp Hm Hfit. pose proof (length_payload packet Hp) as Hlen. unfold zlen in *.
  assert (Hl : length (layout m ++ drop (length (layout m)) (payload packet)) =
    length (payload packet)) by (rewrite length_app, length_drop; lia).
  rewrite encode_layout by done.
  rewrite (proj2 (Z.ltb_ge _ _)) by (unfold zlen; rewrite Hlen; pose proof (pwf_size _ Hp); lia).
  eexists. split; [done|]. split; [split; [|done]|split; [|done]].
  - apply write_payload_wf; [done|]. apply Forall_app_2; [by apply layout_bytes|].
    by apply Forall_drop, payload_bytes.
  - rewrite payload_write by (done || lia). rewrite memcpy_at_app by lia.
    rewrite take_0, (drop_ge _ (0 + _)) by lia. by rewrite app_nil_r.
Qed.

Lemma wp_sendMessage m size q t w log (Q : bool → Transmitter * Traced W → Prop) :
  tx_wf t → message_wf m → zlen (layout m) = size →
  send_cases (layout m) t w log Q →
  wp (sendMessage (W := Traced W) routes size q (encodeMessage m)) (t, mkTraced w log) Q.
Proof.
  intros Ht Hm <- [Hno Hyes]. apply wp_bind.
  destruct (preparePacket_spec (zlen (layout m)) q t (mkTraced w log) (tx_connection _ Ht)
    (tx_transmit _ Ht) ltac:(unfold zlen; lia)) as (packet & Hprep & Hroom & Hsize).
  eapply wp_eq; [exact Hprep|].
  destruct (Z.leb_spec (zlen (layout m)) (capacity (transmit_packet t))) as [Hle|];
    [|apply Hno; [done|by left|done|done]].
  destruct (Hsize Hle) as (Hn & Hwire & Hingress). apply wp_bind.
  destruct (write_encoded m packet) as (contents & Henc & Hroom' & Hpay & Hcon);
    [apply Hroom|done|lia|].
  eapply wp_eq.
  { unfold encodeInto, self, gets, mbind, State_bind. simpl. rewrite Henc. reflexivity. }
  rewrite drop_ge, app_nil_r in Hcon
    by (rewrite length_payload by apply Hroom; unfold zlen in *; lia).
  subst contents. simpl.
  assert (Hon : on_connection t (layout m) (write_payload 0 (layout m) packet)) by by split.
  assert (Hroom2 : same_room (transmit_packet t) (write_payload 0 (layout m) packet))
    by by eapply same_room_trans.
  apply wp_forwardPacket; simpl.
  - intros r Hroute Hr Hr'. destruct (sent_result r Hr Hr').
    apply (Hno _ (sendResult r)); [done| |done|done]. right. eauto.
  - intros egress r w' Hforward. rewrite Hpay. apply (Hyes _ r w'); [done|]. eexists _, egress. by split.
Qed.

(** The PDU of segment [i]. *)
Definition segment_pdu (s : TransferSession) (i : Z) : bytes :=
  layout (MSegment (mkSegmentHeader (setup_session_id (setup s)) i)) ++
  segment_slice (object s) (setup s) i.

Lemma segmentBytes_slice s i :
  window_wf s → 0 ≤ i < segment_count s →
  segmentBytes s i = segment_slice (object s) (setup s) i ∧
  zlen (segment_slice (object s) (setup s) i) = segment_bytes (setup s) i ∧
  segmentPayloadSize s i = segment_bytes (setup s) i ∧
  0 < segment_bytes (setup s) i ≤ segment_size (setup s).
Proof.
  intros [] Hi. rewrite ww_count0 in Hi. pose proof (setup_geometry _ ww_setup0) as (_ & _ & Hn & _).
  assert (Hoff : u32 (i * segment_size (setup s)) = segment_offset (setup s) i).
  { rewrite <- (segment_offset_u32 (setup s) i) by done. by rewrite (u32_id i) by (unfold is_u32; lia). }
  assert (Hsize : 0 < segment_bytes (setup s) i ≤ segment_size (setup s)).
  { destruct ww_setup0 as [_ ?]. unfold segment_bytes. destruct (_ =? _); lia. }
  split_and!; try done; try lia.
  - unfold segmentBytes, segment_slice, slice. by rewrite Hoff.
  - unfold zlen, segment_slice, slice in *. rewrite length_take, length_drop.
    destruct ww_setup0 as [_ ?]. unfold segment_offset, segment_bytes, object_bytes, segments in *.
    destruct (Z.eqb_spec i (final_segment_index (setup s))); nia.
Qed.

(** Header and payload of a segment, written one after the other, are its PDU. *)
Lemma segment_written s i packet contents :
  window_wf s → 0 ≤ i < segment_count s → packet_wf packet →
  size packet = 4 + segment_bytes (setup s) i →
  let h := mkSegmentHeader (setup_session_id (setup s)) i in
  let written := write_payload 4 (segmentBytes s i) (write_payload 0 contents packet) in
  same_room packet (write_payload 0 contents packet) →
  payload (write_payload 0 contents packet) = contents →
  contents = layout (MSegment h) ++ drop 4 (payload packet) →
  same_room packet written ∧ payload written = segment_pdu s i.
Proof.
  intros Hw Hi Hp Hpsize h written Hroom Hpay Hcon.
  destruct (segmentBytes_slice s i Hw Hi) as (Hbytes & Hlen & _ & Hrange).
  assert (Hpl : length (payload packet) = Z.to_nat (4 + segment_bytes (setup s) i))
    by (rewrite length_payload by done; by rewrite Hpsize).
  unfold written. rewrite Hbytes. split.
  - eapply same_room_trans; [exact Hroom|]. split; [|done].
    apply write_payload_wf; [apply Hroom|]. apply slice_bytes, Hw.
  - set (packet1 := write_payload 0 contents packet) in *. unfold zlen in Hlen.
    rewrite payload_write; [|apply Hroom|change (size packet1) with (size packet); rewrite Hpsize; lia].
    rewrite Hpay, Hcon. unfold segment_pdu. fold h.
    assert (length (layout (MSegment h)) = 4%nat) as H4 by done.
    rewrite memcpy_at_app by (rewrite length_app, length_drop; lia).
    rewrite <- H4 at 1. rewrite take_app_length. f_equal.
    rewrite drop_ge by (rewrite length_app, length_drop; lia). by rewrite app_nil_r.
Qed.

Lemma wp_sendSegment offset now_ms retransmission t w log
    (Q : bool → Transmitter * Traced W → Prop) :
  tx_wf t → session_wf t → 0 ≤ offset →
  let s := session_ t in
  let i := acknowledged_count s + offset in
  i < segment_count s →
  send_cases (segment_pdu s i) t w log (λ sent s',
    if sent then Q true (set_session_ (segmentSent offset now_ms retransmission s) s'.1, s'.2)
    else Q false s') →
  wp (sendSegment (W := Traced W) routes offset now_ms retransmission) (t, mkTraced w log) Q.
Proof.
  intros Ht Hs Hoff s i Hi [Hno Hyes].
  assert (Ei : i = acknowledged_count s + offset) by done. clearbody i.
  assert (Es : session_ t = s) by done. clearbody s. destruct Hs as [Hw Hopen Hsetup Hseg].
  rewrite Es in *. destruct Ht as [Hc _ Hp _]. pose proof Hw as [].
  pose proof (setup_geometry _ ww_setup0) as (_ & _ & Hn & _).
  assert (Hi0 : 0 ≤ i < segment_count s) by lia.
  destruct (segmentBytes_slice s i Hw Hi0) as (Hbytes & Hlen & Hsize & Hrange).
  apply wp_bind, wp_session. cbn [fst]. rewrite Es, <- Ei, (u32_id i) by (unfold is_u32; lia).
  rewrite (proj2 (Z.leb_gt _ _)) by lia. rewrite Hsize. unfold kSegmentHeaderSize in *.
  pose proof (pwf_capacity _ Hp) as Hcap.
  assert (Hroom0 : 4 + segment_bytes (setup s) i ≤ capacity (transmit_packet t)) by lia.
  rewrite (u16_id (4 + _)) by (unfold is_u16 in *; lia).
  apply wp_bind.
  destruct (preparePacket_spec (4 + segment_bytes (setup s) i) kBackground t (mkTraced w log) Hc Hp
    ltac:(lia)) as (packet & Hprep & Hroom & Hpsize).
  eapply wp_eq; [exact Hprep|]. destruct (Hpsize Hroom0) as (Hpsize' & Hwire & Hingress).
  clear Hpsize. rename Hpsize' into Hpsize.
  rewrite (proj2 (Z.leb_le _ _)) by done. cbn [negb]. apply wp_bind.
  rewrite (u16_id i) by (unfold is_u16; lia).
  set (h := mkSegmentHeader (setup_session_id (setup s)) i).
  assert (Hm : message_wf (MSegment h)).
  { destruct ww_setup0 as [[? _] _]. simpl. split; [done|]. unfold is_u16. lia. }
  destruct (write_encoded (MSegment h) packet) as (contents & Henc & Hroom1 & Hpay & Hcon);
    [apply Hroom|done|rewrite Hpsize; unfold zlen; simpl; lia|].
  eapply wp_eq.
  { unfold encodeInto, self, gets, mbind, State_bind. simpl in *. rewrite Henc. reflexivity. }
  cbn [negb]. apply wp_bind, wp_tx_update, wp_bind.
  set (packet2 := write_payload 4 (segmentBytes s i) (write_payload 0 contents packet)) in *.
  destruct (segment_written s i packet contents Hw Hi0 ltac:(apply Hroom) Hpsize Hroom1 Hpay Hcon)
    as [Hroom2 Hpdu]. fold packet2 in Hroom2, Hpdu.
  apply (same_room_trans _ _ _ Hroom) in Hroom2.
  assert (Hon : on_connection t (segment_pdu s i) packet2) by by split.
  apply (wp_forwardPacket (sending packet2 SendResult.kTooLarge t)).
  - intros r Hroute Hr Hr'. destruct (sent_result r Hr Hr').
    apply (Hno packet2 (sendResult r)); [done| |done|done]. right. eauto.
  - intros egress r w' Hforward. change (transmit_packet (sending packet2 _ t)) with packet2 in *.
    rewrite Hpdu. pose proof (Hyes packet2 r w' Hroom2 ltac:(exists packet2, egress; by split)) as Hq.
    destruct (bool_decide _); [|apply Hq]. apply wp_bind, wp_updateSession, wp_ret.
    change (session_ (set_last_send_ _ _)) with (session_ t). rewrite Es. apply Hq.
Qed.

(** ** Preservation *)

Lemma tx_wf_sending packet r t : tx_wf t → same_room (transmit_packet t) packet →
  tx_wf (sending packet r t).
Proof.
  intros [Hc Hi Hp Hs] [Hp' Hcap]. split; simpl; try done.
  intros Hrun. destruct (Hs Hrun) as [? ? ? ?]. split; simpl; rewrite ?Hcap; done.
Qed.

Lemma inv_sending packet r t wl :
  inv (t, wl) → same_room (transmit_packet t) packet → inv (sending packet r t, wl).
Proof. intros [Ht Hm] Hroom. split; [by apply tx_wf_sending|done]. Qed.

(** An update of the session that keeps its transfer. *)
Record keeps (s s' : TransferSession) : Prop := {
  keeps_running : isRunning s' = isRunning s;
  keeps_object : object s' = object s;
  keeps_setup : setup s' = setup s;
  keeps_open : window_wf s → window_wf s';
  keeps_count : acknowledged_count s' = acknowledged_count s;
  keeps_segments : segment_count s' = segment_count s;
  keeps_sent : ∀ i, was_sent s' i → was_sent s i;
}.

Lemma inv_keeps s' t wl : inv (t, wl) → keeps (session_ t) s' → inv (set_session_ s' t, wl).
Proof.
  intros [[Hc Hi Hp Hs] (p & Hm & Hag)] []. split.
  - split; simpl; try done. rewrite keeps_running0. intros Hrun. destruct (Hs Hrun).
    split; simpl; rewrite ?keeps_count0, ?keeps_segments0, ?keeps_setup0; auto.
  - exists p. split; [done|]. unfold agrees in *. simpl in *.
    rewrite keeps_running0, keeps_object0, keeps_setup0.
    destruct (isRunning (session_ t)); [|done]. destruct Hag as (admitted & -> & Hsent).
    exists admitted. split; [done|]. intros i ?%keeps_sent0. by apply Hsent.
Qed.

(** Updates outside the window keep the transfer. *)
Lemma keeps_refl s s' :
  isRunning s' = isRunning s →
  (object s', setup s', segment_count s', acknowledged_count s', granted_end s', sent_bitmap s',
   acknowledged_bitmap s', segment_last_send_ms s', segment_retry_count s') =
  (object s, setup s, segment_count s, acknowledged_count s, granted_end s, sent_bitmap s,
   acknowledged_bitmap s, segment_last_send_ms s, segment_retry_count s) → keeps s s'.
Proof.
  intros Hrun [= E1 E2 E3 E4 E5 E6 E7 E8 E9]. split; try done.
  - intros []. split; rewrite ?E1, ?E2, ?E3, ?E4, ?E5, ?E6, ?E7, ?E8, ?E9; done.
  - intros i. unfold was_sent. by rewrite E4, E6.
Qed.

Definition neutral (p : Phase) (event : Event) : Prop := observe p event = Some p.

Definition running (s : Transmitter * Traced W) : Prop :=
  inv s ∧ isRunning (session_ s.1) = true.

Lemma running_phase t w log :
  running (t, mkTraced w log) →
  session_wf t ∧ ∃ admitted,
    monitor log = Some (Open (object (session_ t)) (setup (session_ t)) admitted) ∧
    ∀ i, was_sent (session_ t) i → i ∈ admitted.
Proof.
  intros [[[] (p & Hm & Hag)] Hrun]. simpl in *. unfold agrees in Hag. rewrite Hrun in Hag.
  split; [auto|]. destruct Hag as (admitted & -> & ?). eauto.
Qed.

Lemma tx_inv_neutral t w w' log event :
  (∀ p, monitor log = Some p → agrees t p → neutral p event) →
  inv (t, mkTraced w log) → inv (t, mkTraced w' (log ++ [event])).
Proof.
  intros Hn [Ht (p & Hm & Hag)]. split; [done|]. exists p. simpl in *.
  rewrite tx_monitor_snoc, Hm. split; [by apply Hn|done].
Qed.

(** The control messages of the session: setup, probe and abort. *)
Definition session_message (s : TransferSession) : Message → Prop := λ m,
  m = MSetup (setup s) ∨ m = MProbe (mkProbe (setup_session_id (setup s))) ∨
  m = MAbort (mkAbort (setup_session_id (setup s))).

Lemma session_message_wf s m : setup_valid (setup s) → session_message s m → message_wf m.
Proof. intros [Hs _] [->|[->| ->]]; simpl in *; tauto. Qed.

Lemma session_message_neutral obj s admitted m r :
  session_message s m → neutral (Open obj (setup s) admitted) (Sent (layout m) r).
Proof.
  unfold neutral. intros [->|[->| ->]]; simpl; unfold observe_pdu; simpl;
    by rewrite bool_decide_eq_true_2.
Qed.

Lemma running_message t w w' log m r :
  running (t, mkTraced w log) → session_message (session_ t) m →
  running (t, mkTraced w' (log ++ [Sent (layout m) r])).
Proof.
  intros Hr Hm. pose proof Hr as [Hinv Hrun]. split; [|done].
  apply (tx_inv_neutral t w); [|done]. intros p Hp _.
  destruct (running_phase _ _ _ Hr) as (_ & admitted & Hp' & _). rewrite Hp' in Hp.
  injection Hp as <-. by apply session_message_neutral.
Qed.

(** The effect of an attempt to send [pdu] on the log: at most that PDU goes out,
    and it went out when the attempt succeeded or reports a full link. *)
Definition handed_over (pdu : bytes) (log : list Event) (sent : bool)
    (s' : Transmitter * Traced W) : Prop :=
  if sent then log_of s'.2 = log ++ [Sent pdu RouteResult.kAccepted]
  else last_send_ s'.1 = SendResult.kFull → log_of s'.2 = log ++ [Sent pdu RouteResult.kFull].

Lemma handed_over_no packet r pdu log t w :
  r ≠ SendResult.kFull → handed_over pdu log false (sending packet r t, mkTraced w log).
Proof. by intros ? ?. Qed.

(** What became of the PDU, and of the environment. *)
Definition fate (pdu : bytes) (t : Transmitter) (w : W) (log : list Event) (sent : bool)
    (wl' : Traced W) : Prop :=
  sent = false ∧ not_forwarded pdu t (mkTraced w log) ∨
  ∃ r, sent = bool_decide (r = RouteResult.kAccepted) ∧ forwarded pdu t w r (world wl').

(** Sending a control message of a running session keeps it running. *)
Lemma sendMessage_running m n q t w log (Q : bool → Transmitter * Traced W → Prop) :
  running (t, mkTraced w log) → session_message (session_ t) m → zlen (layout m) = n →
  (∀ sent t' wl', running (t', wl') → session_ t' = session_ t →
     handed_over (layout m) log sent (t', wl') → timing_ t' = timing_ t →
     datagram_occupied_ t' = datagram_occupied_ t → fate (layout m) t w log sent wl' →
     Q sent (t', wl')) →
  wp (sendMessage (W := Traced W) routes n q (encodeMessage m)) (t, mkTraced w log) Q.
Proof.
  intros Hr Hm Hn HQ. pose proof Hr as [Hinv Hrun]. pose proof Hinv as [Ht _].
  destruct (running_phase _ _ _ Hr) as ([[] _ _ _] & _).
  apply wp_sendMessage; [done|by eapply session_message_wf|done|]. split.
  - intros packet r Hroom Hno _ Hr'. apply HQ; [|done|by apply handed_over_no|done|done|by left].
    split; [by apply inv_sending|done].
  - intros packet r w' Hroom Hyes. apply HQ; [|done|by destruct r|done|done|right; eauto].
    pose proof (running_message t w w' log m r Hr Hm) as [Hinv' _].
    split; [by apply inv_sending|done].
Qed.

Lemma segmentSent_spec offset now_ms retransmission s :
  window_wf s → 0 ≤ offset → acknowledged_count s + offset < granted_end s →
  let s' := segmentSent offset now_ms retransmission s in
  window_wf s' ∧
  ∀ i, was_sent s' i ↔ was_sent s i ∨ i = acknowledged_count s + offset.
Proof.
  intros [] Hoff Hgrant. unfold segmentSent. cbv zeta.
  set (bitmap := Z.lor (sent_bitmap s) (bit16 offset)).
  assert (Hb : is_u16 bitmap) by (apply lor_u16; [done|apply u16_range]).
  rewrite (u16_id bitmap) by done.
  assert (Hbit : ∀ i, 0 ≤ i → Z.testbit bitmap i = Z.testbit (sent_bitmap s) i || (i =? offset)).
  { intros i Hi. unfold bitmap. by rewrite Z.lor_spec, testbit_bit16 by lia. }
  split.
  - split; simpl; try done; try by rewrite length_insert.
    + intros i Hi. rewrite Hbit, orb_true_iff, Z.eqb_eq by done. intros [?| ->]; [auto|lia].
    + intros i Hi ?. rewrite Hbit by done. by rewrite ww_subset0.
  - intros i. unfold was_sent. simpl. split.
    + intros [?|[Hge Ht]]; [by left; left|]. rewrite Hbit, orb_true_iff, Z.eqb_eq in Ht by lia.
      destruct Ht as [?|?]; [by left; right|right; lia].
    + intros [[?|[Hge Ht]]| ->]; [by left|right|right].
      * split; [done|]. rewrite Hbit by lia. by rewrite Ht.
      * split; [lia|]. rewrite Hbit, orb_true_iff, Z.eqb_eq by lia. right. lia.
Qed.

(** The monitor accepts the PDU of a segment and records it when admitted. *)
Lemma observe_segment s admitted i r :
  window_wf s → 0 ≤ i < segment_count s →
  observe (Open (object s) (setup s) admitted) (Sent (segment_pdu s i) r) =
    Some (Open (object s) (setup s)
      (if bool_decide (r = RouteResult.kAccepted) then i :: admitted else admitted)).
Proof.
  intros Hw Hi. pose proof Hw as []. pose proof (setup_geometry _ ww_setup0) as (_ & _ & Hn & _).
  set (h := mkSegmentHeader (setup_session_id (setup s)) i).
  assert (Hb : is_bytes (segment_pdu s i)).
  { unfold segment_pdu. apply Forall_app_2; [apply layout_bytes|by apply slice_bytes].
    destruct ww_setup0 as [[? _] _]. split; [done|]. simpl. unfold is_u16. lia. }
  assert (Hdec : decodeSegmentHeaderKnownType (segment_pdu s i) = Some h).
  { apply decodeSegmentHeaderKnownType_spec; [done|]. split.
    - destruct ww_setup0 as [[? _] _]. split; [done|]. simpl. unfold is_u16. lia.
    - by eexists _, _. }
  unfold observe. change (hd 0 (segment_pdu s i)) with 1. cbn [Z.eqb].
  unfold observe_pdu. change (hd 0 (segment_pdu s i)) with 1. cbv beta iota zeta.
  rewrite Hdec. simpl. rewrite Z.eqb_refl, (proj2 (Z.ltb_lt _ _)) by lia. simpl.
  by rewrite bool_decide_eq_true_2.
Qed.

Lemma sendSegment_running offset now_ms retransmission t w log
    (Q : bool → Transmitter * Traced W → Prop) :
  running (t, mkTraced w log) → 0 ≤ offset →
  acknowledged_count (session_ t) + offset < granted_end (session_ t) →
  (∀ (sent : bool) t' wl', running (t', wl') →
     session_ t' = (if sent then segmentSent offset now_ms retransmission (session_ t)
                    else session_ t) →
     handed_over (segment_pdu (session_ t) (acknowledged_count (session_ t) + offset)) log sent
       (t', wl') → datagram_occupied_ t' = datagram_occupied_ t → timing_ t' = timing_ t →
     fate (segment_pdu (session_ t) (acknowledged_count (session_ t) + offset)) t w log sent wl' →
     Q sent (t', wl')) →
  wp (sendSegment (W := Traced W) routes offset now_ms retransmission) (t, mkTraced w log) Q.
Proof.
  intros Hr Hoff Hgrant HQ. pose proof Hr as [[Ht Hm] Hrun]. cbn [fst] in Hrun.
  destruct (running_phase _ _ _ Hr) as (Hs & admitted & Hmon & Hadm).
  pose proof Hs as [Hw Hopen Hroom1 Hroom2]. pose proof Hw as [].
  set (i := acknowledged_count (session_ t) + offset) in *.
  assert (Hi : 0 ≤ i < segment_count (session_ t)) by lia.
  apply wp_sendSegment; [done|done|done|unfold i in *; lia|]. fold i. split.
  { intros packet r Hroom Hno _ Hr'. apply HQ; [|done|by apply handed_over_no|done|done|by left].
    split; [|done]. by apply inv_sending. }
  intros packet r w' Hroom Hyes.
  pose proof (observe_segment (session_ t) admitted i r Hw Hi) as Hobs.
  case_bool_decide as Hacc.
  - apply HQ; [|done|by subst r|done|done|right; exists r; split; [by rewrite bool_decide_eq_true_2|done]].
    destruct (segmentSent_spec offset now_ms retransmission _ Hw Hoff Hgrant)
      as [Hw' Hsent]. fold i in Hsent. cbn [fst snd].
    split; [split|done].
    + pose proof (tx_wf_sending packet (sendResult r) t Ht Hroom) as [Hc' Hi' Hp' Hs'].
      split; simpl in *; try done. intros _. destruct (Hs' Hrun). by split.
    + exists (Open (object (session_ t)) (setup (session_ t)) (i :: admitted)).
      split; [cbn [log_of snd]; by rewrite tx_monitor_snoc, Hmon|]. unfold agrees.
      cbn [fst session_ set_session_]. rewrite (eq_refl : isRunning (segmentSent offset now_ms
        retransmission (session_ t)) = isRunning (session_ t)), Hrun.
      exists (i :: admitted). split; [done|]. intros j [?| ->]%Hsent; [right; auto|by left].
  - apply HQ; [|done|by destruct r|done|done|right; exists r; split; [by rewrite bool_decide_eq_false_2|done]].
    split; [|done]. apply inv_sending; [|done]. split; [done|].
    exists (Open (object (session_ t)) (setup (session_ t)) admitted).
    split; [cbn [log_of snd]; by rewrite tx_monitor_snoc, Hmon|]. unfold agrees. cbn [fst].
    rewrite Hrun. eauto.
Qed.

(** What [process] leaves behind: the invariant, or after an error a session that
    is over, which the driver reports to the monitor. *)
Definition returns (r : ProcessResult.t) (s : Transmitter * Traced W) : Prop :=
  tx_wf s.1 ∧ ∃ p, monitor (log_of s.2) = Some p ∧
    if bool_decide (r = ProcessResult.kError) then isRunning (session_ s.1) = false
    else agrees s.1 p.

Lemma returns_ok r s : inv s → r ≠ ProcessResult.kError → returns r s.
Proof.
  intros [Ht (p & ? & ?)] Hr. split; [done|]. exists p. by rewrite bool_decide_eq_false_2.
Qed.

Lemma returns_over s : inv s → isRunning (session_ s.1) = false → returns ProcessResult.kError s.
Proof. intros [Ht (p & ? & ?)] Hr. split; [done|]. by exists p. Qed.

Lemma returns_error t wl :
  inv (t, wl) →
  returns ProcessResult.kError (set_session_ (set_state TransferState.kError (session_ t)) t, wl).
Proof. intros [[] (p & ? & ?)]. split; [by split|]. by exists p. Qed.

Lemma idleOr_ok progressed : idleOr progressed ≠ ProcessResult.kError.
Proof. by destruct progressed. Qed.

(** Nothing but the probe timer moves. *)
Definition quiet (s s' : TransferSession) : Prop :=
  ∃ active last retries, s' = set_probe_retry_count retries
    (set_probe_last_send_ms last (set_probe_timer_active active s)).

(** What one call does to link and session, by its result: progress is one PDU
    admitted by the link (or the datagram handled before, and then nothing sent),
    blocked is one PDU refused by a full link with the session unchanged, idle is
    nothing sent and no datagram handled. *)
Definition outcome (progressed : bool) (s : Transmitter * Traced W) (r : ProcessResult.t)
    (s' : Transmitter * Traced W) : Prop :=
  match r with
  | ProcessResult.kProgress =>
      (∃ pdu, log_of s'.2 = log_of s.2 ++ [Sent pdu RouteResult.kAccepted]) ∨
      progressed = true ∧ s'.2 = s.2 ∧ quiet (session_ s.1) (session_ s'.1)
  | ProcessResult.kIdle => progressed = false ∧ s'.2 = s.2 ∧ quiet (session_ s.1) (session_ s'.1)
  | ProcessResult.kBlocked =>
      session_ s'.1 = session_ s.1 ∧
      ∃ pdu, log_of s'.2 = log_of s.2 ++ [Sent pdu RouteResult.kFull]
  | ProcessResult.kError => isRunning (session_ s'.1) = false
  end.

Definition settled (progressed : bool) (s : Transmitter * Traced W) (r : ProcessResult.t)
    (s' : Transmitter * Traced W) : Prop :=
  returns r s' ∧ outcome progressed s r s'.

Lemma settled_over progressed s s' :
  returns ProcessResult.kError s' → settled progressed s ProcessResult.kError s'.
Proof.
  intros Hr. split; [done|]. destruct Hr as (_ & p & _ & Hover).
  by rewrite bool_decide_eq_true_2 in Hover.
Qed.

Lemma quiet_refl s : quiet s s.
Proof.
  exists (probe_timer_active s), (probe_last_send_ms s), (probe_retry_count s). by destruct s.
Qed.

Lemma settled_idle progressed s s' :
  inv s' → s'.2 = s.2 → quiet (session_ s.1) (session_ s'.1) →
  settled progressed s (idleOr progressed) s'.
Proof.
  intros Hinv E Hq. split; [apply returns_ok, idleOr_ok; done|].
  destruct progressed; simpl; [by right|done].
Qed.

Lemma afterSend_settled progressed s0 sent s pdu :
  inv s → handed_over pdu (log_of s0.2) sent s →
  (sent = false → session_ s.1 = session_ s0.1) →
  wp (afterSend sent) s (settled progressed s0).
Proof.
  destruct s as [t wl]. intros Hinv Hover Hsame. unfold afterSend. destruct sent.
  { apply wp_ret. split; [by apply returns_ok|]. left. by exists pdu. }
  apply wp_bind, wp_tx_self. case_bool_decide as Hfull.
  - apply wp_ret. split; [by apply returns_ok|]. split; [by apply Hsame|].
    exists pdu. by apply Hover.
  - by apply wp_bind, wp_updateSession, wp_ret, settled_over, returns_error.
Qed.

Lemma inv_session_over t w w' log event st :
  running (t, mkTraced w log) →
  (∀ obj s admitted, observe (Open obj s admitted) event = Some Closed) →
  (st = TransferState.kRejected ∨ st = TransferState.kAborted) →
  inv (set_session_ (set_state st (session_ t)) t, mkTraced w' (log ++ [event])).
Proof.
  intros Hr Hobs Hst. destruct (running_phase _ _ _ Hr) as (_ & admitted & Hm & _).
  destruct Hr as [[[] _] _]. split.
  - split; simpl; try done. by destruct Hst as [-> | ->].
  - exists Closed. simpl. rewrite tx_monitor_snoc, Hm. split; [apply Hobs|].
    unfold agrees. simpl. by destruct Hst as [-> | ->].
Qed.

Lemma running_not_aborted t : isRunning t = true → state t ≠ TransferState.kAborted.
Proof. unfold isRunning. by destruct (state t). Qed.

Lemma transition_inv s :
  running s → wp transitionToAborted s (λ _ s', inv s' ∧ isRunning (session_ s'.1) = false ∧
    datagram_occupied_ s'.1 = datagram_occupied_ s.1).
Proof.
  destruct s as [t [w log]]. intros Hr. apply wp_bind, wp_session. cbn [fst].
  rewrite bool_decide_eq_false_2 by apply running_not_aborted, Hr.
  apply wp_bind, wp_updateSession, wp_tx_call. intros [] w'. split; [|done].
  apply (inv_session_over t w); [done|done|by right].
Qed.

Lemma sendAbort_running s :
  running s → wp (sendAbort routes) s (λ _ s', running s' ∧ session_ s'.1 = session_ s.1 ∧
    datagram_occupied_ s'.1 = datagram_occupied_ s.1).
Proof.
  destruct s as [t [w log]]. intros Hr. apply wp_bind, wp_session.
  apply (sendMessage_running (MAbort (mkAbort (setup_session_id (setup (session_ t))))));
    [done|right; by right|done|]. intros sent t' wl' Hr' E _ _ Hd _. by split_and!.
Qed.

Lemma giveUp_returns s :
  running s → wp (giveUp routes) s (λ r s', r = ProcessResult.kError ∧ returns r s' ∧
    isRunning (session_ s'.1) = false ∧ datagram_occupied_ s'.1 = datagram_occupied_ s.1).
Proof.
  intros Hr. apply wp_bind. eapply wp_mono; [by apply sendAbort_running|].
  intros _ s' (Hr' & _ & Hd). apply wp_bind. eapply wp_mono; [by apply transition_inv|].
  intros _ s'' (Hinv & Hover & Hd'). apply wp_ret. rewrite Hd', Hd.
  split_and!; [done|by apply returns_over|done|done].
Qed.

Lemma giveUp_settled progressed s0 s : running s → wp (giveUp routes) s (settled progressed s0).
Proof.
  intros Hr. eapply wp_mono; [by apply giveUp_returns|]. intros r s' (-> & Hret & _).
  by apply settled_over.
Qed.

(** An update of a running session that keeps its transfer. *)
Lemma running_keeps s' t wl :
  running (t, wl) → keeps (session_ t) s' → running (set_session_ s' t, wl).
Proof.
  intros [Hinv Hrun] Hk. split; [by apply inv_keeps|]. simpl in *. by rewrite (keeps_running _ _ Hk).
Qed.

(** The session after an admitted setup. *)
Definition setupSent (now_ms : Z) (retransmission : bool) (s : TransferSession)
    : TransferSession :=
  let s := set_setup_last_send_ms now_ms (set_setup_sent true s) in
  if retransmission then set_setup_retry_count (u8 (setup_retry_count s + 1)) s else s.

Lemma setupSent_keeps now_ms retransmission s : keeps s (setupSent now_ms retransmission s).
Proof. by apply keeps_refl; destruct retransmission. Qed.

Lemma sendSetup_running now_ms retransmission s :
  running s → wp (sendSetup routes now_ms retransmission) s (λ sent s', running s' ∧
    session_ s'.1 = (if sent then setupSent now_ms retransmission (session_ s.1)
                     else session_ s.1) ∧
    handed_over (layout (MSetup (setup (session_ s.1)))) (log_of s.2) sent s' ∧
    timing_ s'.1 = timing_ s.1 ∧ datagram_occupied_ s'.1 = datagram_occupied_ s.1).
Proof.
  destruct s as [t [w log]]. intros Hr. apply wp_bind, wp_session, wp_bind.
  apply (sendMessage_running (MSetup (setup (session_ t)))); [done|by left|done|].
  intros sent t' wl' Hr' E Hover Ht Hd _. destruct sent; [|done]. apply wp_bind, wp_updateSession, wp_bind.
  pose proof (running_keeps (setupSent now_ms retransmission (session_ t')) _ _ Hr'
    (setupSent_keeps now_ms retransmission _)) as Hr''.
  rewrite E in Hr'' |- *. by destruct retransmission.
Qed.

Lemma sendProbe_running now_ms s :
  running s → wp (sendProbe routes now_ms) s (λ sent s', running s' ∧
    (sent = false → session_ s'.1 = session_ s.1) ∧
    ∃ pdu, handed_over pdu (log_of s.2) sent s').
Proof.
  destruct s as [t [w log]]. intros Hr. apply wp_bind, wp_session, wp_bind.
  set (m := MProbe (mkProbe (setup_session_id (setup (session_ t))))).
  apply (sendMessage_running m); [done|right; by left|done|].
  intros sent t' wl' Hr' E Hover _ _ _. destruct sent; [|split; [done|]; split; [done|by exists (layout m)]].
  apply wp_bind, wp_updateSession. split; [apply running_keeps; [done|by apply keeps_refl]|].
  split; [done|by exists (layout m)].
Qed.

Lemma processStarting_settled progressed now_ms s :
  running s → wp (processStarting routes progressed now_ms) s (settled progressed s).
Proof.
  intros Hr.
  assert (Hsend : ∀ re, wp (sent ← sendSetup routes now_ms re; afterSend sent) s
    (settled progressed s)).
  { intros re. apply wp_bind. eapply wp_mono; [by apply sendSetup_running|].
    intros sent s' ([Hinv _] & E & Hover & _). eapply afterSend_settled; [done|done|].
    by intros ->. }
  apply wp_bind, wp_tx_self. cbv zeta. destruct (negb (setup_sent (session_ s.1))); [apply Hsend|].
  destruct (elapsed _ _ _); [|apply wp_ret, settled_idle; [apply Hr|done|apply quiet_refl]].
  destruct (retryLimitReached _ _); [by apply giveUp_settled|apply Hsend].
Qed.

Definition window_span (s : TransferSession) : Z := granted_end s - acknowledged_count s.

Lemma window_span_eq s : window_wf s → u8 (u32 (granted_end s - acknowledged_count s)) = window_span s.
Proof.
  intros []. unfold window_span. rewrite u32_id by (unfold is_u32; lia).
  apply u8_id. unfold is_u8. lia.
Qed.

(** A segment of the window is sent and the call returns. *)
Lemma send_and_return progressed offset now_ms retransmission s :
  running s → 0 ≤ offset < window_span (session_ s.1) →
  wp (sent ← sendSegment routes offset now_ms retransmission; r ← afterSend sent; mret (Some r)) s
    (λ r s', if r is Some r then settled progressed s r s' else False).
Proof.
  destruct s as [t [w log]]. intros Hr Hoff. unfold window_span in Hoff. simpl in Hoff.
  apply wp_bind, sendSegment_running; [done|lia|lia|]. intros sent t' wl' [Hinv _] E Hover _ _ _.
  apply wp_bind. eapply wp_mono; [eapply (afterSend_settled progressed (t, mkTraced w log))|];
    [done|exact Hover|by intros ->|]. by intros r s' Hret.
Qed.

(** A loop over the window returns settled, or leaves everything alone. *)
Definition loop_post progressed s (r : option ProcessResult.t) (s' : Transmitter * Traced W)
    : Prop :=
  match r with Some r => settled progressed s r s' | None => s' = s end.

Lemma sendNew_settled progressed now_ms s :
  running s →
  wp (sendNew routes (window_span (session_ s.1)) now_ms) s (loop_post progressed s).
Proof.
  intros Hr. apply (wp_for_each (λ s', s' = s)); [|done|done].
  intros offset s' Hoff%elem_of_seqZ ->. apply wp_bind, wp_session.
  destruct (_ =? 0); [|by apply wp_ret].
  eapply wp_mono; [by apply (send_and_return progressed)|]. by intros [r|] s''.
Qed.

Lemma resend_settled progressed outstanding now_ms s :
  running s →
  wp (resend routes outstanding (window_span (session_ s.1)) now_ms) s (loop_post progressed s).
Proof.
  intros Hr. apply (wp_for_each (λ s', s' = s)); [|done|done].
  intros offset s' Hoff%elem_of_seqZ ->. apply wp_bind, wp_tx_self. cbv zeta.
  destruct (_ || _); [by apply wp_ret|]. destruct (retryLimitReached _ _).
  - apply wp_bind. eapply wp_mono; [by apply (giveUp_settled progressed s)|]. by intros r s'' Hret.
  - eapply wp_mono; [by apply (send_and_return progressed)|]. by intros [r|] s''.
Qed.

Lemma probe_settled outstanding progressed now_ms s :
  running s → wp (probe routes outstanding progressed now_ms) s (settled progressed s).
Proof.
  destruct s as [t wl]. intros Hr. apply wp_bind, wp_tx_self. cbv zeta. cbn [fst].
  assert (Hidle : ∀ s', keeps (session_ t) s' → quiet (session_ t) s' →
    settled progressed (t, wl) (idleOr progressed) (set_session_ s' t, wl)).
  { intros s' Hk Hq. apply settled_idle; [|done|done]. by apply running_keeps. }
  destruct (_ && _).
  - destruct (negb (probe_timer_active _)).
    { apply wp_bind, wp_updateSession, wp_ret, Hidle; [by apply keeps_refl|].
      by exists true, now_ms, (probe_retry_count (session_ t)). }
    destruct (elapsed _ _ _); [|apply wp_ret, settled_idle; [apply Hr|done|apply quiet_refl]].
    destruct (retryLimitReached _ _); [by apply giveUp_settled|].
    apply wp_bind. eapply wp_mono; [by apply sendProbe_running|].
    intros sent s' ([Hinv _] & E & pdu & Hover). by eapply afterSend_settled.
  - apply wp_bind, wp_updateSession, wp_ret, Hidle; [by apply keeps_refl|].
    by exists false, (probe_last_send_ms (session_ t)), 0.
Qed.

Lemma processActive_settled progressed now_ms s :
  running s → wp (processActive routes progressed now_ms) s (settled progressed s).
Proof.
  destruct s as [t [w log]]. intros Hr. apply wp_bind, wp_session. cbn [fst]. cbv zeta.
  destruct (running_phase _ _ _ Hr) as ([Hw _ _ _] & _). rewrite window_span_eq by done.
  apply wp_bind. eapply wp_mono; [by apply (sendNew_settled progressed now_ms (t, mkTraced w log))|].
  intros [r|] s1; [done|]. intros ->. apply wp_bind, wp_session. cbv zeta. apply wp_bind.
  eapply wp_mono; [by apply (resend_settled progressed _ now_ms (t, mkTraced w log))|].
  intros [r|] s2; [done|]. intros ->. by apply probe_settled.
Qed.

(** ** Incoming messages *)

Lemma inv_set_session_state st t wl :
  inv (t, wl) → isRunning (set_state st (session_ t)) = isRunning (session_ t) →
  inv (set_session_ (set_state st (session_ t)) t, wl).
Proof. intros Hinv Hrun. apply inv_keeps; [done|by apply keeps_refl]. Qed.

(** Moving the window of a running session, then completing or going on. *)
Lemma advance_inv f t w log :
  running (t, mkTraced w log) →
  let s' := f (session_ t) in
  window_wf s' → object s' = object (session_ t) → setup s' = setup (session_ t) →
  segment_count s' = segment_count (session_ t) →
  (∀ i, 0 ≤ i → was_sent s' i ↔ was_sent (session_ t) i) →
  wp (updateSession f;;
      s ← session;
      (if acknowledged_count s =? segment_count s
       then updateSession (set_state TransferState.kCompleted);; call txTransferComplete
       else updateSession (set_state TransferState.kActive));;
      mret true) (t, mkTraced w log) (λ _, inv).
Proof.
  intros Hr s' Hw' Hobj Hset Hcount Hsent.
  assert (Es : f (session_ t) = s') by done. clearbody s'.
  destruct (running_phase _ _ _ Hr) as ([Hw Hopen Hr1 Hr2] & admitted & Hm & Hadm).
  pose proof Hw' as []. destruct Hr as [[[Hc Hin Hout _] _] _]. cbn [fst] in *.
  apply wp_bind, wp_updateSession. rewrite Es. apply wp_bind, wp_session.
  cbn [fst session_ set_session_]. apply wp_bind.
  assert (Hin_admitted : ∀ i, was_sent s' i → i ∈ admitted).
  { intros i Hi. apply Hadm, Hsent; [|done]. destruct Hi as [?|[? _]]; lia. }
  destruct (Z.eqb_spec (acknowledged_count s') (segment_count s')) as [Hall|Hmore].
  - apply wp_bind, wp_updateSession, wp_tx_call. intros [] w'. apply wp_ret.
    split; [by split|]. exists Closed. cbn [snd log_of]. rewrite tx_monitor_snoc, Hm. simpl.
    split; [|done]. unfold all_admitted. rewrite <- Hset.
    assert (Hf : forallb (λ i, bool_decide (i ∈ admitted)) (seqZ 0 (segments (setup s'))) = true);
      [|by rewrite Hf].
    apply forallb_forall. intros i Hi%list_elem_of_In%elem_of_seqZ. apply bool_decide_eq_true.
    apply Hin_admitted. left. lia.
  - apply wp_updateSession, wp_ret. split.
    + split; simpl; try done. intros _. split; simpl; rewrite ?Hset; try done; lia.
    + exists (Open (object (session_ t)) (setup (session_ t)) admitted). split; [done|].
      unfold agrees. simpl. rewrite Hobj, Hset. exists admitted. split; [done|].
      intros i Hi. by apply Hin_admitted.
Qed.

Lemma isRunning_running t wl : inv (t, wl) → isRunning (session_ t) = true → running (t, wl).
Proof. by split. Qed.

Lemma handleAck_inv message s :
  inv s → is_bytes message → wp (handleAck message) s (λ _, inv).
Proof.
  destruct s as [t [w log]]. intros Hinv Hb. unfold handleAck.
  destruct (decodeAckKnownType message) as [a|] eqn:Hdec; [|by apply wp_ret].
  apply decodeAckKnownType_spec in Hdec as [Ha _]; [|done].
  apply wp_bind, wp_session. cbn [fst].
  destruct (isRunning (session_ t)) eqn:Hrun; [|by apply wp_ret]. simpl.
  destruct (_ || _); [by apply wp_ret|].
  destruct (ackIgnored a (session_ t)) eqn:Hign; [by apply wp_ret|].
  destruct (negb _) eqn:Hmask; [by apply wp_ret|].
  apply negb_false_iff, Z.eqb_eq in Hmask.
  destruct (running_phase _ _ _ (conj Hinv Hrun)) as ([Hw _ _ _] & _).
  pose proof (ackIgnored_false a _ Ha Hw Hign) as (Hadv & _).
  destruct (ackApplied_spec a _ Ha Hw Hign (proj1 (masked_bits _ _ Hadv) Hmask)) as
    (Hw' & _ & Hobj & Hset & Hcount & _ & _ & _ & _ & Hsent & _).
  by apply advance_inv.
Qed.

Lemma handleReject_inv message s : inv s → wp (handleReject message) s (λ _, inv).
Proof.
  destruct s as [t [w log]]. intros Hinv. unfold handleReject.
  destruct (decodeRejectKnownType message) as [r|]; [|by apply wp_ret].
  apply wp_bind, wp_session. cbn [fst].
  destruct (isRunning (session_ t)) eqn:Hrun; [|by apply wp_ret]. simpl.
  destruct (negb _); [by apply wp_ret|].
  apply wp_bind, wp_updateSession, wp_bind, wp_tx_call. intros [] w'. apply wp_ret.
  apply (inv_session_over t w); [done|done|by left].
Qed.

Lemma tx_handleAbort_inv message s : inv s → wp (handleAbort message) s (λ _, inv).
Proof.
  destruct s as [t [w log]]. intros Hinv. unfold handleAbort.
  destruct (decodeAbortKnownType message) as [r|]; [|by apply wp_ret].
  apply wp_bind, wp_session. cbn [fst].
  destruct (isRunning (session_ t)) eqn:Hrun; [|by apply wp_ret]. simpl.
  destruct (negb _); [by apply wp_ret|]. apply wp_bind.
  eapply wp_mono; [by apply transition_inv|]. intros _ s' (? & _). by apply wp_ret.
Qed.

Lemma handleDatagram_inv s : inv s → wp handleDatagram s (λ _, inv).
Proof.
  destruct s as [t [w log]]. intros Hinv. apply wp_bind, wp_tx_self. cbn [fst].
  assert (Hb : is_bytes (payload (datagram_ingress t))) by apply payload_bytes, Hinv.
  cbv zeta. destruct (payload (datagram_ingress t)) as [|encoded rest]; [by apply wp_ret|].
  destruct (decodeControl encoded) as [control|]; [|by apply wp_ret].
  destruct (type control); try by apply wp_ret.
  - by apply handleAck_inv.
  - by apply handleReject_inv.
  - destruct (decodeUserDatagramKnownType _) as [p|]; [|by apply wp_ret].
    apply wp_bind, wp_tx_call. intros [] w'. apply wp_ret. by apply (tx_inv_neutral t w).
  - by apply tx_handleAbort_inv.
Qed.

Lemma tx_wf_ingress packet occupied t :
  tx_wf t → packet_wf packet →
  tx_wf (set_datagram_occupied_ occupied (set_datagram_ingress packet t)).
Proof.
  intros [Hc _ Ho Hs] Hp. split; simpl; try done. intros Hrun. by destruct (Hs Hrun); split.
Qed.

(** An update outside the session. *)
Lemma inv_update f t wl :
  inv (t, wl) → (tx_wf t → tx_wf (f t)) → session_ (f t) = session_ t → inv (f t, wl).
Proof.
  intros [Ht (p & Hm & Hag)] Hwf Hs. split; [by apply Hwf|]. exists p.
  split; [done|]. unfold agrees in *. cbn [fst] in *. by rewrite Hs.
Qed.

(** The part of [process] after the pending message. *)
Lemma process_state_settled progressed now_ms s :
  inv s →
  wp (s ← session;
      match state s with
      | TransferState.kStarting => processStarting routes progressed now_ms
      | TransferState.kActive => processActive routes progressed now_ms
      | _ => mret (idleOr progressed)
      end) s (settled progressed s).
Proof.
  intros Hinv. apply wp_bind, wp_session.
  assert (Hrun : isRunning (session_ s.1) = true → running s) by (intros; by split).
  unfold isRunning in Hrun. destruct (state (session_ s.1));
    try (apply wp_ret, settled_idle; [done|done|apply quiet_refl]).
  - apply processStarting_settled. by apply Hrun.
  - apply processActive_settled. by apply Hrun.
Qed.

Lemma process_returns now_ms s : inv s → wp (process routes now_ms) s returns.
Proof.
  intros Hinv. apply wp_bind, wp_tx_self. cbv zeta. apply wp_bind.
  apply (wp_mono _ _ (λ _, inv)).
  { destruct (datagram_occupied_ s.1); [|done].
    apply wp_bind. eapply wp_mono; [by apply handleDatagram_inv|].
    intros handled [t wl] Ht. apply wp_bind, wp_tx_update, wp_ret.
    apply (inv_update (set_datagram_occupied_ false)); [done| |done].
    intros Hwf. apply (tx_wf_ingress (datagram_ingress t) false t Hwf), Hwf. }
  intros handled [t wl] Hinv'. destruct (negb handled).
  { apply wp_bind, wp_updateSession, wp_ret. by apply returns_error. }
  eapply wp_mono; [by apply process_state_settled|]. by intros r s' [? _].
Qed.

Lemma tx_abort_inv s : inv s → wp (abort routes) s (λ _, inv).
Proof.
  intros Hinv. apply wp_bind, wp_session.
  destruct (isRunning (session_ s.1)) eqn:Hrun; [|by apply wp_ret]. apply wp_bind.
  eapply wp_mono; [by apply sendAbort_running|]. intros _ s' (Hr & _). apply wp_bind.
  eapply wp_mono; [by apply transition_inv|]. intros _ s'' (? & _). by apply wp_bind, wp_tx_self, wp_ret.
Qed.

Lemma tx_sendDatagram_inv p s : inv s → is_bytes p → wp (sendDatagram routes p) s (λ _, inv).
Proof.
  destruct s as [t [w log]]. intros Hinv Hp. apply wp_bind, wp_tx_self. cbv zeta. cbn [fst].
  destruct (_ || _) eqn:Hfit; [by apply wp_ret|].
  pose proof Hinv as [Ht _]. cbn [fst] in Ht.
  pose proof (pwf_capacity _ (tx_transmit _ Ht)) as Hcap.
  apply orb_false_iff in Hfit as [_ Hfit]. apply Z.ltb_ge in Hfit.
  unfold kUserDatagramHeaderSize in *. assert (0 ≤ zlen p) by (unfold zlen; lia).
  rewrite (u16_id (zlen p + 1)) by (unfold is_u16 in *; lia).
  enough (wp (sendMessage (W := Traced W) routes (zlen p + 1) kNormal
    (encodeMessage (MUserDatagram p))) (t, mkTraced w log) (λ _, inv)) as Hsend.
  { revert Hsend. unfold sendMessage, wp, mbind, State_bind.
    destruct (preparePacket _ _ _) as [[] s1]; [|done]. simpl.
    destruct (encodeInto _ s1) as [[] s2]; [|done]. simpl. by destruct (forwardPacket routes s2). }
  apply wp_sendMessage; [done|done|unfold zlen; cbn [layout length]; lia|]. split.
  - intros packet r Hroom _ _ _. by apply inv_sending.
  - intros packet r w' Hroom _. apply inv_sending; [|done]. by apply (tx_inv_neutral t w).
Qed.

Lemma copyPacket_spec source destination :
  packet_wf source → packet_wf destination →
  if size source <=? capacity destination
  then ∃ copy, copyPacket source destination = (true, copy) ∧ packet_wf copy ∧
         payload copy = payload source ∧ capacity copy = capacity destination
  else copyPacket source destination = (false, destination).
Proof.
  intros Hs Hd. unfold copyPacket, resize. rewrite Z.leb_antisym.
  destruct (Z.ltb_spec (capacity destination) (size source)); simpl; [done|].
  set (d := set_header _ _).
  assert (Hw : packet_wf d) by (destruct Hs, Hd; split; simpl; done || lia).
  pose proof (length_payload _ Hs) as Hlen. pose proof (length_payload _ Hw) as Hlen'.
  assert (Hsize : size d = size source) by done. destruct (Z.ltb_spec 0 (size source)).
  - eexists. split; [done|]. split; [by apply write_payload_wf, payload_bytes|].
    split; [|done]. rewrite payload_write by (done || lia).
    rewrite memcpy_at_app by lia. rewrite take_0, drop_ge by lia. by rewrite app_nil_r.
  - exists d. split_and!; try done. pose proof (pwf_size _ Hs).
    by rewrite (nil_length_inv (payload source)), (nil_length_inv (payload d)) by lia.
Qed.

Lemma copyPacket_wf source destination :
  packet_wf source → packet_wf destination → packet_wf (copyPacket source destination).2.
Proof.
  intros Hs Hd. pose proof (copyPacket_spec source destination Hs Hd) as H.
  destruct (_ <=? _); [by destruct H as (copy & -> & ? & _)|by rewrite H].
Qed.

Lemma receive_wf packet t : tx_wf t → packet_wf packet → tx_wf (receive packet t).2.
Proof.
  intros Ht Hp. unfold receive. destruct (negb _); [done|].
  destruct (payload packet) as [|encoded rest]; [done|].
  destruct (decodeControl encoded) as [[v pr ty]|]; [|done].
  assert (Hcopy : tx_wf
    (let '(ok, ingress) := copyPacket packet (datagram_ingress t) in
     let t := set_datagram_ingress ingress t in
     if negb ok then (ReceiveResult.kRejected, t)
     else (ReceiveResult.kAccepted, set_datagram_occupied_ true t)).2).
  { pose proof (copyPacket_wf packet _ Hp (tx_ingress _ Ht)) as Hw.
    destruct (copyPacket packet (datagram_ingress t)) as [[] ingress]; simpl in *.
    - by apply tx_wf_ingress.
    - by apply (tx_wf_ingress ingress (datagram_occupied_ t)). }
  destruct ty; try done; by destruct (datagram_occupied_ t).
Qed.

Lemma receive_session packet t : session_ (receive packet t).2 = session_ t.
Proof.
  unfold receive. destruct (negb _); [done|]. destruct (payload packet) as [|encoded rest]; [done|].
  destruct (decodeControl encoded) as [[v pr ty]|]; [|done].
  destruct (copyPacket packet (datagram_ingress t)) as [[] ingress];
    destruct ty; try done; by destruct (datagram_occupied_ t).
Qed.

(** The geometry [startTransfer] computes. *)
Lemma segmentCount_spec n k :
  0 < n < 2 ^ 32 → is_u16 k → 0 < k →
  let c := segmentCount n k in
  1 ≤ c ∧ (c - 1) * k < n ≤ c * k.
Proof.
  intros Hn Hk Hk0. unfold segmentCount. change (2 ^ 32) with 4294967296 in *.
  pose proof (Z.div_mod n k ltac:(lia)) as Hdm. pose proof (Z.mod_pos_bound n k ltac:(lia)).
  assert (0 ≤ n / k ≤ n) by (split; [apply Z.div_pos; lia|apply Z.div_le_upper_bound; nia]).
  destruct (Z.eqb_spec (n mod k) 0).
  - rewrite u32_id by (unfold is_u32; lia). nia.
  - assert (n / k < n ∨ k = 1) as [?| ->] by (destruct (decide (k = 1)); [by right|left; nia]).
    + rewrite u32_id by (unfold is_u32; lia). nia.
    + rewrite Z.mod_1_r in *. lia.
Qed.

Definition start_args_wf (obj : bytes) (segment_size session_id isn : Z) : Prop :=
  is_bytes obj ∧ is_u16 segment_size ∧ is_u8 session_id ∧ is_u8 isn.

Lemma startTransfer_outcome obj size session_id isn t :
  is_u16 size → is_u8 session_id → is_u8 isn →
  match startTransfer obj size session_id isn t with
  | (StartResult.kStarted, t') =>
      isRunning (session_ t) = false ∧
      ∃ s count, t' = set_session_ (startedSession obj s count) t ∧
        count = segments s ∧ setup_valid s ∧ zlen obj = object_bytes s ∧
        setup_session_id s = session_id ∧ initial_sequence_number s = isn ∧
        segment_size s = size ∧
        kSetupSize ≤ capacity (transmit_packet t) ∧
        size + kSegmentHeaderSize ≤ capacity (transmit_packet t)
  | (r, t') => t' = t ∧
      match r with
      | StartResult.kBusy => isRunning (session_ t) = true
      | StartResult.kInvalidArgument =>
          obj = [] ∨ size = 0 ∨ 2 ^ 32 ≤ zlen obj ∨ 65536 * size < zlen obj
      | _ => capacity (transmit_packet t) < Z.max kSetupSize (size + kSegmentHeaderSize)
      end
  end.
Proof.
  intros Hsize Hid Hisn. unfold startTransfer, kSetupSize, kSegmentHeaderSize.
  change (2 ^ 32) with 4294967296. destruct (isRunning (session_ t)) eqn:Hrun; [done|].
  destruct (_ || _) eqn:Hargs.
  { split; [done|]. rewrite !orb_true_iff, bool_decide_eq_true, Z.eqb_eq, Z.ltb_lt in Hargs.
    intuition lia. }
  rewrite !orb_false_iff, bool_decide_eq_false, Z.eqb_neq, Z.ltb_ge in Hargs.
  destruct Hargs as [[Hne Hz] Hlen]. unfold is_u16 in Hsize.
  assert (Hpos : 0 < zlen obj) by (unfold zlen; destruct obj; [done|simpl; lia]).
  rewrite u32_id by (unfold is_u32; lia).
  destruct (segmentCount_spec (zlen obj) size) as [Hc1 Hc2];
    [change (2 ^ 32) with 4294967296; lia|done|lia|].
  set (c := segmentCount (zlen obj) size) in *. clearbody c.
  unfold kMaximumCompactSegmentCount.
  rewrite (proj2 (Z.eqb_neq c 0)) by lia. simpl.
  destruct (Z.ltb_spec 65536 c) as [Hbig|Hfit].
  { split; [done|]. right. right. right. nia. }
  rewrite (u32_id (size + 4)) by (unfold is_u32; lia).
  destruct (_ || _) eqn:Hroom.
  { split; [done|]. rewrite orb_true_iff, !Z.ltb_lt in Hroom. lia. }
  rewrite orb_false_iff, !Z.ltb_ge in Hroom.
  split; [done|]. rewrite (u16_id (c - 1)) by (unfold is_u16; lia).
  rewrite (u32_id ((c - 1) * size)) by (unfold is_u32; nia).
  rewrite (u32_id (zlen obj - _)) by (unfold is_u32; nia).
  rewrite u16_id by (unfold is_u16; nia).
  eexists _, c. split; [done|]. unfold segments, setup_valid, object_bytes. simpl.
  split_and!; try done; try lia; unfold is_u16; nia.
Qed.

Lemma startTransfer_spec obj size session_id isn t :
  packet_wf (transmit_packet t) → start_args_wf obj size session_id isn →
  match startTransfer obj size session_id isn t with
  | (StartResult.kStarted, t') =>
      isRunning (session_ t) = false ∧
      ∃ s count, t' = set_session_ (startedSession obj s count) t ∧
        count = segments s ∧ setup_valid s ∧ zlen obj = object_bytes s ∧
        setup_session_id s = session_id ∧ initial_sequence_number s = isn ∧
        segment_size s = size ∧
        kSetupSize ≤ capacity (transmit_packet t) ∧
        size + kSegmentHeaderSize ≤ capacity (transmit_packet t)
  | (r, t') => t' = t ∧
      match r with
      | StartResult.kBusy => isRunning (session_ t) = true
      | StartResult.kInvalidArgument =>
          obj = [] ∨ size = 0 ∨ 2 ^ 32 ≤ zlen obj ∨ 65536 * size < zlen obj
      | _ => capacity (transmit_packet t) < Z.max kSetupSize (size + kSegmentHeaderSize)
      end
  end.
Proof. intros _ (_ & Hsize & Hid & Hisn). by apply startTransfer_outcome. Qed.
End invariant.
