(* ===== verification/BitsTransmitterProps.v ===== *)
(** * Properties of the BITS transmitter

    The session protocol of every run, the geometry of a start, the agreement of
    transmitter and receiver through an ACK, back-pressure and giving up. *)

From S2P Require Import Prelude Packet Routing BitsCodec BitsEngine BitsEngineRuns.
From S2P Require Import BitsTransmitter BitsTransmitterKeeps BitsTransmitterRuns.
Import Transmitter.
Local Open Scope Z_scope.

(** ** Runs *)

Inductive TxCall :=
  | CReceive (packet : PacketBuffer)
  | CProcess (now_ms : Z)
  | CSendDatagram (p : bytes)
  | CAbort
  | CStart (obj : bytes) (segment_size session_id initial_sequence_number : Z).

Definition call_wf (c : TxCall) : Prop :=
  match c with
  | CReceive packet => packet_wf packet
  | CSendDatagram p => is_bytes p
  | CStart obj size session_id isn => start_args_wf obj size session_id isn
  | CProcess _ | CAbort => True
  end.

Section runs.
Context {W : Type} `{!TransmitterCallbacks W, !PacketForwarder W}.
Variable routes : list RouteTableEntry.

Definition note (event : Event) : Op (W := Traced W) unit :=
  modify (λ '(t, wl), (t, mkTraced (world wl) (log_of wl ++ [event]))).

(** One call of the application, with its start or failure noted in the log. *)
Definition run_call (c : TxCall) : Op (W := Traced W) unit :=
  match c with
  | CReceive packet => update (λ t, (receive packet t).2)
  | CProcess now_ms =>
      r ← process routes now_ms;
      if bool_decide (r = ProcessResult.kError) then note Failed else mret tt
  | CSendDatagram p => sendDatagram routes p;; mret tt
  | CAbort => abort routes;; mret tt
  | CStart obj size session_id isn =>
      t ← self;
      let '(r, t') := startTransfer obj size session_id isn t in
      update (λ _, t');;
      if bool_decide (r = StartResult.kStarted) then note (Started obj (setup (session_ t')))
      else mret tt
  end.

Definition run_calls (cs : list TxCall) (s : Transmitter * Traced W) : Transmitter * Traced W :=
  foldl (λ s c, (run_call c s).2) s cs.

Lemma wp_note event t wl (Q : unit → Transmitter * Traced W → Prop) :
  Q tt (t, mkTraced (world wl) (log_of wl ++ [event])) → wp (note event) (t, wl) Q.
Proof. done. Qed.

Lemma tx_run_call_inv c s : call_wf c → inv s → wp (run_call c) s (λ _, inv).
Proof.
  destruct s as [t [w log]]. intros Hc Hinv. destruct c as [packet|now|p| |obj size id isn]; simpl.
  - apply wp_tx_update, (inv_update (λ t, (receive packet t).2)); [done| |apply receive_session].
    intros Ht. by apply receive_wf.
  - apply wp_bind. eapply wp_mono; [by apply process_returns|].
    intros r [t' [w' log']] [Ht (q & Hm & Hq)]. cbn [fst snd log_of] in *. case_bool_decide.
    + apply wp_note. split; [done|]. exists Closed. cbn [snd log_of]. rewrite tx_monitor_snoc, Hm.
      split; [by destruct q|]. unfold agrees. cbn [fst]. by rewrite Hq.
    + apply wp_ret. split; [done|]. by exists q.
  - apply wp_bind. eapply wp_mono; [by apply tx_sendDatagram_inv|]. by intros.
  - apply wp_bind. eapply wp_mono; [by apply tx_abort_inv|]. by intros.
  - apply wp_bind, wp_tx_self. cbn [fst].
    pose proof (startTransfer_spec obj size id isn t (tx_transmit _ (proj1 Hinv)) Hc) as Hs.
    destruct (startTransfer obj size id isn t) as [r t']. destruct r.
    2-4: destruct Hs as [-> _]; apply wp_bind, wp_tx_update, wp_ret; done.
    destruct Hs as (Hover & s & count & -> & Hcount & Hset & Hobj & Hid & Hisn & Hsize & Hr1 & Hr2).
    apply wp_bind, wp_tx_update, wp_note. destruct Hinv as [[Hcn Hin Hout _] (q & Hm & Hag)].
    unfold agrees in Hag. cbn [fst snd log_of world] in *. rewrite Hover in Hag. subst q.
    pose proof (setup_geometry _ Hset) as (_ & _ & Hn & _). split.
    + split; simpl; try done. intros _. split; simpl; try done; try lia.
      destruct Hc as [Hbytes _]. split; simpl; try done; try lia; intros i _; by rewrite Z.bits_0.
    + exists (Open obj s []). cbn [snd log_of]. rewrite tx_monitor_snoc, Hm. split; [done|].
      unfold agrees. simpl. exists []. split; [done|]. intros i [?|[_ Hi]]; simpl in *; [lia|].
      by rewrite Z.bits_0 in Hi.
Qed.

Lemma new_inv connection timing ingress transmit (w : W) :
  connection_wf connection → packet_wf ingress → packet_wf transmit →
  inv (new_transmitter connection timing ingress transmit, mkTraced w []).
Proof. intros. split; [by split|]. by exists Closed. Qed.

Lemma tx_run_calls_inv cs s : Forall call_wf cs → inv s → inv (run_calls cs s).
Proof.
  intros Hcs. revert s. induction Hcs as [|c cs Hc _ IH]; intros s Hinv; [done|].
  apply IH. by apply (tx_run_call_inv c s Hc).
Qed.

(** C5: Session protocol of the transmitter, in every environment and for every
    sequence of starts, receptions, polls, datagrams and aborts: what it sends
    and reports is accepted by the monitor.  Setup, probe, abort and segment
    messages appear only within a session and carry its id; each segment PDU is
    exactly its slice of the object; completion is reported only when the link
    has admitted every segment; each session ends once; and a transfer is in
    progress exactly when the monitor has a session open. *)
Theorem transmitter_session_protocol connection timing ingress transmit (w : W) cs :
  connection_wf connection → packet_wf ingress → packet_wf transmit → Forall call_wf cs →
  let s := run_calls cs (new_transmitter connection timing ingress transmit, mkTraced w []) in
  ∃ p, monitor (log_of s.2) = Some p ∧
    if isRunning (session_ s.1)
    then window_wf (session_ s.1) ∧
         ∃ admitted, p = Open (object (session_ s.1)) (setup (session_ s.1)) admitted ∧
           ∀ i, was_sent (session_ s.1) i → i ∈ admitted
    else p = Closed.
Proof.
  intros Hc Hi Ho Hcs s. assert (Hinv : inv s) by by apply tx_run_calls_inv, new_inv.
  destruct Hinv as [[_ _ _ Hwf] (p & Hm & Hag)]. exists p. split; [done|].
  unfold agrees in Hag. destruct (isRunning (session_ s.1)); [|done].
  split; [by apply Hwf|done].
Qed.
End runs.

(** ** A demonstration link and application *)

Module DemoLink.
(** The environment is the list of link answers still to give; then it accepts. *)
#[export] Instance callbacks : TransmitterCallbacks (list RouteResult.t) := {|
  txDatagram _ := mret tt;
  txTransferComplete := mret tt;
  txTransferRejected _ := mret tt;
  txTransferAborted := mret tt |}.
#[export] Instance link : PacketForwarder (list RouteResult.t) :=
  λ _ _ answers, match answers with
                 | [] => (RouteResult.kAccepted, [])
                 | r :: answers => (r, answers)
                 end.
End DemoLink.
Import DemoLink.

Definition demo_connection : ConnectionAddress :=
  {| conn_wire := mkWireNumber 3; conn_local_host := mkHostId 1;
     conn_remote_host := mkHostId 2; conn_endpoint := mkEndpointAddress 9 |}.
Definition demo_timing : TimingConfig :=
  {| retransmission_timeout_ms := 100; probe_timeout_ms := 250; max_retries := 2 |}.
Definition demo_routes : list RouteTableEntry := [mkRouteTableEntry (mkWireNumber 3) 1].
Definition demo_transmitter : Transmitter :=
  new_transmitter demo_connection demo_timing (new_packet 16) (new_packet 16).

(** A message of the peer, as it arrives. *)
Definition from_peer (m : Message) : PacketBuffer :=
  let peer := {| conn_wire := mkWireNumber 3; conn_local_host := mkHostId 2;
                 conn_remote_host := mkHostId 1; conn_endpoint := mkEndpointAddress 9 |} in
  write_payload 0 (layout m)
    (initializeConnection (zlen (layout m)) peer (cf_bits kNormal) (new_packet 16)).2.

Definition demo_object : bytes := [11; 22; 33].
Definition demo_calls : list TxCall :=
  [CStart demo_object 2 7 250; CProcess 0;
   CReceive (from_peer (MAck (mkAck 7 0 251 249))); CProcess 1; CProcess 2; CProcess 3;
   CReceive (from_peer (MAck (mkAck 7 0 251 251))); CProcess 4].

Lemma transmitter_session_protocol_witness :
  let s := run_calls demo_routes demo_calls
    (demo_transmitter, mkTraced [RouteResult.kAccepted; RouteResult.kFull] []) in
  log_of s.2 =
    [Started demo_object (mkSetup 7 250 1 2 1); Sent [0; 7; 250; 0; 1; 0; 2; 0; 1; 0] RouteResult.kAccepted;
     Sent [1; 7; 0; 0; 11; 22] RouteResult.kFull; Sent [1; 7; 0; 0; 11; 22] RouteResult.kAccepted;
     Sent [1; 7; 1; 0; 33] RouteResult.kAccepted; Complete] ∧
  ∃ p, monitor (log_of s.2) = Some p ∧
    if isRunning (session_ s.1)
    then window_wf (session_ s.1) ∧
         ∃ admitted, p = Open (object (session_ s.1)) (setup (session_ s.1)) admitted ∧
           ∀ i, was_sent (session_ s.1) i → i ∈ admitted
    else p = Closed.
Proof.
  split; [vm_compute; reflexivity|].
  apply (transmitter_session_protocol demo_routes demo_connection demo_timing (new_packet 16)
    (new_packet 16) [RouteResult.kAccepted; RouteResult.kFull] demo_calls).
  - split; by_evaluation.
  - apply new_packet_wf. by_evaluation.
  - apply new_packet_wf. by_evaluation.
  - repeat constructor; by_evaluation.
Defined.

(** ** Starting *)

(** C12: [startTransfer] starts exactly when no transfer is running, the object is
    not empty, fits 32 bits and at most 65536 segments, and the packet buffer
    holds the setup and a full segment; then the announced geometry covers the
    object exactly, with a final segment of 1 to [segment_size] bytes and no
    arithmetic overflow, and the session is fresh.  Otherwise nothing changes. *)
Theorem startTransfer_geometry obj size session_id isn t :
  packet_wf (transmit_packet t) → start_args_wf obj size session_id isn →
  match startTransfer obj size session_id isn t with
  | (StartResult.kStarted, t') =>
      isRunning (session_ t) = false ∧
      ∃ s count, t' = set_session_ (startedSession obj s count) t ∧
        count = segments s ∧ setup_valid s ∧ zlen obj = object_bytes s ∧
        setup_session_id s = session_id ∧ initial_sequence_number s = isn ∧
        segment_size s = size ∧
        kSetupSize ≤ capacity (transmit_packet t) ∧
        size + kSegmentHeaderSize ≤ capacity (transmit_packet t)
  | (r, t') => t' = t ∧
      match r with
      | StartResult.kBusy => isRunning (session_ t) = true
      | StartResult.kInvalidArgument =>
          obj = [] ∨ size = 0 ∨ 2 ^ 32 ≤ zlen obj ∨ 65536 * size < zlen obj
      | _ => capacity (transmit_packet t) < Z.max kSetupSize (size + kSegmentHeaderSize)
      end
  end.
Proof. apply startTransfer_spec. Qed.

Lemma startTransfer_geometry_witness :
  match startTransfer demo_object 2 7 250 demo_transmitter with
  | (StartResult.kStarted, t') =>
      isRunning (session_ demo_transmitter) = false ∧
      ∃ s count, t' = set_session_ (startedSession demo_object s count) demo_transmitter ∧
        count = segments s ∧ setup_valid s ∧ zlen demo_object = object_bytes s ∧
        setup_session_id s = 7 ∧ initial_sequence_number s = 250 ∧
        segment_size s = 2 ∧
        kSetupSize ≤ capacity (transmit_packet demo_transmitter) ∧
        2 + kSegmentHeaderSize ≤ capacity (transmit_packet demo_transmitter)
  | (r, t') => t' = demo_transmitter ∧
      match r with
      | StartResult.kBusy => isRunning (session_ demo_transmitter) = true
      | StartResult.kInvalidArgument =>
          demo_object = [] ∨ 2 = 0 ∨ 2 ^ 32 ≤ zlen demo_object ∨ 65536 * 2 < zlen demo_object
      | _ => capacity (transmit_packet demo_transmitter) < Z.max kSetupSize (2 + kSegmentHeaderSize)
      end
  end.
Proof.
  apply (startTransfer_geometry demo_object 2 7 250 demo_transmitter).
  - apply new_packet_wf. by_evaluation.
  - repeat split; by_evaluation.
Defined.

(** ** Agreement with the receiver *)

(** The distances an engine's ACK encodes, decoded against the transmitter's base. *)
Lemma engine_ack_distances max_width e a s :
  transfer_wf max_width e → 1 ≤ max_width ≤ 16 → receive_window_width (config e) ≤ max_width →
  window_wf s → setup s = BitsEngine.setup e →
  window_base a = (initial_sequence_number (setup s) + contiguous_count e - 1) mod 256 →
  max_receive_sequence a =
    (initial_sequence_number (setup s) + BitsEngine.granted_end e - 1) mod 256 →
  acknowledged_count s ≤ contiguous_count e ≤ acknowledged_count s + 16 →
  ackAdvance a s = contiguous_count e - acknowledged_count s ∧
  ackGrant a = BitsEngine.granted_end e - contiguous_count e.
Proof.
  intros [Hsv Hcount Hw1 Hc Hg Hbm Hf Hwin _] Hmax Hw Hws Hset Hb Hm Hacked.
  pose proof (ww_acked _ Hws) as Hz. unfold ackAdvance, ackGrant, Transmitter.baseSequence,
    Transmitter.sequenceFor. rewrite Hb, Hm, Hset in *.
  pose proof (setup_geometry _ Hsv) as (_ & _ & Hn & _).
  set (isn := initial_sequence_number (BitsEngine.setup e)). clearbody isn.
  set (n := segments (BitsEngine.setup e)) in *. clearbody n.
  assert (Hspan : 0 ≤ BitsEngine.granted_end e - contiguous_count e ≤ 16) by lia.
  rewrite Hcount in Hc. revert Hz Hacked Hspan Hc. clear - Hn. intros Hz Hacked Hspan Hc.
  split; [destruct (Z.eqb_spec (acknowledged_count s) 0) as [E|]|]; word_lia.
Qed.

(** Such a transmitter does not ignore the ACK. *)
Lemma engine_ack_not_ignored max_width e a s :
  transfer_wf max_width e → 1 ≤ max_width ≤ 16 → receive_window_width (config e) ≤ max_width →
  window_wf s → setup s = BitsEngine.setup e →
  ackAdvance a s = contiguous_count e - acknowledged_count s →
  ackGrant a = BitsEngine.granted_end e - contiguous_count e →
  acknowledged_count s ≤ contiguous_count e ≤ acknowledged_count s + 16 →
  (∀ i, 0 ≤ i → Z.testbit (window_bitmap a) i = true ↔ received e (contiguous_count e + i)) →
  segment_count s = BitsEngine.segment_count e ∧ ackIgnored a s = false.
Proof.
  intros Hetwf Hmax Hwidth Hw Hset Hadv Hgrant Hbehind Hbits.
  pose proof (setup_geometry _ (ww_setup _ Hw)) as (_ & _ & Hn & _).
  assert (Hcount : segment_count s = BitsEngine.segment_count e)
    by (rewrite (ww_count _ Hw), (twf_count _ _ Hetwf), Hset; done).
  split; [done|].
  pose proof (twf_contiguous _ _ Hetwf) as Hc. pose proof (twf_grant _ _ Hetwf) as Hg.
  pose proof (twf_width _ _ Hetwf) as Hw1. pose proof (ww_acked _ Hw) as Hz.
  rewrite Hset in Hn. rewrite <- (twf_count _ _ Hetwf) in Hn.
  unfold ackIgnored, kCompactWindowWidth. rewrite Hadv, Hgrant, Hcount.
  rewrite !u32_id by (unfold is_u32; lia).
  rewrite !orb_false_iff, !Z.ltb_ge, negb_false_iff, Z.eqb_eq. split_and!; try lia.
  apply Z.bits_inj'. intros i Hi. rewrite Z.land_spec, testbit_not16, Z.bits_0 by done.
  rewrite testbit_lowBitMask by lia.
  destruct (Z.testbit (window_bitmap a) i) eqn:Hbit; [|done].
  apply Hbits in Hbit; [|done]. apply (received_at_window max_width) in Hbit; [|done|done].
  apply (twf_window _ _ Hetwf) in Hbit; [|done].
  rewrite (proj2 (Z.ltb_lt i (_ - _))) by lia. apply andb_false_r.
Qed.

Section agreement.
Context {W : Type} `{!TransmitterCallbacks W}.

(** An ACK that passes every check of [handleAck]. *)
Lemma handleAck_applied message a t (w : W) :
  decodeAckKnownType message = Some a →
  let s := session_ t in
  let s' := ackApplied a s in
  isRunning s = true → ack_session_id a = setup_session_id (setup s) → setup_sent s = true →
  ackIgnored a s = false →
  Z.land (sent_bitmap s) (Transmitter.lowBitMask (ackAdvance a s)) =
    Transmitter.lowBitMask (ackAdvance a s) →
  wp (handleAck message) (t, w) (λ r out, r = true ∧
    session_ out.1 = set_state (if acknowledged_count s' =? segment_count s'
                                then TransferState.kCompleted else TransferState.kActive) s').
Proof.
  intros Hdec s s' Hrun Hid Hsent Hign Hmask. unfold handleAck. rewrite Hdec.
  apply wp_bind, wp_session. cbn [fst]. fold s. rewrite Hrun, Hid, Hsent, Z.eqb_refl, Hign.
  cbv zeta. rewrite Hmask, Z.eqb_refl. cbn [negb orb].
  apply wp_bind, wp_updateSession. fold s. fold s'. clearbody s'.
  apply wp_bind, wp_session. cbn [fst session_ set_session_]. apply wp_bind.
  destruct (acknowledged_count s' =? segment_count s').
  - apply wp_bind, wp_updateSession, wp_call_self. intros [] w' _. by apply wp_ret.
  - by apply wp_updateSession, wp_ret.
Qed.

Lemma ack_effect (max_width : Z) (e : Engine) (storage message : bytes) (t : Transmitter)
    (w : W) :
  1 ≤ max_width ≤ 16 → engine_wf max_width e → transfer_wf max_width e →
  zlen storage = kAckSize → ackContents max_width e storage = Some message →
  window_wf (session_ t) → isRunning (session_ t) = true → setup_sent (session_ t) = true →
  setup (session_ t) = BitsEngine.setup e →
  acknowledged_count (session_ t) ≤ contiguous_count e ≤ acknowledged_count (session_ t) + 16 →
  (∀ i, received e i → was_sent (session_ t) i) →
  let out := handleAck message (t, w) in
  let s' := session_ out.2.1 in
  out.1 = true ∧
  acknowledged_count s' = contiguous_count e ∧
  granted_end s' = Z.max (granted_end (session_ t)) (BitsEngine.granted_end e) ∧
  (∀ i, 0 ≤ i → was_acknowledged s' i ↔ was_acknowledged (session_ t) i ∨ received e i) ∧
  (∀ i, 0 ≤ i → was_sent s' i ↔ was_sent (session_ t) i) ∧
  state s' = if contiguous_count e =? BitsEngine.segment_count e
             then TransferState.kCompleted else TransferState.kActive.
Proof.
  intros Hmax Hewf Hetwf Hlen Hack Hw Hrun Hsetup Hset Hbehind Hrec. cbv zeta.
  destruct (engine_ack max_width e storage Hmax Hewf Hetwf Hlen)
    as (a & Ha & Hawf & Hid & Hbase & Htop & Hbits).
  assert (message = layout (MAck a)) as -> by congruence.
  assert (Hwidth : receive_window_width (config e) ≤ max_width) by apply (ewf_width _ _ Hewf).
  rewrite <- Hset in Hid, Hbase, Htop.
  destruct (engine_ack_distances max_width e a _ Hetwf Hmax Hwidth Hw Hset Hbase Htop Hbehind)
    as [Hadv Hgrant].
  assert (Hdec : decodeAckKnownType (layout (MAck a)) = Some a).
  { apply decodeAckKnownType_spec; [by apply layout_bytes|]. split; [done|]. by eexists. }
  destruct (engine_ack_not_ignored max_width e a _ Hetwf Hmax Hwidth Hw Hset Hadv Hgrant
    Hbehind Hbits) as [Hcount Hign].
  pose proof (ww_acked _ Hw) as Hz.
  assert (Hmask : ∀ i, 0 ≤ i < ackAdvance a (session_ t) →
    Z.testbit (sent_bitmap (session_ t)) i = true).
  { intros i Hi. rewrite Hadv in Hi.
    destruct (Hrec (acknowledged_count (session_ t) + i)) as [?|[_ Ht]]; [left; lia|lia|].
    by rewrite Z.add_simpl_l in Ht. }
  destruct (ackApplied_spec a _ Hawf Hw Hign Hmask) as
    (_ & _ & _ & _ & Hcount' & _ & _ & Hacked' & Hgranted' & Hsent' & Hacks & _).
  pose proof (handleAck_applied _ a t w Hdec Hrun Hid Hsetup Hign
    (proj2 (masked_bits (sent_bitmap (session_ t)) (ackAdvance a (session_ t)) ltac:(lia)) Hmask)) as [Hr Hs].
  split; [exact Hr|]. rewrite Hs. revert Hcount' Hacked' Hgranted' Hsent' Hacks. clear Hr Hs.
  generalize (ackApplied a (session_ t)). intros s' Hcount' Hacked' Hgranted' Hsent' Hacks.
  assert (E : acknowledged_count s' = contiguous_count e) by lia.
  cbn [acknowledged_count granted_end state set_state]. split; [done|].
  split; [rewrite Hgranted'; lia|]. split; [|split; [done|by rewrite E, Hcount', Hcount]].
  intros i Hi. change (was_acknowledged (set_state _ s') i) with (was_acknowledged s' i).
  rewrite (Hacks i Hi), E. apply or_iff_compat_l. split.
  - intros [Hlt|(_ & Hge & Hbit)]; [by left|]. apply Hbits in Hbit; [|lia].
    by rewrite Zplus_minus in Hbit.
  - intros Hre. destruct (decide (i < contiguous_count e)); [by left|right].
    split; [by apply Hrec|]. split; [lia|]. apply Hbits; [lia|]. by rewrite Zplus_minus.
Qed.

(** C6: Transmitter and receiver agree through an ACK: the ACK an engine sends in
    the middle of the transfer, in either build, decoded from its eight-bit
    sequence numbers by a transmitter at most sixteen segments behind whose
    segments the engine has received, moves the transmitter's base to exactly the
    engine's contiguous count, makes its grant the larger of its own and the
    engine's, marks as acknowledged what it had marked already and what the engine
    has received, and completes the transfer exactly when the engine has
    everything. *)
Theorem ack_agreement (max_width : Z) (e : Engine) (storage message : bytes) (t : Transmitter)
    (w : W) :
  1 ≤ max_width ≤ 16 → engine_wf max_width e → transfer_wf max_width e →
  zlen storage = kAckSize → ackContents max_width e storage = Some message →
  window_wf (session_ t) → isRunning (session_ t) = true → setup_sent (session_ t) = true →
  setup (session_ t) = BitsEngine.setup e →
  acknowledged_count (session_ t) ≤ contiguous_count e ≤ acknowledged_count (session_ t) + 16 →
  (∀ i, received e i → was_sent (session_ t) i) →
  let out := handleAck message (t, w) in
  let s' := session_ out.2.1 in
  out.1 = true ∧
  acknowledged_count s' = contiguous_count e ∧
  granted_end s' = Z.max (granted_end (session_ t)) (BitsEngine.granted_end e) ∧
  (∀ i, 0 ≤ i → was_acknowledged s' i ↔ was_acknowledged (session_ t) i ∨ received e i) ∧
  (∀ i, 0 ≤ i → was_sent s' i ↔ was_sent (session_ t) i) ∧
  state s' = if contiguous_count e =? BitsEngine.segment_count e
             then TransferState.kCompleted else TransferState.kActive.
Proof. apply ack_effect. Qed.
End agreement.

(** A transmitter that has sent all three segments, the demonstration engine has 2. *)
Definition demo_session : TransferSession :=
  set_state TransferState.kActive (set_setup_sent true (set_granted_end 3
    (set_window 0 7 0 zeroes zeroes
       (startedSession [11; 12; 21; 22; 31] (BitsEngine.setup (demo_engine 16)) 3)))).

Lemma ack_agreement_witness :
  let message := layout (MAck (mkAck 7 4 252 249)) in
  ackContents 16 (demo_engine 16) (replicate 6 0) = Some message ∧
  let out := handleAck message (set_session_ demo_session demo_transmitter, []) in
  let s' := session_ out.2.1 in
  out.1 = true ∧
  acknowledged_count s' = contiguous_count (demo_engine 16) ∧
  granted_end s' = Z.max (granted_end demo_session) (BitsEngine.granted_end (demo_engine 16)) ∧
  (∀ i, 0 ≤ i → was_acknowledged s' i ↔
     was_acknowledged demo_session i ∨ received (demo_engine 16) i) ∧
  (∀ i, 0 ≤ i → was_sent s' i ↔ was_sent demo_session i) ∧
  state s' = if contiguous_count (demo_engine 16) =? BitsEngine.segment_count (demo_engine 16)
             then TransferState.kCompleted else TransferState.kActive.
Proof.
  assert (Hbits : ∀ m i, Z.testbit m i = true → 0 ≤ m < 8 → 0 ≤ i → i < 3).
  { intros m i Hb Hm Hi. destruct (Z.ltb_spec i 3); [done|].
    destruct (decide (m = 0)) as [->|]; [by rewrite Z.bits_0 in Hb|].
    rewrite Z.bits_above_log2 in Hb; [done|lia|].
    apply Z.log2_lt_pow2; [lia|]. pose proof (Z.pow_le_mono_r 2 3 i). lia. }
  split; [vm_compute; reflexivity|].
  apply (ack_agreement (W := list RouteResult.t) 16 (demo_engine 16) (replicate 6 0)
    (layout (MAck (mkAck 7 4 252 249))) (set_session_ demo_session demo_transmitter) []).
  - by_evaluation.
  - apply demo_engine_wf.
  - apply demo_engine_wf.
  - by_evaluation.
  - vm_compute. reflexivity.
  - split; try by_evaluation; intros i Hi Hb.
    + by apply (Hbits 7).
    + by rewrite Z.bits_0 in Hb.
  - vm_compute. reflexivity.
  - vm_compute. reflexivity.
  - vm_compute. reflexivity.
  - by_evaluation.
  - intros i [Hi|[Hi Hb]]; [change (0 ≤ i < 0) in Hi; lia|]. right.
    change (contiguous_count (demo_engine 16)) with 0 in *. rewrite Z.sub_0_r in Hb.
    change (receive_bitmap (demo_engine 16)) with 4 in Hb. split; [done|].
    assert (i < 3) by (apply (Hbits 4); done). change (Z.testbit 7 (i - 0) = true).
    assert (i = 0 ∨ i = 1 ∨ i = 2) as [->|[->| ->]] by lia; done.
Defined.

(** ** One poll *)

Section polls.
Context {W : Type} `{!TransmitterCallbacks W, !PacketForwarder W}.
Variable routes : list RouteTableEntry.

(** Events of the owner's callbacks: anything but a PDU handed to the link. *)
Definition callback (event : Event) : Prop := if event is Sent _ _ then False else True.

Definition only_callbacks (log : list Event) (s : Transmitter * Traced W) : Prop :=
  ∃ events, log_of s.2 = log ++ events ∧ Forall callback events.

Lemma callbacks_call {A} log (m : State W A) event :
  (∀ a, callback (event a)) → preserves (only_callbacks log) (call (traced m event)).
Proof.
  intros He [t [w log']] (events & E & Hall). cbn [snd log_of] in E. subst log'.
  unfold call, on_snd, traced. cbn. destruct (m w) as [a w']. exists (events ++ [event a]).
  split; [by rewrite app_assoc|]. by apply list.Forall_app; split; [|apply list.Forall_singleton].
Qed.

(** Handling a pending PDU sends nothing. *)
Lemma callbacks_handleDatagram log : preserves (only_callbacks log) handleDatagram.
Proof.
  unfold handleDatagram, handleAck, handleReject, handleAbort, transitionToAborted, session,
    self, updateSession.
  keep ltac:(first [ by (apply callbacks_call) | by (apply preserves_modify; intros []) ]).
Qed.

(** The transmitter once the pending PDU, if there is one, has been handled. *)
Definition taken (s : Transmitter * Traced W) : Transmitter * Traced W :=
  if datagram_occupied_ s.1
  then let s' := (handleDatagram s).2 in (set_datagram_occupied_ false s'.1, s'.2)
  else s.

Lemma taken_inv s : inv s → inv (taken s).
Proof.
  intros Hinv. unfold taken. destruct (datagram_occupied_ s.1); [|done].
  pose proof (handleDatagram_inv s Hinv) as Ht. unfold wp in Ht. cbv zeta.
  destruct (handleDatagram s) as [handled [t wl]]. cbn [fst snd] in *.
  apply (inv_update (set_datagram_occupied_ false)); [done| |done].
  intros Hwf. apply (tx_wf_ingress (datagram_ingress t) false t Hwf), Hwf.
Qed.

Lemma taken_callbacks s : only_callbacks (log_of s.2) (taken s).
Proof.
  assert (Hs : only_callbacks (log_of s.2) s) by (exists []; split; [by rewrite app_nil_r|done]).
  unfold taken. destruct (datagram_occupied_ s.1); [|done]. exact (callbacks_handleDatagram _ s Hs).
Qed.

Lemma taken_empty s : datagram_occupied_ (taken s).1 = false.
Proof. unfold taken. by destruct (datagram_occupied_ s.1) eqn:E. Qed.

(** A poll is the pending PDU and the step of the session it leaves. *)
Lemma process_taken now_ms s (Q : ProcessResult.t → Transmitter * Traced W → Prop) :
  let progressed := datagram_occupied_ s.1 in
  Q ProcessResult.kError
    (set_session_ (set_state TransferState.kError (session_ (taken s).1)) (taken s).1, (taken s).2) →
  wp (s ← session;
      match state s with
      | TransferState.kStarting => processStarting routes progressed now_ms
      | TransferState.kActive => processActive routes progressed now_ms
      | _ => mret (idleOr progressed)
      end) (taken s) Q →
  wp (process routes now_ms) s Q.
Proof.
  cbv zeta. unfold taken. intros Herror Hstep. apply wp_bind, wp_tx_self. cbv zeta.
  destruct (datagram_occupied_ s.1); [|exact Hstep].
  apply wp_bind, wp_bind. unfold wp at 1. destruct (handleDatagram s) as [handled [t wl]].
  cbn [fst snd] in *. apply wp_bind, wp_tx_update, wp_ret.
  destruct handled; [exact Hstep|]. by apply wp_bind, wp_updateSession, wp_ret.
Qed.

Lemma process_settled now_ms s :
  inv s → wp (process routes now_ms) s (settled (datagram_occupied_ s.1) (taken s)).
Proof.
  intros Hinv. pose proof (taken_inv s Hinv) as Ht. apply process_taken.
  - apply settled_over. destruct (taken s) as [t wl]. by apply returns_error.
  - by apply process_state_settled.
Qed.

(** No step of the session makes a PDU pending. *)
Lemma process_empties now_ms (s : Transmitter * Traced W) : datagram_occupied_ (process routes now_ms s).2.1 = false.
Proof.
  change (wp (process routes now_ms) s (λ _ s', datagram_occupied_ s'.1 = false)).
  apply process_taken; [apply taken_empty|].
  set (I := λ t : Transmitter, datagram_occupied_ t = false).
  set (P := λ _ : Traced W, True).
  assert (Hmild : ∀ t t', mild t t' → I t → I t').
  { intros t t' Hm Ht. apply not_true_is_false. intros Hocc. pose proof (mild_occupied _ _ Hm Hocc).
    unfold I in Ht. congruence. }
  refine (proj1 (_ : kept I P (_ : Transmitter * Traced W))).
  refine (preserves_bind (kept I P) _ _ _ _ (taken s) _);
    [apply preserves_gets| |split; [apply taken_empty|done]].
  intros s'. destruct (state s'); try apply preserves_ret.
  - by apply kept_processStarting.
  - by apply kept_processActive.
Qed.

(** C11: A poll does bounded work and back-pressure loses nothing.  A PDU that is
    pending is handled first, which reaches the owner's callbacks only and sends
    nothing, and none is pending afterwards.  Then [kProgress] means that exactly one
    PDU went out and the link admitted it, or, after a pending PDU only, that nothing
    was sent; [kBlocked] means that exactly one PDU was offered to a full link and the
    session is as the handling left it, so that the next poll tries again; [kIdle]
    means that nothing was pending or sent, and at most the probe timer moved; [kError]
    means that the transfer is over. *)
Theorem process_outcome now_ms (s : Transmitter * Traced W) :
  inv s →
  let out := process routes now_ms s in
  let s1 := taken s in
  only_callbacks (log_of s.2) s1 ∧ datagram_occupied_ out.2.1 = false ∧
  match out.1 with
  | ProcessResult.kProgress =>
      (∃ pdu, log_of out.2.2 = log_of s1.2 ++ [Sent pdu RouteResult.kAccepted]) ∨
      datagram_occupied_ s.1 = true ∧ out.2.2 = s1.2 ∧ quiet (session_ s1.1) (session_ out.2.1)
  | ProcessResult.kBlocked =>
      session_ out.2.1 = session_ s1.1 ∧
      ∃ pdu, log_of out.2.2 = log_of s1.2 ++ [Sent pdu RouteResult.kFull]
  | ProcessResult.kIdle =>
      datagram_occupied_ s.1 = false ∧ out.2.2 = s.2 ∧ quiet (session_ s.1) (session_ out.2.1)
  | ProcessResult.kError => isRunning (session_ out.2.1) = false
  end.
Proof.
  intros Hinv. cbv zeta. split; [apply taken_callbacks|]. split; [apply process_empties|].
  pose proof (process_settled now_ms s Hinv) as [_ Hout]. revert Hout. unfold outcome.
  destruct (process routes now_ms s).1; [|done..].
  unfold taken. destruct (datagram_occupied_ s.1); [by intros [? _]|done].
Qed.

(** ** A silent peer *)

(** How many PDUs a full link has refused. *)
Definition is_refused (event : Event) : bool :=
  if event is Sent _ RouteResult.kFull then true else false.
Definition refused (log : list Event) : Z :=
  zlen (filter (λ event, is_refused event = true) log).

Definition offered (s : Setup) (admitted : bool) : Event :=
  Sent (layout (MSetup s)) (if admitted then RouteResult.kAccepted else RouteResult.kFull).

(** What a poll of a starting transfer whose timer, if set, has run out does: it
    ends the transfer, or offers the setup to the link once. *)
Definition polled (now_ms : Z) (t : Transmitter) (log : list Event) (r : ProcessResult.t)
    (s' : Transmitter * Traced W) : Prop :=
  r = ProcessResult.kError ∧ isRunning (session_ s'.1) = false ∧ datagram_occupied_ s'.1 = false ∨
  r ≠ ProcessResult.kError ∧
  ∃ sent, timing_ s'.1 = timing_ t ∧ datagram_occupied_ s'.1 = false ∧
    log_of s'.2 = log ++ [offered (setup (session_ t)) sent] ∧
    session_ s'.1 = (if sent then setupSent now_ms (setup_sent (session_ t)) (session_ t)
                     else session_ t) ∧
    (sent = true → setup_sent (session_ t) = true →
       setup_retry_count (session_ t) < max_retries (timing_ t)).

Lemma starting_send now_ms t w log :
  running (t, mkTraced w log) → datagram_occupied_ t = false →
  (setup_sent (session_ t) = true →
     setup_retry_count (session_ t) < max_retries (timing_ t)) →
  wp (sent ← sendSetup routes now_ms (setup_sent (session_ t)); afterSend sent)
    (t, mkTraced w log) (polled now_ms t log).
Proof.
  intros Hr Hd Hretry. apply wp_bind. eapply wp_mono; [by apply sendSetup_running|].
  intros sent [t' wl'] (Hr' & E & Hover & Ht & Hd'). cbn [fst snd log_of] in *.
  rewrite Hd in Hd'. unfold afterSend. destruct sent.
  - apply wp_ret. right. split; [done|]. by exists true.
  - apply wp_bind, wp_tx_self. case_bool_decide as Hf.
    + apply wp_ret. right. split; [done|]. exists false.
      split_and!; try done. by apply Hover.
    + apply wp_bind, wp_updateSession, wp_ret. by left.
Qed.

Lemma starting_poll now_ms t w log :
  running (t, mkTraced w log) → state (session_ t) = TransferState.kStarting →
  datagram_occupied_ t = false →
  (setup_sent (session_ t) = true → elapsed now_ms (setup_last_send_ms (session_ t))
    (retransmission_timeout_ms (timing_ t)) = true) →
  wp (process (W := Traced W) routes now_ms) (t, mkTraced w log) (polled now_ms t log).
Proof.
  intros Hr Hst Hd Hel. apply wp_bind, wp_tx_self. cbv zeta. cbn [fst]. rewrite Hd.
  apply wp_bind, wp_ret, wp_bind, wp_session. cbn [fst negb]. rewrite Hst.
  apply wp_bind, wp_tx_self. cbv zeta. cbn [fst].
  pose proof (starting_send now_ms t w log Hr Hd) as Hsend.
  destruct (setup_sent (session_ t)) eqn:Hsent; cbn [negb]; [|by apply Hsend].
  rewrite Hel by done. unfold retryLimitReached. destruct (Z.leb_spec (max_retries (timing_ t))
    (setup_retry_count (session_ t))); [|by apply Hsend].
  eapply wp_mono; [by apply giveUp_returns|].
  intros r s' (-> & _ & Hover & Hd'). left. by rewrite Hd'.
Qed.
Lemma idle_poll now_ms t (wl : Traced W) :
  isRunning (session_ t) = false → datagram_occupied_ t = false →
  process routes now_ms (t, wl) = (ProcessResult.kIdle, (t, wl)).
Proof.
  intros Hr Hd. unfold process, self, session, gets, mbind, State_bind. simpl. rewrite Hd. simpl.
  unfold isRunning in Hr. by destruct (state (session_ t)).
Qed.

Lemma idle_polls nows t (wl : Traced W) :
  isRunning (session_ t) = false → datagram_occupied_ t = false →
  run_calls routes (map CProcess nows) (t, wl) = (t, wl).
Proof.
  intros Hr Hd. induction nows as [|now nows IH]; [done|]. simpl.
  unfold mbind, State_bind. by rewrite idle_poll.
Qed.

Definition admitted_count (sents : list bool) : Z := zlen (filter (λ b, b = true) sents).

(** How many more times the setup may be admitted. *)
Definition budget (t : Transmitter) : Z :=
  if setup_sent (session_ t) then max_retries (timing_ t) - setup_retry_count (session_ t)
  else max_retries (timing_ t) + 1.

(** A transfer that is starting, whose timer has run out at each of [nows]. *)
Record waiting (nows : list Z) (t : Transmitter) : Prop := {
  wait_state : state (session_ t) = TransferState.kStarting;
  wait_pending : datagram_occupied_ t = false;
  wait_retries : is_u8 (max_retries (timing_ t));
  wait_count : 0 ≤ setup_retry_count (session_ t) ≤ max_retries (timing_ t);
  wait_first : setup_sent (session_ t) = false → setup_retry_count (session_ t) = 0;
  wait_timer : setup_sent (session_ t) = true →
    Forall (λ now, elapsed now (setup_last_send_ms (session_ t))
      (retransmission_timeout_ms (timing_ t)) = true) nows;
  wait_spaced : ForallOrdPairs (λ a b,
    elapsed b a (retransmission_timeout_ms (timing_ t)) = true) nows;
}.

Lemma waiting_next now nows t t' (sent : bool) :
  waiting (now :: nows) t → timing_ t' = timing_ t → datagram_occupied_ t' = false →
  session_ t' = (if sent then setupSent now (setup_sent (session_ t)) (session_ t) else session_ t) →
  (sent = true → setup_sent (session_ t) = true →
     setup_retry_count (session_ t) < max_retries (timing_ t)) →
  waiting nows t' ∧ setup (session_ t') = setup (session_ t) ∧
  budget t' + admitted_count [sent] = budget t.
Proof.
  intros [Hst Hd Hm Hc Hf Ht Hsp] Et Hd' Es Hlt. inversion Hsp as [|? ? Hnow Hsp']; subst.
  unfold is_u8 in *. destruct sent.
  - specialize (Hlt eq_refl). unfold budget, admitted_count, zlen, setupSent in *.
    destruct (setup_sent (session_ t)); rewrite Es, Et; simpl.
    + specialize (Hlt eq_refl). rewrite u8_id by (unfold is_u8; lia).
      split; [|split; [done|lia]].
      split; rewrite ?Es, ?Et; simpl; rewrite ?u8_id by (unfold is_u8; lia); (done || lia).
    + rewrite (Hf eq_refl). split; [|split; [done|lia]].
      split; rewrite ?Es, ?Et; simpl; (done || lia).
  - unfold budget. rewrite Es, Et. split; [|split; [done|unfold admitted_count, zlen; simpl; lia]].
    split; rewrite ?Es, ?Et; try done. intros Hs%Ht. by inversion Hs.
Qed.

Lemma waiting_budget nows t : waiting nows t → 0 ≤ budget t.
Proof. intros []. unfold budget, is_u8 in *. destruct (setup_sent (session_ t)); lia. Qed.

Lemma admitted_count_cons b sents :
  admitted_count (b :: sents) = admitted_count [b] + admitted_count sents.
Proof.
  unfold admitted_count, zlen. rewrite (filter_cons _ b sents), (filter_cons _ b []).
  destruct (decide _); simpl; lia.
Qed.

Lemma waiting_call now nows t w log :
  inv (t, mkTraced w log) → waiting (now :: nows) t →
  wp (run_call routes (CProcess now)) (t, mkTraced w log) (λ _ s', inv s' ∧
    (isRunning (session_ s'.1) = false ∧ datagram_occupied_ s'.1 = false ∨
     ∃ sent, log_of s'.2 = log ++ [offered (setup (session_ t)) sent] ∧ waiting nows s'.1 ∧
       setup (session_ s'.1) = setup (session_ t) ∧ budget s'.1 + admitted_count [sent] = budget t)).
Proof.
  intros Hinv Hwait. pose proof Hwait as [Hst Hd _ _ _ Ht _].
  assert (Hrun : running (t, mkTraced w log)).
  { split; [done|]. unfold isRunning. by rewrite (Hst : state (session_ (t, _).1) = _). }
  pose proof (tx_run_call_inv routes (CProcess now) _ I Hinv) as Hinv'.
  assert (Hpoll : wp (process (W := Traced W) routes now) (t, mkTraced w log) (polled now t log)).
  { apply starting_poll; try done. intros Hs%Ht. by inversion Hs. }
  split; [exact Hinv'|]. clear Hinv'. revert Hpoll. unfold wp. simpl. unfold mbind, State_bind.
  destruct (process routes now (t, mkTraced w log)) as [r [t' wl']]. simpl.
  intros [(-> & Hover & Hd')|(Hne & sent & Et & Hd' & Hlog & Es & Hlt)]; [by left|].
  rewrite bool_decide_eq_false_2 by done. right. exists sent. split; [done|].
  by eapply waiting_next.
Qed.

Lemma waiting_polls nows t w log :
  inv (t, mkTraced w log) → waiting nows t →
  let s := run_calls routes (map CProcess nows) (t, mkTraced w log) in
  isRunning (session_ s.1) = true →
  ∃ sents, log_of s.2 = log ++ map (offered (setup (session_ t))) sents ∧
    length sents = length nows ∧ admitted_count sents ≤ budget t.
Proof.
  revert t w log. induction nows as [|now nows IH]; intros t w log Hinv Hwait.
  { intros s _. exists []. split_and!; [by rewrite app_nil_r|done|].
    by apply waiting_budget in Hwait. }
  destruct (waiting_call now nows t w log Hinv Hwait) as [Hinv' Hcase].
  change (run_calls routes (map CProcess (now :: nows)) (t, mkTraced w log)) with
    (run_calls routes (map CProcess nows) (run_call routes (CProcess now) (t, mkTraced w log)).2).
  destruct (run_call routes (CProcess now) (t, mkTraced w log)).2 as [t' [w' log']].
  cbn [fst snd log_of] in *. cbv zeta.
  destruct Hcase as [[Hover Hd]|(sent & -> & Hwait' & Hset & Hbudget)].
  { rewrite idle_polls by done. simpl. congruence. }
  intros Hrun. destruct (IH t' w' _ Hinv' Hwait' Hrun) as (sents & Hlog & Hlen & Hb).
  exists (sent :: sents). rewrite admitted_count_cons. split_and!; [|by simpl; rewrite Hlen|lia].
  rewrite Hlog, Hset. by rewrite <- app_assoc.
Qed.

Lemma refused_offered s sents :
  refused (map (offered s) sents) + admitted_count sents = zlen sents.
Proof.
  unfold refused, admitted_count, zlen. induction sents as [|b sents IH]; [done|].
  rewrite map_cons, !filter_cons. destruct b; simpl in *; lia.
Qed.

(** C10: A silent peer does not keep a transfer alive.  After a start with nothing
    pending, polled at times that are at least a retransmission timeout apart
    while nothing arrives, a transfer that is still running has offered the setup
    to the link exactly once per poll and had it admitted at most
    [max_retries + 1] times; so after that many polls, plus one, plus one for
    each refusal of a full link, the transfer is over. *)
Theorem silent_peer_gives_up obj size session_id isn nows (t : Transmitter) (w : W) log :
  inv (t, mkTraced w log) → datagram_occupied_ t = false → is_u8 (max_retries (timing_ t)) →
  start_args_wf obj size session_id isn →
  (startTransfer obj size session_id isn t).1 = StartResult.kStarted →
  ForallOrdPairs (λ a b, elapsed b a (retransmission_timeout_ms (timing_ t)) = true) nows →
  let s0 := (run_call routes (CStart obj size session_id isn) (t, mkTraced w log)).2 in
  let s := run_calls routes (map CProcess nows) s0 in
  (isRunning (session_ s.1) = true → ∃ sents,
     log_of s.2 = log_of s0.2 ++ map (offered (setup (session_ s0.1))) sents ∧
     length sents = length nows ∧ admitted_count sents ≤ max_retries (timing_ t) + 1) ∧
  (max_retries (timing_ t) + 1 + refused (drop (length (log_of s0.2)) (log_of s.2)) < zlen nows →
     isRunning (session_ s.1) = false).
Proof.
  intros Hinv Hd Hm Hargs Hstart Hsp. cbv zeta.
  pose proof (tx_run_call_inv routes (CStart obj size session_id isn) _ Hargs Hinv) as Hinv0.
  pose proof (startTransfer_spec obj size session_id isn t (tx_transmit _ (proj1 Hinv)) Hargs) as Hs.
  revert Hinv0. unfold wp. simpl. unfold self, update, mbind, State_bind, gets. simpl.
  destruct (startTransfer obj size session_id isn t) as [r t']. simpl in Hstart. subst r.
  destruct Hs as (_ & s & count & -> & Hcount & _). simpl.
  set (t0 := set_session_ _ t). intros Hinv0.
  assert (Hwait : waiting nows t0).
  { split; simpl; try done. unfold is_u8 in Hm. lia. }
  pose proof (waiting_polls nows t0 _ _ Hinv0 Hwait) as Hpolls. cbv zeta in Hpolls.
  destruct (run_calls _ _ _) as [t1 [w1 log1]]. cbn [fst snd log_of world] in *.
  split; [exact Hpolls|]. intros Hmany. apply not_true_is_false. intros Hrun.
  destruct (Hpolls Hrun) as (sents & -> & Hlen & Hb). rewrite drop_app_length in Hmany.
  pose proof (refused_offered (setup (session_ t0)) sents). unfold zlen in *.
  change (budget t0) with (max_retries (timing_ t) + 1) in Hb. lia.
Qed.
End polls.

Lemma demo_inv (answers : list RouteResult.t) :
  inv (demo_transmitter, mkTraced answers []).
Proof. apply new_inv; [split; by_evaluation| |]; apply new_packet_wf; by_evaluation. Qed.

(** A started transfer whose link is full at first, with a datagram of the peer pending. *)
Definition demo_started : Transmitter * Traced (list RouteResult.t) :=
  run_calls demo_routes [CStart demo_object 2 7 250; CReceive (from_peer (MUserDatagram [9]))]
    (demo_transmitter, mkTraced [RouteResult.kFull] []).

Lemma process_outcome_witness :
  let out := process demo_routes 5 demo_started in
  datagram_occupied_ demo_started.1 = true ∧ out.1 = ProcessResult.kBlocked ∧
  log_of (taken demo_started).2 = log_of demo_started.2 ++ [GotDatagram [9]] ∧
  only_callbacks (log_of demo_started.2) (taken demo_started) ∧
  datagram_occupied_ out.2.1 = false ∧
  session_ out.2.1 = session_ (taken demo_started).1 ∧
  ∃ pdu, log_of out.2.2 = log_of (taken demo_started).2 ++ [Sent pdu RouteResult.kFull].
Proof.
  assert (Hinv : inv demo_started).
  { apply tx_run_calls_inv; [|apply demo_inv]. repeat constructor; by_evaluation. }
  pose proof (process_outcome demo_routes 5 demo_started Hinv) as H.
  assert (E : (process demo_routes 5 demo_started).1 = ProcessResult.kBlocked)
    by (vm_compute; reflexivity).
  cbv zeta in *. rewrite E in H. split; [vm_compute; reflexivity|]. split; [exact E|].
  split; [vm_compute; reflexivity|exact H].
Defined.

Lemma silent_peer_gives_up_witness :
  let s0 := (run_call demo_routes (CStart demo_object 2 7 250)
    (demo_transmitter, mkTraced [RouteResult.kAccepted; RouteResult.kFull] [])).2 in
  let s := run_calls demo_routes (map CProcess [0; 100; 250; 400; 1000]) s0 in
  log_of s.2 = log_of s0.2 ++
    map (offered (setup (session_ s0.1))) [true; false; true; true] ++
    [Sent [6; 7] RouteResult.kAccepted; Aborted; Failed] ∧
  isRunning (session_ s.1) = false.
Proof.
  split; [vm_compute; reflexivity|].
  refine (proj2 (silent_peer_gives_up demo_routes demo_object 2 7 250 [0; 100; 250; 400; 1000]
    demo_transmitter [RouteResult.kAccepted; RouteResult.kFull] [] _ _ _ _ _ _) _).
  - apply demo_inv.
  - reflexivity.
  - by_evaluation.
  - repeat split; by_evaluation.
  - vm_compute. reflexivity.
  - repeat constructor; vm_compute; reflexivity.
  - vm_compute. reflexivity.
Defined.
