(* ===== verification/BitsReceiver.v ===== *)
(** * The BITS receiver endpoint
      ([transports/bits/bits.h], [bits.cpp]: [BitsReceiver])

    The packet slots around the receiver engine: [receive] copies a PDU of the
    connection into a free slot, [process] hands slots to the engine.  The endpoint
    is a client of the engine's two interfaces, the service's callbacks and the PDU
    sender; the sender it implements itself, with its transmit packet and the
    router, is the instance [endpoint_sender].  All packet buffers of the storage are
    distinct objects. *)

From S2P Require Import Prelude Packet Routing BitsCodec BitsEngine BitsEngineRuns.
From S2P Require Import BitsTransmitter.
Local Open Scope Z_scope.

Definition slotCount (segment_ingress : list (option PacketBuffer)) : Z :=
  if zlen segment_ingress <? kCompactWindowWidth then zlen segment_ingress
  else kCompactWindowWidth.

(** [receiverEngineConfig]: a null slot pointer is [None]. *)
Definition receiverEngineConfig (segment_ingress : list (option PacketBuffer))
    (inactivity_timeout_ms : Z) : ReceiverEngineConfig :=
  let '(window_width, maximum_segment_size) :=
    foldl (λ '(width, max_size) slot,
      match slot with
      | None => (width, max_size)
      | Some slot =>
          let slot_segment_size :=
            if kSegmentHeaderSize <=? capacity slot
            then u16 (capacity slot - kSegmentHeaderSize) else 0 in
          (u8 (width + 1),
           if slot_segment_size <? max_size then slot_segment_size else max_size)
      end) (0, 0xFFFF) (take (Z.to_nat (slotCount segment_ingress)) segment_ingress) in
  {| maximum_segment_size := if window_width =? 0 then 0 else maximum_segment_size;
     receive_window_width := window_width;
     maximum_object_size := 0xFFFFFFFF;
     inactivity_timeout_ms := inactivity_timeout_ms |}.

Module Receiver.

Record Receiver := {
  connection_ : ConnectionAddress;
  segment_ingress : list (option PacketBuffer);
  datagram_ingress : PacketBuffer;
  segment_occupied_mask_ : Z;
  datagram_occupied_ : bool;
  engine_ : Engine;
}.

Definition set_segment_ingress v r := {| connection_ := connection_ r; segment_ingress := v;
  datagram_ingress := datagram_ingress r; segment_occupied_mask_ := segment_occupied_mask_ r;
  datagram_occupied_ := datagram_occupied_ r; engine_ := engine_ r |}.
Definition set_datagram_ingress v r := {| connection_ := connection_ r;
  segment_ingress := segment_ingress r; datagram_ingress := v;
  segment_occupied_mask_ := segment_occupied_mask_ r;
  datagram_occupied_ := datagram_occupied_ r; engine_ := engine_ r |}.
Definition set_segment_occupied_mask_ v r := {| connection_ := connection_ r;
  segment_ingress := segment_ingress r; datagram_ingress := datagram_ingress r;
  segment_occupied_mask_ := v; datagram_occupied_ := datagram_occupied_ r;
  engine_ := engine_ r |}.
Definition set_datagram_occupied_ v r := {| connection_ := connection_ r;
  segment_ingress := segment_ingress r; datagram_ingress := datagram_ingress r;
  segment_occupied_mask_ := segment_occupied_mask_ r; datagram_occupied_ := v;
  engine_ := engine_ r |}.
Definition set_engine_ v r := {| connection_ := connection_ r;
  segment_ingress := segment_ingress r; datagram_ingress := datagram_ingress r;
  segment_occupied_mask_ := segment_occupied_mask_ r;
  datagram_occupied_ := datagram_occupied_ r; engine_ := v |}.

(** The body of the slot loop of [receive]; the state is the receiver and
    [free_slot_seen]. *)
Definition trySlot (packet : PacketBuffer) (index : Z)
    : State (Receiver * bool) (option ReceiveResult.t) :=
  λ '(r, free_slot_seen),
    match segment_ingress r !! Z.to_nat index with
    | Some (Some slot) =>
        if negb (Z.land (segment_occupied_mask_ r) (bit16 index) =? 0)
        then (None, (r, free_slot_seen))
        else
        let '(copied, slot) := copyPacket packet slot in
        let r := set_segment_ingress (<[Z.to_nat index := Some slot]> (segment_ingress r)) r in
        if copied
        then (Some ReceiveResult.kAccepted,
              (set_segment_occupied_mask_
                 (u16 (Z.lor (segment_occupied_mask_ r) (bit16 index))) r, true))
        else (None, (r, true))
    | _ => (None, (r, free_slot_seen))
    end.

Definition receive (packet : PacketBuffer) (r : Receiver) : ReceiveResult.t * Receiver :=
  if negb (matchesConnection packet (connection_ r)) then (ReceiveResult.kRejected, r)
  else match payload packet with
  | [] => (ReceiveResult.kRejected, r)
  | encoded :: _ =>
      match decodeControl encoded with
      | None => (ReceiveResult.kRejected, r)
      | Some control =>
          if negb (bool_decide (type control = kSegment)) then
            if datagram_occupied_ r then (ReceiveResult.kFull, r)
            else
            let '(copied, ingress) := copyPacket packet (datagram_ingress r) in
            let r := set_datagram_ingress ingress r in
            if negb copied then (ReceiveResult.kRejected, r)
            else (ReceiveResult.kAccepted, set_datagram_occupied_ true r)
          else
          let '(result, (r, free_slot_seen)) :=
            for_each (seqZ 0 (slotCount (segment_ingress r))) (trySlot packet) (r, false) in
          match result with
          | Some result => (result, r)
          | None => (if free_slot_seen then ReceiveResult.kRejected else ReceiveResult.kFull, r)
          end
      end
  end.

Section receiver.
Context {V : Type} `{!ReceiverCallbacks V, !ReceiverPduSender V}.
Variable max_width : Z.

Definition Op := State (Receiver * V).

Definition self : Op Receiver := gets fst.
Definition update (f : Receiver → Receiver) : Op unit := modify (λ '(r, v), (f r, v)).

(** A call of a member function of [engine_]. *)
Definition on_engine {A} (m : BitsEngine.Op (W := V) A) : Op A :=
  λ '(r, v), let '(a, (e, v)) := m (engine_ r, v) in (a, (set_engine_ e r, v)).

(** The packet of an occupied slot; a null slot is an empty span. *)
Definition slotPayload (r : Receiver) (index : Z) : bytes :=
  match segment_ingress r !! Z.to_nat index with
  | Some (Some packet) => payload packet
  | _ => []
  end.

Definition isOccupied (r : Receiver) (index : Z) : bool :=
  negb (Z.land (segment_occupied_mask_ r) (bit16 index) =? 0).

(** The first part of [process]: the occupied slot of the lowest index. *)
Definition processSegment (now_ms : Z) : Op ProcessResult.t :=
  r ← self;
  if segment_occupied_mask_ r =? 0 then mret ProcessResult.kIdle
  else match find (isOccupied r) (seqZ 0 kCompactWindowWidth) with
  | None => mret ProcessResult.kIdle
  | Some index =>
      update (λ r, set_segment_occupied_mask_
        (u16 (Z.land (segment_occupied_mask_ r) (not16 (bit16 index)))) r);;
      r ← self;
      on_engine (BitsEngine.process max_width (slotPayload r index) now_ms)
  end.

Definition process (now_ms : Z) : Op ProcessResult.t :=
  polled ← on_engine (poll now_ms);
  if bool_decide (polled = ProcessResult.kError) then
    update (λ r, set_datagram_occupied_ false (set_segment_occupied_mask_ 0 r));;
    mret ProcessResult.kError
  else
  result ← processSegment now_ms;
  r ← self;
  if datagram_occupied_ r then
    datagram_result ←
      on_engine (BitsEngine.process max_width (payload (datagram_ingress r)) now_ms);
    update (set_datagram_occupied_ false);;
    if bool_decide (datagram_result = ProcessResult.kError)
       || bool_decide (result = ProcessResult.kError)
    then mret ProcessResult.kError
    else if bool_decide (result = ProcessResult.kBlocked)
            || bool_decide (datagram_result = ProcessResult.kBlocked)
    then mret ProcessResult.kBlocked
    else mret ProcessResult.kProgress
  else mret result.

Definition sendDatagram (p : bytes) : Op SendResult.t := on_engine (BitsEngine.sendDatagram p).

Definition abort : Op SendResult.t := on_engine (BitsEngine.abort).

Definition new_receiver (connection : ConnectionAddress)
    (ingress : list (option PacketBuffer)) (datagram : PacketBuffer)
    (inactivity_timeout_ms : Z) : Receiver := {|
  connection_ := connection; segment_ingress := ingress; datagram_ingress := datagram;
  segment_occupied_mask_ := 0; datagram_occupied_ := false;
  engine_ := new_engine max_width (receiverEngineConfig ingress inactivity_timeout_ms) |}.
End receiver.

(** ** The receiver as the engine's PDU sender *)

(** The transmit packet beside the world of the service and the router. *)
Record Link (W : Type) := mkLink { transmit_packet : PacketBuffer; beyond : W }.
Arguments mkLink {W}.
Arguments transmit_packet {W}.
Arguments beyond {W}.

Section sender.
Context {W : Type} `{!ReceiverCallbacks W, !PacketForwarder W}.
Variable connection : ConnectionAddress.
Variable routes : list RouteTableEntry.

Definition receiverPrepare (payload_size : Z) : State (Link W) bytes :=
  λ l, let '(ok, packet) :=
         initializeConnection payload_size connection (cf_bits kNormal) (transmit_packet l) in
       (if ok then payload packet else [], mkLink packet (beyond l)).

Definition receiverSendPrepared : State (Link W) SendResult.t :=
  λ l, let '(result, w) := routerForward routes (transmit_packet l) (beyond l) in
       (sendResult result, mkLink (transmit_packet l) w).

Definition on_beyond {A} (m : State W A) : State (Link W) A :=
  λ l, let '(a, w) := m (beyond l) in (a, mkLink (transmit_packet l) w).

Definition endpoint_sender : ReceiverPduSender (Link W) := {|
  prepare := receiverPrepare;
  store contents :=
    modify (λ l, mkLink (write_payload 0 contents (transmit_packet l)) (beyond l));
  sendPrepared := receiverSendPrepared |}.

Definition endpoint_callbacks : ReceiverCallbacks (Link W) := {|
  beginTransfer info := on_beyond (beginTransfer info);
  onTransferFailed reason := on_beyond (onTransferFailed reason);
  onSegment offset p := on_beyond (onSegment offset p);
  onDatagram p := on_beyond (onDatagram p);
  onTransferComplete := on_beyond onTransferComplete;
  onTransferAborted reason := on_beyond (onTransferAborted reason) |}.
End sender.
End Receiver.
