(* ===== verification/BitsReceiverProps.v ===== *)
(** * Properties of the BITS receiver endpoint

    What the slots hold, what [process] hands to the engine, that the slots fit
    what the engine admits, and the session protocol of the composed endpoint. *)

From S2P Require Import Prelude Packet Routing BitsCodec BitsTransmitterRuns BitsEngine BitsEngineRuns.
From S2P Require Import BitsTransmitter BitsReceiver.
Import Receiver.
Local Open Scope Z_scope.

(** ** Storage *)

Record receiver_wf (r : Receiver) : Prop := {
  rwf_slots : ∀ i p, segment_ingress r !! i = Some (Some p) → packet_wf p;
  rwf_datagram : packet_wf (datagram_ingress r);
  rwf_mask : is_u16 (segment_occupied_mask_ r);
  rwf_occupied : ∀ i, 0 ≤ i → Z.testbit (segment_occupied_mask_ r) i = true →
    ∃ p, segment_ingress r !! Z.to_nat i = Some (Some p);
}.

(** The PDUs the endpoint holds: the occupied slots by index, then the datagram. *)
Definition pendingSegments (r : Receiver) : list bytes :=
  map (slotPayload r) (filter (λ i, isOccupied r i = true) (seqZ 0 kCompactWindowWidth)).
Definition pending (r : Receiver) : list bytes :=
  pendingSegments r ++ (if datagram_occupied_ r then [payload (datagram_ingress r)] else []).

(** A slot that can take a packet. *)
Definition free_slot (r : Receiver) (i : Z) (slot : PacketBuffer) : Prop :=
  segment_ingress r !! Z.to_nat i = Some (Some slot) ∧ isOccupied r i = false.

Lemma isOccupied_testbit r i :
  0 ≤ i < 16 → isOccupied r i = Z.testbit (segment_occupied_mask_ r) i.
Proof.
  intros Hi. unfold isOccupied. destruct (Z.testbit _ i) eqn:E.
  - apply negb_true_iff, Z.eqb_neq. by rewrite land_bit16, E by done.
  - by apply negb_false_iff, Z.eqb_eq, land_bit16.
Qed.

Definition stored (i : Z) (copy : PacketBuffer) (r : Receiver) : Receiver :=
  set_segment_occupied_mask_ (u16 (Z.lor (segment_occupied_mask_ r) (bit16 i)))
    (set_segment_ingress (<[Z.to_nat i := Some copy]> (segment_ingress r)) r).

(** The slot loop of [receive] over the indices [xs]: the first free slot that fits
    takes the packet; otherwise nothing changes. *)
Definition slots_tried (packet : PacketBuffer) (r : Receiver) (seen : bool) (xs : list Z)
    (out : option ReceiveResult.t * (Receiver * bool)) : Prop :=
  let '(result, (r', seen')) := out in
  match result with
  | Some result => result = ReceiveResult.kAccepted ∧ ∃ i slot copy,
      i ∈ xs ∧ free_slot r i slot ∧ packet_wf copy ∧ payload copy = payload packet ∧
      r' = stored i copy r
  | None => r' = r ∧ (∀ i slot, i ∈ xs → free_slot r i slot → capacity slot < size packet) ∧
      (seen' = true ↔ seen = true ∨ ∃ i slot, i ∈ xs ∧ free_slot r i slot)
  end.

Lemma slots_tried_skip packet r seen seen0 x xs out :
  (∀ slot, free_slot r x slot → capacity slot < size packet) →
  (seen0 = true ↔ seen = true ∨ ∃ slot, free_slot r x slot) →
  slots_tried packet r seen0 xs out → slots_tried packet r seen (x :: xs) out.
Proof.
  intros Hx Hseen. destruct out as [[result|] [r' seen']]; simpl.
  - intros (-> & i & slot & copy & Hi & Hrest). split; [done|].
    exists i, slot, copy. split; [by right|done].
  - intros (-> & Hall & Hiff). split; [done|]. split.
    + intros i slot [->|Hi]%elem_of_cons; [apply Hx|by apply Hall].
    + rewrite Hiff, Hseen. clear. split.
      * intros [[?|[slot ?]]|(i & slot & ? & ?)]; [by left|right|right].
        -- exists x, slot. split; [by left|done].
        -- exists i, slot. split; [by right|done].
      * intros [?|(i & slot & [->|?]%elem_of_cons & ?)]; [by left; left|left; right|right].
        -- by exists slot.
        -- by exists i, slot.
Qed.

Lemma slots_loop packet r seen xs :
  receiver_wf r → packet_wf packet →
  slots_tried packet r seen xs (for_each xs (trySlot packet) (r, seen)).
Proof.
  intros Hr Hp. revert seen. induction xs as [|x xs IH]; intros seen.
  { simpl. split_and!; [done|by intros ? ? ?%elem_of_nil|]. split; [by left|].
    intros [?|(? & ? & ?%elem_of_nil & _)]; done. }
  simpl. unfold mbind, State_bind, trySlot at 1.
  destruct (segment_ingress r !! Z.to_nat x) as [[slot|]|] eqn:Hslot.
  2-3: apply (slots_tried_skip _ _ _ seen); [| |apply IH]; unfold free_slot; rewrite Hslot;
    [by intros ? []|split; [by left|intros [?|(? & ? & _)]; done]].
  fold (isOccupied r x). destruct (isOccupied r x) eqn:Hocc.
  { apply (slots_tried_skip _ _ _ seen); [| |apply IH]; unfold free_slot; rewrite Hocc;
      [by intros ? []|split; [by left|intros [?|(? & _ & ?)]; done]]. }
  pose proof (copyPacket_spec packet slot Hp (rwf_slots _ Hr _ _ Hslot)) as Hcopy.
  destruct (Z.leb_spec (size packet) (capacity slot)).
  - destruct Hcopy as (copy & -> & Hw & Hpay & _). split; [done|].
    exists x, slot, copy. split_and!; try done. by left.
  - rewrite Hcopy. rewrite list_insert_id by done.
    replace (set_segment_ingress (segment_ingress r) r) with r by by destruct r.
    apply (slots_tried_skip _ _ _ true); [| |apply IH]; unfold free_slot; rewrite Hslot.
    + by intros ? [[= <-] _].
    + split; [|done]. intros _. right. by exists slot.
Qed.

(** ** Filling and emptying a slot *)

Lemma slot_stored_wf i slot copy r :
  receiver_wf r → 0 ≤ i < 16 → free_slot r i slot → packet_wf copy → receiver_wf (stored i copy r).
Proof.
  intros [Hs Hd Hm Ho] Hi [Hslot _] Hw.
  pose proof (lookup_lt_Some _ _ _ Hslot) as Hlt.
  split; simpl; [|done|apply u16_range|].
  - intros j p Hj. destruct (decide (j = Z.to_nat i)) as [->|Hne].
    + rewrite list_lookup_insert_eq in Hj by done. by injection Hj as <-.
    + rewrite list_lookup_insert_ne in Hj by done. by eapply Hs.
  - intros j Hj Hbit. destruct (decide (Z.to_nat j = Z.to_nat i)) as [E|Hne].
    + rewrite E. exists copy. by apply list_lookup_insert_eq.
    + rewrite list_lookup_insert_ne by done. apply Ho; [done|].
      rewrite testbit_u16 in Hbit by done. apply andb_true_iff in Hbit as [_ Hbit].
      rewrite Z.lor_spec, testbit_bit16 in Hbit by lia.
      apply orb_true_iff in Hbit as [?|?%Z.eqb_eq]; [done|lia].
Qed.

(** The occupied slots, when bit [i] is set or cleared. *)
Lemma occupied_change r r' i :
  0 ≤ i < 16 → isOccupied r i = false → isOccupied r' i = true →
  (∀ j, 0 ≤ j < 16 → j ≠ i → isOccupied r' j = isOccupied r j ∧ slotPayload r' j = slotPayload r j) →
  pendingSegments r' ≡ₚ slotPayload r' i :: pendingSegments r.
Proof.
  intros Hi Hfree Hocc Hsame. unfold pendingSegments, kCompactWindowWidth.
  assert (Hp : filter (λ j, isOccupied r' j = true) (seqZ 0 16) ≡ₚ
    i :: filter (λ j, isOccupied r j = true) (seqZ 0 16)).
  { apply NoDup_Permutation; [apply list.NoDup_filter, NoDup_seqZ| |].
    - apply list.NoDup_cons. split; [|apply list.NoDup_filter, NoDup_seqZ].
      rewrite list_elem_of_filter. by rewrite Hfree; intros [? _].
    - intros j. rewrite elem_of_cons, !list_elem_of_filter, elem_of_seqZ.
      destruct (decide (j = i)) as [->|Hne]; [intuition (done || lia)|].
      split; [intros [Ho Hj]|intros [?|[Ho Hj]]]; try done; [right|];
        destruct (Hsame j) as [E _]; try lia; rewrite E in *; done. }
  rewrite Hp. cbn [map]. apply perm_skip. erewrite map_ext_in; [reflexivity|].
  intros j Hj%list_elem_of_In%list_elem_of_filter. destruct Hj as [Hj Hr%elem_of_seqZ].
  apply Hsame; [lia|]. intros ->. congruence.
Qed.

Lemma stored_pending i slot copy r :
  receiver_wf r → 0 ≤ i < 16 → free_slot r i slot →
  pendingSegments (stored i copy r) ≡ₚ payload copy :: pendingSegments r.
Proof.
  intros Hr Hi [Hslot Hfree]. pose proof (lookup_lt_Some _ _ _ Hslot) as Hlt.
  assert (Hbit : ∀ j, 0 ≤ j < 16 → isOccupied (stored i copy r) j = isOccupied r j || (j =? i)).
  { intros j Hj. rewrite !isOccupied_testbit by done. simpl.
    rewrite testbit_u16, (proj2 (Z.ltb_lt _ _)), Z.lor_spec, testbit_bit16 by lia. done. }
  assert (Hpay : slotPayload (stored i copy r) i = payload copy).
  { unfold slotPayload. simpl. by rewrite list_lookup_insert_eq. }
  rewrite <- Hpay. apply occupied_change; [done|done| |].
  - by rewrite Hbit, Z.eqb_refl, orb_true_r.
  - intros j Hj Hne. rewrite Hbit, (proj2 (Z.eqb_neq _ _)), orb_false_r by done.
    split; [done|]. unfold slotPayload. simpl. by rewrite list_lookup_insert_ne by lia.
Qed.

(** Taking the slot [process] picks. *)
Definition taken (i : Z) (r : Receiver) : Receiver :=
  set_segment_occupied_mask_ (u16 (Z.land (segment_occupied_mask_ r) (not16 (bit16 i)))) r.

Lemma taken_testbit i r j : 0 ≤ i < 16 → 0 ≤ j →
  Z.testbit (segment_occupied_mask_ (taken i r)) j =
    (j <? 16) && Z.testbit (segment_occupied_mask_ r) j && negb (j =? i).
Proof.
  intros Hi Hj. simpl. rewrite testbit_u16, Z.land_spec, testbit_not16, testbit_bit16 by lia.
  destruct (j <? 16); [done|by rewrite andb_false_r].
Qed.

Lemma taken_wf i r : receiver_wf r → 0 ≤ i < 16 → receiver_wf (taken i r).
Proof.
  intros [Hs Hd Hm Ho] Hi. split; [done|done|apply u16_range|].
  intros j Hj Hbit. rewrite taken_testbit in Hbit by done.
  apply andb_true_iff in Hbit as [[_ ?]%andb_true_iff _]. by apply Ho.
Qed.

Lemma taken_pending i r :
  0 ≤ i < 16 → isOccupied r i = true →
  pendingSegments r ≡ₚ slotPayload r i :: pendingSegments (taken i r).
Proof.
  intros Hi Hocc.
  assert (Hbit : ∀ j, 0 ≤ j < 16 → isOccupied (taken i r) j = isOccupied r j && negb (j =? i)).
  { intros j Hj. rewrite !isOccupied_testbit, taken_testbit by lia.
    by rewrite (proj2 (Z.ltb_lt _ _)) by lia. }
  apply occupied_change; [done| |done|].
  - by rewrite Hbit, Z.eqb_refl, andb_false_r.
  - intros j Hj Hne. by rewrite Hbit, (proj2 (Z.eqb_neq _ _)), andb_true_r.
Qed.

(** ** What [receive] does *)

Lemma slotCount_range l : 0 ≤ slotCount l ≤ 16 ∧ slotCount l ≤ zlen l.
Proof. unfold slotCount, kCompactWindowWidth, zlen. destruct (Z.ltb_spec (Z.of_nat (length l)) 16); lia. Qed.

Lemma slot_in_range r i slot :
  0 ≤ i < 16 → free_slot r i slot → i ∈ seqZ 0 (slotCount (segment_ingress r)).
Proof.
  intros Hi [Hslot%lookup_lt_Some _]. apply elem_of_seqZ. unfold slotCount, kCompactWindowWidth, zlen.
  destruct (Z.ltb_spec (Z.of_nat (length (segment_ingress r))) 16); lia.
Qed.

(** What a PDU changes, by the answer of [receive]. *)
Definition received_as (packet : PacketBuffer) (r : Receiver) (out : ReceiveResult.t * Receiver)
    : Prop :=
  receiver_wf out.2 ∧ engine_ out.2 = engine_ r ∧ connection_ out.2 = connection_ r ∧
  match out.1 with
  | ReceiveResult.kAccepted =>
      matchesConnection packet (connection_ r) = true ∧
      pending out.2 ≡ₚ payload packet :: pending r
  | ReceiveResult.kFull =>
      out.2 = r ∧ matchesConnection packet (connection_ r) = true ∧
      (datagram_occupied_ r = true ∨ ∀ i slot, 0 ≤ i < 16 → ¬ free_slot r i slot)
  | ReceiveResult.kRejected => out.2 = r
  end.

Lemma receive_datagram packet r :
  receiver_wf r → packet_wf packet → matchesConnection packet (connection_ r) = true →
  received_as packet r
    (if datagram_occupied_ r then (ReceiveResult.kFull, r)
     else
     let '(copied, ingress) := copyPacket packet (datagram_ingress r) in
     let r := set_datagram_ingress ingress r in
     if negb copied then (ReceiveResult.kRejected, r)
     else (ReceiveResult.kAccepted, set_datagram_occupied_ true r)).
Proof.
  intros Hr Hp Hmatch. pose proof Hr as [Hs Hd Hm Ho].
  unfold received_as. destruct (datagram_occupied_ r) eqn:Hocc; [cbn [fst snd]; split_and!; try done; by left|].
  pose proof (copyPacket_spec packet _ Hp Hd) as Hcopy. destruct (_ <=? _).
  - destruct Hcopy as (copy & -> & Hw & Hpay & _). cbn [fst snd]. split_and!; try done.
    unfold pending. rewrite Hocc, app_nil_r. simpl. rewrite Hpay.
    by rewrite <- Permutation_cons_append.
  - rewrite Hcopy. replace (set_datagram_ingress (datagram_ingress r) r) with r by by destruct r.
    by split_and!.
Qed.

Lemma receive_segment packet r :
  receiver_wf r → packet_wf packet → matchesConnection packet (connection_ r) = true →
  let out :=
    let '(result, (r, free_slot_seen)) :=
      for_each (seqZ 0 (slotCount (segment_ingress r))) (trySlot packet) (r, false) in
    match result with
    | Some result => (result, r)
    | None => (if free_slot_seen then ReceiveResult.kRejected else ReceiveResult.kFull, r)
    end in
  received_as packet r out ∧
  (out.1 ≠ ReceiveResult.kAccepted →
     ∀ i slot, 0 ≤ i < 16 → free_slot r i slot → capacity slot < size packet).
Proof.
  intros Hr Hp Hmatch.
  pose proof (slots_loop packet r false (seqZ 0 (slotCount (segment_ingress r))) Hr Hp) as Hloop.
  destruct (for_each _ _ _) as [[result|] [r' seen]]; cbv zeta; simpl in Hloop.
  - destruct Hloop as (-> & i & slot & copy & Hi%elem_of_seqZ & Hfree & Hw & Hpay & ->).
    pose proof (slotCount_range (segment_ingress r)). assert (0 ≤ i < 16) by lia.
    split; [|done]. unfold received_as. cbn [fst snd].
    split_and!; try done; [by eapply slot_stored_wf|]. unfold pending.
    change (datagram_occupied_ (stored i copy r)) with (datagram_occupied_ r).
    change (datagram_ingress (stored i copy r)) with (datagram_ingress r).
    rewrite (stored_pending i slot) by done. by rewrite Hpay.
  - destruct Hloop as (-> & Hall & Hseen). split.
    + unfold received_as. cbn [fst snd]. destruct seen; split_and!; try done.
      right. intros i slot Hi Hfree.
      destruct Hseen as [_ Hseen]. discriminate Hseen. right. exists i, slot.
      split; [by eapply slot_in_range|done].
    + intros _ i slot Hi Hfree. apply (Hall i slot); [by eapply slot_in_range|done].
Qed.

Lemma receive_stores packet r :
  receiver_wf r → packet_wf packet → received_as packet r (receive packet r).
Proof.
  intros Hr Hp. unfold receive.
  destruct (matchesConnection packet (connection_ r)) eqn:Hmatch; [|by split_and!].
  cbn [negb]. destruct (payload packet) as [|encoded rest] eqn:Epay; [by split_and!|].
  destruct (decodeControl encoded) as [control|]; [|by split_and!].
  destruct (negb _); [by apply receive_datagram|by apply receive_segment].
Qed.

(** ** What [process] does *)

Section process.
Context {V : Type} `{!ReceiverCallbacks V, !ReceiverPduSender V}.
Variable max_width : Z.

Lemma on_engine_eq {A} (m : BitsEngine.Op (W := V) A) r v :
  on_engine m (r, v) = ((m (engine_ r, v)).1,
    (set_engine_ (m (engine_ r, v)).2.1 r, (m (engine_ r, v)).2.2)).
Proof. unfold on_engine. by destruct (m (engine_ r, v)) as [a [e v']]. Qed.

Lemma set_engine_wf e r : receiver_wf r → receiver_wf (set_engine_ e r).
Proof. by intros []. Qed.

(** The state after the engine has processed the messages in order. *)
Definition handed_to_engine (now_ms : Z) (handed : list bytes) (e : Engine) (v : V) : Engine * V :=
  run_calls max_width (map (λ m, CProcess m now_ms) handed) (e, v).

Lemma pendingSegments_nil r :
  (∀ i, 0 ≤ i < 16 → isOccupied r i = false) → pendingSegments r = [].
Proof.
  intros Hall. unfold pendingSegments, kCompactWindowWidth.
  destruct (filter _ (seqZ 0 16)) as [|i l] eqn:E; [done|].
  assert (Hi : i ∈ filter (λ i, isOccupied r i = true) (seqZ 0 16)) by (rewrite E; by left).
  apply list_elem_of_filter in Hi as [Hi Hrange%elem_of_seqZ]. rewrite Hall in Hi; [done|lia].
Qed.

(** The slot to process: none, or the first occupied one. *)
Lemma next_slot r :
  if segment_occupied_mask_ r =? 0 then pendingSegments r = []
  else match find (isOccupied r) (seqZ 0 kCompactWindowWidth) with
  | None => pendingSegments r = []
  | Some i => 0 ≤ i < 16 ∧ isOccupied r i = true
  end.
Proof.
  destruct (Z.eqb_spec (segment_occupied_mask_ r) 0) as [E|_].
  - apply pendingSegments_nil. intros i Hi. by rewrite isOccupied_testbit, E, Z.bits_0.
  - destruct (find _ _) as [i|] eqn:E.
    + apply find_some in E as [Hi%list_elem_of_In%elem_of_seqZ Hocc].
      unfold kCompactWindowWidth in Hi. split; [lia|done].
    + apply pendingSegments_nil. intros i Hi. apply (find_none _ _ E).
      apply list_elem_of_In, elem_of_seqZ. unfold kCompactWindowWidth. lia.
Qed.

(** [process] without the poll: what is handed over, and what stays. *)
Definition hands (now_ms : Z) (handed : list bytes) (r r' : Receiver) (v v' : V) : Prop :=
  receiver_wf r' ∧ connection_ r' = connection_ r ∧
  (engine_ r', v') = handed_to_engine now_ms handed (engine_ r) v.

Lemma processSegment_spec now_ms r v :
  receiver_wf r →
  let out := processSegment max_width now_ms (r, v) in
  ∃ handed, hands now_ms handed r out.2.1 v out.2.2 ∧
    datagram_occupied_ out.2.1 = datagram_occupied_ r ∧
    datagram_ingress out.2.1 = datagram_ingress r ∧
    pendingSegments r ≡ₚ handed ++ pendingSegments out.2.1 ∧
    (length handed ≤ 1)%nat ∧ (pendingSegments r ≠ [] → handed ≠ []).
Proof.
  intros Hr. pose proof (next_slot r) as Hnext.
  assert (Hnone : pendingSegments r = [] → ∃ handed, hands now_ms handed r r v v ∧
    datagram_occupied_ r = datagram_occupied_ r ∧ datagram_ingress r = datagram_ingress r ∧
    pendingSegments r ≡ₚ handed ++ pendingSegments r ∧ (length handed ≤ 1)%nat ∧
    (pendingSegments r ≠ [] → handed ≠ [])).
  { intros E. exists []. by split_and!; [split_and!| | | |simpl; lia|]. }
  unfold processSegment, self, gets, mbind, State_bind. cbv beta iota zeta. cbn [fst].
  destruct (segment_occupied_mask_ r =? 0); [by apply Hnone|].
  destruct (find _ _) as [i|]; [|by apply Hnone]. destruct Hnext as [Hi Hocc].
  exists [slotPayload r i]. unfold update, modify. fold (taken i r). cbn [fst].
  rewrite on_engine_eq. cbn [fst snd].
  change (slotPayload (taken i r) i) with (slotPayload r i).
  change (engine_ (taken i r)) with (engine_ r).
  split; [split_and!|].
  - by apply set_engine_wf, taken_wf.
  - done.
  - unfold handed_to_engine. simpl. by destruct (BitsEngine.process _ _ _ _) as [? []].
  - split_and!; [done|done|by apply taken_pending|simpl; lia|done].
Qed.

Lemma handed_snoc now_ms handed m e v :
  handed_to_engine now_ms (handed ++ [m]) e v =
    (BitsEngine.process max_width m now_ms (handed_to_engine now_ms handed e v)).2.
Proof. unfold handed_to_engine, run_calls. by rewrite map_app, foldl_app. Qed.

(** The pending datagram after the segment. *)
Lemma datagram_hands now_ms handed r r1 v v1 :
  hands now_ms handed r r1 v v1 → datagram_occupied_ r1 = true →
  let m := payload (datagram_ingress r1) in
  let out := (BitsEngine.process max_width m now_ms (engine_ r1, v1)).2 in
  hands now_ms (handed ++ [m]) r (set_datagram_occupied_ false (set_engine_ out.1 r1)) v out.2 ∧
  pending r1 ≡ₚ m :: pending (set_datagram_occupied_ false (set_engine_ out.1 r1)).
Proof.
  intros (Hw & Hc & He) Hocc. cbv zeta. rewrite He.
  rewrite <- handed_snoc. split; [split_and!|].
  - destruct Hw. by split.
  - done.
  - simpl. by destruct (handed_to_engine now_ms (handed ++ _) (engine_ r) v).
  - unfold pending. rewrite Hocc. simpl. rewrite app_nil_r.
    by rewrite <- Permutation_cons_append.
Qed.

Lemma pending_cleared r :
  pending (set_datagram_occupied_ false (set_segment_occupied_mask_ 0 r)) = [].
Proof.
  unfold pending. rewrite pendingSegments_nil; [done|].
  intros i Hi. by rewrite isOccupied_testbit, Z.bits_0.
Qed.

Lemma process_hands now_ms r v :
  receiver_wf r →
  let out := process max_width now_ms (r, v) in
  let polled := poll now_ms (engine_ r, v) in
  let r1 := set_engine_ polled.2.1 r in
  if bool_decide (polled.1 = ProcessResult.kError)
  then out.1 = ProcessResult.kError ∧ pending out.2.1 = [] ∧
       hands now_ms [] r1 out.2.1 polled.2.2 out.2.2
  else ∃ handed, hands now_ms handed r1 out.2.1 polled.2.2 out.2.2 ∧
    pending r ≡ₚ handed ++ pending out.2.1 ∧ (length handed ≤ 2)%nat ∧
    (pending r ≠ [] → handed ≠ []).
Proof.
  intros Hr. cbv zeta. unfold process, mbind, State_bind.
  rewrite on_engine_eq. cbv beta iota zeta.
  assert (Hr1 : receiver_wf (set_engine_ (poll now_ms (engine_ r, v)).2.1 r)) by by apply set_engine_wf.
  change (pending r) with (pending (set_engine_ (poll now_ms (engine_ r, v)).2.1 r)).
  generalize dependent (set_engine_ (poll now_ms (engine_ r, v)).2.1 r). intros r1 Hr1.
  generalize (poll now_ms (engine_ r, v)).2.2. intros v1. case_bool_decide as Hp.
  { unfold update, modify, mret, State_ret. cbn [fst snd].
    split; [done|]. split; [apply pending_cleared|]. split; [|done].
    destruct Hr1 as [Hs Hd Hm Ho]. split; simpl; try done. intros i Hi. by rewrite Z.bits_0. }
  pose proof (processSegment_spec now_ms r1 v1 Hr1) as (handed & Hh & Hocc & Hin & Hperm & Hlen & Hne).
  destruct (processSegment max_width now_ms (r1, v1)) as [result [r2 v2]].
  unfold self, gets. cbn [fst snd] in *.
  assert (Hpend : pending r1 ≡ₚ handed ++ pending r2)
    by (unfold pending; rewrite Hocc, Hin, Hperm; by rewrite app_assoc).
  destruct (datagram_occupied_ r2) eqn:Hocc2.
  - rewrite on_engine_eq. cbv beta iota zeta.
    destruct (datagram_hands now_ms handed r1 r2 v1 v2 Hh Hocc2) as [Hh' Hperm'].
    set (m := payload (datagram_ingress r2)) in *. exists (handed ++ [m]).
    destruct (BitsEngine.process max_width m now_ms (engine_ r2, v2)) as [answer [e v3]].
    cbn [fst snd] in *. unfold update, modify. cbn [fst snd].
    match goal with |- context [(if ?b then mret ProcessResult.kError else ?k) ?s] =>
      assert (E : ((if b then mret ProcessResult.kError else k) s).2 = s) end.
    { destruct (_ || _); [done|]. destruct (_ || _); done. }
    rewrite E. cbn [fst snd]. split; [exact Hh'|]. split.
    + rewrite Hpend, Hperm'. by rewrite <- app_assoc.
    + rewrite length_app. split; [simpl; lia|]. intros _. by destruct handed.
  - exists handed. split; [exact Hh|]. split; [exact Hpend|]. split; [lia|].
    intros Hp'. apply Hne. intros E. apply Hp'. unfold pending. by rewrite E, <- Hocc.
Qed.
End process.

(** ** The configuration of the engine *)

Definition slots_wf (slots : list (option PacketBuffer)) : Prop :=
  ∀ i p, slots !! i = Some (Some p) → packet_wf p.

Definition configStep : Z * Z → option PacketBuffer → Z * Z :=
  λ '(width, max_size) slot,
    match slot with
    | None => (width, max_size)
    | Some slot =>
        let slot_segment_size :=
          if kSegmentHeaderSize <=? capacity slot
          then u16 (capacity slot - kSegmentHeaderSize) else 0 in
        (u8 (width + 1), if slot_segment_size <? max_size then slot_segment_size else max_size)
    end.

Lemma config_fold slots width max_size :
  Forall (λ slot, if slot is Some p then packet_wf p else True) slots →
  0 ≤ width → width + zlen slots < 256 → is_u16 max_size →
  let out := foldl configStep (width, max_size) slots in
  width ≤ out.1 ≤ width + zlen slots ∧ is_u16 out.2 ∧ out.2 ≤ max_size ∧
  ∀ slot, Some slot ∈ slots → out.2 ≤ Z.max 0 (capacity slot - kSegmentHeaderSize).
Proof.
  intros Hwf. revert width max_size. induction Hwf as [|[p|] slots Hp _ IH]; intros w m Hw Hlen Hm.
  { unfold zlen in *. simpl in *. split_and!; try lia; [done|]. by intros slot ?%elem_of_nil. }
  - unfold zlen in *. simpl length in *. simpl foldl. rewrite u8_id by (unfold is_u8; lia).
    pose proof (pwf_capacity _ Hp) as Hcap. unfold kSegmentHeaderSize, is_u16 in *.
    set (n := if 4 <=? capacity p then u16 (capacity p - 4) else 0).
    assert (Hn : 0 ≤ n ∧ n = Z.max 0 (capacity p - 4)).
    { unfold n. destruct (Z.leb_spec 4 (capacity p)); [|lia]. rewrite u16_id; [lia|]. unfold is_u16. lia. }
    clearbody n. specialize (IH (w + 1) (if n <? m then n else m)).
    destruct (Z.ltb_spec n m); destruct IH as (H1 & H2 & H3 & H4); try lia;
      (split_and!; [lia|lia|lia|lia|lia|]); intros slot [[= ->]|Hin]%elem_of_cons; try by apply H4.
    all: lia.
  - unfold zlen in *. simpl length in *. destruct (IH w m) as (H1 & H2 & H3 & H4); try lia; [done|].
    simpl. split_and!; try done; try lia. intros slot [?|Hin]%elem_of_cons; [done|by apply H4].
Qed.

Lemma receiver_config slots timeout :
  slots_wf slots → is_u32 timeout →
  let c := receiverEngineConfig slots timeout in
  config_wf c ∧ receive_window_width c ≤ 16 ∧
  ∀ i slot, (i < 16)%nat → slots !! i = Some (Some slot) →
    maximum_segment_size c ≤ Z.max 0 (capacity slot - kSegmentHeaderSize).
Proof.
  intros Hwf Ht. unfold receiverEngineConfig. fold configStep.
  pose proof (slotCount_range slots) as [Hc Hlen].
  set (front := take (Z.to_nat (slotCount slots)) slots).
  assert (Hfront : zlen front ≤ 16) by (unfold zlen, front; rewrite length_take; lia).
  destruct (config_fold front 0 0xFFFF) as (Hw & Hm & _ & Hall); [|lia|lia|done|].
  { apply list.Forall_forall. intros [p|] Hin; [|done].
    apply list_elem_of_lookup in Hin as [i Hi]. apply lookup_take_Some in Hi as [Hi _].
    by eapply Hwf. }
  destruct (foldl configStep (0, 0xFFFF) front) as [width max_size]. cbn [fst snd] in *. cbv zeta.
  split; [|split; [simpl; lia|]].
  - split_and!; simpl; try done; [by destruct (width =? 0)|unfold is_u8; lia].
  - intros i slot Hi Hslot. simpl. assert (Hin : Some slot ∈ front).
    { apply list_elem_of_lookup. exists i. apply lookup_take_Some. split; [done|].
      pose proof (lookup_lt_Some _ _ _ Hslot). unfold slotCount, kCompactWindowWidth, zlen.
      destruct (Z.ltb_spec (Z.of_nat (length slots)) 16); lia. }
    apply Hall in Hin. destruct (width =? 0); lia.
Qed.

(** ** Runs of the endpoint *)

Inductive RxCall :=
  | RReceive (packet : PacketBuffer)
  | RProcess (now_ms : Z)
  | RSendDatagram (p : bytes)
  | RAbort.

Definition rx_call_wf (c : RxCall) : Prop :=
  match c with RReceive packet => packet_wf packet | _ => True end.

(** The messages of the connection among the packets of a run. *)
Definition arrived_packet (connection : ConnectionAddress) (cs : list RxCall)
    (message : bytes) : Prop :=
  ∃ packet, RReceive packet ∈ cs ∧ matchesConnection packet connection = true ∧
    payload packet = message.

Section runs.
Context {V : Type} `{!ReceiverCallbacks V, !ReceiverPduSender V}.
Variable max_width : Z.

Definition rx_call (c : RxCall) (s : Receiver * V) : Receiver * V :=
  match c with
  | RReceive packet => ((receive packet s.1).2, s.2)
  | RProcess now_ms => (process max_width now_ms s).2
  | RSendDatagram p => (sendDatagram p s).2
  | RAbort => (abort s).2
  end.

Definition rx_calls (cs : list RxCall) (s : Receiver * V) : Receiver * V :=
  foldl (λ s c, rx_call c s) s cs.
End runs.

Section protocol.
Context {V : Type} `{!ReceiverCallbacks V, !ReceiverPduSender V}.
Variable max_width : Z.
Hypothesis Hmax : 1 ≤ max_width ≤ 16.
Variable connection : ConnectionAddress.
Variable arrived : bytes → Prop.

Record rx_inv (s : Receiver * Traced V) : Prop := {
  rx_wf : receiver_wf s.1;
  rx_connection : connection_ s.1 = connection;
  rx_engine : inv max_width arrived (engine_ s.1, s.2);
  rx_pending : Forall (λ m, is_bytes m ∧ arrived m) (pending s.1);
}.

Lemma rx_on_engine {A} (m : BitsEngine.Op (W := Traced V) A) r v :
  rx_inv (r, v) → inv max_width arrived (m (engine_ r, v)).2 → rx_inv (on_engine m (r, v)).2.
Proof.
  intros [Hw Hc _ Hp] Hinv. rewrite on_engine_eq. split; simpl.
  - by apply set_engine_wf.
  - done.
  - by destruct (m (engine_ r, v)).2.
  - exact Hp.
Qed.

Lemma rx_receive packet r v :
  rx_inv (r, v) → packet_wf packet →
  (matchesConnection packet connection = true → arrived (payload packet)) →
  rx_inv ((receive packet r).2, v).
Proof.
  intros [Hw Hc He Hp] Hpk Hcov. cbn [fst snd] in *.
  destruct (receive_stores packet r Hw Hpk) as (Hw' & He' & Hc' & Hres).
  destruct (receive packet r) as [[] r']; cbn [fst snd] in *; [|by destruct Hres as [-> _]|by subst].
  destruct Hres as [Hmatch Hperm]. rewrite Hc in *. split; cbn [fst snd]; try done.
  - by rewrite He'.
  - rewrite Hperm. constructor; [|done]. split; [by apply payload_bytes|by apply Hcov].
Qed.

Lemma handed_inv now_ms handed e (v : Traced V) :
  Forall (λ m, is_bytes m ∧ arrived m) handed → inv max_width arrived (e, v) →
  inv max_width arrived (handed_to_engine max_width now_ms handed e v).
Proof.
  intros Hh. apply run_calls_inv; [done| |].
  - apply list.Forall_fmap. eapply list.Forall_impl; [exact Hh|]. by intros m [? _].
  - intros m now Hin. apply list_elem_of_In, in_map_iff in Hin as (m' & [= -> ->] & Hin).
    rewrite list.Forall_forall in Hh. apply list_elem_of_In in Hin. by apply (Hh m Hin).
Qed.

Lemma rx_process now_ms r v : rx_inv (r, v) → rx_inv (process max_width now_ms (r, v)).2.
Proof.
  intros [Hw Hc He Hp]. cbn [fst snd] in *.
  destruct (poll_inv max_width arrived now_ms _ He) as [Hpoll _].
  pose proof (process_hands max_width now_ms r v Hw) as Hout. cbv zeta in Hout.
  assert (Hfin : ∀ handed, Forall (λ m, is_bytes m ∧ arrived m) handed →
    hands max_width now_ms handed (set_engine_ (poll now_ms (engine_ r, v)).2.1 r)
      (process max_width now_ms (r, v)).2.1 (poll now_ms (engine_ r, v)).2.2
      (process max_width now_ms (r, v)).2.2 →
    Forall (λ m, is_bytes m ∧ arrived m) (pending (process max_width now_ms (r, v)).2.1) →
    rx_inv (process max_width now_ms (r, v)).2).
  { intros handed Hh (Hw' & Hc' & He') Hp'.
    destruct (process max_width now_ms (r, v)).2 as [r' v']. cbn [fst snd] in *.
    split; cbn [fst snd]; [done|by rewrite Hc'| |done]. rewrite He'. apply handed_inv; [done|].
    simpl. by destruct (poll now_ms (engine_ r, v)).2. }
  case_bool_decide.
  - destruct Hout as (_ & Hnil & Hh). apply (Hfin []); [done|done|by rewrite Hnil].
  - destruct Hout as (handed & Hh & Hperm & _). rewrite Hperm in Hp.
    apply Forall_app in Hp as [? ?]. by apply (Hfin handed).
Qed.

Lemma rx_calls_inv cs s :
  Forall rx_call_wf cs →
  (∀ packet, RReceive packet ∈ cs → matchesConnection packet connection = true →
     arrived (payload packet)) →
  rx_inv s → rx_inv (rx_calls (V := Traced V) max_width cs s).
Proof.
  intros Hcs. revert s. induction Hcs as [|c cs Hc _ IH]; intros [r v] Hcov Hinv; [done|].
  apply IH; [intros packet Hin; apply Hcov; by right|]. destruct c as [packet|now|p|]; simpl.
  - apply rx_receive; [done|done|]. apply Hcov. by left.
  - by apply rx_process.
  - apply rx_on_engine; [done|]. apply (sendDatagram_inv max_width arrived), Hinv.
  - apply rx_on_engine; [done|]. apply (abort_inv max_width arrived), Hinv.
Qed.
End protocol.

(** ** Properties *)

(** The endpoint's slots are a bounded multiset of PDUs: a packet is answered
    [kAccepted] exactly when it is stored, then it matched the connection and
    precisely its payload is added to what is pending; [kFull] means that nothing
    changed and the place it needs is taken, [kRejected] that nothing changed; the
    engine is not touched. *)
Theorem receiver_stores_packets (packet : PacketBuffer) (r : Receiver) :
  receiver_wf r → packet_wf packet →
  let out := receive packet r in
  receiver_wf out.2 ∧ engine_ out.2 = engine_ r ∧ connection_ out.2 = connection_ r ∧
  match out.1 with
  | ReceiveResult.kAccepted =>
      matchesConnection packet (connection_ r) = true ∧
      pending out.2 ≡ₚ payload packet :: pending r
  | ReceiveResult.kFull =>
      out.2 = r ∧ matchesConnection packet (connection_ r) = true ∧
      (datagram_occupied_ r = true ∨ ∀ i slot, 0 ≤ i < 16 → ¬ free_slot r i slot)
  | ReceiveResult.kRejected => out.2 = r
  end.
Proof. apply receive_stores. Qed.

(** C8: [process] loses and repeats nothing: after the poll of the engine, what
    was pending is split into at most two messages, which the engine processes in
    order in the same call, and what stays pending; something pending is always
    taken up; only when the poll reports the expiry of the transfer is the
    backlog discarded, without the engine seeing it. *)
Theorem receiver_process_hands_over {V} `{!ReceiverCallbacks V, !ReceiverPduSender V}
    (max_width now_ms : Z) (r : Receiver) (v : V) :
  receiver_wf r →
  let out := process max_width now_ms (r, v) in
  let polled := poll now_ms (engine_ r, v) in
  if bool_decide (polled.1 = ProcessResult.kError)
  then out.1 = ProcessResult.kError ∧ pending out.2.1 = [] ∧
       (engine_ out.2.1, out.2.2) = polled.2
  else ∃ handed, pending r ≡ₚ handed ++ pending out.2.1 ∧
    (length handed ≤ 2)%nat ∧ (pending r ≠ [] → handed ≠ []) ∧
    (engine_ out.2.1, out.2.2) =
      run_calls max_width (map (λ m, CProcess m now_ms) handed) polled.2.
Proof.
  intros Hr. pose proof (process_hands max_width now_ms r v Hr) as Hout. cbv zeta in *.
  unfold hands, handed_to_engine in Hout. simpl in Hout.
  destruct (poll now_ms (engine_ r, v)) as [polled [e v']]. cbn [fst snd] in *.
  case_bool_decide.
  - by destruct Hout as (? & ? & _ & _ & ?).
  - destruct Hout as (handed & (_ & _ & He) & Hperm & Hlen & Hne). by exists handed.
Qed.

(** The engine admits only segments that every slot holds: with the
    configuration the constructor computes from the slots, a segment PDU of the
    connection within the admitted segment size is accepted whenever a slot is
    free, whichever slot that is. *)
Theorem segments_fit_slots (packet : PacketBuffer) (r : Receiver) (i timeout : Z)
    (slot : PacketBuffer) :
  receiver_wf r → packet_wf packet → is_u32 timeout →
  matchesConnection packet (connection_ r) = true → hasType (payload packet) kSegment = true →
  let maximum := maximum_segment_size (receiverEngineConfig (segment_ingress r) timeout) in
  0 < maximum → size packet ≤ kSegmentHeaderSize + maximum →
  0 ≤ i < 16 → free_slot r i slot →
  (receive packet r).1 = ReceiveResult.kAccepted.
Proof.
  intros Hr Hp Ht Hmatch Htype maximum Hmax Hsize Hi Hfree.
  destruct (receiver_config (segment_ingress r) timeout (rwf_slots _ Hr) Ht) as (_ & _ & Hall).
  pose proof Hfree as [Hslot _]. specialize (Hall (Z.to_nat i) slot ltac:(lia) Hslot).
  fold maximum in Hall. clearbody maximum.
  apply hasType_spec in Htype as [rest E]; [|by apply payload_bytes].
  destruct (receive_segment packet r Hr Hp Hmatch) as [_ Hno]. unfold receive.
  rewrite Hmatch, E. cbn [negb].
  assert (∃ c, decodeControl (type_value kSegment) = Some c ∧ type c = kSegment) as (c & -> & ->)
    by (eexists; split; reflexivity).
  rewrite bool_decide_eq_true_2 by done. cbn [negb]. cbv zeta in Hno.
  match goal with |- ?out.1 = _ => destruct (decide (out.1 = ReceiveResult.kAccepted)) as [?|Hne] end;
    [done|]. specialize (Hno Hne i slot Hi Hfree). lia.
Qed.

(** A new endpoint satisfies the invariant. *)
Lemma rx_inv_new {V} (max_width : Z)
    (connection : ConnectionAddress) (arrived : bytes → Prop)
    (slots : list (option PacketBuffer)) (datagram : PacketBuffer) (timeout : Z) (v : V) :
  1 ≤ max_width ≤ 16 → slots_wf slots → packet_wf datagram → is_u32 timeout →
  rx_inv max_width connection arrived (new_receiver max_width connection slots datagram timeout, (v, [])).
Proof.
  intros Hmax Hslots Hd Ht. destruct (receiver_config slots timeout Hslots Ht) as (Hconf & _).
  assert (Hw : receiver_wf (new_receiver max_width connection slots datagram timeout))
    by (split; try done; intros i _ Hbit; by rewrite Z.bits_0 in Hbit).
  split; [done|done|by apply inv_new|]. cbn [fst]. unfold pending.
  rewrite pendingSegments_nil; [constructor|]. intros i Hi. by rewrite isOccupied_testbit, Z.bits_0.
Qed.

(** C7: The composed endpoint keeps the session protocol: for every sequence of
    receptions, polls, datagrams and aborts, in every environment, the service
    sees a legal session as of the engine, and every segment delivered to it came
    in an accepted packet of the connection with that session and index. *)
Theorem receiver_session_protocol {V} `{!ReceiverCallbacks V, !ReceiverPduSender V}
    (max_width : Z) (connection : ConnectionAddress) (slots : list (option PacketBuffer))
    (datagram : PacketBuffer) (timeout : Z) (cs : list RxCall) (v : V) :
  1 ≤ max_width ≤ 16 → slots_wf slots → packet_wf datagram → is_u32 timeout →
  Forall rx_call_wf cs →
  let s := rx_calls (V := Traced V) max_width cs
    (new_receiver max_width connection slots datagram timeout, (v, [])) in
  receiver_wf s.1 ∧ engine_wf max_width (engine_ s.1) ∧
  ∃ m, monitor s.2.2 = Some m ∧ agrees (arrived_packet connection cs) (engine_ s.1) m.
Proof.
  intros Hmax Hslots Hd Ht Hcs. cbv zeta.
  pose proof (rx_inv_new max_width connection (arrived_packet connection cs) slots datagram timeout v
    Hmax Hslots Hd Ht) as Hinv.
  apply (rx_calls_inv max_width Hmax connection _ cs) in Hinv; [|done|].
  - destruct Hinv as [Hw _ (Hwf & Hm & _) _]. done.
  - intros packet Hin Hmatch. by exists packet.
Qed.

(** ** A demonstration endpoint

    Two packet slots, the third pointer null, a link that accepts every packet, and
    the sink of the engine's examples. *)

Module DemoEndpoint.
Import BufferSink.
Definition peer : ConnectionAddress :=
  {| conn_wire := mkWireNumber 3; conn_local_host := mkHostId 1;
     conn_remote_host := mkHostId 2; conn_endpoint := mkEndpointAddress 9 |}.
Definition connection : ConnectionAddress :=
  {| conn_wire := mkWireNumber 3; conn_local_host := mkHostId 2;
     conn_remote_host := mkHostId 1; conn_endpoint := mkEndpointAddress 9 |}.
Definition routes : list RouteTableEntry := [mkRouteTableEntry (mkWireNumber 3) 1].
#[export] Instance link : PacketForwarder bytes := λ _ _ w, (RouteResult.kAccepted, w).
#[export] Instance callbacks : ReceiverCallbacks (Link bytes) := endpoint_callbacks.
#[export] Instance sender : ReceiverPduSender (Link bytes) := endpoint_sender connection routes.
End DemoEndpoint.
Import DemoEndpoint.

Definition demo_packet (p : bytes) : PacketBuffer :=
  write_payload 0 p (initializeConnection (zlen p) peer (cf_bits kNormal) (new_packet 16)).2.
Definition demo_segment_packet (index : Z) (p : bytes) : PacketBuffer :=
  demo_packet (layout (MSegment (mkSegmentHeader 7 index)) ++ p).

Definition demo_slots : list (option PacketBuffer) :=
  [Some (new_packet 6); Some (new_packet 8); None].
Definition demo_receiver : Receiver :=
  new_receiver 16 DemoEndpoint.connection demo_slots (new_packet 16) 5000.
Definition demo_link : Link bytes := mkLink (new_packet 16) [].

(** The third segment finds both slots taken and is offered again. *)
Definition demo_rx_calls : list RxCall :=
  [RReceive (demo_packet (layout (MSetup demo_setup))); RProcess 0;
   RReceive (demo_segment_packet 1 [13; 14]); RReceive (demo_segment_packet 0 [11; 12]);
   RReceive (demo_segment_packet 2 [15]); RProcess 1; RProcess 2;
   RReceive (demo_segment_packet 2 [15]); RProcess 3].

Lemma demo_slots_wf : slots_wf demo_slots.
Proof.
  intros [|[|[|i]]] p Hp; simpl in Hp; try done; injection Hp as <-; apply new_packet_wf; by_evaluation.
Qed.

Lemma demo_receiver_wf : receiver_wf demo_receiver.
Proof.
  split; [apply demo_slots_wf|by apply new_packet_wf; by_evaluation|by_evaluation|].
  intros i _ Hbit. by rewrite Z.bits_0 in Hbit.
Qed.

Lemma demo_packet_wf p : is_bytes p → zlen p ≤ 16 → packet_wf (demo_packet p).
Proof.
  intros Hp Hlen. apply write_payload_wf; [|done].
  apply initializeConnection_room; [split; by_evaluation| |unfold zlen; lia].
  apply new_packet_wf. by_evaluation.
Qed.

Lemma receiver_session_protocol_witness :
  let s := rx_calls (V := Traced (Link bytes)) 16 demo_rx_calls (demo_receiver, (demo_link, [])) in
  state (engine_ s.1) = TransferState.kCompleted ∧ beyond s.2.1 = [11; 12; 13; 14; 15] ∧
  receiver_wf s.1 ∧ engine_wf 16 (engine_ s.1) ∧
  ∃ m, monitor s.2.2 = Some m ∧
    agrees (arrived_packet DemoEndpoint.connection demo_rx_calls) (engine_ s.1) m.
Proof.
  split; [vm_compute; reflexivity|]. split; [vm_compute; reflexivity|].
  apply (receiver_session_protocol 16 DemoEndpoint.connection demo_slots (new_packet 16) 5000
    demo_rx_calls demo_link).
  - by_evaluation.
  - apply demo_slots_wf.
  - apply new_packet_wf. by_evaluation.
  - by_evaluation.
  - repeat (apply list.Forall_cons_2;
      [first [exact I|apply demo_packet_wf; by_evaluation]|]). constructor.
Defined.

Lemma receiver_stores_packets_witness :
  let packet := demo_segment_packet 1 [13; 14] in
  let out := receive packet demo_receiver in
  out.1 = ReceiveResult.kAccepted ∧ receiver_wf out.2 ∧ engine_ out.2 = engine_ demo_receiver ∧
  pending out.2 ≡ₚ payload packet :: pending demo_receiver.
Proof.
  destruct (receiver_stores_packets (demo_segment_packet 1 [13; 14]) demo_receiver)
    as (Hw & He & _ & Hres).
  - apply demo_receiver_wf.
  - apply demo_packet_wf; by_evaluation.
  - assert (E : (receive (demo_segment_packet 1 [13; 14]) demo_receiver).1 =
      ReceiveResult.kAccepted) by (vm_compute; reflexivity).
    rewrite E in Hres. cbv zeta. split_and!; [exact E|exact Hw|exact He|apply Hres].
Defined.

Lemma segments_fit_slots_witness :
  maximum_segment_size (receiverEngineConfig demo_slots 5000) = 2 ∧
  (receive (demo_segment_packet 1 [13; 14]) demo_receiver).1 = ReceiveResult.kAccepted.
Proof.
  split; [vm_compute; reflexivity|].
  apply (segments_fit_slots (demo_segment_packet 1 [13; 14]) demo_receiver 0 5000 (new_packet 6));
    try (vm_compute; reflexivity).
  - apply demo_receiver_wf.
  - apply demo_packet_wf; by_evaluation.
  - by_evaluation.
  - by_evaluation.
  - by_evaluation.
  - split; vm_compute; reflexivity.
Defined.

(** Two segments waiting in their slots. *)
Definition demo_waiting : Receiver :=
  (receive (demo_segment_packet 0 [11; 12])
    (receive (demo_segment_packet 1 [13; 14]) demo_receiver).2).2.

Lemma demo_waiting_wf : receiver_wf demo_waiting.
Proof.
  apply receive_stores; [|apply demo_packet_wf; by_evaluation].
  apply receive_stores; [apply demo_receiver_wf|apply demo_packet_wf; by_evaluation].
Qed.

Lemma receiver_process_hands_over_witness :
  let out := process 16 1 (demo_waiting, demo_link) in
  let polled := poll 1 (engine_ demo_waiting, demo_link) in
  pending demo_waiting = [[1; 7; 1; 0; 13; 14]; [1; 7; 0; 0; 11; 12]] ∧
  pending out.2.1 = [[1; 7; 0; 0; 11; 12]] ∧
  ∃ handed, pending demo_waiting ≡ₚ handed ++ pending out.2.1 ∧
    (length handed ≤ 2)%nat ∧ (pending demo_waiting ≠ [] → handed ≠ []) ∧
    (engine_ out.2.1, out.2.2) = run_calls 16 (map (λ m, CProcess m 1) handed) polled.2.
Proof.
  split; [vm_compute; reflexivity|]. split; [vm_compute; reflexivity|].
  pose proof (receiver_process_hands_over 16 1 demo_waiting demo_link demo_waiting_wf) as H.
  assert (E : bool_decide ((poll 1 (engine_ demo_waiting, demo_link)).1 = ProcessResult.kError) =
    false) by (vm_compute; reflexivity).
  cbv zeta in H. rewrite E in H. exact H.
Defined.
