(* ===== verification/BitsEndToEnd.v ===== *)
(** * BITS from end to end ([transports/bits/])

    A transmitter and a receiver endpoint with any link between them: packets are lost,
    duplicated, delayed and reordered, in both directions, and either side is polled when
    it pleases.  All the link may not do is forge: what the receiver takes was offered by
    the transmitter, and what the transmitter takes was written by the receiver.  The runs
    of the two sides are those of their own files; here their logs are put together. *)

From S2P Require Import Prelude Packet Routing BitsCodec BitsTransmitter BitsTransmitterKeeps.
From S2P Require Import BitsTransmitterRuns BitsTransmitterProps BitsEngine BitsEngineRuns.
From S2P Require Import BitsReceiver BitsReceiverProps.
Local Open Scope Z_scope.

(** ** What the transmitter offers *)

(** The PDUs of one session. *)
Inductive of_session (object : bytes) (s : Setup) : bytes → Prop :=
  | OfSetup : of_session object s (layout (MSetup s))
  | OfSegment i : 0 ≤ i < segments s →
      of_session object s (segment_with (setup_session_id s) i (segment_slice object s i))
  | OfControl pdu : hd 0 pdu = 3 ∨ hd 0 pdu = 5 ∨ hd 0 pdu = 6 → of_session object s pdu.

Definition is_start (event : BitsTransmitterRuns.Event) : Prop :=
  match event with BitsTransmitterRuns.Started _ _ => True | _ => False end.

(** The phases of one session. *)
Definition in_session (object : bytes) (s : Setup) (p : BitsTransmitterRuns.Phase) : Prop :=
  p = BitsTransmitterRuns.Closed ∨ ∃ admitted, p = BitsTransmitterRuns.Open object s admitted.

Lemma observe_in_session object s p p' event :
  in_session object s p → ¬ is_start event → BitsTransmitterRuns.observe p event = Some p' →
  in_session object s p' ∧
  ∀ pdu r, event = BitsTransmitterRuns.Sent pdu r → is_bytes pdu → of_session object s pdu.
Proof.
  intros Hp Hstart Hobs. destruct event as [o s'|pdu r|d| |reason| |]; [done| |by destruct Hp as [->|[? ->]];
    simpl in Hobs; repeat case_match; simplify_eq; (split; [unfold in_session; eauto|done]) ..].
  simpl in Hobs. destruct (Z.eqb_spec (hd 0 pdu) 5) as [H5|_].
  { injection Hobs as <-. split; [done|]. intros pdu' r' [= -> ->] _. apply OfControl. auto. }
  destruct Hp as [->|[admitted ->]]; [done|]. unfold observe_pdu in Hobs.
  enough (in_session object s p' ∧ (is_bytes pdu → of_session object s pdu)) as [? Hof].
  { split; [done|]. by intros ? ? [= <- <-]. }
  destruct (hd 0 pdu) as [|[[[]|[]|]|[[]|[]|]|]|] eqn:Ehd; try discriminate Hobs.
  - case_bool_decide as E; [|done]. injection Hobs as <-. rewrite E.
    split; [right; eauto|intros _; apply OfSetup].
  - case_bool_decide as E; [|done]. injection Hobs as <-. split; [right; eauto|]. intros _.
    apply OfControl. auto.
  - case_bool_decide as E; [|done]. injection Hobs as <-. split; [right; eauto|]. intros _.
    apply OfControl. auto.
  - destruct (decodeSegmentHeaderKnownType pdu) as [h|] eqn:Hdec; [|done].
    destruct (_ && _) eqn:Hguard; [|done]. injection Hobs as <-. split; [right; eauto|]. intros Hb.
    rewrite !andb_true_iff, Z.eqb_eq, Z.ltb_lt, bool_decide_eq_true in Hguard.
    destruct Hguard as [[Hid Hi] Hslice].
    apply decodeSegmentHeaderKnownType_spec in Hdec as ([_ Hw] & b & rest & E); [|done].
    assert (pdu = segment_with (setup_session_id s) (segment_index h)
      (segment_slice object s (segment_index h))) as ->.
    { rewrite <- Hslice, <- Hid. rewrite E in Ehd |- *. simpl in Ehd. subst b. by destruct h. }
    apply OfSegment. unfold is_u16 in Hw. lia.
Qed.

Lemma monitor_in_session object s log p :
  Forall (λ event, ¬ is_start event) log →
  BitsTransmitterRuns.monitor (BitsTransmitterRuns.Started object s :: log) = Some p →
  in_session object s p ∧
  ∀ pdu r, BitsTransmitterRuns.Sent pdu r ∈ log → is_bytes pdu → of_session object s pdu.
Proof.
  revert p. induction log as [|event log IH] using rev_ind; intros p Hlog Hm.
  { injection Hm as <-. split; [right; by eexists|]. by intros ? ? ?%elem_of_nil. }
  apply Forall_app in Hlog as [Hlog Hevent%Forall_cons_1]. destruct Hevent as [Hevent _].
  rewrite app_comm_cons, tx_monitor_snoc in Hm.
  destruct (BitsTransmitterRuns.monitor (BitsTransmitterRuns.Started object s :: log)) as [p0|] eqn:E0; [|done].
  destruct (IH p0 Hlog eq_refl) as [Hp0 Hall]. simpl in Hm.
  destruct (observe_in_session _ _ _ _ _ Hp0 Hevent Hm) as [Hp Hlast]. split; [done|].
  intros pdu r [?|Hin%list_elem_of_singleton]%elem_of_app Hb; [by eapply Hall|by eapply Hlast].
Qed.

(** ** The log of the transmitter *)

Section calls.
Context {W : Type} `{!TransmitterCallbacks W, !PacketForwarder W}.
Variables (routes : list RouteTableEntry) (object : bytes) (s : Setup).

(** The trace so far: one start, and since then none. *)
Definition one_start (wl : BitsTransmitterRuns.Traced W) : Prop :=
  ∃ log, log_of wl = BitsTransmitterRuns.Started object s :: log ∧
    Forall (λ event, ¬ is_start event) log.

Lemma one_start_snoc w w' log event :
  ¬ is_start event → one_start (mkTraced w log) → one_start (mkTraced w' (log ++ [event])).
Proof.
  intros He (rest & E & Hrest). exists (rest ++ [event]). cbn in *. rewrite E. split; [done|].
  apply Forall_app_2; [done|]. by repeat constructor.
Qed.

Lemma one_start_traced {A} (m : State W A) (event : A → BitsTransmitterRuns.Event) :
  (∀ a, ¬ is_start (event a)) → preserves one_start (BitsTransmitterRuns.traced m event).
Proof.
  intros He [w log] Hw. unfold BitsTransmitterRuns.traced. simpl.
  destruct (m w) as [a w']. by eapply one_start_snoc.
Qed.

(** The calls that follow a start. *)
Definition ongoing (c : TxCall) : Prop :=
  match c with CStart _ _ _ _ => False | _ => BitsTransmitterProps.call_wf c end.

(** A predicate of the transmitter that holds after every call of a session. *)
Variables (I : Transmitter.Transmitter → Prop) (taken : PacketBuffer → Prop).
Abbreviation held := (kept (W := BitsTransmitterRuns.Traced W) I one_start).
Hypothesis mild_held : ∀ t t', mild t t' → I t → I t'.
Hypothesis ack_held : ∀ st, held st → Transmitter.datagram_occupied_ st.1 = true →
  hasType (payload (Transmitter.datagram_ingress st.1)) kAck = true →
  held (Transmitter.handleAck (W := BitsTransmitterRuns.Traced W)
    (payload (Transmitter.datagram_ingress st.1)) st).2.
Hypothesis receive_held : ∀ packet t,
  packet_wf packet → taken packet → I t → I (Transmitter.receive packet t).2.

Ltac log_held := intros; apply one_start_traced; by intros ? [].

Lemma kept_run_call c :
  ongoing c → (∀ packet, c = CReceive packet → taken packet) →
  preserves held (BitsTransmitterProps.run_call routes c).
Proof.
  intros Hc Htaken. destruct c as [packet|now|p| |]; cbn [BitsTransmitterProps.run_call]; [| | | |done].
  - intros [t wl] [Ht Hw]. split; [|done]. apply receive_held; auto.
  - assert (preserves held (Transmitter.process (W := BitsTransmitterRuns.Traced W) routes now))
      by (apply kept_process; [exact mild_held|log_held..|exact ack_held]).
    assert (preserves held (note BitsTransmitterRuns.Failed)).
    { intros [t [w log]] [Ht Hw]. split; [done|]. apply (one_start_snoc w); [by intros []|done]. }
    keep ltac:(assumption).
  - assert (preserves held (Transmitter.sendDatagram (W := BitsTransmitterRuns.Traced W) routes p))
      by (apply kept_sendDatagram; [exact mild_held|log_held..]).
    keep ltac:(assumption).
  - assert (preserves held (Transmitter.abort (W := BitsTransmitterRuns.Traced W) routes))
      by (apply kept_abort; [exact mild_held|log_held..]).
    keep ltac:(assumption).
Qed.

Lemma kept_calls cs st :
  Forall ongoing cs → (∀ packet, CReceive packet ∈ cs → taken packet) → held st →
  held (BitsTransmitterProps.run_calls routes cs st).
Proof.
  intros Hcs. revert st. induction Hcs as [|c cs Hc _ IH]; intros st Htaken Hst; [done|].
  apply IH; [intros packet Hin; apply Htaken; by right|].
  apply (kept_run_call c Hc); [|done]. intros packet ->. apply Htaken. by left.
Qed.
End calls.

(** Whatever it hears, the transmitter starts nothing by itself. *)
Lemma one_start_calls {W} `{!TransmitterCallbacks W, !PacketForwarder W} routes object s cs
    (st : Transmitter.Transmitter * BitsTransmitterRuns.Traced W) :
  Forall ongoing cs → one_start object s st.2 →
  one_start object s (BitsTransmitterProps.run_calls routes cs st).2.
Proof.
  intros Hcs Hst. apply (kept_calls routes object s (λ _, True) (λ _, True)); try done.
  intros st' Hst' _ _. revert st' Hst'.
  enough (∀ message, preserves (kept (λ _, True) (one_start object s))
      (Transmitter.handleAck (W := BitsTransmitterRuns.Traced W) message)) as H by (intros; by apply H).
  intros message. unfold Transmitter.handleAck, Transmitter.session.
  keep ltac:(first [by intros [? ?] [? ?]; split|apply kept_call, one_start_traced; by intros ? []]).
Qed.

(** ** What an ACK tells the transmitter

    [claim k]: the receiver has had segments 0 to [k - 1].  Below 240 segments an ACK's
    eight-bit base cannot be taken for another: a transmitter that does not ignore it moves
    to the very count the receiver reported, however old the ACK is. *)

Section transmitter.
Context {W : Type} `{!TransmitterCallbacks W, !PacketForwarder W}.
Variables (routes : list RouteTableEntry) (object : bytes) (s : Setup) (claim : Z → Prop).
Hypothesis few : 0 < segments s ≤ 239.

(** An ACK whose base is a count the receiver claimed. *)
Definition heard (message : bytes) : Prop :=
  hasType message kAck = true → ∀ a, decodeAckKnownType message = Some a →
  ∃ k, 0 ≤ k ≤ segments s ∧ claim k ∧
    window_base a = (initial_sequence_number s + k - 1) mod 256.

Record following (t : Transmitter.Transmitter) : Prop := {
  fol_carried : carried (Transmitter.session_ t) = (object, s);
  fol_count : Transmitter.segment_count (Transmitter.session_ t) = segments s;
  fol_acked : 0 ≤ Transmitter.acknowledged_count (Transmitter.session_ t) ≤ segments s;
  fol_claim : Transmitter.acknowledged_count (Transmitter.session_ t) = 0 ∨
    claim (Transmitter.acknowledged_count (Transmitter.session_ t));
  fol_completed : Transmitter.state (Transmitter.session_ t) = TransferState.kCompleted →
    Transmitter.acknowledged_count (Transmitter.session_ t) = segments s;
  fol_ingress : packet_wf (Transmitter.datagram_ingress t);
  fol_pending : Transmitter.datagram_occupied_ t = true → heard (payload (Transmitter.datagram_ingress t));
}.

Definition follows : Transmitter.Transmitter * BitsTransmitterRuns.Traced W → Prop :=
  kept following (one_start object s).

Lemma following_mild t t' : mild t t' → following t → following t'.
Proof.
  intros [Hca Hco Hac Hst _ _ Hin Hoc] []. split; rewrite ?Hca, ?Hco, ?Hac, ?Hin; auto.
Qed.

(** The ACK's effect on the session: the window moves, the transfer stays. *)
Lemma ackApplied_session a ts :
  carried (Transmitter.ackApplied a ts) = carried ts ∧
  Transmitter.segment_count (Transmitter.ackApplied a ts) = Transmitter.segment_count ts ∧
  Transmitter.acknowledged_count (Transmitter.ackApplied a ts) =
    u32 (Transmitter.acknowledged_count ts + Transmitter.ackAdvance a ts).
Proof.
  unfold Transmitter.ackApplied, Transmitter.shiftWindow, carried. cbv zeta. by repeat case_match.
Qed.

Lemma ackAdvance_claimed a ts k :
  Transmitter.setup ts = s → Transmitter.segment_count ts = segments s →
  0 ≤ Transmitter.acknowledged_count ts ≤ segments s → 0 ≤ k ≤ segments s →
  window_base a = (initial_sequence_number s + k - 1) mod 256 →
  Transmitter.ackIgnored a ts = false →
  Transmitter.ackAdvance a ts = k - Transmitter.acknowledged_count ts ∧
  Transmitter.acknowledged_count ts ≤ k.
Proof.
  intros Hs Hcount Hacked Hk Hbase Hign. unfold Transmitter.ackIgnored, kCompactWindowWidth in Hign.
  rewrite !orb_false_iff, !Z.ltb_ge in Hign. destruct Hign as [[[[Hadv _] _] _] _].
  revert Hadv. unfold Transmitter.ackAdvance, Transmitter.baseSequence, Transmitter.sequenceFor.
  rewrite Hs, Hbase. clear Hbase Hcount Hs. generalize (Transmitter.acknowledged_count ts) Hacked.
  generalize (initial_sequence_number s). intros isn acked Ha.
  destruct (Z.eqb_spec acked 0) as [->|]; word_lia.
Qed.

(** Moving the window to a count the receiver claimed, then completing or going on. *)
Lemma follows_ack st t wl ts :
  follows (t, wl) → carried ts = (object, s) → Transmitter.segment_count ts = segments s →
  0 ≤ Transmitter.acknowledged_count ts ≤ segments s → claim (Transmitter.acknowledged_count ts) →
  (st = TransferState.kCompleted → Transmitter.acknowledged_count ts = segments s) →
  follows (Transmitter.set_session_ (Transmitter.set_state st ts) t, wl).
Proof. intros [[] Hw] Hca Hco Hac Hcl Hst. split; [|done]. split; cbn in *; auto. Qed.

Lemma follows_handleAck st :
  follows st → Transmitter.datagram_occupied_ st.1 = true →
  hasType (payload (Transmitter.datagram_ingress st.1)) kAck = true →
  follows (Transmitter.handleAck (W := BitsTransmitterRuns.Traced W)
    (payload (Transmitter.datagram_ingress st.1)) st).2.
Proof.
  destruct st as [t wl]. intros Hf Hocc Htype. pose proof Hf as [[Hca Hco Hac Hcl Hdone Hin Hpend] _].
  specialize (Hpend Hocc Htype). cbn [fst] in *.
  match goal with |- follows (?m ?s).2 => change (wp m s (λ _, follows)) end. unfold Transmitter.handleAck.
  destruct (decodeAckKnownType _) as [a|]; [|done]. destruct (Hpend a eq_refl) as (k & Hk & Hclaim & Hbase).
  apply wp_bind, wp_session. cbn [fst]. destruct (_ || _ || _); [done|].
  destruct (Transmitter.ackIgnored a (Transmitter.session_ t)) eqn:Hign; [done|]. destruct (negb _); [done|].
  assert (Hsetup : Transmitter.setup (Transmitter.session_ t) = s) by by injection Hca.
  destruct (ackAdvance_claimed a _ k Hsetup Hco Hac Hk Hbase Hign) as [Hadv Hle].
  destruct (ackApplied_session a (Transmitter.session_ t)) as (Hca' & Hco' & Hac').
  rewrite Hadv, Zplus_minus, u32_id in Hac' by (unfold is_u32; lia).
  apply wp_bind, wp_updateSession, wp_bind, wp_session. cbn [fst Transmitter.session_ Transmitter.set_session_].
  apply wp_bind. rewrite Hco', Hac', Hco, Hca in *.
  destruct (Z.eqb_spec k (segments s)) as [->|Hne].
  - apply wp_bind, wp_updateSession.
    assert (Hcomplete : preserves follows (Transmitter.call (W := BitsTransmitterRuns.Traced W)
      txTransferComplete))
      by by apply kept_call, one_start_traced; intros _ [].
    apply Hcomplete, (follows_ack TransferState.kCompleted t wl (Transmitter.ackApplied a
      (Transmitter.session_ t)));
      try done; by rewrite Hac'.
  - apply wp_updateSession, wp_ret,
      (follows_ack TransferState.kActive t wl (Transmitter.ackApplied a (Transmitter.session_ t)));
      try done; by rewrite Hac'.
Qed.

(** ** The run of the transmitter *)

Lemma following_receive packet t :
  packet_wf packet → heard (payload packet) → following t → following (Transmitter.receive packet t).2.
Proof.
  intros Hp Hheard Hsame. unfold Transmitter.receive.
  destruct (negb _); [done|]. destruct (payload packet) as [|encoded rest] eqn:Epay; [done|].
  destruct (decodeControl encoded) as [[v pr ty]|]; [|done]. pose proof Hsame as [].
  pose proof (copyPacket_spec packet _ Hp fol_ingress0) as Hcopy.
  assert (Hstore : following
    (let '(ok, ingress) := copyPacket packet (Transmitter.datagram_ingress t) in
     let t := Transmitter.set_datagram_ingress ingress t in
     if negb ok then (ReceiveResult.kRejected, t)
     else (ReceiveResult.kAccepted, Transmitter.set_datagram_occupied_ true t)).2).
  { destruct (_ <=? _).
    - destruct Hcopy as (copy & -> & Hwf & Hpay & _). split; cbn; try done. intros _. by rewrite Hpay, Epay.
    - rewrite Hcopy. by split. }
  destruct ty; try done; by destruct (Transmitter.datagram_occupied_ t).
Qed.

Lemma follows_calls cs st :
  Forall ongoing cs → (∀ packet, CReceive packet ∈ cs → heard (payload packet)) → follows st →
  follows (BitsTransmitterProps.run_calls routes cs st).
Proof.
  apply (kept_calls routes object s following (λ packet, heard (payload packet)));
    [exact following_mild|exact follows_handleAck|exact following_receive].
Qed.
End transmitter.

(** A started transfer. *)
Lemma follows_start {W} `{!TransmitterCallbacks W, !PacketForwarder W} routes claim
    obj size id isn (t t' : Transmitter.Transmitter) (w : W) :
  start_args_wf obj size id isn → zlen obj ≤ 239 * size → packet_wf (Transmitter.datagram_ingress t) →
  Transmitter.datagram_occupied_ t = false →
  Transmitter.startTransfer obj size id isn t = (StartResult.kStarted, t') →
  let s := Transmitter.setup (Transmitter.session_ t') in
  0 < segments s ≤ 239 ∧ setup_valid s ∧ zlen obj = object_bytes s ∧
  follows obj s claim
    (BitsTransmitterProps.run_call routes (CStart obj size id isn) (t, mkTraced w [])).2.
Proof.
  intros (Hobj & Hsize & Hid & Hisn) Hlen Hin Hocc Estart.
  pose proof (startTransfer_outcome obj size id isn t Hsize Hid Hisn) as Hout. rewrite Estart in Hout.
  destruct Hout as (_ & s & count & -> & -> & Hs & Hbytes & _ & _ & Hsz & _). cbn.
  assert (Hn : 0 < segments s ≤ 239).
  { pose proof (setup_geometry _ Hs) as (_ & _ & Hn & _). destruct Hs as [_ Hs].
    unfold object_bytes, segments in *. nia. }
  split_and!; [lia|lia|done|done|].
  unfold BitsTransmitterProps.run_call, Transmitter.self, gets, mbind at 1, State_bind at 1.
  cbn [fst snd]. rewrite Estart.
  match goal with |- follows _ _ _ ?out => change out with
    (Transmitter.set_session_ (Transmitter.startedSession obj s (segments s)) t,
     mkTraced w [BitsTransmitterRuns.Started obj s]) end. split.
  - split; cbn; try done; [lia|by left|by rewrite Hocc].
  - exists []. split; [done|constructor].
Qed.

(** ** What the receiver has had *)

Lemma layout_setup_inj s s' :
  message_wf (MSetup s) → message_wf (MSetup s') → layout (MSetup s) = layout (MSetup s') → s = s'.
Proof.
  intros Hs Hs' E.
  assert (H : ∀ x, message_wf (MSetup x) → decodeSetupKnownType (layout (MSetup x)) = Some x).
  { intros x Hx. apply decodeSetupKnownType_spec; [by apply layout_bytes|]. split; [done|]. by eexists. }
  apply H in Hs, Hs'. congruence.
Qed.

Lemma segment_with_inj session index payload index' payload' :
  segment_with session index payload = segment_with session index' payload' →
  index = index' ∧ payload = payload'.
Proof.
  intros [= Hlo Hhi ->]. split; [|done].
  rewrite (Z.div_mod index 256), (Z.div_mod index' 256) by lia. lia.
Qed.

Section receiver.
Variables (max_width : Z) (object : bytes) (s : Setup) (arrived : bytes → Prop).
Hypothesis width : 1 ≤ max_width ≤ 16.
Hypothesis valid : setup_valid s.
Hypothesis honest : ∀ message, arrived message → of_session object s message.

Lemma setup_of_session e ds : transfer_wf max_width e → delivered arrived e ds → setup e = s.
Proof.
  intros Htwf (_ & _ & _ & Harr). apply honest in Harr. pose proof (twf_setup _ _ Htwf) as [Hwf _].
  remember (layout (MSetup (setup e))) as message eqn:E. destruct Harr as [|i Hi|pdu Hhd].
  - symmetry in E. by apply layout_setup_inj; [|apply valid|].
  - discriminate E.
  - subst. destruct Hhd as [?|[?|?]]; discriminate.
Qed.

Lemma segment_of_session index payload :
  arrived (segment_with (setup_session_id s) index payload) → payload = segment_slice object s index.
Proof.
  intros Harr%honest. remember (segment_with _ _ _) as message eqn:E. destruct Harr as [|i Hi|pdu Hhd].
  - discriminate E.
  - by apply segment_with_inj in E as [-> ->].
  - subst. destruct Hhd as [?|[?|?]]; discriminate.
Qed.

(** At some point of the log the receiver had the first [k] segments of the transfer. *)
Definition counted (log : list BitsEngine.Event) (k : Z) : Prop :=
  ∃ e before after, log = before ++ after ∧ engine_wf max_width e ∧
    (∃ m, BitsEngine.monitor before = Some m ∧ BitsEngine.agrees arrived e m) ∧
    (state e = TransferState.kActive ∨ state e = TransferState.kCompleted) ∧
    setup e = s ∧ contiguous_count e = k.

(** Every ACK the receiver writes says what it has had. *)
Lemma stored_heard log contents :
  vouched max_width arrived log → EStore contents ∈ log → heard s (counted log) contents.
Proof.
  intros Hv Hin Htype a Hdec. apply list_elem_of_split in Hin as (before & after & E).
  destruct (Hv before contents after E Htype) as (e & (Hwf & m & Hm & Hag) & Hst & storage & Hlen & Hcontents).
  assert (Htwf : transfer_wf max_width e).
  { pose proof (ewf_state _ _ Hwf) as H. by destruct Hst as [Hst|Hst]; rewrite Hst in H; destruct H. }
  assert (Hsetup : setup e = s).
  { unfold BitsEngine.agrees in Hag. destruct Hst as [Hst|Hst]; rewrite Hst in Hag;
      destruct Hag as (ds & _ & Hdel); by apply (setup_of_session e ds). }
  destruct (engine_ack max_width e storage width Hwf Htwf Hlen) as (a' & Ha' & Hwf' & _ & Hbase & _ & _).
  assert (contents = layout (MAck a')) as -> by congruence.
  assert (a = a') as ->.
  { assert (decodeAckKnownType (layout (MAck a')) = Some a') as Hdec'; [|congruence].
    apply decodeAckKnownType_spec; [by apply layout_bytes|]. split; [done|]. by eexists. }
  exists (contiguous_count e). rewrite <- Hsetup. split_and!.
  - apply (twf_contiguous _ _ Htwf).
  - rewrite <- (twf_count _ _ Htwf). apply (twf_contiguous _ _ Htwf).
  - exists e, before, (EStore (layout (MAck a')) :: after). split_and!; eauto.
  - done.
Qed.

Lemma counted_all log :
  vouched max_width arrived log → zlen object = object_bytes s → counted log (segments s) →
  ∃ before after ds, log = before ++ after ∧ BitsEngine.monitor before = Some (Done (info_of s) ds) ∧
    ∀ buffer, length buffer = length object → write_all ds buffer = object.
Proof.
  intros Hv Hobj (e & before & after & -> & Hwf & Hm & Hst & Hsetup & Hall).
  assert (Hdone : state e = TransferState.kCompleted).
  { destruct Hst as [Hst|]; [|done]. pose proof (ewf_state _ _ Hwf) as H. rewrite Hst in H.
    destruct H as [Htwf ?]. rewrite (twf_count _ _ Htwf), Hsetup in *. lia. }
  apply vouched_prefix in Hv.
  destruct (completed_object max_width arrived e tt before object) as (ds & Hds & Hwrite).
  - by split; [|split].
  - done.
  - by rewrite Hsetup.
  - rewrite Hsetup. intros index payload ->%segment_of_session Hlen. unfold segment_slice at 1. by rewrite Hlen.
  - exists before, after, ds. by rewrite <- Hsetup.
Qed.
End receiver.

(** ** The composition *)

(** The transmitter after the start of a transfer and the calls that follow it. *)
Definition transmitted {W} `{!TransmitterCallbacks W, !PacketForwarder W} routes
    (t : Transmitter.Transmitter) (object : bytes) (size id isn : Z) (calls : list TxCall) (w : W) :
    Transmitter.Transmitter * BitsTransmitterRuns.Traced W :=
  BitsTransmitterProps.run_calls routes (CStart object size id isn :: calls) (t, mkTraced w []).

(** A link that does not forge: what the receiver takes off its connection the transmitter
    offered at some time, and what the transmitter takes the receiver wrote at some time. *)
Record links (connection : ConnectionAddress) (calls : list TxCall) (arrivals : list RxCall)
    (sent : list BitsTransmitterRuns.Event) (wrote : list BitsEngine.Event) : Prop := {
  link_forward : ∀ message, arrived_packet connection arrivals message →
    ∃ r, BitsTransmitterRuns.Sent message r ∈ sent;
  link_back : ∀ packet, CReceive packet ∈ calls → EStore (payload packet) ∈ wrote;
}.

(** The log of the transmitter holds the PDUs of its session. *)
Lemma transmitted_session {W} `{!TransmitterCallbacks W, !PacketForwarder W} routes
    (t : Transmitter.Transmitter) object size id isn calls (w : W) s :
  Transmitter.isRunning (Transmitter.session_ t) = false →
  connection_wf (Transmitter.connection_ t) → packet_wf (Transmitter.datagram_ingress t) →
  packet_wf (Transmitter.transmit_packet t) → start_args_wf object size id isn → Forall ongoing calls →
  one_start object s
    (BitsTransmitterProps.run_call routes (CStart object size id isn) (t, mkTraced w [])).2.2 →
  ∀ pdu r, BitsTransmitterRuns.Sent pdu r ∈ log_of (transmitted routes t object size id isn calls w).2 →
    is_bytes pdu → of_session object s pdu.
Proof.
  intros Hidle Hconn Hin Hout Hargs Hcalls Hstart.
  destruct (one_start_calls routes object s calls _ Hcalls Hstart) as (log & Elog & Hlog).
  change (log_of (transmitted routes t object size id isn calls w).2 =
    BitsTransmitterRuns.Started object s :: log) in Elog.
  assert (Hinv : BitsTransmitterRuns.inv (transmitted routes t object size id isn calls w)).
  { apply tx_run_calls_inv.
    - constructor; [done|]. eapply list.Forall_impl; [exact Hcalls|]. by intros [].
    - split; [split; [done..|cbn [fst]; by rewrite Hidle]|]. exists BitsTransmitterRuns.Closed.
      split; [done|]. unfold BitsTransmitterRuns.agrees. cbn [fst]. by rewrite Hidle. }
  destruct Hinv as [_ (p & Hm & _)]. rewrite Elog in *.
  destruct (monitor_in_session object s log p Hlog Hm) as [_ Hall].
  intros pdu r [?|Hr]%elem_of_cons; [done|by apply (Hall pdu r)].
Qed.

(** C1: The transfer protocol, end to end, for one transfer of an object of at most 239
    segments, started on a transmitter with nothing pending and received by a fresh
    receiver: whatever a link that does not forge does to the packets in either direction -
    lose, duplicate, delay and reorder them - and however the two endpoints are polled, a
    transmitter that reports its transfer complete has a receiver that has completed it: at
    some point of its run the receiver's service was given, and told the completion of,
    exactly the object's segments, which rebuild the object, byte for byte.  The bound of
    239 segments is that of the eight-bit sequence numbers: with it no ACK of the transfer,
    however old, can be taken for a later one.  Nothing is claimed of a larger object, where
    an ACK delayed by a whole turn of the sequence numbers looks current. *)
Theorem completed_transfer_delivered {W V} `{!TransmitterCallbacks W, !PacketForwarder W,
      !ReceiverCallbacks V, !ReceiverPduSender V}
    routes (t t' : Transmitter.Transmitter) (object : bytes) (size id isn : Z)
    (calls : list TxCall) (w : W)
    (max_width : Z) (connection : ConnectionAddress) (slots : list (option PacketBuffer))
    (datagram : PacketBuffer) (timeout : Z) (arrivals : list RxCall) (v : V) :
  connection_wf (Transmitter.connection_ t) → packet_wf (Transmitter.datagram_ingress t) →
  packet_wf (Transmitter.transmit_packet t) → Transmitter.datagram_occupied_ t = false →
  start_args_wf object size id isn → zlen object ≤ 239 * size →
  Transmitter.startTransfer object size id isn t = (StartResult.kStarted, t') →
  Forall ongoing calls →
  1 ≤ max_width ≤ 16 → slots_wf slots → packet_wf datagram → is_u32 timeout →
  Forall rx_call_wf arrivals →
  let tx := transmitted routes t object size id isn calls w in
  let rx := rx_calls (V := BitsEngine.Traced V) max_width arrivals
    (Receiver.new_receiver max_width connection slots datagram timeout, (v, [])) in
  links connection calls arrivals (log_of tx.2) rx.2.2 →
  Transmitter.state (Transmitter.session_ tx.1) = TransferState.kCompleted →
  ∃ before after ds, rx.2.2 = before ++ after ∧
    BitsEngine.monitor before = Some (Done (info_of (Transmitter.setup (Transmitter.session_ t'))) ds) ∧
    ∀ buffer, length buffer = length object → write_all ds buffer = object.
Proof.
  intros Hconn Hin Hout Hocc Hargs Hlen Hstart Hcalls Hmax Hslots Hdatagram Htimeout Harrivals tx rx
    [Hforward Hback] Hdone.
  set (s := Transmitter.setup (Transmitter.session_ t')).
  set (arrived := arrived_packet connection arrivals).
  destruct (follows_start routes (counted max_width s arrived rx.2.2) object size id isn t t' w
    Hargs Hlen Hin Hocc Hstart) as (Hfew & Hvalid & Hobj & Hfollows). fold s in Hfew, Hvalid, Hobj, Hfollows.
  assert (Hidle : Transmitter.isRunning (Transmitter.session_ t) = false).
  { pose proof (startTransfer_spec object size id isn t Hout Hargs) as H. rewrite Hstart in H. apply H. }
  assert (Hrx : rx_inv max_width connection arrived rx).
  { apply rx_calls_inv; [done|done| |by apply rx_inv_new]. intros packet Hp Hm. by exists packet. }
  destruct Hrx as [_ _ (_ & _ & Hvouched) _]. cbn [snd] in Hvouched.
  assert (Hhonest : ∀ message, arrived message → of_session object s message).
  { intros message Hm. destruct (Hforward message Hm) as [r Hr].
    apply (transmitted_session routes t object size id isn calls w s Hidle Hconn Hin Hout Hargs Hcalls) with r;
      [apply Hfollows|done|].
    destruct Hm as (packet & Hp & _ & <-). apply payload_bytes. rewrite list.Forall_forall in Harrivals.
    apply (Harrivals _ Hp). }
  assert (Htx : follows object s (counted max_width s arrived rx.2.2) tx).
  { apply (follows_calls routes object s _ Hfew calls _ Hcalls); [|exact Hfollows]. intros packet Hp.
    by apply (stored_heard max_width object s arrived), Hback. }
  destruct Htx as [[Hcarried Hcount Hacked Hclaim Hcompleted _ _] _].
  rewrite (Hcompleted Hdone) in Hclaim. destruct Hclaim as [Hzero|Hclaim]; [lia|].
  by apply (counted_all max_width object s arrived).
Qed.

(** The messages of a run, for checking a link by evaluation. *)
Definition taken_messages (arrivals : list RxCall) : list bytes :=
  omap (λ c, match c with RReceive p => Some (payload p) | _ => None end) arrivals.
Definition offered_messages (log : list BitsTransmitterRuns.Event) : list bytes :=
  omap (λ e, match e with BitsTransmitterRuns.Sent pdu _ => Some pdu | _ => None end) log.
Definition heard_messages (calls : list TxCall) : list bytes :=
  omap (λ c, match c with CReceive p => Some (payload p) | _ => None end) calls.
Definition written_messages (log : list BitsEngine.Event) : list bytes :=
  omap (λ e, match e with EStore contents => Some contents | _ => None end) log.

Lemma links_check connection calls arrivals sent wrote :
  Forall (λ m, m ∈ offered_messages sent) (taken_messages arrivals) →
  Forall (λ m, m ∈ written_messages wrote) (heard_messages calls) →
  links connection calls arrivals sent wrote.
Proof.
  rewrite !list.Forall_forall. intros Hforward Hback. split.
  - intros message (packet & Hin & _ & <-). specialize (Hforward (payload packet)).
    unfold taken_messages, offered_messages in Hforward. rewrite !list_elem_of_omap in Hforward.
    destruct Hforward as ([] & He & [=]); [by exists (RReceive packet)|]. subst. by eexists.
  - intros packet Hin. specialize (Hback (payload packet)).
    unfold heard_messages, written_messages in Hback. rewrite !list_elem_of_omap in Hback.
    destruct Hback as ([] & He & [=]); [by exists (CReceive packet)|]. by subst.
Qed.

(** *** Witness: a disordered transfer

    An object of two segments: the receiver gets them in the wrong order, one of them twice;
    the transmitter gets the first ACK twice, the second time when it is stale. *)

Import DemoLink DemoEndpoint BitsEngineRuns.BufferSink.

Module Disorder.

Definition ack (base : Z) : PacketBuffer := from_peer (MAck (mkAck 7 0 251 base)).
Definition calls : list TxCall :=
  [BitsTransmitterProps.CProcess 0; CReceive (ack 249); BitsTransmitterProps.CProcess 1;
    BitsTransmitterProps.CProcess 2; CReceive (ack 249); BitsTransmitterProps.CProcess 3;
   CReceive (ack 251); BitsTransmitterProps.CProcess 4].
Definition announced : Setup := mkSetup 7 250 1 2 1.
Definition arrivals : list RxCall :=
  [RReceive (demo_packet (layout (MSetup announced))); RProcess 0;
   RReceive (demo_segment_packet 1 [33]); RProcess 1; RReceive (demo_segment_packet 1 [33]); RProcess 2;
   RReceive (demo_segment_packet 0 [11; 22]); RProcess 3].

Definition tx : Transmitter.Transmitter * BitsTransmitterRuns.Traced (list RouteResult.t) :=
  transmitted demo_routes demo_transmitter [11; 22; 33] 2 7 250 calls [].
Definition rx : Receiver.Receiver * BitsEngine.Traced (Receiver.Link bytes) :=
  rx_calls (V := BitsEngine.Traced (Receiver.Link bytes)) 16 arrivals
    (Receiver.new_receiver 16 DemoEndpoint.connection demo_slots (new_packet 16) 5000, (demo_link, [])).

Lemma calls_ongoing : Forall ongoing calls.
Proof. repeat constructor; by_evaluation. Qed.
Lemma arrivals_wf : Forall rx_call_wf arrivals.
Proof.
  unfold arrivals. repeat apply list.Forall_cons_2; try done; apply demo_packet_wf; by_evaluation.
Qed.
End Disorder.

Lemma completed_transfer_delivered_witness :
  Transmitter.state (Transmitter.session_ Disorder.tx.1) = TransferState.kCompleted ∧
  ∃ before after ds, Disorder.rx.2.2 = before ++ after ∧
    BitsEngine.monitor before = Some (Done (info_of Disorder.announced) ds) ∧
    ∀ buffer, length buffer = length [11; 22; 33] → write_all ds buffer = [11; 22; 33].
Proof.
  split; [vm_compute; reflexivity|].
  apply (completed_transfer_delivered demo_routes demo_transmitter
    (Transmitter.startTransfer [11; 22; 33] 2 7 250 demo_transmitter).2 [11; 22; 33] 2 7 250 Disorder.calls []
    16 DemoEndpoint.connection demo_slots (new_packet 16) 5000 Disorder.arrivals demo_link).
  - split; by_evaluation.
  - apply new_packet_wf. by_evaluation.
  - apply new_packet_wf. by_evaluation.
  - reflexivity.
  - repeat split; by_evaluation.
  - by_evaluation.
  - vm_compute. reflexivity.
  - apply Disorder.calls_ongoing.
  - by_evaluation.
  - apply demo_slots_wf.
  - apply new_packet_wf. by_evaluation.
  - by_evaluation.
  - apply Disorder.arrivals_wf.
  - apply links_check; by_evaluation.
  - vm_compute. reflexivity.
Defined.
