(* ===== verification/BitsLockstep.v ===== *)
(** * BITS over a perfect link ([transports/bits/])

    A transmitter whose link hands every packet to a receiver engine at once, and which is
    told the engine's latest message after each of its polls.  [BitsEndToEnd] shows that a
    completed transfer is right on any link; here a transfer is shown to complete, in as
    many polls as it has segments and two more. *)

From S2P Require Import Prelude Packet Routing BitsCodec BitsTransmitter BitsTransmitterKeeps.
From S2P Require Import BitsTransmitterRuns BitsTransmitterProps BitsEngine BitsEngineRuns.
From S2P Require Import BitsEndToEnd.
Local Open Scope Z_scope.

(** ** What the receiver answers *)

(** The latest PDU the engine wrote. *)
Definition answer (log : list Event) : option bytes := list.last (written_messages log).

Lemma answer_snoc log n available contents r :
  answer (((log ++ [EPrepare n available]) ++ [EStore contents]) ++ [ESend r]) = Some contents.
Proof.
  unfold answer, written_messages. rewrite !omap_app. cbn [omap list_omap].
  rewrite !app_nil_r. apply list.last_snoc.
Qed.

Section receiver.
Context {V : Type} `{!ReceiverCallbacks V, !ReceiverPduSender V, !Cooperative V}.
Variable max_width : Z.
Hypothesis Hmax : 1 ≤ max_width ≤ 16.

(** The latest PDU is the ACK of the engine as it is. *)
Definition answered (e : Engine) (log : list Event) : Prop :=
  ∃ storage contents, zlen storage = kAckSize ∧
    ackContents max_width e storage = Some contents ∧ answer log = Some contents.

Lemma wp_logged {A} (m : State V A) event e w log (Q : A → Engine * Traced V → Prop) :
  (∀ a w', m w = (a, w') → Q a (e, (w', log ++ [event a]))) →
  wp (call (traced m event)) (e, (w, log)) Q.
Proof.
  intros H. unfold wp, call, on_snd, traced. destruct (m w) as [a w'] eqn:E. by apply H.
Qed.

Lemma acknowledge_answers e (wl : Traced V) :
  wp (acknowledge max_width) (e, wl) (λ _ s, answered s.1 s.2.2).
Proof.
  destruct wl as [w log]. apply wp_bind, wp_bind, wp_logged. intros storage w1 Hprep.
  pose proof (coop_prepare kAckSize w ltac:(done)) as Hlen. rewrite Hprep in Hlen. cbn [fst] in Hlen.
  apply wp_bind, wp_engine. cbn [fst]. rewrite Hlen, Z.eqb_refl.
  destruct (ackContents_some max_width e storage Hlen) as [contents E]. rewrite E.
  apply wp_bind, wp_logged. intros [] w2 _. apply wp_bind, wp_bind, wp_logged. intros r w3 Hsent.
  pose proof (coop_send w2) as Hsend. rewrite Hsent in Hsend. cbn [fst] in Hsend.
  apply wp_bind, wp_update, wp_ret.
  assert (Hdone : answered (set_last_send r e)
    (((log ++ [EPrepare kAckSize kAckSize]) ++ [EStore contents]) ++ [ESend r])).
  { exists storage, contents. split_and!; [done|done|apply answer_snoc]. }
  by destruct Hsend as [-> | ->].
Qed.

(** The setup and each next segment of an undisturbed transfer are answered. *)
Variables (s : Setup) (object : bytes) (times : Z → Z) (timeout : Z).
Hypothesis object_size : zlen object = object_bytes s.
Hypothesis object_is : is_bytes object.
Hypothesis on_time : ∀ i, timeout = 0 ∨ u32 (times (i + 1) - times i) < timeout.
Hypothesis valid : setup_valid s.
Abbreviation at_segment := (at_segment max_width s times timeout).

(** The segment PDU of the transmitter is the one the engine expects. *)
Lemma segment_answered k e (wl : Traced V) :
  0 ≤ k < segments s → at_segment k e →
  let s' := (process max_width (layout (MSegment (mkSegmentHeader (setup_session_id s) k)) ++
    slice object (segment_offset s k) (segment_bytes s k)) (times (k + 1)) (e, wl)).2 in
  at_segment (k + 1) s'.1 ∧ answered s'.1 s'.2.2.
Proof.
  intros Hk Hat. pose proof (at_segment_step max_width Hmax s object times timeout object_size object_is
    on_time valid k e wl Hk Hat) as Hnext.
  destruct Hat as (Hwf & Hset & Hto & Hlast & Hcnt & Hrec & Hst).
  unfold segment_message in Hnext. rewrite Hset in Hnext. cbv zeta. split; [exact Hnext|]. clear Hnext.
  rewrite (proj2 (Z.eqb_neq k (segments s))) in Hst by lia.
  pose proof (ewf_state _ _ Hwf) as Htwf. rewrite Hst in Htwf. destruct Htwf as [Htwf _].
  pose proof (contiguous_least _ _ _ Htwf (proj1 Hk) Hrec) as Hc.
  set (payload := slice object (segment_offset s k) (segment_bytes s k)).
  pose proof (coop_segment (segment_offset (setup e) k) payload wl) as Hsink.
  destruct (onSegment _ payload wl) as [b wl'] eqn:Hseg. simpl in Hsink. subst b.
  pose proof (process_fresh max_width Hmax e wl wl' k payload (times (k + 1)) Hwf Hst) as Hfresh.
  unfold segment_message in Hfresh. rewrite Hset in Hfresh, Hseg. rewrite Hfresh; try done.
  - destruct (after_accept _ _ _ _ _) as [e' w']. by apply acknowledge_answers.
  - unfold expired. rewrite Hto, Hlast. destruct (on_time k) as [->|]; [done|].
    by rewrite (proj2 (Z.leb_gt _ _)), andb_false_r.
  - destruct Htwf. lia.
  - rewrite Hrec. lia.
  - by apply slice_length.
  - by apply slice_bytes.
Qed.

Lemma setup_answered e (wl : Traced V) :
  engine_wf max_width e → state e ≠ TransferState.kActive →
  inactivity_timeout_ms (config e) = timeout → 1 ≤ receive_window_width (config e) →
  object_bytes s ≤ maximum_object_size (config e) →
  segment_size s ≤ maximum_segment_size (config e) →
  let s' := (process max_width (layout (MSetup s)) (times 0) (e, wl)).2 in
  at_segment 0 s'.1 ∧ answered s'.1 s'.2.2.
Proof.
  intros Hwf Hidle Hto Hw Hobj Hseg. cbv zeta.
  pose proof (process_setup max_width Hmax e wl s (times 0) Hwf Hidle valid Hw Hobj Hseg) as Hsetup.
  rewrite process_setup_opens by done. unfold wp in Hsetup. rewrite process_setup_opens in Hsetup by done.
  split; [|by apply acknowledge_answers].
  destruct (acknowledge _ _) as [? [e' w']]. cbn [fst snd] in *.
  destruct Hsetup as (Hwf' & Hset & Hcf & Ha & Hcnt & Hrec & Hst).
  pose proof (setup_geometry _ valid) as (_ & _ & Hn & _).
  split_and!; try done; [by rewrite Hcf|]. by rewrite (proj2 (Z.eqb_neq _ _)) by lia.
Qed.
End receiver.

(** ** The link *)

(** The receiver's clock, the engine, and what its service has seen. *)
Definition Peer (V : Type) : Type := Z * (Engine * Traced V).

(** The connection as the peer sees it, and a packet of the peer that carries a message. *)
Definition peer_connection (c : ConnectionAddress) : ConnectionAddress :=
  {| conn_wire := conn_wire c; conn_local_host := conn_remote_host c;
     conn_remote_host := conn_local_host c; conn_endpoint := conn_endpoint c |}.

Definition reply (c : ConnectionAddress) (message : bytes) : PacketBuffer :=
  write_payload 0 message
    (initializeConnection (zlen message) (peer_connection c) (cf_bits kNormal)
       (new_packet (zlen message))).2.

Lemma reply_spec c message :
  connection_wf c → is_bytes message → is_u16 (zlen message) →
  matchesConnection (reply c message) c = true ∧ payload (reply c message) = message ∧
  packet_wf (reply c message) ∧ size (reply c message) = zlen message.
Proof.
  intros Hc Hb Hlen. set (p := new_packet (zlen message)).
  assert (Hp : packet_wf p) by by apply new_packet_wf.
  assert (Hc' : connection_wf (peer_connection c)) by by destruct Hc.
  destruct (initializeConnection_room (zlen message) (peer_connection c) kNormal p Hc' Hp
    ltac:(unfold zlen; lia)) as (_ & [Hwf _] & Hsize). specialize (Hsize ltac:(done)).
  unfold reply. fold p. set (q := (initializeConnection _ _ _ p).2) in *.
  assert (Hq : length (payload q) = length message)
    by (rewrite length_payload, Hsize by done; unfold zlen; lia).
  split_and!; [| |by apply write_payload_wf|done].
  - unfold matchesConnection. change (header (write_payload 0 message q)) with (header q).
    unfold q, initializeConnection, initialize, resize, p. cbn [capacity new_packet].
    rewrite Z.ltb_irrefl. cbn -[bool_decide]. by rewrite !bool_decide_eq_true_2.
  - rewrite payload_write by (done || (rewrite Hsize; unfold zlen; lia)).
    rewrite memcpy_at_app by lia. rewrite take_0, drop_ge by lia. by rewrite app_nil_r.
Qed.

(** An idle transmitter stores the ACK of its peer. *)
Lemma receive_reply t c a :
  Transmitter.connection_ t = c → connection_wf c → packet_wf (Transmitter.datagram_ingress t) →
  kAckSize ≤ capacity (Transmitter.datagram_ingress t) →
  Transmitter.datagram_occupied_ t = false → message_wf (MAck a) →
  ∃ ingress, (Transmitter.receive (reply c (layout (MAck a))) t).2 =
      Transmitter.set_datagram_occupied_ true (Transmitter.set_datagram_ingress ingress t) ∧
    payload ingress = layout (MAck a) ∧ packet_wf ingress ∧
    capacity ingress = capacity (Transmitter.datagram_ingress t).
Proof.
  intros Hconn Hc Hin Hroom Hocc Ha.
  destruct (reply_spec c (layout (MAck a)) Hc (layout_bytes (MAck a) Ha) ltac:(done))
    as (Hmatch & Hpay & Hwf & Hsize).
  pose proof (copyPacket_spec _ _ Hwf Hin) as Hcopy. rewrite Hsize in Hcopy.
  change (zlen (layout (MAck a))) with kAckSize in Hcopy. rewrite (proj2 (Z.leb_le _ _) Hroom) in Hcopy.
  destruct Hcopy as (ingress & Hcopy & Hiwf & Hipay & Hicap). exists ingress.
  split_and!; [|congruence|done|done].
  unfold Transmitter.receive. rewrite Hconn, Hmatch, Hpay. cbn [negb].
  cbn [layout app] in Hcopy |- *. change (decodeControl 2) with (Some (mkControl 0 0 kAck)).
  by rewrite Hocc, Hcopy.
Qed.

Section lockstep.
Context {V : Type} `{!ReceiverCallbacks V, !ReceiverPduSender V, !Cooperative V}.
Variable max_width : Z.
Hypothesis Hmax : 1 ≤ max_width ≤ 16.
Variables (routes : list RouteTableEntry) (connection : ConnectionAddress).

(** Nothing listens to the transmitter; its link hands each packet to the engine at once. *)
#[local] Instance peer_callbacks : TransmitterCallbacks (Peer V) := {|
  txDatagram _ := mret tt;
  txTransferComplete := mret tt;
  txTransferRejected _ := mret tt;
  txTransferAborted := mret tt |}.
#[local] Instance peer_link : PacketForwarder (Peer V) :=
  λ packet _ '(now, st), (RouteResult.kAccepted, (now, (process max_width (payload packet) now st).2)).

Abbreviation Linked := (BitsTransmitterRuns.Traced (Peer V)).

(** The transmitter gets the engine's latest message. *)
Definition hear (st : Transmitter.Transmitter * Linked) : Transmitter.Transmitter * Linked :=
  match answer (world st.2).2.2.2 with
  | Some message => ((Transmitter.receive (reply connection message) st.1).2, st.2)
  | None => st
  end.

(** One poll of the transmitter at the time both clocks show, then it hears the engine. *)
Definition round (now : Z) (st : Transmitter.Transmitter * Linked)
    : Transmitter.Transmitter * Linked :=
  let '(t, wl) := st in
  hear (Transmitter.process routes now (t, mkTraced (now, (world wl).2) (log_of wl))).2.

Definition rounds (times : Z → Z) (n : Z) (st : Transmitter.Transmitter * Linked)
    : Transmitter.Transmitter * Linked :=
  foldl (λ st i, round (times i) st) st (seqZ 0 n).

(** *** Every packet arrives *)

Hypothesis routes_wf : Forall (λ e, is_u8 (wire_interfaces e)) routes.
Hypothesis routed : conn_wire connection ∈ map route_wire routes.

Lemma packet_forwarded pdu t (wl : Linked) :
  Transmitter.connection_ t = connection → zlen pdu ≤ capacity (Transmitter.transmit_packet t) →
  ¬ not_forwarded routes pdu t wl.
Proof.
  intros Hconn Hroom [Hbig|(packet & r & (_ & Hwire & Hing) & Hforward)]; [lia|].
  pose proof (routerForward_origin routes packet wl Hing routes_wf) as Horigin.
  rewrite Hwire, Hconn in Horigin.
  apply list_elem_of_In, in_map_iff in routed as (entry & Hentry & Hin).
  destruct (find _ routes) as [e|] eqn:Hfind.
  - rewrite Hforward in Horigin. destruct wl as [[now st] log].
    injection Horigin as _ _ Hlog. apply (f_equal length) in Hlog. rewrite length_app in Hlog.
    simpl in Hlog. lia.
  - pose proof (find_none _ _ Hfind entry Hin) as Hno. cbv beta in Hno.
    by rewrite Hentry, bool_decide_eq_true_2 in Hno.
Qed.

Lemma fate_accepted pdu t now st log sent wl' :
  Transmitter.connection_ t = connection → zlen pdu ≤ capacity (Transmitter.transmit_packet t) →
  fate routes pdu t (now, st) log sent wl' →
  sent = true ∧ world wl' = (now, (process max_width pdu now st).2).
Proof.
  intros Hconn Hroom [[_ Hno]|(r & -> & packet & egress & (Hpay & _) & Hforward)].
  - by apply packet_forwarded in Hno.
  - injection Hforward as <- <-. by rewrite Hpay.
Qed.

(** *** The state between two rounds *)

Variables (s : Setup) (object : bytes) (times : Z → Z) (timeout : Z) (start : Engine * Traced V).
Hypothesis object_size : zlen object = object_bytes s.
Hypothesis object_is : is_bytes object.
Hypothesis on_time : ∀ i, timeout = 0 ∨ u32 (times (i + 1) - times i) < timeout.
Hypothesis valid : setup_valid s.

(** What every step of this transfer leaves as it is. *)
Record announced (t : Transmitter.Transmitter) : Prop := {
  ann_connection : Transmitter.connection_ t = connection;
  ann_room : kAckSize ≤ capacity (Transmitter.datagram_ingress t);
  ann_carried : carried (Transmitter.session_ t) = (object, s);
  ann_sent : Transmitter.setup_sent (Transmitter.session_ t) = true;
}.

(** The receiver after the setup and the first [k] segments. *)
Definition served (k : Z) : Engine * Traced V :=
  run_calls max_width (CProcess (layout (MSetup s)) (times 0) :: segment_calls s object times 0 k) start.

(** The engine has [k] segments and its ACK is pending at the transmitter, which has sent
    those [k] and knows of all but the last. *)
Record in_step (k : Z) (st : Transmitter.Transmitter * Linked) : Prop := {
  ins_running : running st;
  ins_announced : announced st.1;
  ins_sent : ∀ i, 0 ≤ i → was_sent (Transmitter.session_ st.1) i ↔ i < k;
  ins_acked : Transmitter.acknowledged_count (Transmitter.session_ st.1) ≤ k
    ≤ Transmitter.acknowledged_count (Transmitter.session_ st.1) + 1;
  ins_pending : Transmitter.datagram_occupied_ st.1 = true;
  ins_ack : ∃ storage, zlen storage = kAckSize ∧
    ackContents max_width (served k).1 storage = Some (payload (Transmitter.datagram_ingress st.1));
  ins_served : (world st.2).2 = served k;
  ins_engine : at_segment max_width s times timeout k (served k).1;
}.

(** An ACK changes neither the transfer nor the world. *)
Lemma handleAck_announced message w :
  preserves (λ st, announced st.1 ∧ world st.2 = w)
    (Transmitter.handleAck (W := Linked) message).
Proof.
  assert (Hupdate : ∀ f, (∀ ts, carried (f ts) = carried ts ∧
      (Transmitter.setup_sent ts = true → Transmitter.setup_sent (f ts) = true)) →
    preserves (λ st, announced st.1 ∧ world st.2 = w) (Transmitter.updateSession (W := Linked) f)).
  { intros f Hf [t wl] [[] Hw]. split; [|done]. destruct (Hf (Transmitter.session_ t)).
    split; cbn in *; [done|done|congruence|auto]. }
  assert (Hcomplete : preserves (λ st, announced st.1 ∧ world st.2 = w)
    (Transmitter.call (W := Linked) txTransferComplete)) by by intros [t wl].
  unfold Transmitter.handleAck, Transmitter.session.
  keep ltac:(first [exact Hcomplete | apply Hupdate; intros ts]); [|done..].
  split; [by destruct (ackApplied_session a ts)|done].
Qed.

(** The pending ACK takes the transmitter to the engine's count. *)
Lemma handle_pending k st w :
  in_step k st → world st.2 = w →
  wp (Transmitter.handleDatagram (W := Linked)) st (λ handled st', handled = true ∧
    BitsTransmitterRuns.inv st' ∧ announced st'.1 ∧ world st'.2 = w ∧
    let ts := Transmitter.session_ st'.1 in
    Transmitter.acknowledged_count ts = k ∧
    (k < segments s → k < Transmitter.granted_end ts) ∧
    (∀ i, 0 ≤ i → was_sent ts i ↔ i < k) ∧
    Transmitter.state ts = if k =? segments s then TransferState.kCompleted else TransferState.kActive).
Proof.
  destruct st as [t [w0 log]].
  intros [Hrunning Hann Hsent Hacked Hocc (storage & Hlen & Hack) Hserved Hat] Hworld.
  pose proof (sw_window _ (proj1 (running_phase _ _ _ Hrunning))) as Hwindow.
  cbn [fst snd world] in *. subst w0. set (wl := mkTraced w log) in *. set (e := (served k).1) in *.
  destruct Hat as (Hwf & Hset & _ & _ & Hcnt & Hrec & Hst).
  assert (Htwf : transfer_wf max_width e).
  { pose proof (ewf_state _ _ Hwf) as H. rewrite Hst in H. by destruct (k =? segments s); destruct H. }
  pose proof (engine_ack max_width e storage Hmax Hwf Htwf Hlen) as (a & Ha & Hawf & _).
  assert (Hpay : payload (Transmitter.datagram_ingress t) = layout (MAck a)) by congruence.
  assert (Hk : 0 ≤ k).
  { pose proof (ww_acked _ Hwindow). lia. }
  pose proof (contiguous_least _ _ _ Htwf Hk Hrec) as Hcont.
  pose proof (handleDatagram_inv (t, wl) (proj1 Hrunning)) as Hinv.
  assert (Hhandle : Transmitter.handleDatagram (W := Linked) (t, wl) =
    Transmitter.handleAck (payload (Transmitter.datagram_ingress t)) (t, wl)).
  { unfold Transmitter.handleDatagram, mbind, State_bind, Transmitter.self, gets. cbn [fst].
    by rewrite Hpay. }
  unfold wp in *. rewrite Hhandle in *.
  pose proof (handleAck_announced (payload (Transmitter.datagram_ingress t)) w (t, wl) (conj Hann eq_refl))
    as [Hann' Hworld'].
  pose proof (ack_effect max_width e storage _ t wl Hmax Hwf Htwf Hlen Hack
    Hwindow (proj2 Hrunning) (ann_sent _ Hann)) as Heffect.
  destruct Hann as [_ _ Hcarried _].
  assert (Hsetup : Transmitter.setup (Transmitter.session_ t) = s) by by injection Hcarried.
  destruct Heffect as (Hr & Hacked' & Hgranted & _ & Hsame & Hstate).
  - by rewrite Hsetup.
  - rewrite Hcont. lia.
  - intros i Hi%Hrec. apply Hsent; lia.
  - rewrite Hcont in *. split_and!; try done.
    + intros Hlt. rewrite Hgranted, (twf_grant _ _ Htwf), Hcont, Hcnt. destruct Htwf. lia.
    + intros i Hi. rewrite Hsame by done. by apply Hsent.
    + by rewrite Hstate, Hcnt.
Qed.

(** No call of the transmitter changes its connection or what its ingress packet holds. *)
Definition addressed (t : Transmitter.Transmitter) : Prop :=
  Transmitter.connection_ t = connection ∧ kAckSize ≤ capacity (Transmitter.datagram_ingress t).

Lemma addressed_process now :
  preserves (kept (W := Linked) addressed (λ _, True)) (Transmitter.process (W := Linked) routes now).
Proof.
  apply kept_process; try done.
  - intros t t' [_ _ _ _ Hconn _ Hin _] [? ?]. split; congruence.
  - intros st Hst _ _. generalize (payload (Transmitter.datagram_ingress st.1)). intros message.
    revert st Hst.
    change (preserves (kept (W := Linked) addressed (λ _, True)) (Transmitter.handleAck message)).
    unfold Transmitter.handleAck, Transmitter.session.
    keep ltac:(first [by intros [t wl] | by apply kept_call]).
Qed.

(** With nothing pending that is new, the next segment goes out and reaches the engine. *)
Lemma send_next k t st log now :
  running (t, mkTraced (now, st) log) → Transmitter.connection_ t = connection → 0 ≤ k < segments s →
  carried (Transmitter.session_ t) = (object, s) →
  Transmitter.acknowledged_count (Transmitter.session_ t) = k →
  k < Transmitter.granted_end (Transmitter.session_ t) →
  (∀ i, 0 ≤ i → was_sent (Transmitter.session_ t) i ↔ i < k) →
  wp (Transmitter.processActive (W := Linked) routes true now) (t, mkTraced (now, st) log)
    (λ _ out, running out ∧
      Transmitter.session_ out.1 = Transmitter.segmentSent 0 now false (Transmitter.session_ t) ∧
      Transmitter.datagram_occupied_ out.1 = Transmitter.datagram_occupied_ t ∧
      world out.2 = (now, (process max_width (layout (MSegment (mkSegmentHeader (setup_session_id s) k)) ++
        slice object (segment_offset s k) (segment_bytes s k)) now st).2)).
Proof.
  intros Hr Hconn Hk Hcarried Hacked Hgrant Hsent.
  destruct (running_phase _ _ _ Hr) as (Hswf & _). pose proof Hswf as [Hw _ _ Hroom].
  injection Hcarried as Hobj Hset.
  apply wp_bind, wp_session. cbn [fst]. rewrite window_span_eq by done. unfold window_span. rewrite Hacked.
  apply wp_bind. unfold Transmitter.sendNew. rewrite seqZ_cons by lia. cbn [for_each].
  apply wp_bind, wp_bind, wp_session. cbn [fst].
  assert (Hnew : Z.land (Transmitter.sent_bitmap (Transmitter.session_ t)) (bit16 0) = 0).
  { apply land_bit16; [lia|]. destruct (Z.testbit _ 0) eqn:Hbit; [|done].
    enough (k < k) by lia. apply Hsent; [lia|]. right. rewrite Hacked, Z.sub_diag. done. }
  rewrite Hnew, Z.eqb_refl. apply wp_bind, sendSegment_running; [done|lia|lia|].
  intros sent t' wl' Hr' Hsess _ Hocc' _ Hfate. rewrite Z.add_0_r, Hacked in Hfate.
  assert (Hpdu : segment_pdu (Transmitter.session_ t) k =
    layout (MSegment (mkSegmentHeader (setup_session_id s) k)) ++
    slice object (segment_offset s k) (segment_bytes s k)).
  { unfold segment_pdu, segment_slice. by rewrite Hset, Hobj. }
  apply fate_accepted in Hfate as [-> Hworld]; [|done|].
  - apply wp_bind, wp_ret, wp_ret, wp_ret. split_and!; try done. by rewrite <- Hpdu.
  - destruct (segmentBytes_slice _ k Hw ltac:(by rewrite (ww_count _ Hw), Hset)) as (_ & Hlen & _ & Hsize).
    unfold segment_pdu, zlen in *. rewrite length_app. change (length (layout _)) with 4%nat.
    unfold kSegmentHeaderSize in Hroom. lia.
Qed.

Lemma served_next k :
  0 ≤ k → served (k + 1) = run_call max_width
    (CProcess (layout (MSegment (mkSegmentHeader (setup_session_id s) k)) ++
      slice object (segment_offset s k) (segment_bytes s k)) (times (k + 1))) (served k).
Proof.
  intros Hk. unfold served, segment_calls, run_calls. rewrite seqZ_app, map_app, app_comm_cons by lia.
  rewrite foldl_app. reflexivity.
Qed.

(** The engine's latest message makes the next ACK pending. *)
Lemma receive_answer k t (wl : Linked) :
  running (t, wl) → addressed t → carried (Transmitter.session_ t) = (object, s) →
  Transmitter.setup_sent (Transmitter.session_ t) = true →
  (∀ i, 0 ≤ i → was_sent (Transmitter.session_ t) i ↔ i < k) →
  Transmitter.acknowledged_count (Transmitter.session_ t) ≤ k
    ≤ Transmitter.acknowledged_count (Transmitter.session_ t) + 1 →
  Transmitter.datagram_occupied_ t = false → (world wl).2 = served k →
  at_segment max_width s times timeout k (served k).1 →
  answered max_width (served k).1 (served k).2.2 →
  in_step k (hear (t, wl)).
Proof.
  intros [Hinv Hrun] [Hconn Hroom] Hcarried Hsetup Hsent Hacked Hocc Hserved Hat
    (storage & contents & Hlen & Hack & Hanswer).
  unfold hear. cbn [snd]. rewrite Hserved, Hanswer. cbn [fst].
  pose proof Hat as (Hwf & _ & _ & _ & _ & _ & Hst).
  assert (Htwf : transfer_wf max_width (served k).1).
  { pose proof (ewf_state _ _ Hwf) as H. rewrite Hst in H. by destruct (k =? segments s); destruct H. }
  pose proof (engine_ack max_width _ storage Hmax Hwf Htwf Hlen) as (a & Ha & Hawf & _).
  assert (contents = layout (MAck a)) as -> by congruence.
  pose proof (proj1 Hinv) as [Hcwf Hin _ _]. cbn [fst] in *.
  destruct (receive_reply t connection a Hconn ltac:(by rewrite <- Hconn) Hin Hroom Hocc Hawf)
    as (ingress & -> & Hpay & Hiwf & Hcap).
  split; cbn; try done; [split; [|done]|split; cbn; by rewrite ?Hcap|exists storage; by rewrite Hpay].
  apply (inv_update (λ t, Transmitter.set_datagram_occupied_ true (Transmitter.set_datagram_ingress
    ingress t)));
    [done| |done]. intros Ht. by apply tx_wf_ingress.
Qed.

(** The clock of the receiver is that of the poll. *)
Lemma in_step_clock k t (wl : Linked) now :
  in_step k (t, wl) → in_step k (t, mkTraced (now, served k) (log_of wl)).
Proof. intros [[[? ?] ?] ? ? ? ? ? ? ?]. by split. Qed.

(** A poll up to its state machine: the ACK is taken in. *)
Lemma process_pending k t log now (Q : ProcessResult.t → Transmitter.Transmitter * Linked → Prop) :
  in_step k (t, mkTraced (now, served k) log) →
  (∀ t' log', BitsTransmitterRuns.inv (t', mkTraced (now, served k) log') → announced t' →
    Transmitter.datagram_occupied_ t' = false →
    let ts := Transmitter.session_ t' in
    Transmitter.acknowledged_count ts = k → (k < segments s → k < Transmitter.granted_end ts) →
    (∀ i, 0 ≤ i → was_sent ts i ↔ i < k) →
    Transmitter.state ts = (if k =? segments s then TransferState.kCompleted else TransferState.kActive) →
    wp (match Transmitter.state ts with
        | TransferState.kStarting => Transmitter.processStarting (W := Linked) routes true now
        | TransferState.kActive => Transmitter.processActive (W := Linked) routes true now
        | _ => mret (Transmitter.idleOr true)
        end) (t', mkTraced (now, served k) log') Q) →
  wp (Transmitter.process (W := Linked) routes now) (t, mkTraced (now, served k) log) Q.
Proof.
  intros Hstep HQ. apply wp_bind, wp_tx_self. rewrite (ins_pending _ _ Hstep). cbv zeta.
  apply wp_bind, wp_bind. eapply wp_mono; [by apply (handle_pending k _ (now, served k))|].
  intros handled [t' [w' log']] (-> & Hinv & [] & Hw & Hacked & Hgrant & Hsent & Hst).
  cbn [fst snd world] in *. subst w'. apply wp_bind, wp_tx_update, wp_ret. cbn [negb].
  apply wp_bind, wp_session. apply HQ; try done.
  apply (inv_update (Transmitter.set_datagram_occupied_ false)); [done| |done].
  intros Ht. by apply (tx_wf_ingress (Transmitter.datagram_ingress t')), Ht.
Qed.

Lemma round_next k st :
  0 ≤ k < segments s → in_step k st → in_step (k + 1) (round (times (k + 1)) st).
Proof.
  destruct st as [t wl]. intros Hk Hstep. unfold round. set (now := times (k + 1)).
  rewrite (ins_served _ _ Hstep : (world wl).2 = _).
  pose proof (ins_engine _ _ Hstep) as Hat. pose proof (ins_announced _ _ Hstep) as [Hconn Hroom _ _].
  apply (in_step_clock k t wl now) in Hstep.
  pose proof (segment_answered max_width Hmax s object times timeout object_size object_is on_time valid
    k (served k).1 (served k).2 Hk Hat) as Hengine. cbv zeta in Hengine.
  rewrite <- surjective_pairing in Hengine. fold now in Hengine.
  change ((process max_width _ now (served k)).2) with (run_call max_width (CProcess
    (layout (MSegment (mkSegmentHeader (setup_session_id s) k)) ++
      slice object (segment_offset s k) (segment_bytes s k)) now) (served k)) in Hengine.
  unfold now in Hengine. rewrite <- served_next in Hengine by lia. fold now in Hengine.
  pose proof (addressed_process now (t, mkTraced (now, served k) (log_of wl))
    (conj (conj Hconn Hroom) I)) as [Haddr _].
  enough (wp (Transmitter.process (W := Linked) routes now) (t, mkTraced (now, served k) (log_of wl))
    (λ _ out, running out ∧ carried (Transmitter.session_ out.1) = (object, s) ∧
      Transmitter.setup_sent (Transmitter.session_ out.1) = true ∧
      (∀ i, 0 ≤ i → was_sent (Transmitter.session_ out.1) i ↔ i < k + 1) ∧
      Transmitter.acknowledged_count (Transmitter.session_ out.1) = k ∧
      Transmitter.datagram_occupied_ out.1 = false ∧ (world out.2).2 = served (k + 1))) as Hwp.
  { unfold wp in Hwp. destruct (Transmitter.process _ _ _) as [r [t' wl']]. cbn [fst snd] in *.
    destruct Hwp as (Hr & Hca & Hset & Hsent & Hacked & Hocc & Hw).
    apply receive_answer; try done; [lia|by apply Hengine..]. }
  apply process_pending; [done|]. intros t' log' Hinv [Hconn' _ Hca Hset] Hocc ts Hacked Hgrant Hsent Hst.
  rewrite (proj2 (Z.eqb_neq k (segments s))) in Hst by lia. rewrite Hst. unfold ts in *.
  assert (Hr : running (t', mkTraced (now, served k) log')).
  { split; [done|]. unfold Transmitter.isRunning. cbn [fst]. by rewrite Hst. }
  pose proof (sw_window _ (proj1 (running_phase _ _ _ Hr))) as Hw.
  specialize (Hgrant (proj2 Hk)).
  eapply wp_mono; [by apply (send_next k)|]. intros _ [t2 wl2] (Hr2 & Hs2 & Hocc2 & Hw2).
  cbn [fst snd] in *. rewrite Hs2. rewrite Hw2, served_next by lia.
  destruct (segmentSent_spec 0 now false (Transmitter.session_ t') Hw) as [_ Hsent2]; [lia|lia|].
  split_and!; try done; [|congruence].
  intros i Hi. rewrite Hsent2, Hsent by lia. lia.
Qed.

(** A transmitter that has just started. *)
Record started (t : Transmitter.Transmitter) : Prop := {
  std_addressed : addressed t;
  std_carried : carried (Transmitter.session_ t) = (object, s);
  std_state : Transmitter.state (Transmitter.session_ t) = TransferState.kStarting;
  std_unsent : Transmitter.setup_sent (Transmitter.session_ t) = false;
  std_sent : ∀ i, 0 ≤ i → ¬ was_sent (Transmitter.session_ t) i;
  std_acked : Transmitter.acknowledged_count (Transmitter.session_ t) = 0;
  std_free : Transmitter.datagram_occupied_ t = false;
}.

(** The engine before the transfer, which it can take. *)
Record ready (e : Engine) : Prop := {
  rdy_wf : engine_wf max_width e;
  rdy_idle : state e ≠ TransferState.kActive;
  rdy_timeout : inactivity_timeout_ms (config e) = timeout;
  rdy_width : 1 ≤ receive_window_width (config e);
  rdy_object : object_bytes s ≤ maximum_object_size (config e);
  rdy_segment : segment_size s ≤ maximum_segment_size (config e);
}.

Lemma round_first t (wl : Linked) :
  running (t, wl) → started t → (world wl).2 = start → ready start.1 →
  in_step 0 (round (times 0) (t, wl)).
Proof.
  intros Hrun Hstart Hworld []. destruct wl as [[clock st] log]. cbn [world snd] in Hworld. subst st.
  unfold round. set (now := times 0). cbn [world log_of snd].
  assert (Hr : running (t, mkTraced (now, start) log)) by exact Hrun. clear Hrun.
  pose proof (setup_answered max_width Hmax s times timeout valid start.1 start.2) as Hengine.
  rewrite <- surjective_pairing in Hengine. specialize (Hengine rdy_wf0 rdy_idle0 rdy_timeout0
    rdy_width0 rdy_object0 rdy_segment0). fold now in Hengine.
  change ((process max_width _ now start).2) with (served 0) in Hengine. cbv zeta in Hengine.
  pose proof (addressed_process now (t, mkTraced (now, start) log) (conj (std_addressed _ Hstart) I))
    as [Haddr _].
  destruct Hstart as [[Hconn Hroom] Hca Hst Hset Hsent Hacked Hocc].
  enough (wp (Transmitter.process (W := Linked) routes now) (t, mkTraced (now, start) log)
    (λ _ out, running out ∧ Transmitter.session_ out.1 = setupSent now false (Transmitter.session_ t) ∧
      Transmitter.datagram_occupied_ out.1 = false ∧ (world out.2).2 = served 0)) as Hwp.
  { unfold wp in Hwp. destruct (Transmitter.process _ _ _) as [r [t' wl']]. cbn [fst snd] in *.
    destruct Hwp as (Hr' & Hs' & Hocc' & Hw'). destruct Hengine as [Hat Hans].
    apply receive_answer; rewrite ?Hs'; try done; cbn.
    - intros i Hi. split; [by intros ?%Hsent|lia].
    - lia. }
  apply wp_bind, wp_tx_self. cbn [fst]. rewrite Hocc. cbv zeta. apply wp_bind, wp_ret. cbn [negb].
  apply wp_bind, wp_session. cbn [fst]. rewrite Hst. apply wp_bind, wp_tx_self. cbn [fst]. cbv zeta.
  rewrite Hset. cbn [negb]. apply wp_bind, wp_bind, wp_session, wp_bind. cbn [fst].
  injection Hca as Hobj Hsetup.
  apply (sendMessage_running routes (MSetup (Transmitter.setup (Transmitter.session_ t))));
    [done|by left|done|].
  intros sent t' wl' Hr' Hs' _ _ Hocc' Hfate. rewrite Hsetup in Hfate.
  apply fate_accepted in Hfate as [-> Hw']; [|done|].
  - apply wp_bind, wp_updateSession, wp_bind, wp_ret, wp_ret, wp_ret.
    pose proof (running_keeps (setupSent now false (Transmitter.session_ t')) _ _ Hr'
      (setupSent_keeps now false _)) as Hr''.
    rewrite Hs' in Hr'' |- *. split_and!; [done|done|cbn; congruence|]. exact (f_equal snd Hw').
  - by destruct (running_phase _ _ _ Hr) as ([_ _ ? _] & _).
Qed.

(** The last ACK completes the transfer. *)
Lemma round_last now st :
  in_step (segments s) st →
  Transmitter.state (Transmitter.session_ (round now st).1) = TransferState.kCompleted ∧
  (world (round now st).2).2 = served (segments s).
Proof.
  destruct st as [t wl]. intros Hstep. unfold round. rewrite (ins_served _ _ Hstep : (world wl).2 = _).
  apply (in_step_clock _ t wl now) in Hstep.
  assert (Hhear : ∀ out : Transmitter.Transmitter * Linked,
    Transmitter.session_ (hear out).1 = Transmitter.session_ out.1 ∧ (hear out).2 = out.2).
  { intros out. unfold hear. destruct (answer _); [|done]. split; [apply receive_session|done]. }
  enough (wp (Transmitter.process (W := Linked) routes now) (t, mkTraced (now, served (segments s)) (log_of wl))
    (λ _ out, Transmitter.state (Transmitter.session_ out.1) = TransferState.kCompleted ∧
      (world out.2).2 = served (segments s))) as Hwp.
  { unfold wp in Hwp. destruct (Hhear (Transmitter.process routes now
      (t, mkTraced (now, served (segments s)) (log_of wl))).2) as [-> ->]. exact Hwp. }
  apply process_pending; [done|]. intros t' log' _ _ _ ts _ _ _ Hst. rewrite Z.eqb_refl in Hst. unfold ts in *.
  rewrite Hst. by apply wp_ret.
Qed.

Lemma rounds_next n st : 0 ≤ n → rounds times (n + 1) st = round (times n) (rounds times n st).
Proof. intros Hn. unfold rounds. rewrite seqZ_app, foldl_app by lia. reflexivity. Qed.

Lemma rounds_in_step k st :
  0 ≤ k ≤ segments s → running st → started st.1 → (world st.2).2 = start → ready start.1 →
  in_step k (rounds times (k + 1) st).
Proof.
  intros Hk Hr Hstart Hworld Hready. replace k with (Z.of_nat (Z.to_nat k)) in * by lia.
  revert Hk. induction (Z.to_nat k) as [|n IH]; intros Hn.
  - destruct st as [t wl]. by apply round_first.
  - replace (Z.of_nat (S n)) with (Z.of_nat n + 1) in * by lia. rewrite rounds_next by lia.
    apply round_next; [lia|]. apply IH. lia.
Qed.

(** As many rounds as there are segments and two more, whatever the times. *)
Lemma lockstep_runs st :
  running st → started st.1 → (world st.2).2 = start → ready start.1 →
  let out := rounds times (segments s + 2) st in
  Transmitter.state (Transmitter.session_ out.1) = TransferState.kCompleted ∧
  (world out.2).2 = run_calls max_width (transfer_calls s object times) start.
Proof.
  intros Hr Hstart Hworld Hready. pose proof (setup_geometry _ valid) as (_ & _ & Hn & _).
  replace (segments s + 2) with (segments s + 1 + 1) by lia. cbv zeta. rewrite rounds_next by lia.
  apply round_last, rounds_in_step; done || lia.
Qed.
End lockstep.

(** A transmitter with its transfer started, before its first poll. *)
Lemma started_running {W} `{!TransmitterCallbacks W, !PacketForwarder W} object size id isn
    (t t' : Transmitter.Transmitter) (w : W) :
  connection_wf (Transmitter.connection_ t) → packet_wf (Transmitter.datagram_ingress t) →
  packet_wf (Transmitter.transmit_packet t) → start_args_wf object size id isn →
  Transmitter.startTransfer object size id isn t = (StartResult.kStarted, t') →
  let s := Transmitter.setup (Transmitter.session_ t') in
  t' = Transmitter.set_session_ (Transmitter.startedSession object s (segments s)) t ∧
  setup_valid s ∧ zlen object = object_bytes s ∧ segment_size s = size ∧
  running (t', mkTraced w [BitsTransmitterRuns.Started object s]).
Proof.
  intros Hconn Hin Hout Hargs Estart. pose proof Hargs as (Hobj & Hsize & Hid & Hisn).
  pose proof (startTransfer_outcome object size id isn t Hsize Hid Hisn) as H. rewrite Estart in H.
  destruct H as (Hidle & s & count & E & -> & Hs & Hbytes & _ & _ & Hsz & _).
  assert (Hinv : BitsTransmitterRuns.inv (t, mkTraced w [])).
  { split; [split; try done; cbn; congruence|]. exists BitsTransmitterRuns.Closed. split; [done|].
    unfold BitsTransmitterRuns.agrees. cbn [fst]. by rewrite Hidle. }
  pose proof (tx_run_call_inv [] (CStart object size id isn) _ Hargs Hinv) as Hrun.
  unfold wp, BitsTransmitterProps.run_call, Transmitter.self, gets, mbind at 1, State_bind at 1 in Hrun.
  cbn [fst snd] in Hrun. rewrite Estart in Hrun. subst t'. by split_and!.
Qed.

(** C2: a transfer completes over a perfect link: when every packet of the transmitter
    reaches the receiver engine at once and the transmitter hears the engine's latest
    message after each poll, then after one poll per segment and two more, whatever the
    window width, the build, the timer settings and the sequence numbers, both sides report completion and the
    engine's deliveries rebuild the object.  The polls come at any times without a gap as long
    as the receiver's inactivity timeout, on a clock that may wrap. *)
Theorem lockstep_transfer_completes {V}
    `{!ReceiverCallbacks V, !ReceiverPduSender V, !Cooperative V} (max_width : Z)
    (c : ReceiverEngineConfig) (routes : list RouteTableEntry) (t t' : Transmitter.Transmitter)
    (object : bytes) (size id isn : Z) (times : Z → Z) (v : V) :
  1 ≤ max_width ≤ 16 → config_wf c → 1 ≤ receive_window_width c →
  connection_wf (Transmitter.connection_ t) → packet_wf (Transmitter.datagram_ingress t) →
  packet_wf (Transmitter.transmit_packet t) → kAckSize ≤ capacity (Transmitter.datagram_ingress t) →
  Transmitter.datagram_occupied_ t = false → start_args_wf object size id isn →
  Transmitter.startTransfer object size id isn t = (StartResult.kStarted, t') →
  Forall (λ e, is_u8 (wire_interfaces e)) routes →
  conn_wire (Transmitter.connection_ t) ∈ map route_wire routes →
  zlen object ≤ maximum_object_size c → size ≤ maximum_segment_size c →
  (∀ i, inactivity_timeout_ms c = 0 ∨ u32 (times (i + 1) - times i) < inactivity_timeout_ms c) →
  let s := Transmitter.setup (Transmitter.session_ t') in
  let out := rounds max_width routes (Transmitter.connection_ t) times (segments s + 2)
    (t', mkTraced (0, (new_engine max_width c, (v, []))) [BitsTransmitterRuns.Started object s]) in
  let received := (world out.2).2 in
  Transmitter.state (Transmitter.session_ out.1) = TransferState.kCompleted ∧
  state received.1 = TransferState.kCompleted ∧
  ∃ ds, monitor received.2.2 = Some (Done (info_of s) ds) ∧
    ∀ buffer, length buffer = length object → write_all ds buffer = object.
Proof.
  intros Hmax Hc Hwidth Hconn Hin Hout Hroom Hocc Hargs Estart Hroutes Hwire Hfit Hsegment Htimes s.
  destruct (@started_running (Peer V) peer_callbacks (peer_link max_width) object size id isn t t'
    (0, (new_engine max_width c, (v, []))) Hconn Hin Hout Hargs Estart)
    as (Ht' & Hs & Hbytes & Hsz & Hrun). fold s in Ht', Hs, Hbytes, Hsz, Hrun.
  pose proof (inv_new max_width Hmax (λ _, True) c v Hc) as [Hwf _].
  destruct (lockstep_runs max_width Hmax routes (Transmitter.connection_ t) Hroutes Hwire s object times
    (inactivity_timeout_ms c) (new_engine max_width c, (v, [])) Hbytes (proj1 Hargs) Htimes Hs
    (t', mkTraced (0, (new_engine max_width c, (v, []))) [BitsTransmitterRuns.Started object s]))
    as [Hdone Hrecv].
  - exact Hrun.
  - rewrite Ht'. split; try done. intros i Hi [?|[_ Hbit]]; cbn in *; [lia|by rewrite Z.bits_0 in Hbit].
  - done.
  - split; try done; try (simpl; by destruct (_ <? _)); simpl; destruct (_ <? _); simpl; lia.
  - split; [exact Hdone|]. cbv zeta. rewrite Hrecv. rewrite Hbytes in Hfit. rewrite <- Hsz in Hsegment.
    apply (in_order_completes max_width c s object times v); try done. apply Hargs.
Qed.

Import DemoLink BufferSink.

Lemma lockstep_transfer_completes_witness :
  let t' := (Transmitter.startTransfer demo_object 2 7 250 demo_transmitter).2 in
  let times i := u32 (4294967290 + 10 * i) in
  let out := rounds (V := bytes) 16 demo_routes demo_connection times 4
    (t', mkTraced (0, (new_engine 16 demo_config, ([], [])))
       [BitsTransmitterRuns.Started demo_object (mkSetup 7 250 1 2 1)]) in
  let received := (world out.2).2 in
  Transmitter.state (Transmitter.session_ out.1) = TransferState.kCompleted ∧
  state received.1 = TransferState.kCompleted ∧
  ∃ ds, monitor received.2.2 = Some (Done (info_of (mkSetup 7 250 1 2 1)) ds) ∧
    ∀ buffer, length buffer = length demo_object → write_all ds buffer = demo_object.
Proof.
  apply (lockstep_transfer_completes (V := bytes) 16 demo_config demo_routes demo_transmitter
    (Transmitter.startTransfer demo_object 2 7 250 demo_transmitter).2 demo_object 2 7 250
    (λ i, u32 (4294967290 + 10 * i)) []).
  - split; discriminate.
  - by_evaluation.
  - by_evaluation.
  - split; by_evaluation.
  - apply new_packet_wf. by_evaluation.
  - apply new_packet_wf. by_evaluation.
  - by_evaluation.
  - reflexivity.
  - repeat split; by_evaluation.
  - vm_compute. reflexivity.
  - by_evaluation.
  - by_evaluation.
  - by_evaluation.
  - by_evaluation.
  - intros i. right. cbn [inactivity_timeout_ms demo_config]. word_lia.
Defined.
