(* ===== verification/UartLink.v ===== *)
(** * The UART link
      ([platform/avr/uart0.h], [examples/arduino-uno/uart_hdlc_link.h])

    The blocking USART0 driver over the registers of the device, and the link
    adapter on it: [trySend] encodes a packet as an HDLC frame and writes it,
    [process] reads what has arrived and hands every packet to the domain.  The
    registers, the bit numbers and [_BV] of [avr/io.h] are the class [AvrUsart]; what the
    link relies on of the hardware is the class [UsartModel].  Busy-waiting and
    polling take fuel; [None] is the loop that has not come to an end. *)

From S2P Require Import Prelude Crc Hdlc Packet Routing Endpoints.
Local Open Scope Z_scope.

(** ** Device access *)

Inductive Register := UBRR0H | UBRR0L | UCSR0A | UCSR0B | UCSR0C | UDR0.

Class AvrUsart (W : Type) := {
  read_register : Register → State W Z;
  write_register : Register → Z → State W unit;
  F_CPU : Z;
  BV : Z → Z;
  U2X0 : Z; RXEN0 : Z; TXEN0 : Z; UCSZ01 : Z; UCSZ00 : Z; UDRE0 : Z; RXC0 : Z;
}.

(** ** The driver *)

Section uart0.
Context {W : Type} `{!AvrUsart W}.
(** The status reads one busy-wait may take. *)
Variable polls : nat.

Definition uart0Init (baud_rate : Z) : State W unit :=
  let baud_divider := u16 (u32 (F_CPU / u32 (8 * baud_rate) - 1)) in
  write_register UBRR0H (u8 (Z.shiftr baud_divider 8));;
  write_register UBRR0L (u8 baud_divider);;
  write_register UCSR0A (BV U2X0);;
  write_register UCSR0B (Z.lor (BV RXEN0) (BV TXEN0));;
  write_register UCSR0C (Z.lor (BV UCSZ01) (BV UCSZ00)).

Fixpoint waitDataRegisterEmpty (polls : nat) : Io W unit :=
  match polls with
  | O => out_of_fuel
  | Datatypes.S polls =>
      status ← liftIo (read_register UCSR0A);
      if Z.land status (BV UDRE0) =? 0 then waitDataRegisterEmpty polls else mret tt
  end.

Definition uart0WriteByte (byte : Z) : Io W unit :=
  waitDataRegisterEmpty polls;;
  liftIo (write_register UDR0 byte).

Fixpoint uart0WriteSpan (data : bytes) : Io W unit :=
  match data with
  | [] => mret tt
  | byte :: data => uart0WriteByte byte;; uart0WriteSpan data
  end.

(** The characters ['0'] to ['9'] and ['A'] to ['F']. *)
Definition kHexDigits : bytes :=
  [48; 49; 50; 51; 52; 53; 54; 55; 56; 57; 65; 66; 67; 68; 69; 70].

Definition uart0WriteHexNibble (nibble : Z) : Io W unit :=
  uart0WriteByte (u8 (byte_at kHexDigits (Z.to_nat (Z.land nibble 0x0F)))).

Definition uart0WriteHexByte (value : Z) : Io W unit :=
  uart0WriteHexNibble (u8 (Z.shiftr value 4));;
  uart0WriteHexNibble value.

Definition uart0ByteAvailable : State W bool :=
  status ← read_register UCSR0A;
  mret (negb (Z.land status (BV RXC0) =? 0)).

Definition uart0ReadByte : State W Z := read_register UDR0.
End uart0.

(** ** The link adapter *)

Module UartHdlcForwarder.
Section forwarder.
Context {W : Type} `{!AvrUsart W}.
Variable polls : nat.
Variable kMaximumPayloadSize : nat.

Definition kMaximumCanonicalSize : nat := sizeof_Header + kMaximumPayloadSize.
Definition kMaximumFrameCapacity : nat := (kMaximumCanonicalSize + kCrcSize) * 2 + 2.

Definition trySend (packet : PacketBuffer) : Io W LinkAdmission.t :=
  if Z.of_nat kMaximumPayloadSize <? size packet then mret LinkAdmission.kTooLarge
  else
    let '(frame_size, frame_storage) :=
      Encoder.encode (headerAndPayload packet) (replicate kMaximumFrameCapacity 0) in
    if (frame_size =? 0)%nat then mret LinkAdmission.kTooLarge
    else
      uart0WriteSpan polls (take frame_size frame_storage);;
      mret LinkAdmission.kAccepted.
End forwarder.
End UartHdlcForwarder.

Module UartHdlcReceiver.
Section receiver.
Context {R W : Type} `{!AvrUsart W, !EndpointReceiver R W, !PacketForwarder W}.
(** [PacketBufferType::kPayloadCapacity]. *)
Variable kPayloadCapacity : Z.

Definition kMaximumCanonicalSize : nat := sizeof_Header + Z.to_nat kPayloadCapacity.

(** The packet [process] makes of a frame, if it makes one. *)
Definition framePacket (frame : bytes) : option PacketBuffer :=
  if (sizeof_Header <=? length frame)%nat && (length frame <=? kMaximumCanonicalSize)%nat
  then
    let packet := new_packet kPayloadCapacity in
    let payload_size := u16 (zlen frame - Z.of_nat sizeof_Header) in
    let '(ok, packet) := resize payload_size packet in
    if negb ok then None
    else
      let packet := set_header (header_of_bytes (take sizeof_Header frame)) packet in
      Some (if 0 <? payload_size
            then write_payload 0 (take (Z.to_nat payload_size) (drop sizeof_Header frame)) packet
            else packet)
  else None.

(** [process], with the decoder it keeps; at most [rounds] tests of the loop's
    condition. *)
Fixpoint process (rounds : nat) (domain : Domain.DomainContext)
    (dispatcher : list (DispatchTableEntry R)) (ingress_index : Z)
    (decoder_ : Decoder.HdlcDecoder) : Io W Decoder.HdlcDecoder :=
  match rounds with
  | O => out_of_fuel
  | Datatypes.S rounds =>
      available ← liftIo uart0ByteAvailable;
      if negb available then mret decoder_
      else
        byte ← liftIo uart0ReadByte;
        let '(complete, decoder_) := Decoder.push kMaximumCanonicalSize byte decoder_ in
        if negb complete then process rounds domain dispatcher ingress_index decoder_
        else
          match framePacket (Decoder.frame decoder_) with
          | Some packet =>
              liftIo (Domain.domainReceive domain packet ingress_index dispatcher);;
              process rounds domain dispatcher ingress_index (Decoder.consume decoder_)
          | None => process rounds domain dispatcher ingress_index (Decoder.consume decoder_)
          end
  end.
End receiver.
End UartHdlcReceiver.

(** ** What the hardware promises

    [incoming] are the bytes still to be read, [sent] those written to the line,
    [busy] bounds the status reads until the data register is empty, and
    [latency] what one written byte adds. *)

Class UsartModel (U : Type) `{!AvrUsart U} := {
  incoming : U → bytes;
  sent : U → bytes;
  busy : U → nat;
  latency : nat;
  status_read : ∀ u,
    let '(status, u') := read_register UCSR0A u in
    incoming u' = incoming u ∧ sent u' = sent u ∧ (busy u' ≤ busy u)%nat ∧
    (Z.land status (BV RXC0) = 0 ↔ incoming u = []) ∧
    (Z.land status (BV UDRE0) = 0 → (busy u' < busy u)%nat);
  data_read : ∀ u byte rest,
    incoming u = byte :: rest →
    let '(value, u') := read_register UDR0 u in
    value = byte ∧ incoming u' = rest ∧ sent u' = sent u ∧ (busy u' ≤ busy u)%nat;
  data_write : ∀ u byte,
    let u' := (write_register UDR0 byte u).2 in
    incoming u' = incoming u ∧ sent u' = sent u ++ [byte] ∧ (busy u' ≤ latency)%nat;
}.

Arguments latency U {_ _}.

(** An application beside the device: its receivers and its forwarder do not
    touch the USART, as the router never sends a packet back to its ingress. *)
#[export] Instance beside_usart {U V} `{!AvrUsart U} : AvrUsart (U * V) := {
  read_register r := on_fst (read_register r);
  write_register r x := on_fst (write_register r x);
  F_CPU := F_CPU; BV := BV; U2X0 := U2X0; RXEN0 := RXEN0; TXEN0 := TXEN0;
  UCSZ01 := UCSZ01; UCSZ00 := UCSZ00; UDRE0 := UDRE0; RXC0 := RXC0;
}.
#[export] Instance beside_receiver {U R V} `{!EndpointReceiver R V} : EndpointReceiver R (U * V) :=
  λ receiver packet, on_snd (receiver_receive receiver packet).
#[export] Instance beside_forwarder {U V} `{!PacketForwarder V} : PacketForwarder (U * V) :=
  λ packet egress_set, on_snd (forwarder_forward packet egress_set).

(** ** Driver lemmas *)

Section driver_lemmas.
Context {U : Type} `{!AvrUsart U, !UsartModel U}.
Variable polls : nat.

Lemma wait_ready n u :
  (busy u < n)%nat →
  ∃ u', waitDataRegisterEmpty n u = Some (tt, u') ∧
    incoming u' = incoming u ∧ sent u' = sent u.
Proof.
  revert u. induction n as [|n IH]; intros u Hbusy; [lia|]. simpl.
  unfold mbind, Io_bind, liftIo. pose proof (status_read u) as Hread.
  destruct (read_register UCSR0A u) as [status u1]. destruct Hread as (Hin & Hsent & _ & _ & Hwait).
  destruct (Z.eqb_spec (Z.land status (BV UDRE0)) 0) as [Hfull|]; [|by exists u1].
  specialize (Hwait Hfull). destruct (IH u1) as (u' & E & Hin' & Hsent'); [lia|].
  exists u'. by rewrite E, Hin', Hsent'.
Qed.

Lemma write_byte byte u :
  (busy u < polls)%nat →
  ∃ u', uart0WriteByte polls byte u = Some (tt, u') ∧
    incoming u' = incoming u ∧ sent u' = sent u ++ [byte] ∧ (busy u' ≤ latency U)%nat.
Proof.
  intros Hbusy. unfold uart0WriteByte, mbind, Io_bind, liftIo.
  destruct (wait_ready polls u Hbusy) as (u1 & -> & Hin & Hsent).
  pose proof (data_write u1 byte) as (Hin' & Hsent' & Hlat).
  destruct (write_register UDR0 byte u1) as [[] u']. exists u'. simpl in *.
  by rewrite Hin', Hsent', Hin, Hsent.
Qed.

Lemma write_span data u :
  (latency U < polls)%nat → (busy u ≤ latency U)%nat →
  ∃ u', uart0WriteSpan polls data u = Some (tt, u') ∧
    incoming u' = incoming u ∧ sent u' = sent u ++ data ∧ (busy u' ≤ latency U)%nat.
Proof.
  intros Hpolls. revert u. induction data as [|byte data IH]; intros u Hbusy; simpl.
  { exists u. by rewrite app_nil_r. }
  destruct (write_byte byte u) as (u1 & E & Hin & Hsent & Hlat); [lia|].
  unfold mbind, Io_bind. rewrite E. destruct (IH u1 Hlat) as (u' & E' & Hin' & Hsent' & Hlat').
  exists u'. by rewrite E', Hin', Hsent', Hin, Hsent, <- app_assoc.
Qed.
End driver_lemmas.

(** ** Sending *)

(** The packet's bytes, without the wrap of [totalSize]. *)
Definition packet_bytes (p : PacketBuffer) : bytes := header_bytes (header p) ++ payload p.

Lemma headerAndPayload_bytes p :
  packet_wf p → size p ≤ 65529 → headerAndPayload p = packet_bytes p.
Proof.
  intros Hp Hsize. pose proof (pwf_size p Hp). unfold headerAndPayload, packet_bytes, totalSize.
  change (Z.of_nat sizeof_Header) with 6. rewrite u16_id by word_lia.
  rewrite take_app_ge by (rewrite header_bytes_length; unfold sizeof_Header; lia).
  f_equal. unfold payload. f_equal. rewrite header_bytes_length. unfold sizeof_Header. lia.
Qed.

Lemma packet_bytes_length p : packet_wf p → length (packet_bytes p) = (6 + Z.to_nat (size p))%nat.
Proof. intros Hp. unfold packet_bytes. by rewrite length_app, length_payload. Qed.

Lemma packet_bytes_bytes p : packet_wf p → is_bytes (packet_bytes p).
Proof.
  intros Hp. apply Forall_app_2; [apply header_bytes_bytes, Hp|by apply payload_bytes].
Qed.

Lemma stuffed_length bs : (length (flat_map stuff bs) ≤ 2 * length bs)%nat.
Proof.
  induction bs as [|b bs IH]; [simpl; lia|]. cbn [flat_map length]. rewrite length_app.
  enough (length (stuff b) ≤ 2)%nat by lia. unfold stuff. by destruct (special b); simpl; lia.
Qed.

Lemma wire_frame_length p : (length (wire_frame p) ≤ (length p + kCrcSize) * 2 + 2)%nat.
Proof.
  unfold wire_frame. rewrite length_cons, length_app. simpl.
  pose proof (stuffed_length (raw_frame p)) as H. rewrite length_raw_frame in H. lia.
Qed.

Section sending.
Context {U : Type} `{!AvrUsart U, !UsartModel U}.
Variables (polls k : nat).
Hypothesis polls_enough : (latency U < polls)%nat.
(** The frame capacity is a 16-bit [size_t] of the target. *)
Hypothesis k_fits : Z.of_nat k ≤ 32758.

Lemma trySend_sends packet u :
  packet_wf packet → size packet ≤ Z.of_nat k → (busy u ≤ latency U)%nat →
  ∃ u', UartHdlcForwarder.trySend polls k packet u = Some (LinkAdmission.kAccepted, u') ∧
    incoming u' = incoming u ∧ sent u' = sent u ++ wire_frame (packet_bytes packet) ∧
    (busy u' ≤ latency U)%nat.
Proof.
  intros Hp Hsize Hbusy. unfold UartHdlcForwarder.trySend.
  destruct (Z.ltb_spec (Z.of_nat k) (size packet)); [lia|].
  rewrite headerAndPayload_bytes by (done || lia).
  pose proof (wire_frame_length (packet_bytes packet)) as Hlen.
  rewrite packet_bytes_length in Hlen by done.
  rewrite encode_wire; [|done|].
  2: { rewrite length_replicate. unfold UartHdlcForwarder.kMaximumFrameCapacity,
         UartHdlcForwarder.kMaximumCanonicalSize, sizeof_Header, kCrcSize in *. lia. }
  destruct (Nat.eqb_spec (length (wire_frame (packet_bytes packet))) 0) as [E|_]; [done|].
  rewrite take_app_length. unfold mbind, Io_bind.
  destruct (write_span polls (wire_frame (packet_bytes packet)) u polls_enough Hbusy)
    as (u' & -> & Hsent). by exists u'.
Qed.

(** Any packet at all: [trySend] comes back. *)
Lemma trySend_returns packet u :
  (busy u ≤ latency U)%nat →
  ∃ r u', UartHdlcForwarder.trySend polls k packet u = Some (r, u') ∧
    incoming u' = incoming u ∧ (busy u' ≤ latency U)%nat.
Proof.
  intros Hbusy. unfold UartHdlcForwarder.trySend. destruct (_ <? _); [by eexists _, u|].
  destruct (Encoder.encode _ _) as [frame_size frame_storage]. destruct (_ =? _)%nat; [by eexists _, u|].
  unfold mbind, Io_bind.
  destruct (write_span polls (take frame_size frame_storage) u polls_enough Hbusy) as (u' & -> & ? & _ & ?).
  by eexists _, u'.
Qed.

(** Sending packets one after the other. *)
Fixpoint sendAll (ps : list PacketBuffer) : Io U (list LinkAdmission.t) :=
  match ps with
  | [] => mret []
  | p :: ps =>
      a ← UartHdlcForwarder.trySend polls k p;
      rest ← sendAll ps;
      mret (a :: rest)
  end.

Lemma sendAll_sends ps u :
  Forall (λ p, packet_wf p ∧ size p ≤ Z.of_nat k) ps → (busy u ≤ latency U)%nat →
  ∃ u', sendAll ps u = Some (replicate (length ps) LinkAdmission.kAccepted, u') ∧
    incoming u' = incoming u ∧ (busy u' ≤ latency U)%nat ∧
    sent u' = sent u ++ flat_map wire_frame (packet_bytes <$> ps).
Proof.
  intros Hps. revert u. induction Hps as [|p ps [Hp Hsize] _ IH]; intros u Hbusy; simpl.
  { exists u. by rewrite app_nil_r. }
  unfold mbind, Io_bind.
  destruct (trySend_sends p u Hp Hsize Hbusy) as (u1 & -> & Hin1 & Hsent1 & Hb1).
  destruct (IH u1 Hb1) as (u' & E & Hin & Hb & Hsent). exists u'. rewrite E.
  split_and!; [done|congruence|done|]. by rewrite Hsent, Hsent1, <- app_assoc.
Qed.
End sending.

(** ** The application beside the device *)

Section beside.
Context {U R V : Type} `{!EndpointReceiver R V, !PacketForwarder V}.

Lemma dispatchLoop_beside (entries : list (DispatchTableEntry R)) broadcast host packet aggregate
    (u : U) (v : V) :
  dispatchLoop (W := U * V) entries broadcast host packet aggregate (u, v) =
    on_snd (dispatchLoop entries broadcast host packet aggregate) (u, v).
Proof.
  revert aggregate v. induction entries as [|[e receiver] entries IH]; intros aggregate v; [done|].
  cbn [dispatchLoop entry_receiver entry_endpoint on_snd] in *.
  destruct receiver as [receiver|]; [|apply IH].
  destruct (negb (bool_decide _)); [apply IH|]. destruct (_ && _); [apply IH|].
  unfold mbind, State_bind. unfold receiver_receive at 1, beside_receiver, on_snd at 1.
  destruct (receiver_receive receiver packet v) as [received v'].
  destruct (negb broadcast); [done|]. apply IH.
Qed.

Lemma dispatch_beside (entries : list (DispatchTableEntry R)) packet host (u : U) (v : V) :
  dispatch (W := U * V) entries packet host (u, v) = on_snd (dispatch entries packet host) (u, v).
Proof.
  unfold dispatch. destruct (negb (hasSupportedControl _)); [done|].
  destruct (_ && _); [done|apply dispatchLoop_beside].
Qed.

Lemma forward_beside routes packet (u : U) (v : V) :
  routerForward (W := U * V) routes packet (u, v) = on_snd (routerForward routes packet) (u, v).
Proof.
  unfold routerForward. destruct (8 <? _); [done|].
  generalize (if ingressIndex packet =? 0 then 0 else u8 (Z.shiftl 1 (ingressIndex packet - 1))).
  intros mask. induction routes as [|entry routes IH]; [done|]. cbn [forwardLoop].
  destruct (negb (bool_decide _)); [apply IH|]. destruct (_ && _); [done|].
  cbv zeta. by destruct (_ && _).
Qed.

Lemma domainReceive_beside (domain : Domain.DomainContext) packet ingress
    (dispatcher : list (DispatchTableEntry R)) (u : U) (v : V) :
  Domain.domainReceive (W := U * V) domain packet ingress dispatcher (u, v) =
    on_snd (Domain.domainReceive domain packet ingress dispatcher) (u, v).
Proof.
  unfold Domain.domainReceive, routerReceive. destruct (ingress =? 0); [done|].
  unfold mbind, State_bind. rewrite forward_beside. unfold on_snd.
  destruct (routerForward _ _ v) as [routing v']. destruct (_ || _ || _); [done|].
  rewrite dispatch_beside. unfold on_snd. by destruct (dispatch _ _ _ v').
Qed.
End beside.

(** ** Receiving *)

(** The polling loop in any world that has the device in it: [world u v] is the
    device [u] beside the rest [v], and a packet changes the rest only. *)
Section polling.
Context {U W R V : Type} `{!AvrUsart U, !UsartModel U, !AvrUsart W}.
Context `{!EndpointReceiver R W, !PacketForwarder W}.
Variables (world : U → V → W) (room : Z) (domain : Domain.DomainContext).
Variables (dispatcher : list (DispatchTableEntry R)) (ingress_index : Z).
Variable deliver : V → PacketBuffer → V.
Hypothesis world_reads : ∀ r u v,
  read_register r (world u v) = let '(x, u') := read_register r u in (x, world u' v).
Hypothesis world_flag : BV (W := W) (RXC0 (W := W)) = BV (W := U) (RXC0 (W := U)).
Hypothesis world_delivers : ∀ packet u v,
  (Domain.domainReceive domain packet ingress_index dispatcher (world u v)).2 =
    world u (deliver v packet).

Abbreviation canonical := (UartHdlcReceiver.kMaximumCanonicalSize room).

Lemma available_reads u v :
  ∃ u', uart0ByteAvailable (world u v) = (negb (bool_decide (incoming u = [])), world u' v) ∧
    incoming u' = incoming u ∧ sent u' = sent u ∧ (busy u' ≤ busy u)%nat.
Proof.
  unfold uart0ByteAvailable, mbind, State_bind. rewrite world_reads, world_flag.
  pose proof (status_read u) as H. destruct (read_register UCSR0A u) as [status u1].
  destruct H as (Hin & Hsent & Hbusy & Havail & _). exists u1. split_and!; [|done..].
  unfold mret, State_ret. f_equal. f_equal. rewrite eqb_bool_decide. by apply bool_decide_ext.
Qed.

Lemma process_polls stream rounds d (u : U) (v : V) :
  incoming u = stream → (length stream < rounds)%nat →
  let '(frames, d') := Decoder.receive canonical d stream in
  ∃ u', UartHdlcReceiver.process room rounds domain dispatcher ingress_index d (world u v) =
      Some (d', world u' (fold_left deliver (omap (UartHdlcReceiver.framePacket room) frames) v)) ∧
    incoming u' = [] ∧ sent u' = sent u ∧ (busy u' ≤ busy u)%nat.
Proof.
  revert rounds d u v.
  induction stream as [|byte stream IH]; intros [|rounds] d u v Hin Hrounds;
    try (simpl in Hrounds; lia); cbn [UartHdlcReceiver.process Decoder.receive];
    unfold mbind, Io_bind, liftIo;
    destruct (available_reads u v) as (u1 & -> & Hin1 & Hsent1 & Hbusy1); rewrite Hin in *.
  - exists u1. split_and!; done.
  - rewrite bool_decide_eq_false_2 by done. cbn [negb].
    unfold uart0ReadByte. rewrite world_reads. pose proof (data_read u1 byte stream Hin1) as H.
    destruct (read_register UDR0 u1) as [value u2].
    destruct H as (-> & Hin2 & Hsent2 & Hbusy2).
    destruct (Decoder.push canonical byte d) as [complete d1].
    assert (Hlen : (length stream < rounds)%nat) by (simpl in Hrounds; lia).
    destruct complete; cbn [negb].
    + specialize (IH rounds (Decoder.consume d1) u2).
      destruct (Decoder.receive canonical (Decoder.consume d1) stream) as [frames d'].
      cbn [omap list_omap]. destruct (UartHdlcReceiver.framePacket room _) as [packet|].
      * pose proof (world_delivers packet u2 v) as Hdeliver.
        destruct (Domain.domainReceive _ _ _ _ (world u2 v)) as [result w]. cbn [snd] in Hdeliver.
        rewrite Hdeliver. destruct (IH (deliver v packet) Hin2 Hlen) as (u' & E & ? & ? & ?).
        exists u'. split_and!; [done|done|congruence|lia].
      * destruct (IH v Hin2 Hlen) as (u' & E & ? & ? & ?). exists u'.
        split_and!; [done|done|congruence|lia].
    + specialize (IH rounds d1 u2 v Hin2 Hlen).
      destruct (Decoder.receive canonical d1 stream) as [frames d'].
      destruct IH as (u' & E & ? & ? & ?). exists u'. split_and!; [done|done|congruence|lia].
Qed.
End polling.

Lemma framePacket_wf room frame p :
  is_u16 room → is_bytes frame → UartHdlcReceiver.framePacket room frame = Some p →
  packet_wf p ∧ size p ≤ room ∧ ingressIndex p = 0.
Proof.
  intros Hroom Hframe. unfold UartHdlcReceiver.framePacket.
  destruct ((sizeof_Header <=? length frame)%nat && _) eqn:E; [|done].
  apply andb_prop in E as [E1%Nat.leb_le E2%Nat.leb_le].
  unfold UartHdlcReceiver.kMaximumCanonicalSize, zlen, sizeof_Header, is_u16 in *.
  rewrite u16_id by (unfold is_u16; lia). set (n := Z.of_nat (length frame) - Z.of_nat 6).
  destruct (resize_wf n (new_packet room)) as [Hwf Hok]; [by apply new_packet_wf|lia|].
  cbn in Hok. rewrite bool_decide_eq_true_2 in Hok by lia.
  assert (Esize : size (resize n (new_packet room)).2 = n ∧ ingressIndex (resize n (new_packet room)).2 = 0).
  { unfold resize in *. by destruct (capacity _ <? n). }
  destruct (resize n (new_packet room)) as [ok q]. simpl in Hwf, Hok, Esize. subst ok. cbn [negb].
  assert (Hq : packet_wf (set_header (header_of_bytes (take 6 frame)) q)).
  { destruct Hwf. split; simpl; try done. apply header_of_bytes_wf. by apply Forall_take. }
  destruct Esize as [Esize Eingress].
  destruct (0 <? n); intros [= <-]; (split_and!; [|simpl; lia|done]); [|done].
  apply write_payload_wf; [done|]. by apply Forall_take, Forall_drop.
Qed.

Section receiving.
Context {U R V : Type} `{!AvrUsart U, !UsartModel U, !EndpointReceiver R V, !PacketForwarder V}.
Variables (room : Z) (domain : Domain.DomainContext) (dispatcher : list (DispatchTableEntry R)).
Variable ingress_index : Z.

Abbreviation canonical := (UartHdlcReceiver.kMaximumCanonicalSize room).

(** The application after the domain has received a packet. *)
Definition deliver (v : V) (packet : PacketBuffer) : V :=
  (Domain.domainReceive domain packet ingress_index dispatcher v).2.

Definition deliverAll (ps : list PacketBuffer) (v : V) : V := fold_left deliver ps v.

Lemma process_receives stream rounds d (u : U) (v : V) :
  incoming u = stream → (length stream < rounds)%nat →
  let '(frames, d') := Decoder.receive canonical d stream in
  ∃ u', UartHdlcReceiver.process room rounds domain dispatcher ingress_index d (u, v) =
      Some (d', (u', deliverAll (omap (UartHdlcReceiver.framePacket room) frames) v)) ∧
    incoming u' = [] ∧ sent u' = sent u ∧ (busy u' ≤ busy u)%nat.
Proof.
  apply (process_polls (λ u v, (u, v))); [done|done|].
  intros packet u0 v0. rewrite domainReceive_beside. unfold deliver, on_snd.
  by destruct (Domain.domainReceive _ _ _ _ v0).
Qed.

(** The packet buffer a packet arrives in. *)
Definition arrived (p : PacketBuffer) : PacketBuffer :=
  {| capacity := room; size := size p; ingressIndex := 0; header := header p;
     payload_storage := payload p ++ replicate (Z.to_nat (room - size p)) 0 |}.

Lemma framePacket_arrived p :
  packet_wf p → is_u16 room → size p ≤ room →
  UartHdlcReceiver.framePacket room (packet_bytes p) = Some (arrived p).
Proof.
  intros Hp Hcap Hsize. pose proof (pwf_size p Hp) as Hs.
  pose proof (length_payload p Hp) as Hlen. pose proof (packet_bytes_length p Hp) as Hbytes.
  unfold UartHdlcReceiver.framePacket, UartHdlcReceiver.kMaximumCanonicalSize, zlen.
  rewrite Hbytes. unfold sizeof_Header.
  rewrite (proj2 (Nat.leb_le _ _)), (proj2 (Nat.leb_le _ _)) by lia. cbn [andb].
  replace (Z.of_nat (6 + Z.to_nat (size p)) - Z.of_nat 6) with (size p) by lia.
  rewrite u16_id by (unfold is_u16 in *; lia).
  unfold resize, new_packet. cbn [Packet.capacity].
  destruct (Z.ltb_spec room (size p)); [lia|]. cbn [negb].
  f_equal. unfold packet_bytes.
  assert (Etake : take 6 (header_bytes (header p) ++ payload p) = header_bytes (header p)).
  { by rewrite (take_app_length' _ _ 6). }
  assert (Edrop : drop 6 (header_bytes (header p) ++ payload p) = payload p).
  { by rewrite (drop_app_length' _ _ 6). }
  assert (Eheader : header_of_bytes (header_bytes (header p)) = header p).
  { rewrite <- (app_nil_r (header_bytes _)). apply header_roundtrip, Hp. }
  rewrite Etake, Edrop, Eheader.
  rewrite take_ge by lia.
  assert (Emem : memcpy_at 0 (payload p) (replicate (Z.to_nat room) 0) =
    payload p ++ replicate (Z.to_nat (room - size p)) 0).
  { rewrite memcpy_at_app by (rewrite length_replicate; lia). simpl.
    rewrite drop_replicate, Hlen. do 2 f_equal. lia. }
  destruct (Z.ltb_spec 0 (size p)) as [|Hzero]; unfold arrived, write_payload, set_storage,
    set_header, set_size; simpl; [by rewrite Emem|].
  rewrite <- Emem. replace (payload p) with (@nil Z); [done|].
  symmetry. apply nil_length_inv. lia.
Qed.

Lemma framePackets_arrived ps limit :
  Forall (λ p, packet_wf p ∧ size p ≤ limit) ps → limit ≤ room → is_u16 room →
  omap (UartHdlcReceiver.framePacket room) (packet_bytes <$> ps) = arrived <$> ps.
Proof.
  intros Hps Hlimit Hroom. induction Hps as [|p ps [Hp Hsize] _ IH]; [done|].
  cbn [fmap list_fmap omap list_omap] in *.
  rewrite framePacket_arrived by (done || lia). by rewrite IH.
Qed.
End receiving.

(** ** Properties *)

(** [trySend] on hardware that gets ready: a packet above the link's limit is
    [kTooLarge] and the device is not touched; any other is accepted, and the line
    then carries exactly its HDLC frame.  The busy-wait ends. *)
Theorem uart_trySend_spec {U} `{!AvrUsart U, !UsartModel U} (polls k : nat)
    (packet : PacketBuffer) (u : U) :
  (latency U < polls)%nat → Z.of_nat k ≤ 32758 → packet_wf packet → (busy u ≤ latency U)%nat →
  ∃ result u',
    UartHdlcForwarder.trySend polls k packet u = Some (result, u') ∧
    if Z.of_nat k <? size packet then result = LinkAdmission.kTooLarge ∧ u' = u
    else result = LinkAdmission.kAccepted ∧ incoming u' = incoming u ∧
      sent u' = sent u ++ wire_frame (header_bytes (header packet) ++ payload packet).
Proof.
  intros Hpolls Hk Hp Hbusy. destruct (Z.ltb_spec (Z.of_nat k) (size packet)) as [Hlarge|Hfits].
  - exists LinkAdmission.kTooLarge, u. unfold UartHdlcForwarder.trySend.
    by rewrite (proj2 (Z.ltb_lt _ _)).
  - destruct (trySend_sends polls k Hpolls Hk packet u Hp Hfits Hbusy) as (u' & E & Hin & Hsent & _).
    by exists LinkAdmission.kAccepted, u'.
Qed.

(** C18: end to end over the line: packets within the limits of both ends are all
    admitted; when what the sender's device transmitted arrives at a receiver in
    any state of its decoder, [process] ends and hands the domain every packet,
    in order, with its header, its payload and the size intact, after whatever
    the one spurious frame that the first flag may end amounts to; a receiver
    outside a frame sees none. *)
Theorem uart_link_delivers {U U' R V} `{!AvrUsart U, !UsartModel U, !AvrUsart U', !UsartModel U'}
    `{!EndpointReceiver R V, !PacketForwarder V} (polls k rounds : nat) (room : Z)
    (domain : Domain.DomainContext) (dispatcher : list (DispatchTableEntry R))
    (ingress_index : Z) (ps : list PacketBuffer) (d : Decoder.HdlcDecoder) (u : U) (u' : U') (v : V) :
  (latency U < polls)%nat → (busy u ≤ latency U)%nat →
  Z.of_nat k ≤ 32758 → Z.of_nat k ≤ room → is_u16 room →
  Forall (λ p, packet_wf p ∧ size p ≤ Z.of_nat k) ps →
  Hdlc.wf (UartHdlcReceiver.kMaximumCanonicalSize room) d → Decoder.frame_ready_ d = false →
  (length (incoming u') < rounds)%nat →
  ∃ u1, sendAll polls k ps u = Some (replicate (length ps) LinkAdmission.kAccepted, u1) ∧
    (incoming u' = drop (length (sent u)) (sent u1) →
     ∃ junk d' u2,
       UartHdlcReceiver.process room rounds domain dispatcher ingress_index d (u', v) =
         Some (d', (u2, deliverAll domain dispatcher ingress_index
           (omap (UartHdlcReceiver.framePacket room) junk ++ (arrived room <$> ps)) v)) ∧
       (length junk ≤ 1)%nat ∧ (Decoder.in_frame_ d = false → junk = []) ∧
       incoming u2 = [] ∧ sent u2 = sent u').
Proof.
  intros Hpolls Hbusy Hk Hroom Hu16 Hps Hd Hready Hrounds.
  destruct (sendAll_sends polls k Hpolls Hk ps u Hps Hbusy) as (u1 & E & _ & _ & Hsent).
  exists u1. split; [done|]. rewrite Hsent, drop_app_length. intros Hline.
  assert (Hframes : Forall (λ p, is_bytes p ∧ p ≠ [] ∧
    (length p ≤ UartHdlcReceiver.kMaximumCanonicalSize room)%nat) (packet_bytes <$> ps)).
  { apply list.Forall_fmap. eapply list.Forall_impl; [exact Hps|]. intros p [Hp Hsize]. unfold compose.
    split_and!; [by apply packet_bytes_bytes|done|]. rewrite packet_bytes_length by done.
    unfold UartHdlcReceiver.kMaximumCanonicalSize, sizeof_Header. lia. }
  destruct (line_receive _ (abs d) _ Hframes) as (junk & Hjunk & Hquiet & Eline).
  pose proof (receive_refines _ d _ Hd Hready (wire_frames_bytes _ _ Hframes)) as Href.
  pose proof (process_receives room domain dispatcher ingress_index _ rounds d u' v Hline) as Hrun.
  rewrite <- Hline in Hrun at 1. specialize (Hrun Hrounds).
  destruct (Decoder.receive _ d _) as [frames d'].
  destruct Href as (_ & _ & Eref). rewrite Eref in Eline. cbn [fst] in Eline.
  destruct Hrun as (u2 & Erun & Hin & Hsent2 & _).
  exists junk, d', u2. rewrite Erun, Eline, omap_app, (framePackets_arrived room ps (Z.of_nat k)) by done.
  split_and!; [done|done| |done..].
  intros Hhunt. apply Hquiet. left. unfold abs. by rewrite Hhunt.
Qed.

(** *** Witnesses: a device that takes three polls to get ready *)

Module DemoUsart.
Record Usart := { rx : bytes; tx : bytes; wait : nat }.

#[export] Instance demo_usart : AvrUsart Usart := {
  read_register r u :=
    match r with
    | UCSR0A => ((if rx u is [] then 0 else 128) + (if wait u is O then 32 else 0),
                 {| rx := rx u; tx := tx u; wait := Nat.pred (wait u) |})
    | UDR0 => (byte_at (rx u) 0, {| rx := tail (rx u); tx := tx u; wait := wait u |})
    | _ => (0, u)
    end;
  write_register r x u :=
    match r with
    | UDR0 => (tt, {| rx := rx u; tx := tx u ++ [x]; wait := 3 |})
    | _ => (tt, u)
    end;
  F_CPU := 16000000; BV := Z.shiftl 1; U2X0 := 1; RXEN0 := 4; TXEN0 := 3; UCSZ01 := 2; UCSZ00 := 1;
  UDRE0 := 5; RXC0 := 7;
}.

#[export, refine] Instance demo_model : UsartModel Usart :=
  { incoming := rx; sent := tx; busy := wait; latency := 3 }.
Proof.
  - intros [[|] t [|w]]; simpl; split_and!; done || lia.
  - intros [r t w] byte rest H. simpl in *. subst. by split_and!.
  - done.
Defined.

Definition idle (line : bytes) : Usart := {| rx := line; tx := []; wait := 0 |}.
End DemoUsart.
Import DemoUsart Routing.Demo.

Definition demo_packets : list PacketBuffer := [demo_packet 0; set_size 3 (demo_packet 0)].

Definition demo_domain : Domain.DomainContext :=
  {| Domain.host_ := {| host_id := mkHostId 5; wire_count := 1; wires := [mkWireNumber 3] |};
     Domain.router_ := [mkRouteTableEntry (mkWireNumber 3) 7] |}.

Definition demo_dispatcher : list (DispatchTableEntry nat) :=
  [mkDispatchTableEntry (mkEndpointAddress 9) (Some 1%nat)].

Lemma demo_uart_packet_wf : packet_wf (demo_packet 0).
Proof. by split; [by_evaluation..| |by_evaluation|by_evaluation]. Qed.

Lemma uart_trySend_spec_witness :
  ∃ result u',
    UartHdlcForwarder.trySend 4 2 (demo_packet 0) (idle [9]) = Some (result, u') ∧
    if Z.of_nat 2 <? size (demo_packet 0) then result = LinkAdmission.kTooLarge ∧ u' = idle [9]
    else result = LinkAdmission.kAccepted ∧ incoming u' = incoming (idle [9]) ∧
      sent u' = sent (idle [9]) ++
        wire_frame (header_bytes (header (demo_packet 0)) ++ payload (demo_packet 0)).
Proof.
  apply (uart_trySend_spec (U := Usart) 4 2 (demo_packet 0) (idle [9]));
    [by_evaluation..|apply demo_uart_packet_wf|by_evaluation].
Defined.

(** The receiver's line carries the sender's bytes: two packets reach it. *)
Definition demo_line : bytes := flat_map wire_frame (packet_bytes <$> demo_packets).

Lemma uart_link_delivers_witness :
  ∃ u1, sendAll 4 3 demo_packets (idle []) =
      Some (replicate (length demo_packets) LinkAdmission.kAccepted, u1) ∧
    sent u1 = demo_line ∧
    (incoming (idle demo_line) = drop (length (sent (idle []))) (sent u1) →
     ∃ junk d' u2,
       UartHdlcReceiver.process 4 100 demo_domain demo_dispatcher 2
           (Decoder.initial (UartHdlcReceiver.kMaximumCanonicalSize 4)) (idle demo_line, 99) =
         Some (d', (u2, deliverAll demo_domain demo_dispatcher 2
           (omap (UartHdlcReceiver.framePacket 4) junk ++ (arrived 4 <$> demo_packets)) 99)) ∧
       (length junk ≤ 1)%nat ∧
       (Decoder.in_frame_ (Decoder.initial (UartHdlcReceiver.kMaximumCanonicalSize 4)) = false →
        junk = []) ∧
       incoming u2 = [] ∧ sent u2 = sent (idle demo_line)).
Proof.
  destruct (uart_link_delivers (U := Usart) (U' := Usart) (R := nat) 4 3 100 4 demo_domain
    demo_dispatcher 2 demo_packets (Decoder.initial (UartHdlcReceiver.kMaximumCanonicalSize 4))
    (idle []) (idle demo_line) 99) as (u1 & E & H).
  1-5: by_evaluation.
  - repeat (apply list.Forall_cons_2; [split; [|by_evaluation]|]); [apply demo_uart_packet_wf| |by
      apply Forall_nil].
    split; [by_evaluation..|apply demo_uart_packet_wf|by_evaluation|by_evaluation].
  - apply wf_initial.
  - done.
  - by_evaluation.
  - exists u1. split; [exact E|]. split; [|exact H].
    assert (Hrun : sent <$> (snd <$> sendAll 4 3 demo_packets (idle [])) = Some demo_line)
      by (vm_compute; reflexivity).
    rewrite E in Hrun. by injection Hrun.
Defined.
