(* ===== verification/RamTransfer.v ===== *)
(** * The RAM-backed receiving application
      ([examples/arduino-uno/bits_ram_transfer.cpp]: [RamReceiverCallbacks])

    The callbacks that store one incoming object in fixed RAM, as an implementation
    of [ReceiverCallbacks], composed with the receiver engine over any PDU sender:
    in every run the application has a completed object exactly when the engine has
    completed a transfer, and it is the sender's object.  [size()] is a 16-bit
    [size_t] on the target, so an offset plus a size is a 32-bit sum. *)

From S2P Require Import Prelude BitsCodec BitsEngine BitsEngineRuns.
Local Open Scope Z_scope.

(** ** Definitions *)

Record RamReceiverCallbacks := {
  storage_ : bytes;
  received_size_ : Z;
  object_complete_ : bool;
}.

Definition new_ram (storage : bytes) : RamReceiverCallbacks :=
  {| storage_ := storage; received_size_ := 0; object_complete_ := false |}.

Definition releaseCompletedObject (r : RamReceiverCallbacks) : RamReceiverCallbacks :=
  {| storage_ := storage_ r; received_size_ := 0; object_complete_ := false |}.

Definition ramBeginTransfer (i : TransferInfo) : State RamReceiverCallbacks TransferAdmission.t :=
  λ r,
    if object_complete_ r then (TransferAdmission.kBusy, r)
    else if zlen (storage_ r) <? info_total_size i then (TransferAdmission.kTooLarge, r)
    else (TransferAdmission.kAccepted,
          {| storage_ := storage_ r; received_size_ := 0;
             object_complete_ := object_complete_ r |}).

Definition ramOnSegment (object_offset : Z) (payload : bytes) : State RamReceiverCallbacks bool :=
  λ r,
    if zlen (storage_ r) <? u32 (object_offset + zlen payload) then (false, r)
    else
      let segment_end := u16 (u32 (object_offset + zlen payload)) in
      (true,
       {| storage_ := memcpy_at (Z.to_nat object_offset) payload (storage_ r);
          received_size_ :=
            if received_size_ r <? segment_end then segment_end else received_size_ r;
          object_complete_ := object_complete_ r |}).

Definition ramOnTransferComplete (r : RamReceiverCallbacks) : RamReceiverCallbacks :=
  {| storage_ := storage_ r; received_size_ := received_size_ r; object_complete_ := true |}.

Definition ramOnTransferAborted (r : RamReceiverCallbacks) : RamReceiverCallbacks :=
  {| storage_ := storage_ r; received_size_ := 0; object_complete_ := false |}.

#[export] Instance ram_callbacks : ReceiverCallbacks RamReceiverCallbacks := {
  beginTransfer := ramBeginTransfer;
  onTransferFailed _ := modify releaseCompletedObject;
  onSegment := ramOnSegment;
  onDatagram _ := mret tt;
  onTransferComplete := modify ramOnTransferComplete;
  onTransferAborted _ := modify ramOnTransferAborted;
}.

Definition hasCompletedObject (r : RamReceiverCallbacks) : bool := object_complete_ r.

Definition completedObject (r : RamReceiverCallbacks) : bytes :=
  if object_complete_ r then take (Z.to_nat (received_size_ r)) (storage_ r) else [].

(** The application's callbacks beside its PDU sender. *)
#[export] Instance beside_callbacks {V} : ReceiverCallbacks (RamReceiverCallbacks * V) := {
  beginTransfer i := on_fst (beginTransfer i);
  onTransferFailed reason := on_fst (onTransferFailed reason);
  onSegment offset payload := on_fst (onSegment offset payload);
  onDatagram payload := on_fst (onDatagram payload);
  onTransferComplete := on_fst onTransferComplete;
  onTransferAborted reason := on_fst (onTransferAborted reason);
}.
#[export] Instance beside_sender {V} `{!ReceiverPduSender V}
    : ReceiverPduSender (RamReceiverCallbacks * V) := {
  prepare size := on_snd (prepare size);
  store contents := on_snd (store contents);
  sendPrepared := on_snd sendPrepared;
}.

(** ** What the engine preserves of its environment

    A property of the environment that every call of the two interfaces preserves
    is preserved by every operation of the engine. *)

Record preserved {W} `{!ReceiverCallbacks W, !ReceiverPduSender W} (P : W → Prop) : Prop := {
  preserved_begin : ∀ i w, P w → P (beginTransfer i w).2;
  preserved_failed : ∀ r w, P w → P (onTransferFailed r w).2;
  preserved_segment : ∀ o p w, P w → P (onSegment o p w).2;
  preserved_datagram : ∀ p w, P w → P (onDatagram p w).2;
  preserved_complete : ∀ w, P w → P (onTransferComplete w).2;
  preserved_aborted : ∀ r w, P w → P (onTransferAborted r w).2;
  preserved_prepare : ∀ n w, P w → P (prepare n w).2;
  preserved_store : ∀ bs w, P w → P (store bs w).2;
  preserved_send : ∀ w, P w → P (sendPrepared w).2;
}.

Section keeps.
Context {W : Type} `{!ReceiverCallbacks W, !ReceiverPduSender W}.
Variables (max_width : Z) (P : W → Prop).
Hypothesis HP : preserved P.

Abbreviation keeps := (preserves (λ s : Engine * W, P s.2)).

Lemma keeps_engine : keeps engine.
Proof. apply preserves_gets. Qed.
Lemma keeps_update f : keeps (update f).
Proof. by intros [e w]. Qed.
Lemma keeps_call {A} (m : State W A) : (∀ w, P w → P (m w).2) → keeps (call m).
Proof. intros Hm [e w] Hw. unfold call, on_snd. specialize (Hm w Hw). by destruct (m w). Qed.

Ltac step := first
  [ apply keeps_engine | apply keeps_update | apply keeps_call; intros; by apply HP ].
Ltac keep := Prelude.keep step.

Lemma keeps_fail r : keeps (fail r).
Proof. unfold fail. keep. Qed.
#[local] Hint Resolve keeps_fail : keeps.
Lemma keeps_poll now : keeps (poll now).
Proof. unfold poll. keep. Qed.
Lemma keeps_sendPrepared : keeps engineSendPrepared.
Proof. unfold engineSendPrepared. keep. Qed.
#[local] Hint Resolve keeps_poll keeps_sendPrepared : keeps.
Lemma keeps_sendAck : keeps (sendAck max_width).
Proof. unfold sendAck. keep. Qed.
Lemma keeps_sendReject id r : keeps (sendReject id r).
Proof. unfold sendReject. keep. Qed.
Lemma keeps_sendAbort : keeps sendAbort.
Proof. unfold sendAbort. keep. Qed.
#[local] Hint Resolve keeps_sendAck keeps_sendReject keeps_sendAbort : keeps.
Lemma keeps_handleSegment message now : keeps (handleSegment max_width message now).
Proof. unfold handleSegment. keep. Qed.
Lemma keeps_handleSetup message now : keeps (handleSetup max_width message now).
Proof. unfold handleSetup. keep. Qed.
Lemma keeps_handleAbort message : keeps (handleAbort message).
Proof. unfold handleAbort. keep. Qed.
Lemma keeps_handleProbe message now : keeps (handleProbe max_width message now).
Proof. unfold handleProbe. keep. Qed.
#[local] Hint Resolve keeps_handleSegment keeps_handleSetup keeps_handleAbort keeps_handleProbe
  : keeps.
Lemma keeps_process message now : keeps (process max_width message now).
Proof. unfold process, handleControl. keep. Qed.
Lemma keeps_sendDatagram payload : keeps (sendDatagram payload).
Proof. unfold sendDatagram. keep. Qed.
Lemma keeps_abort : keeps abort.
Proof. unfold abort. keep. Qed.

Lemma run_calls_keep cs (s : Engine * W) : P s.2 → P (run_calls max_width cs s).2.
Proof.
  revert s. induction cs as [|c cs IH]; intros s Hs; [done|]. simpl. apply IH.
  destruct c; simpl;
    [by apply keeps_process|by apply keeps_poll|by apply keeps_sendDatagram|by apply keeps_abort].
Qed.
End keeps.

(** ** The trace is a ghost

    The engine does with a traced environment exactly what it does with the plain one,
    so the invariants of traced runs hold in an application. *)

Section erasure.
Context {W : Type} `{!ReceiverCallbacks W, !ReceiverPduSender W}.
Variable max_width : Z.

Definition erases {C A} (m : State (C * Traced W) A) (m' : State (C * W) A) : Prop :=
  ∀ e wl, let '(a, (e', wl')) := m (e, wl) in m' (e, wl.1) = (a, (e', wl'.1)).

Lemma erases_ret {C A} (a : A) : erases (C := C) (mret a) (mret a).
Proof. done. Qed.
Lemma erases_engine : erases engine engine.
Proof. done. Qed.
Lemma erases_update f : erases (update f) (update f).
Proof. done. Qed.
Lemma erases_call {A} (m : State W A) event : erases (call (traced m event)) (call m).
Proof. intros e [w log]. unfold call, on_snd, traced. simpl. by destruct (m w). Qed.
Lemma erases_bind {C A D} (m : State (C * Traced W) A) (m' : State (C * W) A)
    (f : A → State (C * Traced W) D) (f' : A → State (C * W) D) :
  erases m m' → (∀ a, erases (f a) (f' a)) → erases (m ≫= f) (m' ≫= f').
Proof.
  intros Hm Hf e wl. unfold mbind, State_bind. specialize (Hm e wl).
  destruct (m (e, wl)) as [a [e1 wl1]]. rewrite Hm. apply Hf.
Qed.

Ltac erase :=
  repeat first
    [ apply erases_ret | apply erases_engine | apply erases_update | apply erases_call
    | progress auto with keeps nocore
    | apply erases_bind; [|intros ?]
    | case_match ].

Lemma erases_fail r : erases (fail r) (fail r).
Proof. unfold fail. erase. Qed.
#[local] Hint Resolve erases_fail : keeps.
Lemma erases_poll now : erases (poll now) (poll now).
Proof. unfold poll. erase. Qed.
Lemma erases_sendPrepared : erases engineSendPrepared engineSendPrepared.
Proof. unfold engineSendPrepared. erase. Qed.
#[local] Hint Resolve erases_poll erases_sendPrepared : keeps.
Lemma erases_sendAck : erases (sendAck max_width) (sendAck max_width).
Proof. unfold sendAck. erase. Qed.
Lemma erases_sendReject id r : erases (sendReject id r) (sendReject id r).
Proof. unfold sendReject. erase. Qed.
#[local] Hint Resolve erases_sendAck erases_sendReject : keeps.
Lemma erases_handleSegment message now :
  erases (handleSegment max_width message now) (handleSegment max_width message now).
Proof. unfold handleSegment. erase. Qed.
Lemma erases_handleSetup message now :
  erases (handleSetup max_width message now) (handleSetup max_width message now).
Proof. unfold handleSetup. erase. Qed.
Lemma erases_handleAbort message : erases (handleAbort message) (handleAbort message).
Proof. unfold handleAbort. erase. Qed.
Lemma erases_handleProbe message now :
  erases (handleProbe max_width message now) (handleProbe max_width message now).
Proof. unfold handleProbe. erase. Qed.
#[local] Hint Resolve erases_handleSegment erases_handleSetup erases_handleAbort
  erases_handleProbe : keeps.
Lemma erases_process message now : erases (process max_width message now) (process max_width message now).
Proof. unfold process, handleControl. erase. Qed.
End erasure.

(** ** What the RAM holds *)

(** The largest end of a delivery. *)
Definition reach (ds : list (Z * bytes)) : Z :=
  foldl (λ m '(offset, payload), Z.max m (offset + zlen payload)) 0 ds.

(** The deliveries lie in the 32-bit address range. *)
Definition addressable (ds : list (Z * bytes)) : Prop :=
  Forall (λ '(offset, payload), 0 ≤ offset ∧ offset + zlen payload < 4294967296) ds.

(** The storage holds the deliveries, and the counter their reach. *)
Definition stores (N : nat) (r : RamReceiverCallbacks) (ds : list (Z * bytes)) : Prop :=
  addressable ds →
  (∃ buffer, length buffer = N ∧ storage_ r = write_all ds buffer) ∧
  received_size_ r = reach ds ∧ reach ds ≤ Z.of_nat N.

(** Environments in which the callbacks are those of a [RamReceiverCallbacks], and the
    sender leaves it alone. *)
Record ram_world {W} `{!ReceiverCallbacks W, !ReceiverPduSender W}
    (ram_of : W → RamReceiverCallbacks) : Prop := {
  rw_begin : ∀ i w, (beginTransfer i w).1 = (ramBeginTransfer i (ram_of w)).1 ∧
    ram_of (beginTransfer i w).2 = (ramBeginTransfer i (ram_of w)).2;
  rw_failed : ∀ reason w, ram_of (onTransferFailed reason w).2 = releaseCompletedObject (ram_of w);
  rw_segment : ∀ offset payload w,
    (onSegment offset payload w).1 = (ramOnSegment offset payload (ram_of w)).1 ∧
    ram_of (onSegment offset payload w).2 = (ramOnSegment offset payload (ram_of w)).2;
  rw_datagram : ∀ p w, ram_of (onDatagram p w).2 = ram_of w;
  rw_complete : ∀ w, ram_of (onTransferComplete w).2 = ramOnTransferComplete (ram_of w);
  rw_aborted : ∀ reason w, ram_of (onTransferAborted reason w).2 = ramOnTransferAborted (ram_of w);
  rw_prepare : ∀ n w, ram_of (prepare n w).2 = ram_of w;
  rw_store : ∀ bs w, ram_of (store bs w).2 = ram_of w;
  rw_send : ∀ w, ram_of (sendPrepared w).2 = ram_of w;
}.

Lemma beside_ram_world {V} `{!ReceiverPduSender V} :
  ram_world (W := RamReceiverCallbacks * V) fst.
Proof.
  split; intros; repeat match goal with w : _ * _ |- _ => destruct w end; cbn;
    unfold on_fst, on_snd; try done; by repeat case_match.
Qed.

(** What the RAM holds for what the engine has told it; a client that is not [keeping]
    may release a completed object. *)
Definition ram_phase (N : nat) (keeping : bool) (r : RamReceiverCallbacks) (m : option Monitor) : Prop :=
  match m with
  | Some Closed => object_complete_ r = false
  | Some (Open info ds) =>
      object_complete_ r = false ∧ info_total_size info ≤ Z.of_nat N ∧ stores N r ds
  | Some (Done info ds) =>
      (keeping = true → object_complete_ r = true) ∧
      (object_complete_ r = true → info_total_size info ≤ Z.of_nat N ∧ stores N r ds)
  | None => True
  end.

Definition ram_inv {W} (N : nat) (keeping : bool) (ram_of : W → RamReceiverCallbacks)
    (s : Traced W) : Prop :=
  length (storage_ (ram_of s.1)) = N ∧ ram_phase N keeping (ram_of s.1) (monitor s.2).

(** A call that is observed. *)
Lemma ram_traced {W A} N keeping (ram_of : W → RamReceiverCallbacks) (m : State W A) event :
  (∀ w, length (storage_ (ram_of w)) = N → length (storage_ (ram_of (m w).2)) = N ∧
     ∀ phase, ram_phase N keeping (ram_of w) (Some phase) →
       ram_phase N keeping (ram_of (m w).2) (observe phase (event (m w).1))) →
  ∀ w, ram_inv N keeping ram_of w → ram_inv N keeping ram_of (traced m event w).2.
Proof.
  intros Hm [w log] [Hlen Hphase]. destruct (Hm w Hlen) as [Hlen' Hnext]. unfold traced, ram_inv in *.
  cbn [fst snd] in *. destruct (m w) as [a w']. cbn [fst snd] in *. split; [done|].
  rewrite monitor_snoc. destruct (monitor log) as [phase|]; [|done]. by apply Hnext.
Qed.

(** One that the RAM does not take part in. *)
Lemma ram_quiet {W A} N keeping (ram_of : W → RamReceiverCallbacks) (m : State W A) event :
  (∀ w, ram_of (m w).2 = ram_of w) → (∀ a phase, observe phase (event a) = Some phase) →
  ∀ w, ram_inv N keeping ram_of w → ram_inv N keeping ram_of (traced m event w).2.
Proof.
  intros Hm Hevent. apply ram_traced. intros w Hlen. rewrite Hm. split; [done|]. intros phase ?.
  by rewrite Hevent.
Qed.

Lemma stores_nil N r : length (storage_ r) = N → received_size_ r = 0 → stores N r [].
Proof. intros Hlen Hr _. split_and!; [by exists (storage_ r)|done|unfold reach; simpl; lia]. Qed.

Lemma reach_nonneg ds : 0 ≤ reach ds.
Proof.
  unfold reach. assert (H : ∀ m, 0 ≤ m →
    0 ≤ foldl (λ m '(offset, payload), Z.max m (offset + zlen payload)) m ds).
  { induction ds as [|[o p] ds IH]; intros m Hm; simpl; [done|]. apply IH. lia. }
  by apply H.
Qed.

Lemma stores_snoc N r offset payload ds r' :
  Z.of_nat N ≤ 65535 → length (storage_ r) = N →
  ramOnSegment offset payload r = (true, r') → stores N r ds →
  length (storage_ r') = N ∧ object_complete_ r' = object_complete_ r ∧
  stores N r' (ds ++ [(offset, payload)]).
Proof.
  intros HN Hlen. unfold ramOnSegment, zlen at 1. rewrite Hlen.
  destruct (Z.ltb_spec (Z.of_nat N) (u32 (offset + zlen payload))) as [|Hfit]; [done|].
  intros [= <-] Hst. simpl. split_and!; [by rewrite memcpy_at_length|done|].
  intros [Hds Hoff]%list.Forall_app. apply Forall_cons_1 in Hoff as [Hoff _]. cbv beta iota in Hoff.
  destruct (Hst Hds) as ((buffer & Hbuf & Hstorage) & Hsize & Hreach).
  rewrite u32_id in Hfit by (unfold is_u32, zlen in *; lia).
  assert (Ereach : reach (ds ++ [(offset, payload)]) = Z.max (reach ds) (offset + zlen payload)).
  { unfold reach. by rewrite foldl_app. }
  rewrite Ereach. pose proof (reach_nonneg ds). unfold zlen in *. split_and!; simpl.
  - exists buffer. split; [done|]. unfold write_all in *. by rewrite foldl_app, <- Hstorage.
  - rewrite u32_id by (unfold is_u32; lia). rewrite u16_id by (unfold is_u16; lia).
    rewrite Hsize. destruct (Z.ltb_spec (reach ds) (offset + Z.of_nat (length payload))); lia.
  - lia.
Qed.

Lemma ram_begin_phase N keeping r i phase :
  length (storage_ r) = N → ram_phase N keeping r (Some phase) →
  ram_phase N keeping (ramBeginTransfer i r).2 (observe phase (EBegin i (ramBeginTransfer i r).1)).
Proof.
  intros Hlen Hm. unfold ramBeginTransfer.
  destruct (object_complete_ r) eqn:Hc;
    [|destruct (Z.ltb_spec (zlen (storage_ r)) (info_total_size i))]; destruct phase; cbn in *;
    try (done || (by rewrite Hc));
    by (destruct_and?; split_and!; [done|unfold zlen in *; lia|by apply stores_nil]).
Qed.

Lemma ram_segment_storage r offset payload :
  let out := ramOnSegment offset payload r in
  length (storage_ out.2) = length (storage_ r) ∧ (out.1 = false → out.2 = r).
Proof.
  unfold ramOnSegment. destruct (zlen (storage_ r) <? _); [done|]. split; [|done]. simpl.
  by rewrite memcpy_at_length.
Qed.

Lemma ram_segment_phase N keeping r offset payload phase :
  Z.of_nat N ≤ 65535 → length (storage_ r) = N → ram_phase N keeping r (Some phase) →
  let out := ramOnSegment offset payload r in
  ram_phase N keeping out.2 (observe phase (ESegment offset payload out.1)).
Proof.
  intros HN Hlen Hm. cbv zeta. destruct (ram_segment_storage r offset payload) as [_ Hsame].
  destruct (ramOnSegment offset payload r) as [accepted r'] eqn:E. cbn [fst snd] in *.
  destruct phase as [|info ds|]; [done| |done].
  destruct accepted; [|by rewrite (Hsame eq_refl)]. simpl. destruct Hm as (Hc & Hinfo & Hst).
  by destruct (stores_snoc N _ offset payload ds _ HN Hlen E Hst) as (_ & -> & ?).
Qed.

Lemma ram_preserved N keeping {W} `{!ReceiverCallbacks W, !ReceiverPduSender W}
    (ram_of : W → RamReceiverCallbacks) :
  Z.of_nat N ≤ 65535 → ram_world ram_of → preserved (W := Traced W) (ram_inv N keeping ram_of).
Proof.
  intros HN []. split; cbn [Traced_callbacks Traced_sender beginTransfer onTransferFailed onSegment
    onDatagram onTransferComplete onTransferAborted prepare store sendPrepared].
  4, 7-9: intros; apply ram_quiet; auto.
  - intros i. apply ram_traced. intros w Hlen. destruct (rw_begin0 i w) as [-> ->]. split.
    + unfold ramBeginTransfer. by repeat case_match.
    + intros phase. by apply ram_begin_phase.
  - intros reason. apply ram_traced. intros w Hlen. rewrite rw_failed0. split; [done|]. by intros [].
  - intros offset payload. apply ram_traced. intros w Hlen.
    destruct (rw_segment0 offset payload w) as [-> ->].
    split; [|intros phase; by apply ram_segment_phase].
    by destruct (ram_segment_storage (ram_of w) offset payload) as [-> _].
  - apply ram_traced. intros w Hlen. rewrite rw_complete0. split; [done|]. intros [] Hm; try done. cbn in *.
    by case_bool_decide; destruct_and!.
  - intros reason. apply ram_traced. intros w Hlen. rewrite rw_aborted0. split; [done|]. by intros [].
Qed.

(** ** A completed object *)

Lemma reach_bound ds M :
  0 ≤ M → Forall (λ '(offset, payload), offset + zlen payload ≤ M) ds → reach ds ≤ M.
Proof.
  unfold reach. intros HM Hds. assert (H : ∀ m, m ≤ M →
    foldl (λ m '(offset, payload), Z.max m (offset + zlen payload)) m ds ≤ M); [|by apply H].
  induction Hds as [|[o p] ds Hop _ IH]; intros m Hm; simpl; [done|]. apply IH. lia.
Qed.

Lemma reach_covers offset payload ds : (offset, payload) ∈ ds → offset + zlen payload ≤ reach ds.
Proof.
  unfold reach. intros [l1 [l2 ->]]%list_elem_of_split. rewrite foldl_app. simpl.
  generalize (foldl (λ m '(offset, payload), Z.max m (offset + zlen payload)) 0 l1) as m.
  intros m. assert (H : ∀ k, k ≤ foldl (λ m '(offset, payload), Z.max m (offset + zlen payload)) k l2).
  { induction l2 as [|[o p] l2 IH]; intros k; simpl; [lia|]. specialize (IH (Z.max k (o + zlen p))).
    lia. }
  specialize (H (Z.max m (offset + zlen payload))). lia.
Qed.

(** The segments of an object lie within it. *)
Lemma tile_within s i :
  setup_valid s → 0 ≤ i < segments s →
  0 ≤ segment_offset s i ∧ segment_offset s i + segment_bytes s i ≤ object_bytes s.
Proof.
  intros [_ Hsz] Hi. unfold segments, segment_offset, segment_bytes, object_bytes in *.
  destruct (Z.eqb_spec i (final_segment_index s)) as [->|]; [nia|].
  assert (i + 1 ≤ final_segment_index s) by lia. nia.
Qed.

Lemma shape_within s ds :
  setup_valid s → shape ds ≡ₚ tiles (info_of s) →
  Forall (λ '(offset, payload), 0 ≤ offset ∧ offset + zlen payload ≤ object_bytes s) ds.
Proof.
  intros Hs Hshape. apply list.Forall_forall. intros [offset payload] Hin.
  assert (Ht : (offset, zlen payload) ∈ tiles (info_of s)).
  { rewrite <- Hshape. apply list_elem_of_In, in_map_iff. exists (offset, payload).
    split; [done|by apply list_elem_of_In]. }
  rewrite tiles_setup in Ht by done.
  apply list_elem_of_In, in_map_iff in Ht as (i & [= <- <-] & Hi).
  apply list_elem_of_In, elem_of_seqZ in Hi. apply tile_within; [done|lia].
Qed.

Lemma reach_object s ds :
  setup_valid s → shape ds ≡ₚ tiles (info_of s) → reach ds = object_bytes s.
Proof.
  intros Hs Hshape. pose proof (setup_geometry s Hs) as (_ & _ & Hn & Hobj).
  apply Z.le_antisymm.
  - apply reach_bound; [lia|]. eapply list.Forall_impl; [by apply shape_within|].
    by intros [offset payload] [_ ?].
  - assert (Hlast : tile s (final_segment_index s) ∈ shape ds).
    { rewrite Hshape, tiles_setup by done. apply list_elem_of_In, in_map, list_elem_of_In.
      apply elem_of_seqZ. unfold segments in *. lia. }
    apply list_elem_of_In, in_map_iff in Hlast as ([offset payload] & Heq & Hin).
    apply list_elem_of_In, reach_covers in Hin. revert Heq. unfold tile, segment_offset, segment_bytes.
    rewrite Z.eqb_refl. intros [= -> Hlen]. unfold object_bytes. lia.
Qed.

Lemma write_all_take n ds buffer :
  Forall (λ '(offset, payload), 0 ≤ offset ∧ offset + zlen payload ≤ n) ds →
  take (Z.to_nat n) (write_all ds buffer) = write_all ds (take (Z.to_nat n) buffer).
Proof.
  intros Hds. revert buffer. induction Hds as [|[offset payload] ds [Ho Hn] _ IH]; intros buffer; simpl;
    [done|]. rewrite IH. f_equal. apply memcpy_at_take. unfold zlen in Hn. lia.
Qed.

(** A delivery that no later one overlaps is what the buffer holds there. *)
Lemma write_all_other ds buffer k :
  (∀ offset payload, (offset, payload) ∈ ds →
     ¬ (Z.to_nat offset ≤ k < Z.to_nat offset + length payload)%nat) →
  write_all ds buffer !! k = buffer !! k.
Proof.
  revert buffer. induction ds as [|[offset payload] ds IH]; intros buffer Hds; [done|]. simpl.
  rewrite IH by (intros o p Hin; apply Hds; by right).
  apply memcpy_other_lookup. apply Hds. by left.
Qed.

Lemma write_all_slice ds1 ds2 offset payload buffer :
  (∀ k o p, (o, p) ∈ ds2 → (Z.to_nat offset ≤ k < Z.to_nat offset + length payload)%nat →
     ¬ (Z.to_nat o ≤ k < Z.to_nat o + length p)%nat) →
  0 ≤ offset → offset + zlen payload ≤ zlen buffer →
  slice (write_all (ds1 ++ (offset, payload) :: ds2) buffer) offset (zlen payload) = payload.
Proof.
  intros Hdisj Ho Hfit. unfold slice, write_all. rewrite foldl_app. simpl.
  fold (write_all ds1 buffer). fold (write_all ds2 (memcpy_at (Z.to_nat offset) payload (write_all
    ds1 buffer))).
  assert (Hlen : length (write_all ds1 buffer) = length buffer).
  { clear. revert buffer. induction ds1 as [|[o p] ds1 IH]; intros buffer; [done|].
    simpl. by rewrite IH, memcpy_at_length. }
  unfold zlen in *. rewrite Nat2Z.id. apply list_eq. intros k. rewrite lookup_take.
  case_decide as Hk; [|by rewrite lookup_ge_None_2 by lia].
  rewrite lookup_drop, write_all_other; [|intros o p Hin; apply (Hdisj _ o p Hin); lia].
  unfold memcpy_at. rewrite list_lookup_inserts by lia. f_equal. lia.
Qed.

(** An object whose setup arrived, and each of whose segments arrived under its index, in
    one session. *)
Definition assembled (arrived : bytes → Prop) (s : Setup) (o : bytes) : Prop :=
  setup_valid s ∧ zlen o = object_bytes s ∧ arrived (layout (MSetup s)) ∧
  ∀ i, 0 ≤ i < segments s →
    arrived (segment_with (setup_session_id s) i (slice o (segment_offset s i) (segment_bytes s i))).

Lemma assembled_mono (P Q : bytes → Prop) s o :
  (∀ message, P message → Q message) → assembled P s o → assembled Q s o.
Proof. intros HPQ (Hs & Hlen & Hsetup & Hsegments). split_and!; auto. Qed.

(** Different tiles do not overlap. *)
Lemma tiles_disjoint s i j k :
  setup_valid s → 0 ≤ i < segments s → 0 ≤ j < segments s →
  segment_offset s i ≤ k < segment_offset s i + segment_bytes s i →
  segment_offset s j ≤ k < segment_offset s j + segment_bytes s j → i = j.
Proof.
  intros [_ Hsz] Hi Hj. unfold segment_offset, segment_bytes, segments in *.
  repeat case_match; intros; nia.
Qed.

Lemma write_all_assembled arrived max_width e ds buffer :
  transfer_wf max_width e → contiguous_count e = segment_count e → delivered arrived e ds →
  zlen buffer = object_bytes (setup e) →
  assembled arrived (setup e) (write_all ds buffer).
Proof.
  intros Htwf Hcount Hdel Hbuf. pose proof (twf_setup _ _ Htwf) as Hs.
  pose proof (delivered_complete _ _ _ _ Htwf Hcount Hdel) as Hshape.
  destruct Hdel as (Hnd & _ & Hsrc & Hreq).
  assert (Hlen : length (write_all ds buffer) = length buffer).
  { clear. revert buffer. induction ds as [|[o p] ds IH]; intros buffer; [done|].
    simpl. by rewrite IH, memcpy_at_length. }
  split_and!; [done|unfold zlen in *; lia|done|]. intros i Hi.
  assert (Htile : tile (setup e) i ∈ shape ds).
  { rewrite Hshape, tiles_setup by done. apply list_elem_of_In, in_map, list_elem_of_In.
    apply elem_of_seqZ. lia. }
  apply list_elem_of_In, in_map_iff in Htile as ([offset payload] & [= -> Hp] & Hin).
  apply list_elem_of_In, list_elem_of_split in Hin as (ds1 & ds2 & Eds).
  assert (Hslice : slice (write_all ds buffer) (segment_offset (setup e) i) (segment_bytes (setup e)
    i) = payload).
  { pose proof (tile_within _ _ Hs Hi) as [Hlo Hhi].
    rewrite Eds, <- Hp. apply write_all_slice; [|done|lia].
    intros k o p Hin Hk Hk'.
    assert (Hop : (o, zlen p) ∈ shape ds).
    { rewrite Eds. apply list_elem_of_In, in_map_iff. exists (o, p). split; [done|].
      apply list_elem_of_In, elem_of_app. right. by right. }
    assert (Hop2 := Hop). rewrite Hshape, tiles_setup in Hop2 by done.
    apply list_elem_of_In, in_map_iff in Hop2 as (j & [= Eo Ep] & Hj).
    apply list_elem_of_In, elem_of_seqZ in Hj. pose proof (tile_within (setup e) j Hs ltac:(lia)).
    assert (i = j) as <-.
    { apply (tiles_disjoint (setup e) i j (Z.of_nat k)); [done|done|lia| |]; unfold zlen in *; lia. }
    revert Hnd. rewrite Eds. unfold shape. rewrite map_app. simpl.
    intros (_ & _ & [Hnot _]%list.NoDup_cons)%list.NoDup_app. apply Hnot.
    apply list_elem_of_In, in_map_iff. exists (o, p). split; [|by apply list_elem_of_In].
    by rewrite <- Eo, <- Ep, <- Hp. }
  rewrite Hslice. rewrite list.Forall_forall in Hsrc.
  destruct (Hsrc (segment_offset (setup e) i, payload)) as (j & Eij & Harr).
  { rewrite Eds. apply elem_of_app. right. by left. }
  replace i with j; [done|]. destruct Hs as [_ ?]. unfold segment_offset in Eij. nia.
Qed.

(** A completed object in the RAM is the object of the engine's completed transfer. *)
Lemma ram_completed {W} max_width arrived e (w : W) log N keeping ram_of :
  inv max_width arrived (e, (w, log)) → ram_inv N keeping ram_of (w, log) →
  object_complete_ (ram_of w) = true →
  let object := completedObject (ram_of w) in
  state e = TransferState.kCompleted ∧ assembled arrived (setup e) object ∧
  zlen object = received_size_ (ram_of w) ∧ 0 < zlen object ≤ Z.of_nat N.
Proof.
  intros (Hwf & (m & Hm & Hag) & _) [Hlen Hram] Hcomplete. cbn [fst snd] in *. rewrite Hm in Hram.
  unfold agrees in Hag. pose proof (ewf_state _ _ Hwf) as Hstate. simpl in Hstate.
  assert (Hst : state e = TransferState.kCompleted).
  { destruct (state e); try by subst; congruence.
    by destruct Hag as (? & -> & _); destruct Hram; congruence. }
  rewrite Hst in *. destruct Hag as (ds & -> & Hdel). destruct Hstate as [Htwf Hcount].
  destruct Hram as [_ Hram]. destruct (Hram Hcomplete) as [Hfits Hstores]. cbn in Hfits.
  pose proof (delivered_complete _ _ _ _ Htwf Hcount Hdel) as Hshape.
  pose proof (twf_setup _ _ Htwf) as Hs. pose proof (shape_within _ _ Hs Hshape) as Hwithin.
  pose proof (setup_geometry _ Hs) as (_ & _ & _ & Hobj).
  destruct Hstores as ((buffer & Hbuf & Hstorage) & Hsize & _).
  { eapply list.Forall_impl; [exact Hwithin|]. intros [offset payload] [? ?].
    unfold zlen in *. lia. }
  unfold completedObject. rewrite Hcomplete, Hsize, (reach_object _ _ Hs Hshape), Hstorage.
  rewrite write_all_take by done.
  assert (Hasm : assembled arrived (setup e) (write_all ds (take (Z.to_nat (object_bytes (setup e))) buffer))).
  { eapply write_all_assembled; [done..|]. unfold zlen. rewrite length_take. lia. }
  cbv zeta. pose proof Hasm as (_ & -> & _). split_and!; [done|done|done|lia|lia].
Qed.

(** ** Properties *)

(** C17: the application of the BITS example over the engine: whatever PDUs arrive
    and whatever the sender answers, the application has a completed object exactly
    when the engine has completed a transfer; and when the segments that arrived for
    that session carry slices of one object, the completed object is that object,
    byte for byte, and its counter of received bytes its size. *)
Theorem ram_receiver_holds_object {V} `{!ReceiverPduSender V} (max_width : Z)
    (c : ReceiverEngineConfig) (cs : list EngineCall) (storage object : bytes) (v : V) :
  1 ≤ max_width ≤ 16 → config_wf c → Forall call_wf cs → zlen storage ≤ 65535 →
  let s := run_calls (W := Traced (RamReceiverCallbacks * V)) max_width cs
    (new_engine max_width c, ((new_ram storage, v), [])) in
  let ram := s.2.1.1 in
  let setup := setup s.1 in
  hasCompletedObject ram = bool_decide (state s.1 = TransferState.kCompleted) ∧
  (hasCompletedObject ram = true → zlen object = object_bytes setup →
   (∀ index payload, arrived_in cs (segment_with (setup_session_id setup) index payload) →
      zlen payload = segment_bytes setup index →
      payload = slice object (segment_offset setup index) (zlen payload)) →
   completedObject ram = object).
Proof.
  intros Hmax Hc Hcs HN. unfold hasCompletedObject.
  pose proof (run_inv max_width c cs (new_ram storage, v) Hmax Hc Hcs) as Hinv.
  pose proof (run_calls_keep max_width _ (ram_preserved (length storage) true fst HN beside_ram_world) cs
    (new_engine max_width c, ((new_ram storage, v), []))) as Hram.
  cbn [snd] in Hram. specialize (Hram (conj eq_refl eq_refl)).
  destruct (run_calls _ _ _) as [e [[ram v'] log]]. cbn [fst snd] in *.
  pose proof Hinv as (Hwf & (m & Hm & Hag) & _). unfold agrees in Hag. cbn [fst snd] in *.
  destruct Hram as [Hlen Hram]. cbn [fst snd] in *. rewrite Hm in Hram.
  assert (Hdone : object_complete_ ram = bool_decide (state e = TransferState.kCompleted)).
  { destruct (state e); first
      [by subst | by destruct Hag as (? & -> & _); destruct Hram | by destruct Hag as (? & -> & _);
        apply Hram]. }
  split; [done|]. rewrite Hdone. intros Hst%bool_decide_eq_true Hobj Hhonest.
  destruct (completed_object _ _ _ _ _ _ Hinv Hst Hobj Hhonest) as (ds & Hds & Hall).
  rewrite Hm in Hds. injection Hds as ->. rewrite Hst in Hag.
  destruct Hag as (ds' & [= <-] & Hdel). pose proof (ewf_state _ _ Hwf) as Hstate.
  simpl in Hstate. rewrite Hst in Hstate. destruct Hstate as [Htwf Hcount].
  pose proof (delivered_complete _ _ _ _ Htwf Hcount Hdel) as Hshape.
  pose proof (twf_setup _ _ Htwf) as Hs. pose proof (shape_within _ _ Hs Hshape) as Hwithin.
  destruct Hram as (Hcomplete & Hfits). specialize (Hcomplete eq_refl).
  destruct (Hfits Hcomplete) as (Hfits' & Hst'). clear Hfits. rename Hfits' into Hfits.
  cbn [info_of info_total_size] in Hfits.
  destruct Hst' as ((buffer & Hbuf & Hstorage) & Hsize & _).
  { eapply list.Forall_impl; [exact Hwithin|]. intros [offset payload] [? ?].
    unfold zlen in *. lia. }
  unfold completedObject. rewrite Hcomplete, Hsize, (reach_object _ _ Hs Hshape), Hstorage.
  rewrite write_all_take by done. apply Hall. rewrite length_take. unfold zlen in Hobj. lia.
Qed.

(** A sender whose PDUs are all sent. *)
Module QuietSender.
#[export] Instance quiet_sender : ReceiverPduSender unit := {
  prepare size u := (replicate (Z.to_nat size) 0, u);
  store _ u := (tt, u);
  sendPrepared u := (SendResult.kSent, u);
}.
End QuietSender.
Import QuietSender.

Lemma ram_receiver_holds_object_witness :
  let s := run_calls (W := Traced (RamReceiverCallbacks * unit)) 16 demo_calls
    (new_engine 16 demo_config, ((new_ram (replicate 256 0), tt), [])) in
  hasCompletedObject s.2.1.1 = true ∧ completedObject s.2.1.1 = [11; 12; 13; 14; 15].
Proof.
  destruct (ram_receiver_holds_object (V := unit) 16 demo_config demo_calls (replicate 256 0)
    [11; 12; 13; 14; 15] tt) as [Hdone Hobject].
  - split; discriminate.
  - by_evaluation.
  - by_evaluation.
  - vm_compute. discriminate.
  - cbv zeta in Hdone, Hobject.
    assert (Hcomplete : hasCompletedObject
      (run_calls (W := Traced (RamReceiverCallbacks * unit)) 16 demo_calls
        (new_engine 16 demo_config, ((new_ram (replicate 256 0), tt), []))).2.1.1 = true)
      by (vm_compute; reflexivity).
    split; [exact Hcomplete|]. apply Hobject; [exact Hcomplete|vm_compute; reflexivity|].
    assert (setup (run_calls (W := Traced (RamReceiverCallbacks * unit)) 16 demo_calls
      (new_engine 16 demo_config, ((new_ram (replicate 256 0), tt), []))).1 = demo_setup)
      as -> by (vm_compute; reflexivity).
    intros index payload Harr%demo_arrivals. rewrite !elem_of_cons in Harr.
    by destruct Harr as [[= -> ->]|[[= -> ->]|[[= -> ->]|[]%elem_of_nil]]].
Defined.
