(* ===== verification/Services.v ===== *)
(** * The polling services
      ([services/ping/ping.h], [led_control/led_control.h], [heartbeat/heartbeat.h],
      [stack_report/stack_report.h])

    Request/response services over an endpoint queue, and periodic publishers over
    the wrapping millisecond clock.  The router pointer is an option: [None] is
    [nullptr].  Messages are copied with [memcpy] on the little-endian targets, so a
    message is the list of its bytes. *)

From S2P Require Import Prelude Packet Containers Routing Endpoints.
Local Open Scope Z_scope.

(** [MillisecondClock::now()] of the platform. *)
Class MillisecondClock (W : Type) := clockNow : State W Z.

(** [SetBrightness], the application's output callback. *)
Class BrightnessOutput (W : Type) := setBrightness : Z → State W unit.

Definition kMessageSize : Z := 4.
Definition kReceiveQueueCapacity : Z := 2.
Definition ReceiverQueue : Type := EndpointQueue.EndpointReceiverQueue.

(** [receiver()]: the queue behind the filter for simple packets. *)
#[export] Instance queue_receiver {W} : EndpointReceiver unit (ReceiverQueue * W) :=
  λ _ packet '(q, w),
    let '(r, q) := EndpointQueue.receive kMessageSize kReceiveQueueCapacity packet q in
    (r, (q, w)).
Definition receiver {W} (packet : PacketBuffer) : State (ReceiverQueue * W) ReceiveResult.t :=
  filteredReceive tt kSimple packet.

(** [while (receive_queue_.dequeue(packet)) processRequest(packet)]: one round per
    queued packet and one more that finds the queue empty. *)
Fixpoint serve {W} (fuel : nat) (processRequest : PacketBuffer → State W unit)
    (packet : PacketBuffer) : State (ReceiverQueue * W) unit :=
  match fuel with
  | O => mret tt
  | S fuel => λ '(q, w),
      let '(dequeued, packet, q) :=
        EndpointQueue.dequeue kMessageSize kReceiveQueueCapacity packet q in
      if dequeued
      then let '(_, w) := processRequest packet w in serve fuel processRequest packet (q, w)
      else (tt, (q, w))
  end.

Definition serveAll {W} (processRequest : PacketBuffer → State W unit)
    : State (ReceiverQueue * W) unit :=
  serve (Z.to_nat kReceiveQueueCapacity + 1) processRequest (new_packet kMessageSize).

(** The header members a service assigns one by one. *)
Definition address (wire : WireNumber) (source destination : HostId) (endpoint : EndpointAddress)
    (p : PacketBuffer) : PacketBuffer :=
  set_header {| control := control (header p); wire := wire; source := source;
                destination := destination; endpoint := endpoint |} p.

Definition forwardOn {W} `{!PacketForwarder W} (router : option (list RouteTableEntry))
    (packet : PacketBuffer) : State W unit :=
  match router with
  | None => mret tt
  | Some routes => routerForward routes packet;; mret tt
  end.

Module Ping.
Definition kMagic : Z := 0xAB.
Definition kRequest : Z := 1.
Definition kResponse : Z := 2.

Section ping.
Context {W : Type} `{!PacketForwarder W}.
Variable router : option (list RouteTableEntry).

(** The sequence number is carried as its two bytes. *)
Definition sendResponse (request_header : Header) (sequence_number : bytes) : State W unit :=
  let response := (initializeResponseTo request_header kMessageSize defaultControlFields
                     (new_packet kMessageSize)).2 in
  let response := write_payload 0 (kMagic :: kResponse :: sequence_number) response in
  forwardOn router response.

Definition processRequest (packet : PacketBuffer) : State W unit :=
  if negb (bool_decide (is_Some router)) || negb (size packet =? kMessageSize)
     || isBroadcast (destination (header packet))
  then mret tt
  else
  let request := payload packet in
  if negb (byte_at request 0 =? kMagic) || negb (byte_at request 1 =? kRequest) then mret tt
  else sendResponse (header packet) (drop 2 request).

Definition run : State (ReceiverQueue * W) unit := serveAll processRequest.
End ping.
End Ping.

Module LedControl.
Definition kMagic : Z := 0x4C.
Definition kRequest : Z := 1.
Definition kResponse : Z := 2.
Definition kEndpointId : Z := 0x3FFB.

Section led_control.
Context {W : Type} `{!PacketForwarder W, !BrightnessOutput W}.
Variable router : option (list RouteTableEntry).
(** [set_brightness_ != nullptr]. *)
Variable has_output : bool.

Definition sendResponse (request_header : Header) (brightness sequence_number : Z)
    : State W unit :=
  let response := (initialize kMessageSize (cf_simple kNormal) (new_packet kMessageSize)).2 in
  let response := address (wire request_header) (destination request_header)
    (source request_header) (endpoint_from kCommon kEndpointId) response in
  let response := write_payload 0 [kMagic; kResponse; brightness; sequence_number] response in
  forwardOn router response.

Definition processRequest (packet : PacketBuffer) : State W unit :=
  if negb (bool_decide (is_Some router)) || negb has_output
     || negb (size packet =? kMessageSize) || isBroadcast (destination (header packet))
  then mret tt
  else
  let request := payload packet in
  if negb (byte_at request 0 =? kMagic) || negb (byte_at request 1 =? kRequest) then mret tt
  else
  setBrightness (byte_at request 2);;
  sendResponse (header packet) (byte_at request 2) (byte_at request 3).

Definition run : State (ReceiverQueue * W) unit := serveAll processRequest.
End led_control.
End LedControl.

(** The members the two publishers share. *)
Record Publisher := {
  router_ : option (list RouteTableEntry);
  wire_ : WireNumber;
  source_host_ : HostId;
  destination_host_ : HostId;
  last_send_time_ms_ : Z;
}.
Definition set_last_send_time_ms_ (now_ms : Z) (p : Publisher) : Publisher :=
  {| router_ := router_ p; wire_ := wire_ p; source_host_ := source_host_ p;
     destination_host_ := destination_host_ p; last_send_time_ms_ := now_ms |}.
Definition new_publisher (router : option (list RouteTableEntry)) (wire : WireNumber)
    (source_host destination_host : HostId) : Publisher :=
  {| router_ := router; wire_ := wire; source_host_ := source_host;
     destination_host_ := destination_host; last_send_time_ms_ := 0 |}.

(** The object representation of a [uint32_t] and of two [uint16_t]s. *)
Definition u32_bytes (v : Z) : bytes :=
  [u8 v; u8 (Z.shiftr v 8); u8 (Z.shiftr v 16); u8 (Z.shiftr v 24)].
Definition u16_bytes (v : Z) : bytes := [u8 v; u8 (Z.shiftr v 8)].

Module Heartbeat.
Definition kEndpointId : Z := 0x3FFE.

Section heartbeat.
Context {W : Type} `{!PacketForwarder W, !MillisecondClock W}.
Variable period_ms : Z.

Definition sendHeartbeat (p : Publisher) : State W unit :=
  match router_ p with
  | None => mret tt
  | Some routes =>
      now_ms ← clockNow;
      let packet := (initialize kMessageSize defaultControlFields (new_packet kMessageSize)).2 in
      let packet := address (wire_ p) (source_host_ p) (destination_host_ p)
        (endpoint_from kCommon kEndpointId) packet in
      let packet := write_payload 0 (u32_bytes now_ms) packet in
      routerForward routes packet;; mret tt
  end.

Definition run : State (Publisher * W) unit := λ '(p, w),
  let '(now_ms, w) := clockNow w in
  if period_ms <=? u32 (now_ms - last_send_time_ms_ p)
  then let p := set_last_send_time_ms_ now_ms p in
       let '(_, w) := sendHeartbeat p w in (tt, (p, w))
  else (tt, (p, w)).
End heartbeat.
End Heartbeat.

Module StackReport.
Definition kEndpointId : Z := 0x3FFC.

Section stack_report.
Context {W : Type} `{!PacketForwarder W, !MillisecondClock W}.
Variable period_ms : Z.

Definition sendReport (peak_used_bytes capacity_bytes : Z) (p : Publisher) : State W unit :=
  match router_ p with
  | None => mret tt
  | Some routes =>
      let packet := (initialize kMessageSize (cf_simple kBackground) (new_packet kMessageSize)).2 in
      let packet := address (wire_ p) (source_host_ p) (destination_host_ p)
        (endpoint_from kCommon kEndpointId) packet in
      let packet :=
        write_payload 0 (u16_bytes peak_used_bytes ++ u16_bytes capacity_bytes) packet in
      routerForward routes packet;; mret tt
  end.

Definition run (peak_used_bytes capacity_bytes : Z) : State (Publisher * W) unit := λ '(p, w),
  let '(now_ms, w) := clockNow w in
  if u32 (now_ms - last_send_time_ms_ p) <? period_ms then (tt, (p, w))
  else let p := set_last_send_time_ms_ now_ms p in
       let '(_, w) := sendReport peak_used_bytes capacity_bytes p w in (tt, (p, w)).
End stack_report.
End StackReport.

(** ** Serving a queue *)

Definition View : Type := Header * Z * bytes.

(** The queue's state and contents at this service's sizes. *)
Definition queue_wf (q : ReceiverQueue) : Prop :=
  EndpointQueue.wf kMessageSize kReceiveQueueCapacity q.
Definition queued (q : ReceiverQueue) : list View :=
  EndpointQueue.view <$> EndpointQueue.contents kMessageSize q.

Lemma serve_spec {W} (processRequest : PacketBuffer → State W unit) (answer : View → W → W)
    fuel q w packet :
  (∀ p w, packet_wf p → (processRequest p w).2 = answer (EndpointQueue.view p) w) →
  queue_wf q → packet_wf packet → capacity packet = kMessageSize →
  (length (queued q) < fuel)%nat →
  let s := (serve fuel processRequest packet (q, w)).2 in
  queue_wf s.1 ∧ queued s.1 = [] ∧ s.2 = foldl (λ w v, answer v w) w (queued q).
Proof.
  intros Hanswer. unfold queued. revert q w packet.
  induction fuel as [|fuel IH]; intros q w packet Hq Hp Hcap Hlen; [lia|]. simpl.
  pose proof (EndpointQueue.endpoint_dequeue_spec kMessageSize kReceiveQueueCapacity
    ltac:(by_evaluation) packet q Hq Hp ltac:(lia)) as Hdeq.
  destruct (EndpointQueue.dequeue _ _ packet q) as [[ok packet'] q'].
  destruct Hdeq as (Hp' & Hcap' & Hq' & Hres).
  destruct (EndpointQueue.contents kMessageSize q) as [|stored l].
  - destruct Hres as [-> Hnil]. cbn [fst snd]. by rewrite Hnil.
  - destruct Hres as (-> & Hview & Hrest).
    pose proof (Hanswer packet' w Hp') as Ha. destruct (processRequest packet' w) as [[] w'].
    simpl in Ha. subst w'. cbn [fmap list_fmap foldl]. rewrite <- Hview, <- Hrest.
    rewrite length_fmap in Hlen. simpl in Hlen.
    apply IH; [done|done|lia|]. rewrite length_fmap, Hrest. lia.
Qed.

Lemma serveAll_spec {W} (processRequest : PacketBuffer → State W unit) (answer : View → W → W) q w :
  (∀ p w, packet_wf p → (processRequest p w).2 = answer (EndpointQueue.view p) w) →
  queue_wf q →
  let s := (serveAll processRequest (q, w)).2 in
  queue_wf s.1 ∧ queued s.1 = [] ∧ s.2 = foldl (λ w v, answer v w) w (queued q).
Proof.
  intros Hanswer Hq. apply serve_spec; [done|done|by apply new_packet_wf; by_evaluation|done|].
  unfold queued. rewrite length_fmap. unfold EndpointQueue.contents, Queue.contents.
  destruct Hq as [Hq _]. rewrite ring_length. pose proof (Queue.wf_size _ _ Hq).
  unfold kReceiveQueueCapacity in *. lia.
Qed.

(** A packet a service builds: four payload bytes and a fresh header. *)
Definition message_packet (control_byte : Z) (wire : WireNumber) (source destination : HostId)
    (endpoint : EndpointAddress) (message : bytes) : PacketBuffer :=
  {| capacity := kMessageSize; size := kMessageSize; ingressIndex := 0;
     header := {| control := control_byte; wire := wire; source := source;
                  destination := destination; endpoint := endpoint |};
     payload_storage := message |}.

(** The control bytes of a simple packet of normal and of background quality. *)
Definition kNormalControl : Z := 0x80.
Definition kBackgroundControl : Z := 0xC0.

(** Requests are the four-byte messages with the magic and the request type,
    sent to one host. *)
Definition request_of (magic : Z) (v : View) : option (Header * bytes) :=
  let '(h, _, p) := v in
  match p with
  | [m; t; a; b] =>
      if (m =? magic) && (t =? 1) && negb (isBroadcast (destination h))
      then Some (h, [a; b]) else None
  | _ => None
  end.

Lemma request_cases magic p :
  packet_wf p →
  match request_of magic (EndpointQueue.view p) with
  | Some (h, rest) => h = header p ∧ size p = 4 ∧ isBroadcast (destination (header p)) = false ∧
      payload p = magic :: 1 :: rest ∧ length rest = 2%nat
  | None => negb (size p =? 4) || isBroadcast (destination (header p)) = true ∨
      negb (byte_at (payload p) 0 =? magic) || negb (byte_at (payload p) 1 =? 1) = true
  end.
Proof.
  intros Hp. pose proof (length_payload p Hp) as Hlen. pose proof (pwf_size p Hp) as Hs.
  unfold request_of, EndpointQueue.view.
  destruct (decide (size p = 4)) as [E|Hne].
  - rewrite E in Hlen. destruct (payload p) as [|m [|t [|a [|b [|]]]]]; try done.
    rewrite E. unfold byte_at. simpl. destruct (isBroadcast _); simpl; [by rewrite andb_false_r; left|].
    destruct (Z.eqb_spec m magic) as [->|]; simpl; [|by right].
    destruct (Z.eqb_spec t 1) as [->|]; simpl; [done|by right].
  - rewrite (proj2 (Z.eqb_neq _ _)) by done.
    destruct (payload p) as [|m [|t [|a [|b [|]]]]]; simpl in *; try by left. lia.
Qed.

(** ** Requests and their answers *)

Section answers.
Context {W : Type} `{!PacketForwarder W}.
Variable router : option (list RouteTableEntry).

(** What Ping does for a queued packet: a request is answered to its source with
    its two last bytes unchanged. *)
Definition ping_answer (v : View) (w : W) : W :=
  match request_of Ping.kMagic v with
  | Some (h, rest) =>
      (forwardOn router (message_packet kNormalControl (wire h) (destination h) (source h)
         (endpoint h) (Ping.kMagic :: Ping.kResponse :: rest)) w).2
  | None => w
  end.

Lemma ping_processRequest p w :
  packet_wf p → (Ping.processRequest router p w).2 = ping_answer (EndpointQueue.view p) w.
Proof.
  intros Hp. pose proof (request_cases Ping.kMagic p Hp) as Hreq. unfold ping_answer, Ping.processRequest.
  destruct router as [routes|]; [|by destruct (request_of _ _) as [[]|]].
  rewrite bool_decide_eq_true_2 by by eexists. cbn [negb orb].
  destruct (request_of _ _) as [[h rest]|].
  - destruct Hreq as (-> & -> & -> & Hpay & Hlen). rewrite Hpay.
    destruct rest as [|a [|b [|]]]; try done.
  - unfold kMessageSize, Ping.kRequest. destruct (negb (size p =? 4) || _); [done|].
    destruct Hreq as [?| ->]; done.
Qed.

Context `{!BrightnessOutput W}.
Variable has_output : bool.

(** What LED control does: the brightness of a request is applied, then
    acknowledged with the request's brightness and sequence number. *)
Definition led_answer (v : View) (w : W) : W :=
  match request_of LedControl.kMagic v with
  | Some (h, [brightness; sequence_number]) =>
      if bool_decide (is_Some router) && has_output then
        (forwardOn router (message_packet kNormalControl (wire h) (destination h) (source h)
           (endpoint_from kCommon LedControl.kEndpointId)
           [LedControl.kMagic; LedControl.kResponse; brightness; sequence_number])
           (setBrightness brightness w).2).2
      else w
  | _ => w
  end.

Lemma led_processRequest p w :
  packet_wf p →
  (LedControl.processRequest router has_output p w).2 = led_answer (EndpointQueue.view p) w.
Proof.
  intros Hp. pose proof (request_cases LedControl.kMagic p Hp) as Hreq.
  unfold led_answer, LedControl.processRequest.
  destruct (bool_decide (is_Some router)); [|by destruct (request_of _ _) as [[? [|? [|? [|]]]]|]].
  destruct has_output; [|by destruct (request_of _ _) as [[? [|? [|? [|]]]]|]]. cbn [negb orb andb].
  destruct (request_of _ _) as [[h rest]|].
  - destruct Hreq as (-> & -> & -> & Hpay & Hlen). rewrite Hpay.
    destruct rest as [|a [|b [|]]]; try done. cbn -[LedControl.sendResponse forwardOn].
    unfold mbind, State_bind. by destruct (setBrightness a w) as [[] w'].
  - unfold kMessageSize, LedControl.kRequest. destruct (negb (size p =? 4) || _); [done|].
    destruct Hreq as [?| ->]; done.
Qed.

(** [PingService::run] returns with the queue empty, having answered every
    queued request exactly once, in order, and nothing else: the answer goes back
    on the request's wire and endpoint with source and destination exchanged, as a
    simple packet with the magic, the response type and the request's sequence
    number; packets of another size, magic or type and broadcasts are dropped. *)
Theorem ping_answers_requests (q : ReceiverQueue) (w : W) :
  queue_wf q →
  let s := (Ping.run router (q, w)).2 in
  queue_wf s.1 ∧ queued s.1 = [] ∧ s.2 = foldl (λ w v, ping_answer v w) w (queued q).
Proof. apply serveAll_spec, ping_processRequest. Qed.

(** [LedControlService::run] returns with the queue empty, having applied and
    then acknowledged the brightness of every queued request in order; without an
    output callback or a router it applies and sends nothing. *)
Theorem led_applies_requests (q : ReceiverQueue) (w : W) :
  queue_wf q →
  let s := (LedControl.run router has_output (q, w)).2 in
  queue_wf s.1 ∧ queued s.1 = [] ∧ s.2 = foldl (λ w v, led_answer v w) w (queued q).
Proof. apply serveAll_spec, led_processRequest. Qed.
End answers.

(** ** Cadence of the publishers *)

Section cadence.
Context {W : Type} `{!PacketForwarder W, !MillisecondClock W}.
(** The true time of the world, without wrap-around, and its passing. *)
Variable time : W → Z.
Variable advance : Z → W → W.
Hypothesis clock_reads : ∀ w, clockNow w = (u32 (time w), w).
Hypothesis time_advance : ∀ t w, time (advance t w) = t.
Variable period_ms : Z.

(** The publishing schedule on true time: publish as soon as a poll finds a period
    passed since the last publication. *)
Fixpoint schedule (send : Z → W → W) (ts : list Z) (last : Z) (w : W) : Z * W :=
  match ts with
  | [] => (last, w)
  | t :: ts =>
      let w := advance t w in
      if period_ms <=? t - last then schedule send ts t (send t w) else schedule send ts last w
  end.

(** Polls that are never so far apart that the wrapping clock could lose a whole
    turn between a publication and the next. *)
Fixpoint dense (ts : list Z) (now : Z) : Prop :=
  match ts with
  | [] => True
  | t :: ts => now ≤ t ∧ t - now + period_ms ≤ 4294967296 ∧ dense ts t
  end.

Definition poll_at (run : State (Publisher * W) unit) (s : Publisher * W) (t : Z) : Publisher * W :=
  (run (s.1, advance t s.2)).2.

Lemma schedule_spec (run : State (Publisher * W) unit) (send : Z → W → W) (member : Publisher → Prop)
    ts now last p w :
  (∀ p w, member p →
     run (p, w) = (tt, if period_ms <=? u32 (u32 (time w) - last_send_time_ms_ p)
       then (set_last_send_time_ms_ (u32 (time w)) p, send (time w) w) else (p, w))) →
  (∀ n p, member p → member (set_last_send_time_ms_ n p)) → member p →
  0 < period_ms → last ≤ now → now - last < period_ms → dense ts now →
  last_send_time_ms_ p = u32 last →
  let '(last', w') := schedule send ts last w in
  foldl (poll_at run) (p, w) ts = (set_last_send_time_ms_ (u32 last') p, w').
Proof.
  intros Hrun Hset. revert now last p w. induction ts as [|t ts IH];
    intros now last p w Hp Hperiod Hle Hrecent Hdense Hlast; simpl.
  { f_equal. rewrite <- Hlast. by destruct p. }
  destruct Hdense as (Hnow & Hgap & Hdense). unfold poll_at at 2. simpl. rewrite Hrun by done.
  rewrite time_advance, Hlast. assert (u32 (u32 t - u32 last) = t - last) as -> by word_lia.
  destruct (Z.leb_spec period_ms (t - last)) as [Hdue|Hnot]; simpl.
  - specialize (IH t t (set_last_send_time_ms_ (u32 t) p) (send t (advance t w))).
    destruct (schedule send ts t (send t (advance t w))) as [last' w'].
    rewrite IH; [done|by apply Hset|done|lia|lia|done|done].
  - specialize (IH t last p (advance t w)).
    destruct (schedule send ts last (advance t w)) as [last' w'].
    apply IH; [done|done|lia|lia|done|done].
Qed.

Definition heartbeat_send (p : Publisher) (t : Z) (w : W) : W :=
  (forwardOn (router_ p) (message_packet kNormalControl (wire_ p) (source_host_ p)
     (destination_host_ p) (endpoint_from kCommon Heartbeat.kEndpointId) (u32_bytes (u32 t))) w).2.

Lemma heartbeat_run p w :
  Heartbeat.run period_ms (p, w) =
    (tt, if period_ms <=? u32 (u32 (time w) - last_send_time_ms_ p)
         then (set_last_send_time_ms_ (u32 (time w)) p, heartbeat_send p (time w) w)
         else (p, w)).
Proof.
  unfold Heartbeat.run. rewrite clock_reads. destruct (_ <=? _); [|done].
  unfold Heartbeat.sendHeartbeat, heartbeat_send, forwardOn. destruct p as [[routes|] ? ? ? ?]; [|done].
  simpl. unfold mbind, State_bind. rewrite clock_reads.
  by destruct (routerForward routes _ w).
Qed.
Definition report_send (peak_used_bytes capacity_bytes : Z) (p : Publisher) (w : W) : W :=
  (forwardOn (router_ p) (message_packet kBackgroundControl (wire_ p) (source_host_ p)
     (destination_host_ p) (endpoint_from kCommon StackReport.kEndpointId)
     (u16_bytes peak_used_bytes ++ u16_bytes capacity_bytes)) w).2.

Lemma report_run peak capacity p w :
  StackReport.run period_ms peak capacity (p, w) =
    (tt, if period_ms <=? u32 (u32 (time w) - last_send_time_ms_ p)
         then (set_last_send_time_ms_ (u32 (time w)) p, report_send peak capacity p w)
         else (p, w)).
Proof.
  unfold StackReport.run. rewrite clock_reads, Z.ltb_antisym. destruct (_ <=? _); [|done]. simpl.
  unfold StackReport.sendReport, report_send, forwardOn.
  destruct p as [[routes|] ? ? ? ?]; [|done].
  simpl. unfold mbind, State_bind. by destruct (routerForward routes _ w).
Qed.

(** A publisher up to the time of its last publication. *)
Definition same_publisher (p p' : Publisher) : Prop := ∃ n, p' = set_last_send_time_ms_ n p.

Lemma same_publisher_set p n p' :
  same_publisher p p' → same_publisher p (set_last_send_time_ms_ n p').
Proof. intros [m ->]. by exists n. Qed.

Lemma same_publisher_refl p : same_publisher p p.
Proof. exists (last_send_time_ms_ p). by destruct p. Qed.

(** C31: Cadence of the heartbeat across clock wrap-around: with the wrapping
    32-bit clock the service publishes exactly on the schedule of unbounded time,
    as soon as a poll finds a period passed since the last publication, each time
    one heartbeat with the clock's reading, provided polls never leave a gap of a
    whole clock turn. *)
Theorem heartbeat_cadence ts now last p w :
  0 < period_ms → last ≤ now → now - last < period_ms → dense ts now →
  last_send_time_ms_ p = u32 last →
  let '(last', w') := schedule (heartbeat_send p) ts last w in
  foldl (poll_at (Heartbeat.run period_ms)) (p, w) ts = (set_last_send_time_ms_ (u32 last') p, w').
Proof.
  intros. apply (schedule_spec _ _ (same_publisher p) ts now); try done.
  - intros p' w0 [n ->]. exact (heartbeat_run (set_last_send_time_ms_ n p) w0).
  - intros n p'. apply same_publisher_set.
  - apply same_publisher_refl.
Qed.

(** The stack report keeps the same cadence, with the values of each poll. *)
Lemma report_cadence peak capacity ts now last p w :
  0 < period_ms → last ≤ now → now - last < period_ms → dense ts now →
  last_send_time_ms_ p = u32 last →
  let '(last', w') := schedule (λ _, report_send peak capacity p) ts last w in
  foldl (poll_at (StackReport.run period_ms peak capacity)) (p, w) ts =
    (set_last_send_time_ms_ (u32 last') p, w').
Proof.
  intros. apply (schedule_spec _ _ (same_publisher p) ts now); try done.
  - intros p' w0 [n ->]. exact (report_run peak capacity (set_last_send_time_ms_ n p) w0).
  - intros n p'. apply same_publisher_set.
  - apply same_publisher_refl.
Qed.
End cadence.

(** ** Examples *)

Module DemoServices.
(** The time, the brightness and the packets forwarded. *)
Record World := { now_ms : Z; brightness : Z; forwarded : list PacketBuffer }.
#[export] Instance link : PacketForwarder World := λ packet _ w,
  (RouteResult.kAccepted, {| now_ms := now_ms w; brightness := brightness w;
                             forwarded := forwarded w ++ [packet] |}).
#[export] Instance led : BrightnessOutput World := λ v w,
  (tt, {| now_ms := now_ms w; brightness := v; forwarded := forwarded w |}).
#[export] Instance clock : MillisecondClock World := λ w, (u32 (now_ms w), w).
Definition advance (t : Z) (w : World) : World :=
  {| now_ms := t; brightness := brightness w; forwarded := forwarded w |}.
Definition start : World := {| now_ms := 0; brightness := 0; forwarded := [] |}.
Definition routes : list RouteTableEntry := [mkRouteTableEntry (mkWireNumber 9) 1].

(** A message from host 2 to [host]. *)
Definition message (host : Z) (endpoint_id : Z) (p : bytes) : PacketBuffer :=
  message_packet kNormalControl (mkWireNumber 9) (mkHostId 2) (mkHostId host)
    (endpoint_from kCommon endpoint_id) p.
Definition queue_of (packets : list PacketBuffer) : ReceiverQueue :=
  foldl (λ q p, (EndpointQueue.receive kMessageSize kReceiveQueueCapacity p q).2)
    (EndpointQueue.empty kMessageSize kReceiveQueueCapacity) packets.

Lemma queue_of_wf packets : Forall packet_wf packets → queue_wf (queue_of packets).
Proof.
  intros Hps. unfold queue_of.
  destruct (EndpointQueue.endpoint_empty_wf kMessageSize kReceiveQueueCapacity ltac:(by_evaluation))
    as [Hwf _]. revert Hwf. generalize (EndpointQueue.empty kMessageSize kReceiveQueueCapacity).
  induction Hps as [|p packets Hp _ IH]; intros q Hq; [done|]. simpl. apply IH.
  destruct (EndpointQueue.endpoint_exec_refines kMessageSize kReceiveQueueCapacity
    ltac:(by_evaluation) ltac:(by_evaluation) (EndpointQueue.Receive p) q (conj Hq Hp)) as [H _].
  revert H. simpl. by destruct (EndpointQueue.receive _ _ p q).
Qed.
End DemoServices.
Import DemoServices.

Lemma ping_answers_requests_witness :
  let q := queue_of [message 1 0x3FFD [0xAB; 1; 5; 6]; message 0xFF 0x3FFD [0xAB; 1; 7; 8]] in
  let s := (Ping.run (Some routes) (q, start)).2 in
  (payload <$> forwarded s.2) = [[0xAB; 2; 5; 6]] ∧
  queue_wf s.1 ∧ queued s.1 = [] ∧
  s.2 = foldl (λ w v, ping_answer (Some routes) v w) start (queued q).
Proof.
  split; [vm_compute; reflexivity|].
  apply (ping_answers_requests (Some routes)
    (queue_of [message 1 0x3FFD [0xAB; 1; 5; 6]; message 0xFF 0x3FFD [0xAB; 1; 7; 8]]) start).
  apply queue_of_wf. repeat constructor; by_evaluation.
Defined.

Lemma led_applies_requests_witness :
  let q := queue_of [message 1 0x3FFB [0x4C; 1; 200; 6]; message 1 0x3FFB [0x4C; 1; 50; 7]] in
  let s := (LedControl.run (Some routes) true (q, start)).2 in
  brightness s.2 = 50 ∧ (payload <$> forwarded s.2) = [[0x4C; 2; 200; 6]; [0x4C; 2; 50; 7]] ∧
  queue_wf s.1 ∧ queued s.1 = [] ∧
  s.2 = foldl (λ w v, led_answer (Some routes) true v w) start (queued q).
Proof.
  split; [vm_compute; reflexivity|]. split; [vm_compute; reflexivity|].
  apply (led_applies_requests (Some routes) true
    (queue_of [message 1 0x3FFB [0x4C; 1; 200; 6]; message 1 0x3FFB [0x4C; 1; 50; 7]]) start).
  apply queue_of_wf. repeat constructor; by_evaluation.
Defined.

(** Polls around the wrap of the clock, a second apart. *)
Lemma heartbeat_cadence_witness :
  let p := set_last_send_time_ms_ 4294966000
    (new_publisher (Some routes) (mkWireNumber 9) (mkHostId 1) (mkHostId 2)) in
  let ts := [4294966900; 4294967100; 4294967900; 4294968100] in
  schedule advance 1000 (heartbeat_send p) ts 4294966000 start =
    (4294968100, (schedule advance 1000 (heartbeat_send p) ts 4294966000 start).2) ∧
  let '(last', w') := schedule advance 1000 (heartbeat_send p) ts 4294966000 start in
  foldl (poll_at advance (Heartbeat.run 1000)) (p, start) ts =
    (set_last_send_time_ms_ (u32 last') p, w').
Proof.
  split; [vm_compute; reflexivity|].
  apply (heartbeat_cadence now_ms advance) with (now := 4294966000);
    try done; try (vm_compute; reflexivity).
Defined.
