(* ===== verification/Mcp2515.v ===== *)
(** * The MCP2515 CAN controller over SPI
      ([platform/avr/spi0.h], [mcp2515.h], [mcp2515_can.h])

    The SPI master over the registers of the AVR, the controller's register access
    over SPI, and the polling driver for standard CAN frames.  The registers and bit
    numbers of [avr/io.h] are the class [AvrSpi]; the controller behind the bus is the
    class [Mcp2515Model], its instruction set as its data sheet gives it, at rest
    while the driver works.  Busy-waits take [polls] status reads. *)

From S2P Require Import Prelude.
Local Open Scope Z_scope.

(** ** The SPI master *)

Inductive SpiRegister := DDRB | PORTB | SPCR | SPSR | SPDR.

Class AvrSpi (W : Type) := {
  spi_read : SpiRegister → State W Z;
  spi_write : SpiRegister → Z → State W unit;
  spi_BV : Z → Z;
  DDB2 : Z; DDB3 : Z; DDB4 : Z; DDB5 : Z; PORTB2 : Z; SPE : Z; MSTR : Z; SPIF : Z;
}.

Section spi0.
Context {W : Type} `{!AvrSpi W}.
Variable polls : nat.

(** [register |= mask] and [register &= static_cast<uint8_t>(~mask)]. *)
Definition setBits (register : SpiRegister) (mask : Z) : State W unit :=
  value ← spi_read register;
  spi_write register (u8 (Z.lor value mask)).
Definition clearBits (register : SpiRegister) (mask : Z) : State W unit :=
  value ← spi_read register;
  spi_write register (u8 (Z.land value (u8 (Z.lnot mask)))).

Definition spi0Init : State W unit :=
  setBits DDRB (Z.lor (Z.lor (spi_BV DDB2) (spi_BV DDB3)) (spi_BV DDB5));;
  clearBits DDRB (spi_BV DDB4);;
  setBits PORTB (spi_BV PORTB2);;
  spi_write SPCR (Z.lor (spi_BV SPE) (spi_BV MSTR));;
  spi_write SPSR 0.

Definition spi0ChipSelectAssert : State W unit := clearBits PORTB (spi_BV PORTB2).
Definition spi0ChipSelectDeassert : State W unit := setBits PORTB (spi_BV PORTB2).

Fixpoint waitTransfer (polls : nat) : Io W unit :=
  match polls with
  | O => out_of_fuel
  | Datatypes.S polls =>
      status ← liftIo (spi_read SPSR);
      if Z.land status (spi_BV SPIF) =? 0 then waitTransfer polls else mret tt
  end.

Definition spi0Transfer (out_byte : Z) : Io W Z :=
  liftIo (spi_write SPDR out_byte);;
  waitTransfer polls;;
  liftIo (spi_read SPDR).
End spi0.

(** ** Register access *)

Module Mcp2515.
Definition kInstructionRead : Z := 0x03.
Definition kInstructionWrite : Z := 0x02.
Definition kInstructionReset : Z := 0xC0.
Definition kRegisterCanstat : Z := 0x0E.
Definition kCanstatConfigMode : Z := 0x80.

Section mcp2515.
Context {W : Type} `{!AvrSpi W}.
Variable polls : nat.

Definition reset : Io W unit :=
  liftIo spi0ChipSelectAssert;;
  spi0Transfer polls kInstructionReset;;
  liftIo spi0ChipSelectDeassert.

Definition readRegister (address : Z) : Io W Z :=
  liftIo spi0ChipSelectAssert;;
  spi0Transfer polls kInstructionRead;;
  spi0Transfer polls address;;
  value ← spi0Transfer polls 0;
  liftIo spi0ChipSelectDeassert;;
  mret value.

(** The result and [canstat].  The settling delay changes nothing but its own
    counter. *)
Definition probeCanstat : Io W (bool * Z) :=
  reset;;
  canstat ← readRegister kRegisterCanstat;
  mret (canstat =? kCanstatConfigMode, canstat).
End mcp2515.
End Mcp2515.

(** ** The CAN driver *)

Record Mcp2515CanFrame := { identifier : Z; frame_size : Z; data : bytes }.

Module Mcp2515Can.
Definition kInstructionWrite : Z := 0x02.
Definition kInstructionBitModify : Z := 0x05.
Definition kInstructionRequestToSendBuffer0 : Z := 0x81.
Definition kRegisterCanstat : Z := 0x0E.
Definition kRegisterCanctrl : Z := 0x0F.
Definition kRegisterCnf3 : Z := 0x28.
Definition kRegisterCnf2 : Z := 0x29.
Definition kRegisterCnf1 : Z := 0x2A.
Definition kRegisterCaninte : Z := 0x2B.
Definition kRegisterCanintf : Z := 0x2C.
Definition kRegisterTxb0ctrl : Z := 0x30.
Definition kRegisterTxb0sidh : Z := 0x31.
Definition kRegisterTxb0dlc : Z := 0x35.
Definition kRegisterTxb0d0 : Z := 0x36.
Definition kRegisterRxb0ctrl : Z := 0x60.
Definition kRegisterRxb0sidh : Z := 0x61.
Definition kRegisterRxb0dlc : Z := 0x65.
Definition kRegisterRxb0d0 : Z := 0x66.
Definition kRegisterRxb1ctrl : Z := 0x70.
Definition kRegisterRxb1sidh : Z := 0x71.
Definition kRegisterRxb1dlc : Z := 0x75.
Definition kRegisterRxb1d0 : Z := 0x76.
Definition kModeMask : Z := 0xE0.
Definition kReceiveBuffer0Flag : Z := 0x01.
Definition kReceiveBuffer1Flag : Z := 0x02.
Definition kTransmitRequest : Z := 0x08.
Definition kExtendedIdentifier : Z := 0x08.

Section driver.
Context {W : Type} `{!AvrSpi W}.
Variable polls : nat.
Import Mcp2515 (readRegister, probeCanstat).

Definition writeRegister (address value : Z) : Io W unit :=
  liftIo spi0ChipSelectAssert;;
  spi0Transfer polls kInstructionWrite;;
  spi0Transfer polls address;;
  spi0Transfer polls value;;
  liftIo spi0ChipSelectDeassert.

Definition bitModify (address mask value : Z) : Io W unit :=
  liftIo spi0ChipSelectAssert;;
  spi0Transfer polls kInstructionBitModify;;
  spi0Transfer polls address;;
  spi0Transfer polls mask;;
  spi0Transfer polls value;;
  liftIo spi0ChipSelectDeassert.

(** The loop that waits for normal mode, with the attempts left. *)
Fixpoint awaitNormalMode (attempts : nat) : Io W bool :=
  match attempts with
  | O => mret false
  | Datatypes.S attempts =>
      canstat ← readRegister polls kRegisterCanstat;
      if Z.land canstat kModeMask =? 0 then mret true else awaitNormalMode attempts
  end.

Definition initialize500Kbps8MHz : Io W bool :=
  probed ← probeCanstat polls;
  if negb probed.1 then mret false
  else
  writeRegister kRegisterCnf1 0x00;;
  writeRegister kRegisterCnf2 0x98;;
  writeRegister kRegisterCnf3 0x01;;
  writeRegister kRegisterRxb0ctrl 0x64;;
  writeRegister kRegisterRxb1ctrl 0x60;;
  writeRegister kRegisterCaninte 0x00;;
  writeRegister kRegisterCanintf 0x00;;
  bitModify kRegisterCanctrl kModeMask 0x00;;
  awaitNormalMode 1000.

(** The loop of [transmit] over the data registers. *)
Fixpoint writeData (indices : list nat) (data : bytes) : Io W unit :=
  match indices with
  | [] => mret tt
  | index :: indices =>
      writeRegister (u8 (kRegisterTxb0d0 + Z.of_nat index)) (byte_at data index);;
      writeData indices data
  end.

Definition transmit (frame : Mcp2515CanFrame) : Io W bool :=
  if (0x07FF <? identifier frame) || (8 <? frame_size frame) then mret false
  else
  control ← readRegister polls kRegisterTxb0ctrl;
  if negb (Z.land control kTransmitRequest =? 0) then mret false
  else
  writeRegister kRegisterTxb0sidh (u8 (Z.shiftr (identifier frame) 3));;
  writeRegister (u8 (kRegisterTxb0sidh + 1)) (u8 (Z.shiftl (Z.land (identifier frame) 0x07) 5));;
  writeRegister (u8 (kRegisterTxb0sidh + 2)) 0x00;;
  writeRegister (u8 (kRegisterTxb0sidh + 3)) 0x00;;
  writeRegister kRegisterTxb0dlc (frame_size frame);;
  writeData (seq 0 (Z.to_nat (frame_size frame))) (data frame);;
  liftIo spi0ChipSelectAssert;;
  spi0Transfer polls kInstructionRequestToSendBuffer0;;
  liftIo spi0ChipSelectDeassert;;
  mret true.

(** The loop of [receive] over the data registers. *)
Fixpoint readData (indices : list nat) (data_register : Z) (data : bytes) : Io W bytes :=
  match indices with
  | [] => mret data
  | index :: indices =>
      value ← readRegister polls (u8 (data_register + Z.of_nat index));
      readData indices data_register (<[index := value]> data)
  end.

(** The flag and the registers of the receive buffer that is polled. *)
Definition receiveBuffer (flags : Z) : option (Z * Z * Z * Z) :=
  if negb (Z.land flags kReceiveBuffer0Flag =? 0)
  then Some (kReceiveBuffer0Flag, kRegisterRxb0sidh, kRegisterRxb0dlc, kRegisterRxb0d0)
  else if negb (Z.land flags kReceiveBuffer1Flag =? 0)
  then Some (kReceiveBuffer1Flag, kRegisterRxb1sidh, kRegisterRxb1dlc, kRegisterRxb1d0)
  else None.

(** The result and the frame of the caller afterwards. *)
Definition receive (frame : Mcp2515CanFrame) : Io W (bool * Mcp2515CanFrame) :=
  flags ← readRegister polls kRegisterCanintf;
  match receiveBuffer flags with
  | None => mret (false, frame)
  | Some (flag, identifier_register, dlc_register, data_register) =>
      sidh ← readRegister polls identifier_register;
      sidl ← readRegister polls (u8 (identifier_register + 1));
      if negb (Z.land sidl kExtendedIdentifier =? 0) then
        bitModify kRegisterCanintf flag 0x00;;
        mret (false, frame)
      else
      let frame := {| identifier := u16 (Z.lor (u16 (Z.shiftl sidh 3)) (Z.shiftr sidl 5));
                      frame_size := frame_size frame; data := data frame |} in
      dlc ← readRegister polls dlc_register;
      if negb (Z.land dlc 0x40 =? 0) then
        bitModify kRegisterCanintf flag 0x00;;
        mret (false, frame)
      else
      let size := u8 (Z.land dlc 0x0F) in
      let size := if 8 <? size then 8 else size in
      stored ← readData (seq 0 (Z.to_nat size)) data_register (data frame);
      bitModify kRegisterCanintf flag 0x00;;
      mret (true, {| identifier := identifier frame; frame_size := size; data := stored |})
  end.
End driver.
End Mcp2515Can.

(** ** What the hardware promises

    [selected] is what the controller has been sent since it was selected,
    [registers] its registers, [answer] what the next read of the data register
    returns, [busy] a bound on the status reads until a transfer is over. *)

(** The registers after the next byte of an instruction: WRITE, BIT MODIFY and
    RTS change them with their last byte. *)
Definition instruction (sent : bytes) (byte : Z) (registers : Z → Z) (x : Z) : Z :=
  match sent with
  | [] => if (byte =? 0x81) && (x =? 0x30) then Z.lor (registers x) 0x08 else registers x
  | [0x02; a] => if x =? a then byte else registers x
  | [0x05; a; mask] =>
      if x =? a then Z.lor (Z.land (registers x) (u8 (Z.lnot mask))) (Z.land byte mask)
      else registers x
  | _ => registers x
  end.

(** The bytes after which another one belongs to the same single-register
    instruction. *)
Definition follows (sent : bytes) : bool :=
  match sent with
  | [] | [_] | [_; _] | [0x05; _; _] => true
  | _ => false
  end.

Class Mcp2515Model (U : Type) `{!AvrSpi U} := {
  selected : U → option bytes;
  registers : U → Z → Z;
  answer : U → Z;
  busy : U → nat;
  latency : nat;
  bits : ∀ b, spi_BV b = Z.shiftl 1 b;
  select_bit : 0 ≤ PORTB2 < 8;
  port_read : ∀ u,
    let u' := (spi_read PORTB u).2 in
    selected u' = selected u ∧ (∀ x, registers u' x = registers u x);
  port_write : ∀ value u,
    let u' := (spi_write PORTB value u).2 in
    selected u' = (if Z.testbit value PORTB2 then None
                   else Some (default [] (selected u))) ∧
    (∀ x, registers u' x = registers u x);
  transfer_start : ∀ byte u sent,
    selected u = Some sent → follows sent = true →
    (sent = [] → byte ∈ [0x02; 0x03; 0x05; 0x81]) →
    let u' := (spi_write SPDR byte u).2 in
    selected u' = Some (sent ++ [byte]) ∧
    (∀ x, registers u' x = instruction sent byte (registers u) x) ∧
    (∀ a, sent = [0x03; a] → answer u' = registers u a) ∧ (busy u' ≤ latency)%nat;
  transfer_status : ∀ u,
    let '(status, u') := spi_read SPSR u in
    selected u' = selected u ∧ (∀ x, registers u' x = registers u x) ∧ answer u' = answer u ∧
    (Z.land status (spi_BV SPIF) = 0 → (busy u' < busy u)%nat);
  transfer_result : ∀ u,
    let '(value, u') := spi_read SPDR u in
    value = answer u ∧ selected u' = selected u ∧ (∀ x, registers u' x = registers u x);
}.
Arguments latency U {_ _}.

(** ** Driver lemmas *)

Section lemmas.
Context {U : Type} `{!AvrSpi U, !Mcp2515Model U}.

Lemma testbit_set value : Z.testbit (u8 (Z.lor value (spi_BV PORTB2))) PORTB2 = true.
Proof.
  pose proof select_bit. unfold u8. change 256 with (2 ^ 8).
  rewrite Z.mod_pow2_bits_low, Z.lor_spec, bits, Z.shiftl_spec, Z.sub_diag by lia.
  apply orb_true_r.
Qed.

Lemma testbit_cleared value :
  Z.testbit (u8 (Z.land value (u8 (Z.lnot (spi_BV PORTB2))))) PORTB2 = false.
Proof.
  pose proof select_bit. unfold u8. change 256 with (2 ^ 8).
  rewrite Z.mod_pow2_bits_low, Z.land_spec, Z.mod_pow2_bits_low, Z.lnot_spec, bits,
    Z.shiftl_spec, Z.sub_diag by lia. apply andb_false_r.
Qed.

Lemma assert_spec u (Q : unit → U → Prop) :
  (∀ u', selected u' = Some (default [] (selected u)) →
     (∀ x, registers u' x = registers u x) → Q tt u') →
  io_wp (liftIo spi0ChipSelectAssert) u Q.
Proof.
  intros HQ. apply io_wp_lift. unfold spi0ChipSelectAssert, clearBits, mbind, State_bind.
  pose proof (port_read u) as [Hsel Hreg]. destruct (spi_read PORTB u) as [value u1]; simpl in *.
  pose proof (port_write (u8 (Z.land value (u8 (Z.lnot (spi_BV PORTB2))))) u1) as [Hsel' Hreg'].
  rewrite testbit_cleared in Hsel'. destruct (spi_write PORTB _ u1) as [[] u2]; simpl in *.
  apply HQ; [by rewrite Hsel', Hsel|]. intros x. by rewrite Hreg', Hreg.
Qed.

Lemma deassert_spec u (Q : unit → U → Prop) :
  (∀ u', selected u' = None → (∀ x, registers u' x = registers u x) → Q tt u') →
  io_wp (liftIo spi0ChipSelectDeassert) u Q.
Proof.
  intros HQ. apply io_wp_lift. unfold spi0ChipSelectDeassert, setBits, mbind, State_bind.
  pose proof (port_read u) as [Hsel Hreg]. destruct (spi_read PORTB u) as [value u1]; simpl in *.
  pose proof (port_write (u8 (Z.lor value (spi_BV PORTB2))) u1) as [Hsel' Hreg'].
  rewrite testbit_set in Hsel'. destruct (spi_write PORTB _ u1) as [[] u2]; simpl in *.
  apply HQ; [done|]. intros x. by rewrite Hreg', Hreg.
Qed.

Lemma wait_spec n u (Q : unit → U → Prop) :
  (busy u < n)%nat →
  (∀ u', selected u' = selected u → (∀ x, registers u' x = registers u x) →
     answer u' = answer u → Q tt u') →
  io_wp (waitTransfer n) u Q.
Proof.
  revert u. induction n as [|n IH]; intros u Hbusy HQ; [lia|]. cbn [waitTransfer].
  apply io_wp_bind, io_wp_lift. pose proof (transfer_status u) as H.
  destruct (spi_read SPSR u) as [status u1]. destruct H as (Hsel & Hreg & Hans & Hwait). cbn [fst snd].
  destruct (Z.eqb_spec (Z.land status (spi_BV SPIF)) 0) as [E|_].
  - specialize (Hwait E). apply IH; [lia|]. intros u' H1 H2 H3.
    apply HQ; [congruence| |congruence]. intros x. by rewrite H2, Hreg.
  - apply io_wp_ret. by apply HQ.
Qed.

Variable polls : nat.
Hypothesis polls_enough : (latency U < polls)%nat.

Lemma transfer_spec byte sent u (Q : Z → U → Prop) :
  selected u = Some sent → follows sent = true → (sent = [] → byte ∈ [0x02; 0x03; 0x05; 0x81]) →
  (∀ value u', selected u' = Some (sent ++ [byte]) →
     (∀ x, registers u' x = instruction sent byte (registers u) x) →
     (∀ a, sent = [0x03; a] → value = registers u a) → Q value u') →
  io_wp (spi0Transfer polls byte) u Q.
Proof.
  intros Hsent Hfollows Hbyte HQ. unfold spi0Transfer. apply io_wp_bind, io_wp_lift.
  pose proof (transfer_start byte u sent Hsent Hfollows Hbyte) as (Hsel & Hreg & Hans & Hbusy).
  destruct (spi_write SPDR byte u) as [[] u1]; cbn [fst snd] in *.
  apply io_wp_bind, wait_spec; [lia|]. intros u2 Hsel2 Hreg2 Hans2. apply io_wp_lift.
  pose proof (transfer_result u2) as H. destruct (spi_read SPDR u2) as [value u3].
  destruct H as (-> & Hsel3 & Hreg3). apply HQ.
  - cbn [snd]. congruence.
  - intros x. cbn [snd]. by rewrite Hreg3, Hreg2, Hreg.
  - intros a Ha. cbn [fst]. rewrite Hans2. by apply Hans.
Qed.

Lemma readRegister_spec a u (Q : Z → U → Prop) :
  selected u = None →
  (∀ u', selected u' = None → (∀ x, registers u' x = registers u x) → Q (registers u a) u') →
  io_wp (Mcp2515.readRegister polls a) u Q.
Proof.
  intros Hidle HQ. unfold Mcp2515.readRegister.
  apply io_wp_bind, assert_spec. rewrite Hidle. intros u1 S1 R1.
  apply io_wp_bind, (transfer_spec _ []); [done|done|intros _; by_evaluation|]. intros _ u2 S2 R2 _.
  apply io_wp_bind, (transfer_spec _ [0x03]); [done..|]. intros _ u3 S3 R3 _.
  apply io_wp_bind, (transfer_spec _ [0x03; a]); [done..|]. intros value u4 S4 R4 Hvalue.
  apply io_wp_bind, deassert_spec. intros u5 S5 R5. apply io_wp_ret.
  assert (E3 : ∀ x, registers u3 x = registers u x).
  { intros x. rewrite R3. simpl. rewrite R2. simpl. apply R1. }
  rewrite (Hvalue a eq_refl), E3. apply HQ; [done|]. intros x. by rewrite R5, R4, <- E3.
Qed.

Lemma writeRegister_spec a v u (Q : unit → U → Prop) :
  selected u = None →
  (∀ u', selected u' = None →
     (∀ x, registers u' x = if x =? a then v else registers u x) → Q tt u') →
  io_wp (Mcp2515Can.writeRegister polls a v) u Q.
Proof.
  intros Hidle HQ. unfold Mcp2515Can.writeRegister.
  apply io_wp_bind, assert_spec. rewrite Hidle. intros u1 S1 R1.
  apply io_wp_bind, (transfer_spec _ []); [done|done|intros _; by_evaluation|]. intros _ u2 S2 R2 _.
  apply io_wp_bind, (transfer_spec _ [0x02]); [done..|]. intros _ u3 S3 R3 _.
  apply io_wp_bind, (transfer_spec _ [0x02; a]); [done..|]. intros _ u4 S4 R4 _.
  apply deassert_spec. intros u5 S5 R5. apply HQ; [done|].
  intros x. rewrite R5, R4. simpl. destruct (x =? a); [done|].
  rewrite R3. simpl. rewrite R2. simpl. apply R1.
Qed.

Lemma bitModify_spec a mask v u (Q : unit → U → Prop) :
  selected u = None →
  (∀ u', selected u' = None →
     (∀ x, registers u' x = if x =? a
        then Z.lor (Z.land (registers u x) (u8 (Z.lnot mask))) (Z.land v mask)
        else registers u x) → Q tt u') →
  io_wp (Mcp2515Can.bitModify polls a mask v) u Q.
Proof.
  intros Hidle HQ. unfold Mcp2515Can.bitModify.
  apply io_wp_bind, assert_spec. rewrite Hidle. intros u1 S1 R1.
  apply io_wp_bind, (transfer_spec _ []); [done|done|intros _; by_evaluation|]. intros _ u2 S2 R2 _.
  apply io_wp_bind, (transfer_spec _ [0x05]); [done..|]. intros _ u3 S3 R3 _.
  apply io_wp_bind, (transfer_spec _ [0x05; a]); [done..|]. intros _ u4 S4 R4 _.
  apply io_wp_bind, (transfer_spec _ [0x05; a; mask]); [done..|]. intros _ u5 S5 R5 _.
  apply deassert_spec. intros u6 S6 R6. apply HQ; [done|].
  assert (E4 : ∀ x, registers u4 x = registers u x).
  { intros x. rewrite R4. simpl. rewrite R3. simpl. rewrite R2. simpl. apply R1. }
  intros x. rewrite R6, R5. simpl. by rewrite E4.
Qed.
End lemmas.

(** ** Sending and receiving frames *)

(** The identifier, the size and the data of a frame in the registers from
    [base] on. *)
Record frame_at (base : Z) (f : Mcp2515CanFrame) (regs : Z → Z) : Prop := {
  at_sidh : regs base = u8 (Z.shiftr (identifier f) 3);
  at_sidl : regs (base + 1) = u8 (Z.shiftl (Z.land (identifier f) 0x07) 5);
  at_dlc : regs (base + 4) = frame_size f;
  at_data : ∀ i, (i < Z.to_nat (frame_size f))%nat →
    regs (base + 5 + Z.of_nat i) = byte_at (data f) i;
}.

(** A standard data frame. *)
Definition frame_ok (f : Mcp2515CanFrame) : Prop :=
  0 ≤ identifier f ≤ 0x7FF ∧ 0 ≤ frame_size f ≤ 8 ∧ length (data f) = 8%nat.

#[export] Instance frame_ok_dec f : Decision (frame_ok f).
Proof. unfold frame_ok. apply _. Defined.

(** The two identifier registers hold the eleven bits. *)
Lemma identifier_roundtrip id :
  0 ≤ id ≤ 0x7FF →
  let sidh := u8 (Z.shiftr id 3) in
  let sidl := u8 (Z.shiftl (Z.land id 0x07) 5) in
  u16 (Z.lor (u16 (Z.shiftl sidh 3)) (Z.shiftr sidl 5)) = id ∧ Z.land sidl 0x08 = 0.
Proof.
  intros Hid. assert (Hin : id ∈ seqZ 0 2048) by (apply elem_of_seqZ; lia). revert id Hid Hin.
  assert (H : Forall (λ id, u16 (Z.lor (u16 (Z.shiftl (u8 (Z.shiftr id 3)) 3))
      (Z.shiftr (u8 (Z.shiftl (Z.land id 0x07) 5)) 5)) = id ∧
    Z.land (u8 (Z.shiftl (Z.land id 0x07) 5)) 0x08 = 0) (seqZ 0 2048)) by by_evaluation.
  intros id _ Hin. rewrite list.Forall_forall in H. by apply H.
Qed.

Lemma dlc_roundtrip n :
  0 ≤ n ≤ 8 → Z.land n 0x40 = 0 ∧ u8 (Z.land n 0x0F) = n.
Proof.
  intros Hn. assert (Hin : n ∈ seqZ 0 9) by (apply elem_of_seqZ; lia). revert n Hn Hin.
  assert (H : Forall (λ n, Z.land n 0x40 = 0 ∧ u8 (Z.land n 0x0F) = n) (seqZ 0 9)) by by_evaluation.
  intros n _ Hin. rewrite list.Forall_forall in H. by apply H.
Qed.

Section frames.
Context {U : Type} `{!AvrSpi U, !Mcp2515Model U}.
Variable polls : nat.
Hypothesis polls_enough : (latency U < polls)%nat.

Lemma writeData_spec start n bs u (Q : unit → U → Prop) :
  selected u = None → (start + n ≤ 8)%nat →
  (∀ u', selected u' = None →
     (∀ i, (start ≤ i < start + n)%nat → registers u' (0x36 + Z.of_nat i) = byte_at bs i) →
     (∀ x, (∀ i, (start ≤ i < start + n)%nat → x ≠ 0x36 + Z.of_nat i) →
        registers u' x = registers u x) → Q tt u') →
  io_wp (Mcp2515Can.writeData polls (seq start n) bs) u Q.
Proof.
  revert start u. induction n as [|n IH]; intros start u Hidle Hn HQ; cbn [seq Mcp2515Can.writeData].
  { apply io_wp_ret. apply HQ; [done|lia|done]. }
  apply io_wp_bind, writeRegister_spec; [done..|]. intros u1 S1 R1.
  assert (E : u8 (Mcp2515Can.kRegisterTxb0d0 + Z.of_nat start) = 0x36 + Z.of_nat start).
  { unfold Mcp2515Can.kRegisterTxb0d0. apply u8_id. unfold is_u8. lia. }
  rewrite E in R1. apply IH; [done|lia|]. intros u2 S2 Hdata Hrest. apply HQ; [done| |].
  - intros i Hi. destruct (decide (i = start)) as [->|].
    + rewrite Hrest by (intros j Hj; lia). by rewrite R1, Z.eqb_refl.
    + apply Hdata. lia.
  - intros x Hx. rewrite Hrest by (intros j Hj; apply Hx; lia). rewrite R1.
    destruct (Z.eqb_spec x (0x36 + Z.of_nat start)) as [->|]; [|done].
    by destruct (Hx start); [lia|].
Qed.

Lemma transmit_accepts f u (Q : bool → U → Prop) :
  selected u = None → frame_ok f → Z.land (registers u 0x30) 0x08 = 0 →
  (∀ u', selected u' = None → frame_at 0x31 f (registers u') →
     registers u' 0x30 = Z.lor (registers u 0x30) 0x08 →
     (∀ x, ¬ 0x30 ≤ x ≤ 0x3D → registers u' x = registers u x) → Q true u') →
  io_wp (Mcp2515Can.transmit polls f) u Q.
Proof.
  intros Hidle (Hid & Hsize & Hlen) Hfree HQ. unfold Mcp2515Can.transmit.
  rewrite (proj2 (Z.ltb_ge 0x07FF _)), (proj2 (Z.ltb_ge 8 _)) by lia. cbn [orb].
  apply io_wp_bind, readRegister_spec; [done..|]. intros u0 S0 R0.
  change (Mcp2515Can.kRegisterTxb0ctrl) with 0x30.
  unfold Mcp2515Can.kTransmitRequest. rewrite Hfree. cbn [Z.eqb negb].
  apply io_wp_bind, writeRegister_spec; [done..|]. intros u1 S1 R1.
  apply io_wp_bind, writeRegister_spec; [done..|]. intros u2 S2 R2.
  apply io_wp_bind, writeRegister_spec; [done..|]. intros u3 S3 R3.
  apply io_wp_bind, writeRegister_spec; [done..|]. intros u4 S4 R4.
  apply io_wp_bind, writeRegister_spec; [done..|]. intros u5 S5 R5.
  apply io_wp_bind, writeData_spec; [done|lia|]. intros u6 S6 Hdata Hrest.
  apply io_wp_bind, assert_spec; [done..|]. rewrite S6. intros u7 S7 R7.
  apply io_wp_bind, (transfer_spec polls polls_enough _ []); [done|done|intros _; by_evaluation|].
  intros _ u8' S8 R8 _.
  apply io_wp_bind, deassert_spec; [done..|]. intros u9 S9 R9. apply io_wp_ret.
  assert (Hregs : ∀ x, registers u9 x = instruction [] 0x81 (registers u6) x).
  { intros x. rewrite R9, R8. cbn. by rewrite R7. }
  assert (Hhead : ∀ x, ¬ 0x36 ≤ x ≤ 0x3D → registers u6 x = registers u5 x)
    by (intros x Hx; apply Hrest; lia).
  apply HQ; [done| | |].
  - split.
    + rewrite Hregs. cbn. by rewrite Hhead, R5, R4, R3, R2, R1 by lia.
    + rewrite Hregs. cbn. by rewrite Hhead, R5, R4, R3, R2 by lia.
    + rewrite Hregs. cbn. by rewrite Hhead, R5 by lia.
    + intros i Hi. change (0x31 + 5) with 0x36. rewrite Hregs. cbn [instruction].
      rewrite (proj2 (Z.eqb_neq _ 0x30)), andb_false_r by lia. apply Hdata. lia.
  - rewrite Hregs. cbn. by rewrite Hhead, R5, R4, R3, R2, R1, R0 by lia.
  - intros x Hx. rewrite Hregs. cbn [instruction].
    rewrite (proj2 (Z.eqb_neq _ 0x30)), andb_false_r by lia.
    rewrite Hhead, R5, R4, R3, R2, R1, R0 by lia.
    rewrite !(proj2 (Z.eqb_neq x _)) by (vm_compute; lia || (intros ->; lia)). done.
Qed.

Lemma transmit_refuses f u :
  selected u = None →
  0x7FF < identifier f ∨ 8 < frame_size f ∨ Z.land (registers u 0x30) 0x08 ≠ 0 →
  io_wp (Mcp2515Can.transmit polls f) u
    (λ ok u', ok = false ∧ selected u' = None ∧ ∀ x, registers u' x = registers u x).
Proof.
  intros Hidle Hbad. unfold Mcp2515Can.transmit.
  destruct (Z.ltb_spec 0x7FF (identifier f)); [by apply io_wp_ret|].
  destruct (Z.ltb_spec 8 (frame_size f)); [by apply io_wp_ret|]. cbn [orb].
  apply io_wp_bind, readRegister_spec; [done..|]. intros u0 S0 R0.
  unfold Mcp2515Can.kTransmitRequest, Mcp2515Can.kRegisterTxb0ctrl.
  destruct (Z.eqb_spec (Z.land (registers u 0x30) 0x08) 0); [lia|]. by apply io_wp_ret.
Qed.

Lemma readData_spec start n base bs u (Q : bytes → U → Prop) :
  selected u = None → (start + n ≤ 8)%nat → length bs = 8%nat → 0 ≤ base ≤ 0xF0 →
  (∀ bs' u', selected u' = None → (∀ x, registers u' x = registers u x) → length bs' = 8%nat →
     (∀ i, (i < 8)%nat → bs' !! i = if decide (start ≤ i < start + n)%nat
        then Some (registers u (base + Z.of_nat i)) else bs !! i) → Q bs' u') →
  io_wp (Mcp2515Can.readData polls (seq start n) base bs) u Q.
Proof.
  revert start bs u. induction n as [|n IH]; intros start bs u Hidle Hn Hlen Hbase HQ;
    cbn [seq Mcp2515Can.readData].
  { apply io_wp_ret. apply HQ; [done..|]. intros i Hi. by rewrite decide_False by lia. }
  apply io_wp_bind, readRegister_spec; [done..|]. intros u1 S1 R1.
  assert (E : u8 (base + Z.of_nat start) = base + Z.of_nat start)
    by (apply u8_id; unfold is_u8; lia).
  rewrite E. apply IH; [done|lia|by rewrite length_insert|done|].
  intros bs' u2 S2 R2 Hlen' Hbs'. apply HQ; [done| |done|].
  - intros x. by rewrite R2, R1.
  - intros i Hi. rewrite Hbs' by done. destruct (decide (i = start)) as [->|].
    + rewrite decide_False, decide_True by lia. apply list_lookup_insert_eq. lia.
    + rewrite list_lookup_insert_ne by done. rewrite R1.
      destruct (decide (S start ≤ i < S start + n)%nat), (decide (start ≤ i < start + S n)%nat);
        done || lia.
Qed.

(** The receive buffer that holds the next frame: the flag it sets, and the first
    of its registers. *)
Definition next_buffer (flags : Z) : option (Z * Z) :=
  if negb (Z.land flags 1 =? 0) then Some (1, 0x61)
  else if negb (Z.land flags 2 =? 0) then Some (2, 0x71)
  else None.

Lemma receive_accepts caller f flag base u (Q : bool * Mcp2515CanFrame → U → Prop) :
  selected u = None → length (data caller) = 8%nat → frame_ok f →
  next_buffer (registers u 0x2C) = Some (flag, base) → frame_at base f (registers u) →
  (∀ g u', selected u' = None → identifier g = identifier f → frame_size g = frame_size f →
     take (Z.to_nat (frame_size f)) (data g) = take (Z.to_nat (frame_size f)) (data f) →
     (∀ x, registers u' x = if x =? 0x2C then Z.land (registers u 0x2C) (u8 (Z.lnot flag))
        else registers u x) → Q (true, g) u') →
  io_wp (Mcp2515Can.receive polls caller) u Q.
Proof.
  intros Hidle Hcaller (Hid & Hsize & Hlen) Hbuffer Hat HQ. unfold Mcp2515Can.receive.
  apply io_wp_bind, readRegister_spec; [done..|]. intros u0 S0 R0.
  assert (Hregs : Mcp2515Can.receiveBuffer (registers u 0x2C) = Some (flag, base, base + 4, base + 5) ∧
    u8 (base + 1) = base + 1 ∧ 0 ≤ base + 5 ≤ 0xF0).
  { revert Hbuffer. unfold next_buffer, Mcp2515Can.receiveBuffer, Mcp2515Can.kReceiveBuffer0Flag,
      Mcp2515Can.kReceiveBuffer1Flag.
    destruct (negb _); [by intros [= <- <-]|]. destruct (negb _); [by intros [= <- <-]|done]. }
  destruct Hregs as (Ebuf & Ebase & Hbase). unfold Mcp2515Can.kRegisterCanintf. rewrite Ebuf.
  destruct Hat as [Hsidh Hsidl Hdlc Hdata].
  apply io_wp_bind, readRegister_spec; [done..|]. intros u1 S1 R1.
  apply io_wp_bind, readRegister_spec; [done..|]. intros u2 S2 R2.
  destruct (identifier_roundtrip (identifier f) Hid) as [Eid Eext].
  destruct (dlc_roundtrip (frame_size f) Hsize) as [Ertr Edlc].
  rewrite R1, !R0, Ebase, Hsidh, Hsidl. unfold Mcp2515Can.kExtendedIdentifier. rewrite Eext.
  cbn [Z.eqb negb]. rewrite Eid.
  apply io_wp_bind, readRegister_spec; [done..|]. intros u3 S3 R3.
  assert (E2 : ∀ x, registers u2 x = registers u x) by (intros x; by rewrite R2, R1, R0).
  rewrite E2, Hdlc, Ertr. cbn [Z.eqb negb]. rewrite Edlc.
  rewrite (proj2 (Z.ltb_ge 8 _)) by lia. cbn [data].
  apply io_wp_bind, readData_spec; [done|lia|done|lia|]. intros bs' u4 S4 R4 Hlen' Hbs'.
  apply io_wp_bind, bitModify_spec; [done..|]. intros u5 S5 R5. apply io_wp_ret.
  assert (E4 : ∀ x, registers u4 x = registers u x) by (intros x; by rewrite R4, R3, E2).
  apply HQ; [done..| |].
  - cbn [data]. apply list_eq. intros i. destruct (decide (i < Z.to_nat (frame_size f))%nat) as [Hi|].
    2: { rewrite !lookup_ge_None_2 by (rewrite length_take; lia). done. }
    rewrite !lookup_take_lt, Hbs', decide_True by lia. rewrite R3, E2, Hdata by done.
    unfold byte_at. rewrite nth_lookup. destruct (lookup_lt_is_Some_2 (data f) i) as [b ->]; [lia|done].
  - intros x. rewrite R5, !E4. destruct (Z.eqb_spec x 0x2C) as [->|]; [|done].
    apply Z.lor_0_r.
Qed.
End frames.

(** ** Properties *)

(** A standard data frame over the bus.  With transmit buffer 0 free, [transmit]
    accepts the frame and requests its transmission; when the receiving controller
    holds in its next full buffer what is in the sender's transmit registers,
    [receive] returns the frame: identifier, size and data.  It frees that buffer,
    by clearing its flag, and changes no other register. *)
Theorem can_frame_roundtrip {U U'} `{!AvrSpi U, !Mcp2515Model U, !AvrSpi U', !Mcp2515Model U'}
    (polls polls' : nat) (f caller : Mcp2515CanFrame) (u : U) (u' : U') (flag base : Z) :
  (latency U < polls)%nat → (latency U' < polls')%nat → frame_ok f → length (data caller) = 8%nat →
  selected u = None → Z.land (registers u 0x30) 0x08 = 0 →
  selected u' = None → next_buffer (registers u' 0x2C) = Some (flag, base) →
  ∃ u1, Mcp2515Can.transmit polls f u = Some (true, u1) ∧ selected u1 = None ∧
    registers u1 0x30 = Z.lor (registers u 0x30) 0x08 ∧
    ((∀ i, 0 ≤ i ≤ 12 → registers u' (base + i) = registers u1 (0x31 + i)) →
     ∃ g u2, Mcp2515Can.receive polls' caller u' = Some ((true, g), u2) ∧ selected u2 = None ∧
       identifier g = identifier f ∧ frame_size g = frame_size f ∧
       take (Z.to_nat (frame_size f)) (data g) = take (Z.to_nat (frame_size f)) (data f) ∧
       (∀ x, registers u2 x =
          if x =? 0x2C then Z.land (registers u' 0x2C) (u8 (Z.lnot flag)) else registers u' x)).
Proof.
  intros Hpolls Hpolls' Hf Hcaller Hidle Hfree Hidle' Hbuffer.
  destruct (transmit_accepts polls Hpolls f u
    (λ ok u1, ok = true ∧ selected u1 = None ∧ frame_at 0x31 f (registers u1) ∧
       registers u1 0x30 = Z.lor (registers u 0x30) 0x08))
    as (ok & u1 & E & -> & Hidle1 & [H1 H2 H3 H4] & Hctrl); [done..|].
  exists u1. split_and!; [done..|]. intros Hbus. pose proof Hf as (_ & Hsize & _).
  destruct (receive_accepts polls' Hpolls' caller f flag base u'
    (λ r u2, ∃ g, r = (true, g) ∧ selected u2 = None ∧ identifier g = identifier f ∧
       frame_size g = frame_size f ∧
       take (Z.to_nat (frame_size f)) (data g) = take (Z.to_nat (frame_size f)) (data f) ∧
       (∀ x, registers u2 x =
          if x =? 0x2C then Z.land (registers u' 0x2C) (u8 (Z.lnot flag)) else registers u' x)))
    as (r & u2 & E' & g & -> & H); [done..| |eauto 10|by exists g, u2].
  split.
  - rewrite <- H1, <- (Z.add_0_r base). by apply (Hbus 0).
  - rewrite <- H2. by apply (Hbus 1).
  - rewrite <- H3. by apply (Hbus 4).
  - intros i Hi. rewrite <- H4 by done. rewrite <- !Z.add_assoc. apply Hbus. lia.
Qed.

(** A controller that ends a transfer with the second status read. *)
Module DemoController.
Record Controller := {
  shift : option bytes; file : Z → Z; result : Z; left : nat }.

#[export] Instance demo_spi : AvrSpi Controller := {
  spi_read r c :=
    match r with
    | SPSR => ((if left c is O then 128 else 0),
               {| shift := shift c; file := file c; result := result c; left := Nat.pred (left c) |})
    | SPDR => (result c, c)
    | _ => (0, c)
    end;
  spi_write r x c :=
    (tt,
     match r with
     | PORTB => {| shift := if Z.testbit x 2 then None else Some (default [] (shift c));
                   file := file c; result := result c; left := left c |}
     | SPDR =>
         match shift c with
         | Some sent => {| shift := Some (sent ++ [x]); file := instruction sent x (file c);
                           result := (if sent is [0x03; a] then file c a else 0); left := 1 |}
         | None => c
         end
     | _ => c
     end);
  spi_BV := Z.shiftl 1;
  DDB2 := 2; DDB3 := 3; DDB4 := 4; DDB5 := 5; PORTB2 := 2; SPE := 6; MSTR := 4; SPIF := 7;
}.

#[export, refine] Instance demo_controller : Mcp2515Model Controller :=
  { selected := shift; registers := file; answer := result; busy := left; latency := 1 }.
Proof.
  - done.
  - done.
  - done.
  - intros value c. simpl. by destruct (Z.testbit value 2).
  - intros byte c sent E _ _. simpl. rewrite E. simpl. split_and!; [done..| |lia].
    by intros a ->.
  - intros [s f r [|n]]; simpl; split_and!; done || lia.
  - done.
Defined.

(** An idle controller with the given registers. *)
Definition idle (f : Z → Z) : Controller :=
  {| shift := None; file := f; result := 0; left := 0 |}.
End DemoController.
Import DemoController.

Definition demo_frame : Mcp2515CanFrame :=
  {| identifier := 0x5A3; frame_size := 3; data := [1; 2; 255; 0; 0; 0; 0; 0] |}.
Definition blank_frame : Mcp2515CanFrame :=
  {| identifier := 0; frame_size := 0; data := replicate 8 0 |}.

(** The registers of the receiving controller: buffer 0 full with the frame. *)
Definition demo_received (x : Z) : Z :=
  if x =? 0x2C then 1
  else if x =? 0x61 then 0xB4
  else if x =? 0x62 then 0x60
  else if x =? 0x65 then 3
  else if x =? 0x66 then 1
  else if x =? 0x67 then 2
  else if x =? 0x68 then 255
  else 0.

Lemma can_frame_roundtrip_witness :
  ∃ u1, Mcp2515Can.transmit 2 demo_frame (idle (λ _, 0)) = Some (true, u1) ∧
    ∃ g u2, Mcp2515Can.receive 2 blank_frame (idle demo_received) = Some ((true, g), u2) ∧
      identifier g = 0x5A3 ∧ frame_size g = 3 ∧ take 3 (data g) = [1; 2; 255].
Proof.
  destruct (can_frame_roundtrip (U := Controller) (U' := Controller) 2 2 demo_frame blank_frame
    (idle (λ _, 0)) (idle demo_received) 1 0x61) as (u1 & E & _ & _ & H);
    [by_evaluation|by_evaluation|by_evaluation|reflexivity..|].
  exists u1. split; [exact E|].
  assert (Hfile : (λ r, (λ i, registers r.2 (0x31 + i)) <$> seqZ 0 13) <$>
      Mcp2515Can.transmit 2 demo_frame (idle (λ _, 0)) =
    Some ((λ i, demo_received (0x61 + i)) <$> seqZ 0 13)) by (vm_compute; reflexivity).
  rewrite E in Hfile. apply (inj Some) in Hfile. cbn [snd] in Hfile.
  destruct H as (g & u2 & E' & _ & Hid & Hsize & Hdata & _).
  { intros i Hi. apply (f_equal (λ l, l !! Z.to_nat i)) in Hfile.
    rewrite !list_lookup_fmap, !lookup_seqZ_lt in Hfile by lia. apply (inj Some) in Hfile.
    rewrite Z.add_0_l, Z2Nat.id in Hfile by lia. symmetry. exact Hfile. }
  exists g, u2. by split_and!.
Defined.
