(* ===== verification/CommandLine.v ===== *)
(** * The simulator's command line
      ([sim/ecu_process_config.h], [sim/command_line.h], [command_line.cpp])

    A C string is a [string] without NUL characters, a null pointer [None].  The
    argument array is given with its count; [std::from_chars] for [uint64_t] is
    modelled as the standard states it: the longest prefix of digits, nothing
    stored on failure. *)

From S2P Require Import Prelude.
From Stdlib Require Import Ascii.
From stdpp Require Import strings pretty.
Local Open Scope Z_scope.

(** ** Definitions *)

Record EcuProcessConfig := { ecu_name : string; loop_period : Z }.

(** The default period is one millisecond. *)
Definition default_config : EcuProcessConfig := {| ecu_name := ""; loop_period := 1000 |}.

Definition isValid (c : EcuProcessConfig) : bool :=
  negb (bool_decide (ecu_name c = "")) && (0 <? loop_period c).

Module CommandLineStatus.
Inductive t := kOk | kHelpRequested | kError.
End CommandLineStatus.

#[export] Instance CommandLineStatus_eq_dec : EqDecision CommandLineStatus.t.
Proof. solve_decision. Defined.

Record CommandLineResult := {
  status : CommandLineStatus.t;
  config : EcuProcessConfig;
  diagnostic : string;
}.

Definition set_status (s : CommandLineStatus.t) (r : CommandLineResult) : CommandLineResult :=
  {| status := s; config := config r; diagnostic := diagnostic r |}.
Definition set_ecu_name (name : string) (r : CommandLineResult) : CommandLineResult :=
  {| status := status r; diagnostic := diagnostic r;
     config := {| ecu_name := name; loop_period := loop_period (config r) |} |}.
Definition set_loop_period (period : Z) (r : CommandLineResult) : CommandLineResult :=
  {| status := status r; diagnostic := diagnostic r;
     config := {| ecu_name := ecu_name (config r); loop_period := period |} |}.

(** [CommandLineResult result{}]. *)
Definition default_result : CommandLineResult :=
  {| status := CommandLineStatus.kError; config := default_config; diagnostic := "" |}.

Definition errorResult (diagnostic : string) : CommandLineResult :=
  {| status := CommandLineStatus.kError; config := default_config; diagnostic := diagnostic |}.

(** *** [std::from_chars] *)

Definition digit (c : ascii) : option Z :=
  let n := Z.of_nat (nat_of_ascii c) in
  if (48 <=? n) && (n <=? 57) then Some (n - 48) else None.

(** The digits at the front of the text, and the rest. *)
Fixpoint leading_digits (text : string) : list Z * string :=
  match text with
  | EmptyString => ([], EmptyString)
  | String c text' =>
      match digit c with
      | Some d => let '(ds, rest) := leading_digits text' in (d :: ds, rest)
      | None => ([], text)
      end
  end.

Definition positional (ds : list Z) : Z := fold_left (λ v d, v * 10 + d) ds 0.

Definition uint64_max : Z := 18446744073709551615.
Definition int64_max : Z := 9223372036854775807.

Module Errc.
Inductive t := none | invalid_argument | result_out_of_range.
End Errc.

#[export] Instance Errc_eq_dec : EqDecision Errc.t.
Proof. solve_decision. Defined.

(** The text from [ptr] on, the error code, and the value afterwards. *)
Definition from_chars (text : string) (value : Z) : string * Errc.t * Z :=
  let '(ds, rest) := leading_digits text in
  if bool_decide (ds = []) then (text, Errc.invalid_argument, value)
  else if uint64_max <? positional ds then (rest, Errc.result_out_of_range, value)
  else (rest, Errc.none, positional ds).

(** *** The parser *)

(** Returns whether the text is a period, and the period it stores. *)
Definition parseLoopPeriod (text : string) (loop_period : Z) : bool * Z :=
  let '(ptr, ec, value) := from_chars text 0 in
  if negb (bool_decide (ec = Errc.none)) || negb (bool_decide (ptr = "")) || (value =? 0)
     || (int64_max <? value)
  then (false, loop_period)
  else (true, value).

(** The loop of [parseCommandLine] over the arguments from [index] on, and what
    follows it. *)
Fixpoint parseArguments (arguments : list (option string))
    (name_supplied loop_period_supplied : bool) (result : CommandLineResult)
    : CommandLineResult :=
  match arguments with
  | [] =>
      if negb name_supplied then errorResult "missing required option: --name <ecu-name>"
      else result
  | None :: _ => errorResult "encountered a null command-line argument"
  | Some argument :: arguments =>
      if bool_decide (argument = "--help") || bool_decide (argument = "-h")
      then set_status CommandLineStatus.kHelpRequested result
      else if bool_decide (argument = "--name") then
        if name_supplied then errorResult "--name may be supplied only once"
        else
          match arguments with
          | [] => errorResult "--name requires a non-empty value"
          | name :: arguments =>
              match name with
              | None | Some EmptyString => errorResult "--name requires a non-empty value"
              | Some name =>
                  parseArguments arguments true loop_period_supplied (set_ecu_name name result)
              end
          end
      else if bool_decide (argument = "--loop-period-us") then
        if loop_period_supplied then errorResult "--loop-period-us may be supplied only once"
        else
          match arguments with
          | [] => errorResult "--loop-period-us requires a positive integer"
          | None :: _ => errorResult "--loop-period-us must be a positive integer in range"
          | Some period_text :: arguments =>
              let '(ok, period) := parseLoopPeriod period_text (loop_period (config result)) in
              if negb ok then errorResult "--loop-period-us must be a positive integer in range"
              else parseArguments arguments name_supplied true (set_loop_period period result)
          end
      else errorResult ("unknown option: " +:+ argument)
  end.

Definition parseCommandLine (argc : Z) (argv : option (list (option string)))
    : CommandLineResult :=
  match argv with
  | None => errorResult "invalid process argument array"
  | Some argv =>
      if argc <? 1 then errorResult "invalid process argument array"
      else
        parseArguments (drop 1 (take (Z.to_nat argc) argv)) false false
          (set_status CommandLineStatus.kOk default_result)
  end.

Definition newline : string := String (ascii_of_nat 10) EmptyString.

Definition commandLineUsage (executable_name : option string) : string :=
  let safe_name :=
    match executable_name with
    | None | Some EmptyString => "ws_sim_counter_ecu"
    | Some name => name
    end in
  "Usage: " +:+ safe_name +:+ " --name <ecu-name> [--loop-period-us <positive-integer>]"
    +:+ newline +:+ "       " +:+ safe_name +:+ " --help" +:+ newline.

(** ** Specification: the options and the configuration they stand for *)

(** The decimal numeral of a digit string. *)
Fixpoint numeral (ds : list Z) : string :=
  match ds with
  | [] => EmptyString
  | d :: ds => String (ascii_of_nat (Z.to_nat (48 + d))) (numeral ds)
  end.

Inductive Given :=
  | Name (name : string)
  | Period (digits : list Z).

Definition render (o : Given) : list (option string) :=
  match o with
  | Name name => [Some "--name"; Some name]
  | Period ds => [Some "--loop-period-us"; Some (numeral ds)]
  end.

Definition period_ok (ds : list Z) : Prop :=
  Forall (λ d, 0 ≤ d < 10) ds ∧ 0 < positional ds ≤ int64_max.

(** Each option at most once, beyond those already supplied, and well-formed. *)
Fixpoint options_ok (named timed : bool) (os : list Given) : Prop :=
  match os with
  | [] => True
  | Name name :: os => named = false ∧ name ≠ "" ∧ options_ok true timed os
  | Period ds :: os => timed = false ∧ period_ok ds ∧ options_ok named true os
  end.

Definition is_name (o : Given) : bool := if o is Name _ then true else false.

Definition apply_option (c : EcuProcessConfig) (o : Given) : EcuProcessConfig :=
  match o with
  | Name name => {| ecu_name := name; loop_period := loop_period c |}
  | Period ds => {| ecu_name := ecu_name c; loop_period := positional ds |}
  end.

Definition configured (os : list Given) : EcuProcessConfig :=
  fold_left apply_option os default_config.

Definition help_option (s : string) : Prop := s = "--help" ∨ s = "-h".

(** ** Numerals *)

Lemma digit_char d : 0 ≤ d < 10 → digit (ascii_of_nat (Z.to_nat (48 + d))) = Some d.
Proof.
  intros Hd. assert (d ∈ seqZ 0 10) as Hin by (apply elem_of_seqZ; lia). clear Hd.
  revert d Hin. apply list.Forall_forall. by_evaluation.
Qed.

Lemma digit_some c d : digit c = Some d → 0 ≤ d < 10 ∧ c = ascii_of_nat (Z.to_nat (48 + d)).
Proof.
  unfold digit. destruct (Z.leb_spec 48 (Z.of_nat (nat_of_ascii c))),
    (Z.leb_spec (Z.of_nat (nat_of_ascii c)) 57); [|done..].
  intros [= <-]. split; [lia|].
  replace (Z.to_nat (48 + (Z.of_nat (nat_of_ascii c) - 48))) with (nat_of_ascii c) by lia.
  by rewrite ascii_nat_embedding.
Qed.

Lemma leading_digits_numeral ds :
  Forall (λ d, 0 ≤ d < 10) ds → leading_digits (numeral ds) = (ds, "").
Proof.
  induction 1 as [|d ds Hd _ IH]; [done|]. cbn [numeral leading_digits].
  by rewrite digit_char, IH.
Qed.

Lemma leading_digits_all text ds :
  leading_digits text = (ds, "") → text = numeral ds ∧ Forall (λ d, 0 ≤ d < 10) ds.
Proof.
  revert ds. induction text as [|c text IH]; intros ds; simpl; [by intros [= <-]|].
  destruct (digit c) as [d|] eqn:Hc; [|done].
  destruct (leading_digits text) as [ds' rest]. intros [= <- ->].
  apply digit_some in Hc as [Hd ->]. destruct (IH ds' eq_refl) as [-> Hds].
  split; [done|by apply list.Forall_cons].
Qed.

Lemma parseLoopPeriod_numeral ds period :
  period_ok ds → parseLoopPeriod (numeral ds) period = (true, positional ds).
Proof.
  intros [Hds Hrange]. unfold parseLoopPeriod, from_chars. rewrite leading_digits_numeral by done.
  rewrite bool_decide_eq_false_2 by (intros ->; unfold positional in Hrange; simpl in Hrange; lia).
  destruct (Z.ltb_spec uint64_max (positional ds)).
  { unfold uint64_max, int64_max in *. lia. }
  simpl. destruct (Z.eqb_spec (positional ds) 0), (Z.ltb_spec int64_max (positional ds)); simpl;
    lia || done.
Qed.

Lemma parseLoopPeriod_true text period v :
  parseLoopPeriod text period = (true, v) →
  ∃ ds, text = numeral ds ∧ period_ok ds ∧ v = positional ds.
Proof.
  unfold parseLoopPeriod, from_chars. destruct (leading_digits text) as [ds rest] eqn:E.
  case_bool_decide as Hds; [done|]. destruct (uint64_max <? positional ds); [done|].
  simpl. case_bool_decide as Hrest; [|done]. subst rest. simpl.
  destruct (Z.eqb_spec (positional ds) 0), (Z.ltb_spec int64_max (positional ds)); [done..|].
  intros [= <-]. apply leading_digits_all in E as [-> Hdigits]. exists ds.
  split_and!; [done| |done]. split; [done|].
  assert (Hnonneg : ∀ v, 0 ≤ v → 0 ≤ fold_left (λ v d, v * 10 + d) ds v).
  { clear -Hdigits. induction Hdigits as [|d ds Hd _ IH]; intros v Hv; simpl; [done|]. apply IH. lia. }
  specialize (Hnonneg 0). unfold positional in *. lia.
Qed.

(** ** The loop *)

Lemma parse_options os rest named timed r :
  options_ok named timed os →
  parseArguments (flat_map render os ++ rest) named timed r =
    parseArguments rest (named || existsb is_name os)
      (timed || existsb (negb ∘ is_name) os)
      {| status := status r; config := fold_left apply_option os (config r);
         diagnostic := diagnostic r |}.
Proof.
  revert named timed r. induction os as [|[name|ds] os IH]; intros named timed r Hos.
  - cbn. rewrite !orb_false_r. by destruct r.
  - destruct Hos as (-> & Hname & Hos). cbn [flat_map render app parseArguments].
    destruct name as [|c name]; [done|].
    change (parseArguments (flat_map render os ++ rest) true timed
      (set_ecu_name (String c name) r) = parseArguments rest
        (false || existsb is_name (Name (String c name) :: os))
        (timed || existsb (negb ∘ is_name) (Name (String c name) :: os))
        {| status := status r;
           config := fold_left apply_option (Name (String c name) :: os) (config r);
           diagnostic := diagnostic r |}).
    by rewrite IH.
  - destruct Hos as (-> & Hperiod & Hos). cbn [flat_map render app parseArguments].
    rewrite parseLoopPeriod_numeral by done. cbn [negb].
    change (parseArguments (flat_map render os ++ rest) named true
      (set_loop_period (positional ds) r) = parseArguments rest
        (named || existsb is_name (Period ds :: os))
        (false || existsb (negb ∘ is_name) (Period ds :: os))
        {| status := status r; config := fold_left apply_option (Period ds :: os) (config r);
           diagnostic := diagnostic r |}).
    by rewrite IH.
Qed.

(** What a result of the loop, started with [r], says of the arguments. *)
Definition explained (arguments : list (option string)) (named timed : bool)
    (r result : CommandLineResult) : Prop :=
  match status result with
  | CommandLineStatus.kOk =>
      ∃ os, arguments = flat_map render os ∧ options_ok named timed os ∧
        named || existsb is_name os = true
  | CommandLineStatus.kHelpRequested =>
      ∃ os help rest, arguments = flat_map render os ++ Some help :: rest ∧
        options_ok named timed os ∧ help_option help
  | CommandLineStatus.kError => config result = default_config ∧ diagnostic result ≠ ""
  end.

Lemma explained_error arguments named timed r text :
  text ≠ "" → explained arguments named timed r (errorResult text).
Proof. done. Qed.

Lemma explained_option o arguments named timed r r' result :
  options_ok named timed [o] →
  explained arguments (named || is_name o) (timed || negb (is_name o)) r' result →
  explained (render o ++ arguments) named timed r result.
Proof.
  intros Ho. unfold explained. destruct (status result); [| |done].
  - intros (os & -> & Hos & Hnamed). exists (o :: os). split_and!; [done| |].
    + destruct o; simpl in *; destruct Ho as (-> & ? & _); rewrite ?orb_false_r in Hos; done.
    + simpl. by rewrite orb_assoc.
  - intros (os & help & rest & -> & Hos & Hhelp). exists (o :: os), help, rest. split_and!; [|  |done].
    + simpl. by rewrite <- app_assoc.
    + destruct o; simpl in *; destruct Ho as (-> & ? & _); rewrite ?orb_false_r in Hos; done.
Qed.

Lemma parse_explained arguments named timed r :
  status r = CommandLineStatus.kOk →
  explained arguments named timed r (parseArguments arguments named timed r).
Proof.
  remember (length arguments) as n eqn:Hn.
  revert arguments named timed r Hn. induction n as [n IH] using lt_wf_ind.
  intros [|[argument|] arguments] named timed r -> Hr; cbn [parseArguments].
  - destruct named; cbn [negb]; [|by apply explained_error].
    unfold explained. rewrite Hr. by exists [].
  - destruct (bool_decide (argument = "--help") || bool_decide (argument = "-h")) eqn:Hhelp.
    { exists [], argument, arguments. split_and!; [done..|].
      by rewrite orb_true_iff, !bool_decide_eq_true in Hhelp. }
    clear Hhelp. case_bool_decide as Hname; [subst argument|].
    { destruct named; [by apply explained_error|].
      destruct arguments as [|[[|c name]|] arguments]; try by apply explained_error.
      apply (explained_option (Name (String c name)) arguments false timed r
        (set_ecu_name (String c name) r)); [done|].
      simpl. rewrite orb_false_r. by eapply IH; [|reflexivity|]; [simpl; lia|]. }
    case_bool_decide as Hperiod; [subst argument|by apply explained_error].
    destruct timed; [by apply explained_error|].
    destruct arguments as [|[text|] arguments]; try by apply explained_error.
    destruct (parseLoopPeriod text (loop_period (config r))) as [[] period] eqn:E;
      [|by apply explained_error].
    apply parseLoopPeriod_true in E as (ds & -> & Hds & ->). cbn [negb].
    apply (explained_option (Period ds) arguments named false r
      (set_loop_period (positional ds) r)); [done|].
    simpl. rewrite orb_false_r. by eapply IH; [|reflexivity|]; [simpl; lia|].
  - by apply explained_error.
Qed.

(** The configuration of well-formed options is one [EcuProcess] accepts. *)
Lemma configured_valid os named timed c :
  options_ok named timed os → named || existsb is_name os = true →
  (named = true → ecu_name c ≠ "") → 0 < loop_period c →
  isValid (fold_left apply_option os c) = true.
Proof.
  revert named timed c. induction os as [|[name|ds] os IH]; intros named timed c Hos Hname Hc Hp.
  - simpl in *. rewrite orb_false_r in Hname. unfold isValid.
    rewrite bool_decide_eq_false_2 by auto. by apply Z.ltb_lt.
  - destruct Hos as (-> & Hne & Hos). by apply (IH true timed).
  - destruct Hos as (-> & [_ Hrange] & Hos). apply (IH named true); [done|done|done|simpl; lia].
Qed.

Lemma pretty_digit x : (x < 10)%N → pretty_N_char x = ascii_of_nat (Z.to_nat (48 + Z.of_N x)).
Proof.
  intros Hx. assert (Z.of_N x ∈ seqZ 0 10) as Hin by (apply elem_of_seqZ; lia).
  assert (H : Forall (λ z, pretty_N_char (Z.to_N z) = ascii_of_nat (Z.to_nat (48 + z))) (seqZ 0 10))
    by by_evaluation.
  rewrite list.Forall_forall in H. specialize (H _ Hin). by rewrite N2Z.id in H.
Qed.

Lemma pretty_go_numeral x ds :
  ∃ front, pretty_N_go x (numeral ds) = numeral (front ++ ds) ∧
    Forall (λ d, 0 ≤ d < 10) front ∧ positional front = Z.of_N x.
Proof.
  revert ds. induction (N.lt_wf_0 x) as [x _ IH]; intros ds.
  destruct (decide (0 < x)%N) as [Hx|].
  2: { assert (x = 0%N) as -> by lia. exists []. by rewrite pretty_N_go_0. }
  rewrite pretty_N_go_step, pretty_digit by (done || by apply N.mod_lt).
  pose proof (N.mod_lt x 10 ltac:(done)) as Hmod.
  destruct (IH (x `div` 10)%N ltac:(by apply N.div_lt) (Z.of_N (x `mod` 10) :: ds))
    as (front & E & Hfront & Hval).
  exists (front ++ [Z.of_N (x `mod` 10)]). rewrite <- app_assoc. split_and!.
  - exact E.
  - apply Forall_app_2; [done|]. apply list.Forall_cons_2; [split; [apply N2Z.is_nonneg|lia]|by apply
      Forall_nil].
  - unfold positional in *. rewrite fold_left_app, Hval. simpl.
    pose proof (N.div_mod x 10 ltac:(done)). lia.
Qed.

Lemma pretty_period p :
  0 < p ≤ int64_max →
  ∃ ds, pretty (Z.to_N p) = numeral ds ∧ period_ok ds ∧ positional ds = p.
Proof.
  intros Hp. destruct (pretty_go_numeral (Z.to_N p) []) as (ds & E & Hds & Hval).
  rewrite app_nil_r in E. rewrite Z2N.id in Hval by lia. exists ds. split_and!.
  - unfold pretty, pretty_N. rewrite decide_False by lia. exact E.
  - split; [done|lia].
  - done.
Qed.

Lemma parse_started (program : option string) arguments :
  parseCommandLine (zlen (program :: arguments)) (Some (program :: arguments)) =
    parseArguments arguments false false (set_status CommandLineStatus.kOk default_result).
Proof.
  unfold parseCommandLine, zlen. cbn [length]. destruct (Z.ltb_spec (Z.of_nat (S (length arguments))) 1);
    [lia|]. rewrite Nat2Z.id. cbn [take drop]. by rewrite take_ge.
Qed.

(** What options that are well formed and name the ECU are parsed to. *)
Lemma parse_ok arguments os :
  arguments = flat_map render os → options_ok false false os → existsb is_name os = true →
  parseArguments arguments false false (set_status CommandLineStatus.kOk default_result) =
    {| status := CommandLineStatus.kOk; config := configured os; diagnostic := "" |}.
Proof.
  intros -> Hos Hname. rewrite <- (app_nil_r (flat_map _ _)), parse_options by done.
  cbn [parseArguments]. by rewrite Hname.
Qed.

Lemma accepted_valid (program : option string) arguments :
  let result := parseCommandLine (zlen (program :: arguments)) (Some (program :: arguments)) in
  status result = CommandLineStatus.kOk → isValid (config result) = true.
Proof.
  cbv zeta. rewrite parse_started. intros E.
  pose proof (parse_explained arguments false false (set_status CommandLineStatus.kOk default_result)
    eq_refl) as H.
  unfold explained in H. rewrite E in H. destruct H as (os & -> & Hos & Hname).
  rewrite (parse_ok _ os) by done. by apply (configured_valid os false false).
Qed.

(** ** Properties *)

(** C26: every command line has exactly one of three outcomes.  It is accepted
    exactly when it is a sequence of the two options, each at most once with a
    non-empty name and a decimal period from 1 to the largest 64-bit signed
    integer, and the name is among them; the configuration is then what the
    options say, with a millisecond as the default period, one the process
    accepts.  Help is requested exactly when a help option follows such a
    sequence, complete or not.  Anything else is an error with a diagnostic. *)
Theorem command_line_outcome (program : option string) (arguments : list (option string)) :
  let result := parseCommandLine (zlen (program :: arguments)) (Some (program :: arguments)) in
  (status result = CommandLineStatus.kOk ↔
     ∃ os, arguments = flat_map render os ∧ options_ok false false os ∧
       existsb is_name os = true) ∧
  (status result = CommandLineStatus.kHelpRequested ↔
     ∃ os help rest, arguments = flat_map render os ++ Some help :: rest ∧
       options_ok false false os ∧ help_option help) ∧
  (∀ os, arguments = flat_map render os → options_ok false false os → existsb is_name os = true →
     config result = configured os ∧ isValid (configured os) = true ∧ diagnostic result = "") ∧
  (status result = CommandLineStatus.kError →
     config result = default_config ∧ diagnostic result ≠ "").
Proof.
  cbv zeta. rewrite parse_started. pose proof (parse_ok arguments) as Hok.
  set (start := set_status _ _) in *.
  pose proof (parse_explained arguments false false start eq_refl) as Hexp. unfold explained in Hexp.
  assert (Hhelp : ∀ os help rest, arguments = flat_map render os ++ Some help :: rest →
    options_ok false false os → help_option help →
    status (parseArguments arguments false false start) = CommandLineStatus.kHelpRequested).
  { intros os help rest -> Hos Hh. rewrite parse_options by done. by destruct Hh as [-> | ->]. }
  split_and!.
  - split; [|by intros (os & ? & ? & ?); rewrite (Hok os)]. intros E. by rewrite E in Hexp.
  - split; [|by intros (os & help & rest & ? & ? & ?); apply (Hhelp os help rest)].
    intros E. by rewrite E in Hexp.
  - intros os Hargs Hos Hname. rewrite (Hok os) by done. split_and!; [done| |done].
    by apply (configured_valid os false false).
  - intros E. by rewrite E in Hexp.
Qed.

(** Every configuration the process accepts, with any non-empty name and a
    period up to the largest 64-bit signed integer, is obtained back from the
    command line that spells it out, in either order of the options. *)
Theorem command_line_roundtrip (program : option string) (c : EcuProcessConfig) :
  isValid c = true → loop_period c ≤ int64_max →
  let name := [Some "--name"; Some (ecu_name c)] in
  let period := [Some "--loop-period-us"; Some (pretty (Z.to_N (loop_period c)))] in
  let accepted := {| status := CommandLineStatus.kOk; config := c; diagnostic := "" |} in
  parseCommandLine 5 (Some (program :: name ++ period)) = accepted ∧
  parseCommandLine 5 (Some (program :: period ++ name)) = accepted.
Proof.
  unfold isValid. rewrite andb_true_iff, negb_true_iff, bool_decide_eq_false, Z.ltb_lt.
  intros [Hname Hpos] Hmax. destruct (pretty_period (loop_period c)) as (ds & -> & Hds & Hval); [lia|].
  cbv zeta. change 5 with (zlen [program; None; None; None; None]) at 1 2.
  change (zlen _) with (zlen (program :: [Some "--name"; Some (ecu_name c);
    Some "--loop-period-us"; Some (numeral ds)])) at 1.
  change (zlen [program; None; None; None; None]) with (zlen (program ::
    [Some "--loop-period-us"; Some (numeral ds); Some "--name"; Some (ecu_name c)])).
  rewrite !parse_started. destruct c as [name period]. simpl in *. subst period. split.
  - pose proof (parse_options [Name name; Period ds] [] false false
      (set_status CommandLineStatus.kOk default_result)) as H. rewrite app_nil_r in H.
    apply H. by split_and!.
  - pose proof (parse_options [Period ds; Name name] [] false false
      (set_status CommandLineStatus.kOk default_result)) as H. rewrite app_nil_r in H.
    apply H. by split_and!.
Qed.

Lemma command_line_roundtrip_witness :
  let c := {| ecu_name := "--help"; loop_period := 2500 |} in
  let name := [Some "--name"; Some (ecu_name c)] in
  let period := [Some "--loop-period-us"; Some (pretty (Z.to_N (loop_period c)))] in
  let accepted := {| status := CommandLineStatus.kOk; config := c; diagnostic := "" |} in
  parseCommandLine 5 (Some (Some "ecu" :: name ++ period)) = accepted ∧
  parseCommandLine 5 (Some (Some "ecu" :: period ++ name)) = accepted.
Proof.
  apply (command_line_roundtrip (Some "ecu") {| ecu_name := "--help"; loop_period := 2500 |});
    by_evaluation.
Defined.

(** The inputs of the repository's tests. *)
Example rejected_command_lines :
  Forall (λ arguments, status (parseCommandLine (zlen arguments) (Some arguments)) =
      CommandLineStatus.kError)
    [[Some "ecu"];
     [Some "ecu"; Some "--name"; Some "sensor"; Some "--loop-period-us"; Some "0"];
     [Some "ecu"; Some "--name"; Some "sensor"; Some "--loop-period-us"; Some "10ms"];
     [Some "ecu"; Some "--name"; Some "sensor"; Some "--loop-period-us";
      Some "184467440737095516160"];
     [Some "ecu"; Some "--name"; Some "sensor"; Some "--name"; Some "other"];
     [Some "ecu"; Some "--name"; Some "sensor"; Some "--can"]].
Proof. by_evaluation. Qed.
