(* ===== verification/EcuProcess.v ===== *)
(** * The simulated ECU process ([sim/ecu_process.h], [ecu_process.cpp])

    [EcuProcess::run] over the five objects injected into it, type classes over the
    environment [W].  A time point is a 64-bit count of the clock's ticks, of which
    there are [ticks] in a microsecond; an addition that leaves the 64 bits is
    undefined behaviour, the outcome [Undefined]. *)

From S2P Require Import Prelude CommandLine.
From stdpp Require Import strings.
Local Open Scope Z_scope.

(** ** The injected objects *)

Class NetworkRuntime (W : Type) := { network_init : State W bool; network_poll : State W bool }.
Class EcuApplication (W : Type) := { application_init : State W unit; periodic : State W unit }.
Class MonotonicClock (W : Type) := { now : State W Z; sleepUntil : Z → State W unit }.
Class ShutdownSource (W : Type) := isShutdownRequested : State W bool.
Class EcuLogger (W : Type) := { info : string → State W unit; error : string → State W unit }.

(** ** The process *)

Module EcuProcessExitCode.
Inductive t :=
  | kSuccess | kInvalidConfiguration | kNetworkInitializationFailed | kNetworkPollFailed.
Definition value (c : t) : Z :=
  match c with
  | kSuccess => 0 | kInvalidConfiguration => 2 | kNetworkInitializationFailed => 3
  | kNetworkPollFailed => 4
  end.
End EcuProcessExitCode.

Inductive Outcome := Exit (code : Z) | Undefined.

#[export] Instance Outcome_eq_dec : EqDecision Outcome.
Proof. solve_decision. Defined.

Definition in_int64 (x : Z) : bool := (- int64_max - 1 <=? x) && (x <=? int64_max).

Section process.
Context {W : Type} `{!NetworkRuntime W, !EcuApplication W, !MonotonicClock W,
  !ShutdownSource W, !EcuLogger W}.
(** Ticks of the clock in a microsecond. *)
Variable ticks : Z.
Variable config_ : EcuProcessConfig.

(** [time_point + config_.loop_period]: the period converted to ticks, and added. *)
Definition later (time_point : Z) : option Z :=
  let duration := loop_period config_ * ticks in
  if in_int64 duration && in_int64 (time_point + duration) then Some (time_point + duration)
  else None.

Definition exit (exit_code : EcuProcessExitCode.t) : Io W Outcome :=
  mret (Exit (EcuProcessExitCode.value exit_code)).

(** What follows the loop. *)
Definition finish : Io W Outcome :=
  liftIo (info "shutdown complete");;
  exit EcuProcessExitCode.kSuccess.

(** The loop, at most [fuel] tests of its condition. *)
Fixpoint superloop (fuel : nat) (next_deadline : Z) : Io W Outcome :=
  match fuel with
  | O => out_of_fuel
  | Datatypes.S fuel =>
      requested ← liftIo isShutdownRequested;
      if (requested : bool) then finish
      else
      polled ← liftIo network_poll;
      if negb polled then
        liftIo (error "network poll failed");;
        exit EcuProcessExitCode.kNetworkPollFailed
      else
      liftIo periodic;;
      requested ← liftIo isShutdownRequested;
      if (requested : bool) then finish
      else
      match later next_deadline with
      | None => mret Undefined
      | Some next_deadline =>
          current_time ← liftIo now;
          match (if next_deadline <=? current_time then later current_time
                 else Some next_deadline) with
          | None => mret Undefined
          | Some next_deadline =>
              liftIo (sleepUntil next_deadline);;
              superloop fuel next_deadline
          end
      end
  end.

Definition run (fuel : nat) : Io W Outcome :=
  if negb (isValid config_) then
    liftIo (error "invalid ECU process configuration");;
    exit EcuProcessExitCode.kInvalidConfiguration
  else
  liftIo (info "initializing network");;
  initialized ← liftIo network_init;
  if negb initialized then
    liftIo (error "network initialization failed");;
    exit EcuProcessExitCode.kNetworkInitializationFailed
  else
  liftIo application_init;;
  liftIo (info "ECU process started");;
  next_deadline ← liftIo now;
  superloop fuel next_deadline.
End process.

(** ** What is observed: the calls on the injected objects, with their answers *)

Inductive Event :=
  | EInit (ok : bool)
  | EPoll (ok : bool)
  | EApplicationInit
  | EPeriodic
  | ENow (t : Z)
  | ESleep (deadline : Z)
  | EShutdown (requested : bool)
  | EInfo (message : string)
  | EError (message : string).

Definition Logged (W : Type) : Type := W * list Event.

Definition logged {W A} (m : State W A) (event : A → Event) : State (Logged W) A :=
  λ '(w, log), let '(a, w') := m w in (a, (w', log ++ [event a])).

Section logged.
Context {W : Type} `{!NetworkRuntime W, !EcuApplication W, !MonotonicClock W,
  !ShutdownSource W, !EcuLogger W}.

#[export] Instance Logged_network : NetworkRuntime (Logged W) :=
  { network_init := logged network_init EInit; network_poll := logged network_poll EPoll }.
#[export] Instance Logged_application : EcuApplication (Logged W) :=
  { application_init := logged application_init (λ _, EApplicationInit);
    periodic := logged periodic (λ _, EPeriodic) }.
#[export] Instance Logged_clock : MonotonicClock (Logged W) :=
  { now := logged now ENow; sleepUntil d := logged (sleepUntil d) (λ _, ESleep d) }.
#[export] Instance Logged_shutdown : ShutdownSource (Logged W) :=
  logged isShutdownRequested EShutdown.
#[export] Instance Logged_logger : EcuLogger (Logged W) :=
  { info m := logged (info m) (λ _, EInfo m); error m := logged (error m) (λ _, EError m) }.
End logged.

(** A shutdown that comes: [patience] bounds the queries still answered no, and
    no other call adds to it. *)
Class ShutdownComes (W : Type) `{!NetworkRuntime W, !EcuApplication W, !MonotonicClock W,
    !ShutdownSource W, !EcuLogger W} := {
  patience : W → nat;
  patience_shutdown : ∀ w, (isShutdownRequested w).1 = false →
    (patience (isShutdownRequested w).2 < patience w)%nat;
  patience_init : ∀ w, (patience (network_init w).2 ≤ patience w)%nat;
  patience_poll : ∀ w, (patience (network_poll w).2 ≤ patience w)%nat;
  patience_application_init : ∀ w, (patience (application_init w).2 ≤ patience w)%nat;
  patience_periodic : ∀ w, (patience (periodic w).2 ≤ patience w)%nat;
  patience_now : ∀ w, (patience (now w).2 ≤ patience w)%nat;
  patience_sleep : ∀ d w, (patience (sleepUntil d w).2 ≤ patience w)%nat;
  patience_info : ∀ m w, (patience (info m w).2 ≤ patience w)%nat;
}.

(** ** Specification *)

Section specification.
Variables (ticks : Z) (c : EcuProcessConfig).
Abbreviation duration := (loop_period c * ticks).

(** A duration or a time point of the clock: 64 bits, signed. *)
Definition fits64 (x : Z) : Prop := - 2 ^ 63 ≤ x < 2 ^ 63.

(** The deadline slept until when the last one was [d] and the clock reads [t]:
    missed slots are skipped, not made up. *)
Definition slot (d t : Z) : Z := if d + duration <=? t then t + duration else d + duration.

(** The rounds of the loop from deadline [d] on, and how they end.  The behaviour is
    undefined exactly when the period in ticks, the next deadline or, with that one
    missed, the deadline counted from the clock does not fit the clock. *)
Inductive rounds : Z → list Event → Outcome → Prop :=
  | stopped_before d :
      rounds d [EShutdown true; EInfo "shutdown complete"] (Exit 0)
  | poll_failed d :
      rounds d [EShutdown false; EPoll false; EError "network poll failed"] (Exit 4)
  | stopped_after d :
      rounds d [EShutdown false; EPoll true; EPeriodic; EShutdown true;
        EInfo "shutdown complete"] (Exit 0)
  | deadline_overflow d :
      ¬ (fits64 duration ∧ fits64 (d + duration)) →
      rounds d [EShutdown false; EPoll true; EPeriodic; EShutdown false] Undefined
  | skipped_overflow d t :
      fits64 duration → fits64 (d + duration) → d + duration ≤ t →
      ¬ fits64 (t + duration) →
      rounds d [EShutdown false; EPoll true; EPeriodic; EShutdown false; ENow t] Undefined
  | one_round d t rest outcome :
      fits64 duration → fits64 (d + duration) → fits64 (slot d t) →
      rounds (slot d t) rest outcome →
      rounds d ([EShutdown false; EPoll true; EPeriodic; EShutdown false; ENow t;
        ESleep (slot d t)] ++ rest) outcome.

(** The life of a process with a valid configuration. *)
Inductive life : list Event → Outcome → Prop :=
  | init_failed :
      life [EInfo "initializing network"; EInit false; EError "network initialization failed"]
        (Exit 3)
  | started t log outcome :
      rounds t log outcome →
      life ([EInfo "initializing network"; EInit true; EApplicationInit;
        EInfo "ECU process started"; ENow t] ++ log) outcome.
End specification.

(** The deadlines slept until are at least [gap] apart. *)
Definition sleeps (log : list Event) : list Z :=
  omap (λ e, if e is ESleep d then Some d else None) log.

Fixpoint spaced (gap d : Z) (ds : list Z) : Prop :=
  match ds with
  | [] => True
  | d' :: ds => d + gap ≤ d' ∧ spaced gap d' ds
  end.

(** Every sleep is into the future of the clock reading before it. *)
Fixpoint future (log : list Event) : Prop :=
  match log with
  | ENow t :: ((ESleep d :: _) as log) => t < d ∧ future log
  | _ :: log => future log
  | [] => True
  end.

(** A clock that never goes back and never wakes a sleeper early, after [clock]. *)
Fixpoint steady (clock : Z) (log : list Event) : Prop :=
  match log with
  | ENow t :: log => clock ≤ t ∧ steady t log
  | ESleep d :: log => steady (Z.max clock d) log
  | _ :: log => steady clock log
  | [] => True
  end.

(** Two more periods fit the clock after every reading. *)
Definition room (gap : Z) (log : list Event) : Prop :=
  Forall (λ e, if e is ENow t then t + 2 * gap < 2 ^ 63 else True) log.

(** ** Lemmas *)

Lemma rounds_spaced ticks c d log outcome :
  0 < loop_period c * ticks → rounds ticks c d log outcome →
  spaced (loop_period c * ticks) d (sleeps log).
Proof.
  intros Hgap. induction 1 as [| | | | |d t rest outcome _ _ _ _ IH]; try done. simpl. split; [|exact IH].
  unfold slot. destruct (Z.leb_spec (d + loop_period c * ticks) t); lia.
Qed.

Lemma rounds_future ticks c d log outcome :
  0 < loop_period c * ticks → rounds ticks c d log outcome → future log.
Proof.
  intros Hgap. induction 1 as [| | | | |d t rest outcome _ _ _ _ IH]; try done.
  simpl. split; [|exact IH]. unfold slot.
  destruct (Z.leb_spec (d + loop_period c * ticks) t); lia.
Qed.

(** On such a clock no addition overflows. *)
Lemma rounds_defined ticks c d log outcome clock :
  let gap := loop_period c * ticks in
  0 < gap → fits64 gap → fits64 d → d + gap < 2 ^ 63 → d ≤ clock →
  rounds ticks c d log outcome → steady clock log → room gap log → outcome ≠ Undefined.
Proof.
  cbv zeta. intros Hgap Hfits Hd Hnext Hclock Hr. unfold fits64 in *.
  revert clock Hd Hnext Hclock.
  induction Hr as [| | |d Hover|d t _ _ Hmissed Hover|d t rest outcome _ _ _ _ IH];
    intros clock Hd Hnext Hclock Hsteady Hroom; try done.
  - destruct Hover. unfold fits64. lia.
  - destruct Hsteady as [? _]. destruct Hover. unfold fits64.
    do 4 apply list.Forall_cons_1 in Hroom as [_ Hroom].
    apply list.Forall_cons_1 in Hroom as [Hroom _]. lia.
  - destruct Hsteady as [Ht Hsteady]. do 4 apply list.Forall_cons_1 in Hroom as [_ Hroom].
    apply list.Forall_cons_1 in Hroom as [Ht' Hroom].
    apply list.Forall_cons_1 in Hroom as [_ Hroom].
    assert (Hslot : d ≤ slot ticks c d t ≤ t + loop_period c * ticks).
    { unfold slot. destruct (Z.leb_spec (d + loop_period c * ticks) t); lia. }
    apply (IH (Z.max t (slot ticks c d t))); done || lia.
Qed.

Lemma in_int64_fits x : in_int64 x = true ↔ fits64 x.
Proof. unfold in_int64, fits64, int64_max. rewrite andb_true_iff, !Z.leb_le. lia. Qed.

(** The addition the source writes: the sum when it is defined. *)
Lemma later_fits ticks c x y :
  later ticks c x = Some y ↔
    fits64 (loop_period c * ticks) ∧ fits64 (x + loop_period c * ticks) ∧
    y = x + loop_period c * ticks.
Proof.
  unfold later. rewrite <- !in_int64_fits. destruct (in_int64 _), (in_int64 _); simpl;
    intuition (discriminate || congruence).
Qed.

Lemma later_overflows ticks c x :
  later ticks c x = None ↔
    ¬ (fits64 (loop_period c * ticks) ∧ fits64 (x + loop_period c * ticks)).
Proof.
  unfold later. rewrite <- !in_int64_fits. destruct (in_int64 _), (in_int64 _); simpl;
    intuition (discriminate || congruence).
Qed.

(** The deadline of a round: the slot, or an addition that overflows. *)
Lemma slot_later ticks c d d' t :
  later ticks c d = Some d' →
  match (if d' <=? t then later ticks c t else Some d') with
  | Some d'' => d'' = slot ticks c d t ∧ fits64 d''
  | None => d + loop_period c * ticks ≤ t ∧ ¬ fits64 (t + loop_period c * ticks)
  end.
Proof.
  intros (Hdur & Hd & ->)%later_fits. unfold slot.
  destruct (Z.leb_spec (d + loop_period c * ticks) t); [|done].
  destruct (later ticks c t) as [d''|] eqn:Ht.
  - by apply later_fits in Ht as (_ & Ht & ->).
  - apply later_overflows in Ht. tauto.
Qed.

Section runs.
Context {W : Type} `{!NetworkRuntime W, !EcuApplication W, !MonotonicClock W,
  !ShutdownSource W, !EcuLogger W, !ShutdownComes W}.
Variables (ticks : Z) (c : EcuProcessConfig).

Lemma superloop_rounds fuel d (w : W) log :
  (patience w < fuel)%nat →
  ∃ outcome w' ext, superloop (W := Logged W) ticks c fuel d (w, log) =
      Some (outcome, (w', log ++ ext)) ∧
    rounds ticks c d ext outcome.
Proof.
  revert d w log. induction fuel as [|fuel IH]; intros d w log Hfuel; [lia|].
  cbn [superloop]. unfold finish, exit, mbind, Io_bind, liftIo, logged, isShutdownRequested,
    Logged_shutdown. simpl. unfold logged.
  pose proof (patience_shutdown w) as Hp0.
  destruct (isShutdownRequested w) as [[] w0]; simpl in *.
  { destruct (info "shutdown complete" w0) as [[] w1]. eexists _, _, _. rewrite <- !app_assoc.
    split; [reflexivity|constructor]. }
  specialize (Hp0 eq_refl).
  pose proof (patience_poll w0) as Hp1. destruct (network_poll w0) as [[] w1]; simpl in *.
  2: { destruct (error "network poll failed" w1) as [[] w2]. eexists _, _, _. rewrite <- !app_assoc.
    split; [reflexivity|constructor]. }
  pose proof (patience_periodic w1) as Hp2. destruct (periodic w1) as [[] w2]; simpl in *.
  pose proof (patience_shutdown w2) as Hp3.
  destruct (isShutdownRequested w2) as [[] w3]; simpl in *.
  { destruct (info "shutdown complete" w3) as [[] w4]. eexists _, _, _. rewrite <- !app_assoc.
    split; [reflexivity|constructor]. }
  specialize (Hp3 eq_refl).
  destruct (later ticks c d) as [d'|] eqn:Hlater.
  2: { apply later_overflows in Hlater. eexists _, _, _. rewrite <- !app_assoc.
    split; [reflexivity|by constructor]. }
  pose proof (patience_now w3) as Hp4. destruct (now w3) as [t w4]; simpl in *.
  pose proof (slot_later _ _ d d' t Hlater) as Hslot.
  apply later_fits in Hlater as (Hdur & Hd & _).
  destruct (if d' <=? t then _ else _) as [d''|].
  2: { eexists _, _, _. rewrite <- !app_assoc. split; [reflexivity|].
    by destruct Hslot; constructor. }
  destruct Hslot as [-> Hfits].
  pose proof (patience_sleep (slot ticks c d t) w4) as Hp5.
  destruct (sleepUntil _ w4) as [[] w5]; simpl in *.
  destruct (IH (slot ticks c d t) w5 (((((((log ++ [EShutdown false]) ++ [EPoll true]) ++ [EPeriodic])
    ++ [EShutdown false]) ++ [ENow t]) ++ [ESleep (slot ticks c d t)]))) as (outcome & w' & ext & E & Hr);
    [lia|].
  exists outcome, w', ([EShutdown false; EPoll true; EPeriodic; EShutdown false; ENow t;
    ESleep (slot ticks c d t)] ++ ext).
  split; [etransitivity; [exact E|by rewrite <- !app_assoc]|by constructor].
Qed.
End runs.

(** ** Properties *)

(** C29: once shutdown comes, [run] comes to an end, after a life of the documented
    shape: an invalid configuration or a failed initialisation ends it before the
    application is touched; the network is initialised before the application and
    polled before every periodic call; it exits 0 on shutdown, 4 on a failed poll.
    It sleeps only into the future and until deadlines at least a period apart:
    missed slots are skipped.  The one other end is undefined behaviour, and it is
    reached exactly when the period in ticks, the deadline plus the period or, when
    that slot is missed, the clock plus the period leaves the signed 64 bits. *)
Theorem ecu_process_runs {W} `{!NetworkRuntime W, !EcuApplication W, !MonotonicClock W,
    !ShutdownSource W, !EcuLogger W, !ShutdownComes W}
    (ticks : Z) (c : EcuProcessConfig) (fuel : nat) (w : W) :
  0 < ticks → (patience w < fuel)%nat →
  ∃ outcome w' log, run (W := Logged W) ticks c fuel (w, []) = Some (outcome, (w', log)) ∧
    future log ∧
    if isValid c then
      life ticks c log outcome ∧
      (∀ d ds, sleeps log = d :: ds → spaced (loop_period c * ticks) d ds) ∧
      (steady (- 2 ^ 63) log → room (loop_period c * ticks) log → outcome ≠ Undefined)
    else log = [EError "invalid ECU process configuration"] ∧ outcome = Exit 2.
Proof.
  intros Hticks Hfuel. unfold run, mbind, Io_bind, liftIo. destruct (isValid c) eqn:Hvalid; simpl.
  2: { unfold logged. destruct (error "invalid ECU process configuration" w) as [[] w1]. by eexists _, _, _. }
  unfold logged. pose proof (patience_info "initializing network" w) as Hp0.
  destruct (info "initializing network" w) as [[] w0]; simpl in *.
  pose proof (patience_init w0) as Hp1. destruct (network_init w0) as [[] w1]; simpl in *.
  2: { destruct (error "network initialization failed" w1) as [[] w2]. eexists _, _, _. split; [reflexivity|]. simpl.
    split; [done|]. by split_and!; [constructor| |]. }
  pose proof (patience_application_init w1) as Hp2.
  destruct (application_init w1) as [[] w2]; simpl in *.
  pose proof (patience_info "ECU process started" w2) as Hp3.
  destruct (info "ECU process started" w2) as [[] w3]; simpl in *.
  pose proof (patience_now w3) as Hp4. destruct (now w3) as [t w4]; simpl in *.
  destruct (superloop_rounds ticks c fuel t w4 [EInfo "initializing network"; EInit true;
    EApplicationInit; EInfo "ECU process started"; ENow t]) as (outcome & w' & ext & E & Hr); [lia|].
  exists outcome, w', ([EInfo "initializing network"; EInit true;
    EApplicationInit; EInfo "ECU process started"; ENow t] ++ ext).
  split; [exact E|].
  unfold isValid in Hvalid. apply andb_true_iff in Hvalid as [_ Hperiod%Z.ltb_lt].
  assert (Hgap : 0 < loop_period c * ticks) by nia.
  pose proof (rounds_spaced _ _ _ _ _ Hgap Hr) as Hspaced.
  pose proof (rounds_future _ _ _ _ _ Hgap Hr) as Hfuture.
  split_and!; [|by constructor| |].
  - inversion Hr; subst; exact Hfuture.
  - intros d ds Hds. change (sleeps ext = d :: ds) in Hds. rewrite Hds in Hspaced.
    by destruct Hspaced.
  - intros [Hstart Hsteady] Hroom. do 4 apply list.Forall_cons_1 in Hroom as [_ Hroom].
    apply list.Forall_cons_1 in Hroom as [Ht Hroom].
    eapply (rounds_defined ticks c t ext outcome t); [| | | | |exact Hr|exact Hsteady|exact Hroom];
      unfold fits64; lia.
Qed.

(** An environment in which the application takes 2500 ticks each time and shutdown
    comes after the fifth query. *)
Module DemoProcess.
Record World := { clock : Z; queries : nat }.
#[export] Instance network : NetworkRuntime World :=
  { network_init w := (true, w); network_poll w := (true, w) }.
#[export] Instance application : EcuApplication World :=
  { application_init w := (tt, w);
    periodic w := (tt, {| clock := clock w + 2500; queries := queries w |}) }.
#[export] Instance monotonic : MonotonicClock World :=
  { now w := (clock w, w);
    sleepUntil d w := (tt, {| clock := Z.max d (clock w); queries := queries w |}) }.
#[export] Instance shutdown : ShutdownSource World :=
  λ w, (bool_decide (queries w = 0%nat), {| clock := clock w; queries := Nat.pred (queries w) |}).
#[export] Instance logger : EcuLogger World := { info _ w := (tt, w); error _ w := (tt, w) }.
#[export, refine] Instance comes : ShutdownComes World := { patience := queries }.
Proof. all: try done. intros [t [|n]]; simpl; [done|lia]. Defined.
End DemoProcess.
Import DemoProcess.

Definition demo_process : EcuProcessConfig := {| ecu_name := "test-ecu"; loop_period := 1000 |}.

Lemma ecu_process_runs_witness :
  ∃ outcome w' log,
    run (W := Logged DemoProcess.World) 1 demo_process 6
      ({| DemoProcess.clock := 0; DemoProcess.queries := 5 |}, []) = Some (outcome, (w', log)) ∧
    future log ∧
    if isValid demo_process then
      life 1 demo_process log outcome ∧
      (∀ d ds, sleeps log = d :: ds → spaced (loop_period demo_process * 1) d ds) ∧
      (steady (- 2 ^ 63) log → room (loop_period demo_process * 1) log → outcome ≠ Undefined)
    else log = [EError "invalid ECU process configuration"] ∧ outcome = Exit 2.
Proof.
  apply (ecu_process_runs (W := DemoProcess.World) 1 demo_process 6
    {| DemoProcess.clock := 0; DemoProcess.queries := 5 |}); [done|simpl; lia].
Defined.

(** The largest period the command line accepts does not fit the clock: with the
    nanoseconds of [steady_clock] the first deadline overflows. *)
Example accepted_period_overflows :
  let result := parseCommandLine 5 (Some [Some "ecu"; Some "--name"; Some "test-ecu";
    Some "--loop-period-us"; Some "9223372036854775807"]) in
  status result = CommandLineStatus.kOk ∧ isValid (config result) = true ∧
  ∀ t, later 1000 (config result) t = None.
Proof. by split_and!. Qed.
