(* ===== verification/Platform.v ===== *)
(** * The AVR platform
      ([platform/avr/builtin_led.h], [builtin_led.cpp], [millisecond_clock.cpp],
      [stack_monitor.h], [init.h])

    The LED's software PWM, the millisecond clock and their interrupt handlers over
    the timer registers (the class [AvrTimers]; port B is the one of [AvrSpi]), and the
    paint-and-scan stack monitor over the data memory, an address-indexed function.
    An [ATOMIC_BLOCK] is one step; the interrupt handlers run between steps. *)

From S2P Require Import Prelude Crc Hdlc Packet Routing Endpoints Services UartLink Mcp2515.
Local Open Scope Z_scope.

(** ** The timers *)

Inductive TimerRegister :=
  TCCR0A | TCCR0B | OCR0A | TIMSK0 | TCCR1A | TCCR1B | OCR1A | TIMSK1 | TCNT1 | TIFR1.

Class AvrTimers (W : Type) := {
  timer_read : TimerRegister → State W Z;
  timer_write : TimerRegister → Z → State W unit;
  timer_BV : Z → Z;
  WGM01 : Z; CS01 : Z; CS00 : Z; OCIE0A : Z; WGM10 : Z; WGM12 : Z; CS11 : Z; CS10 : Z;
  OCIE1A : Z; TOIE1 : Z; OCF1A : Z; TOV1 : Z; PORTB5 : Z;
}.

Section platform.
Context {W : Type} `{!AvrSpi W, !AvrTimers W}.

(** [builtin_led.h] *)

Definition builtinLedInit : State W unit :=
  setBits DDRB (spi_BV DDB5);;
  clearBits PORTB (timer_BV PORTB5);;
  timer_write TCCR1A (timer_BV WGM10);;
  timer_write TCCR1B (Z.lor (Z.lor (timer_BV WGM12) (timer_BV CS11)) (timer_BV CS10));;
  timer_write OCR1A 0;;
  timer_write TIMSK1 0.

Definition setBuiltinLedBrightness (brightness : Z) : State W unit :=
  timer_write TIMSK1 0;;
  if brightness =? 0 then clearBits PORTB (timer_BV PORTB5)
  else if brightness =? 0xFF then setBits PORTB (timer_BV PORTB5)
  else
    timer_write OCR1A brightness;;
    timer_write TCNT1 0;;
    setBits PORTB (timer_BV PORTB5);;
    timer_write TIFR1 (Z.lor (timer_BV OCF1A) (timer_BV TOV1));;
    timer_write TIMSK1 (Z.lor (timer_BV OCIE1A) (timer_BV TOIE1)).

(** [builtin_led.cpp]: the handlers of Timer 1. *)
Definition TIMER1_COMPA_vect : State W unit := clearBits PORTB (timer_BV PORTB5).
Definition TIMER1_OVF_vect : State W unit := setBits PORTB (timer_BV PORTB5).

(** [millisecond_clock.cpp]; the counter is the first half of the state. *)
Definition TIMER0_COMPA_vect : State (Z * W) unit := λ '(g_milliseconds, w),
  (tt, (u32 (g_milliseconds + 1), w)).

Definition millisecondClockInit : State W unit :=
  timer_write TCCR0A (timer_BV WGM01);;
  timer_write TCCR0B (Z.lor (timer_BV CS01) (timer_BV CS00));;
  timer_write OCR0A 249;;
  timer_write TIMSK0 (timer_BV OCIE0A).

Definition now : State (Z * W) Z := gets fst.

(** [init.h] *)
Definition initialize `{!AvrUsart W} (baud_rate : Z) : State W unit :=
  uart0Init baud_rate;;
  spi0Init;;
  millisecondClockInit;;
  builtinLedInit.
End platform.

(** The platform's binding of the clock the services poll. *)
#[export] Instance platform_clock {W} : MillisecondClock (Z * W) := now.

(** [now] is the number of compare matches, modulo 2^32. *)
Lemma now_counts_ticks {W} (n : nat) t (w : W) :
  now (Nat.iter n (λ s, (TIMER0_COMPA_vect s).2) (u32 t, w)) =
    (u32 (t + Z.of_nat n), (u32 (t + Z.of_nat n), w)).
Proof.
  unfold now, gets. assert (E : Nat.iter n (λ s, (TIMER0_COMPA_vect s).2) (u32 t, w) =
    (u32 (t + Z.of_nat n), w)).
  { induction n as [|n IH]; [cbn [Nat.iter nat_rect]; do 2 f_equal; lia|].
    simpl Nat.iter. rewrite IH. cbn. f_equal. word_lia. }
  by rewrite E.
Qed.

(** ** The stack monitor *)

Module StackMonitor.
Definition kPaintPattern : Z := 0xA5.
Definition kInitializationGuardBytes : Z := 32.

Record StackMonitor := {
  stack_region_start_ : Z;
  capacity_bytes_ : Z;
  peak_used_bytes_ : Z;
}.

Definition new_monitor : StackMonitor :=
  {| stack_region_start_ := 0; capacity_bytes_ := 0; peak_used_bytes_ := 0 |}.

(** The data memory. *)
Definition Memory : Type := Z → Z.
Definition store (address value : Z) (m : Memory) : Memory :=
  λ a, if a =? address then value else m a.

Section monitor.
(** [__heap_start] of the linker and [RAMEND] of [avr/io.h]. *)
Variables heap_start RAMEND : Z.

(** The painting loop; [end - cursor] bounds its rounds. *)
Definition paint (cursor stop : Z) (m : Memory) : Memory :=
  snd (while_upto (Z.to_nat (stop - cursor)) (λ '(cursor, _), cursor <? stop)
    (λ '(cursor, m), (cursor + 1, store cursor kPaintPattern m)) (cursor, m)).

(** The scanning loop: the address it stops at. *)
Definition firstUsed (cursor stop : Z) (m : Memory) : Z :=
  while_upto (Z.to_nat (stop - cursor))
    (λ cursor, (cursor <? stop) && (m cursor =? kPaintPattern)) (λ cursor, cursor + 1) cursor.

Definition scan (m : Memory) (s : StackMonitor) : StackMonitor :=
  let stack_region_end := u16 (RAMEND + 1) in
  let first_used_address := u16 (firstUsed (stack_region_start_ s) stack_region_end m) in
  let used_bytes := u16 (stack_region_end - first_used_address) in
  {| stack_region_start_ := stack_region_start_ s; capacity_bytes_ := capacity_bytes_ s;
     peak_used_bytes_ :=
       if peak_used_bytes_ s <? used_bytes then used_bytes else peak_used_bytes_ s |}.

(** [SP] is the stack pointer at the call; 16-bit [unsigned] arithmetic. *)
Definition paintEnd (SP start : Z) : Z :=
  if u16 (start + kInitializationGuardBytes) <? SP
  then u16 (SP - kInitializationGuardBytes) else start.

Definition initialize (SP : Z) : State (StackMonitor * Memory) unit := λ '(s, m),
  let start := u16 heap_start in
  let stack_region_end := u16 (RAMEND + 1) in
  let m := paint start (paintEnd SP start) m in
  let s := {| stack_region_start_ := start; capacity_bytes_ := u16 (stack_region_end - start);
              peak_used_bytes_ := peak_used_bytes_ s |} in
  (tt, (scan m s, m)).
End monitor.
End StackMonitor.

(** ** The LED *)

(** What the port and the timer promise: port B, the interrupt mask and the compare
    value keep what is written. *)
Class LedModel (W : Type) `{!AvrSpi W, !AvrTimers W} := {
  portb : W → Z;
  timsk1 : W → Z;
  ocr1a : W → Z;
  portb_read : ∀ w, spi_read PORTB w = (portb w, w);
  portb_write : ∀ v w, let w' := (spi_write PORTB v w).2 in
    portb w' = v ∧ timsk1 w' = timsk1 w ∧ ocr1a w' = ocr1a w;
  timers_write : ∀ r v w, let w' := (timer_write r v w).2 in
    portb w' = portb w ∧ timsk1 w' = (if r is TIMSK1 then v else timsk1 w) ∧
    ocr1a w' = (if r is OCR1A then v else ocr1a w);
  BV_power : ∀ n, 0 ≤ n < 8 → timer_BV n = 2 ^ n;
  PORTB5_bit : 0 ≤ PORTB5 < 8;
}.

Section led.
Context {W : Type} `{!AvrSpi W, !AvrTimers W, !LedModel W}.

Definition led_on (w : W) : bool := Z.testbit (portb w) PORTB5.

(** The interrupts the mask enables, which may come between two steps of the
    program; the label is the LED's new state. *)
Inductive interrupt : bool → W → W → Prop :=
  | compare_match w : Z.testbit (timsk1 w) OCIE1A = true → interrupt false w (TIMER1_COMPA_vect w).2
  | overflow w : Z.testbit (timsk1 w) TOIE1 = true → interrupt true w (TIMER1_OVF_vect w).2.

Inductive interrupts : list bool → W → W → Prop :=
  | quiet w : interrupts [] w w
  | interrupted on ons w w1 w' : interrupt on w w1 → interrupts ons w1 w' →
      interrupts (on :: ons) w w'.

(** Port B with the LED's bit set to [on]. *)
Definition port_with (on : bool) (w w' : W) : Prop :=
  timsk1 w' = timsk1 w ∧ ocr1a w' = ocr1a w ∧ ∀ i, 0 ≤ i < 8 →
    Z.testbit (portb w') i = if i =? PORTB5 then on else Z.testbit (portb w) i.

Lemma testbit_u8 x i : 0 ≤ i < 8 → Z.testbit (u8 x) i = Z.testbit x i.
Proof. intros Hi. unfold u8. change 256 with (2 ^ 8). by rewrite Z.mod_pow2_bits_low by lia. Qed.

Lemma testbit_pow2 n i : 0 ≤ n → Z.testbit (2 ^ n) i = (i =? n).
Proof. intros Hn. rewrite Z.pow2_bits_eqb by done. apply Z.eqb_sym. Qed.

Lemma setBits_led w : port_with true w (setBits PORTB (timer_BV PORTB5) w).2.
Proof.
  unfold setBits, mbind, State_bind. rewrite portb_read.
  pose proof PORTB5_bit. pose proof (portb_write (u8 (Z.lor (portb w) (timer_BV PORTB5))) w) as (E1 & E2 & E3).
  split_and!; [done..|]. intros i Hi. rewrite E1, testbit_u8, Z.lor_spec, BV_power, testbit_pow2 by lia.
  destruct (i =? PORTB5); [apply orb_true_r|apply orb_false_r].
Qed.

Lemma clearBits_led w : port_with false w (clearBits PORTB (timer_BV PORTB5) w).2.
Proof.
  unfold clearBits, mbind, State_bind. rewrite portb_read.
  pose proof PORTB5_bit.
  pose proof (portb_write (u8 (Z.land (portb w) (u8 (Z.lnot (timer_BV PORTB5))))) w) as (E1 & E2 & E3).
  split_and!; [done..|]. intros i Hi.
  rewrite E1, testbit_u8, Z.land_spec, testbit_u8, Z.lnot_spec, BV_power, testbit_pow2 by lia.
  destruct (i =? PORTB5); [apply andb_false_r|apply andb_true_r].
Qed.

Lemma interrupts_led ons w w' :
  interrupts ons w w' →
  timsk1 w' = timsk1 w ∧ ocr1a w' = ocr1a w ∧
  (∀ i, 0 ≤ i < 8 → i ≠ PORTB5 → Z.testbit (portb w') i = Z.testbit (portb w) i) ∧
  led_on w' = default (led_on w) (list.last ons) ∧
  (ons ≠ [] → Z.testbit (timsk1 w) OCIE1A || Z.testbit (timsk1 w) TOIE1 = true).
Proof.
  pose proof PORTB5_bit.
  induction 1 as [w|on ons w w1 w' Hstep _ (Em & Eo & Ei & El & _)]; [by split_and!|].
  assert (Hport : port_with on w w1 ∧ Z.testbit (timsk1 w) OCIE1A || Z.testbit (timsk1 w) TOIE1 = true).
  { destruct Hstep as [w E|w E]; rewrite E; split;
      [apply clearBits_led|done|apply setBits_led|apply orb_true_r]. }
  destruct Hport as [(Em1 & Eo1 & Ei1) Hmask].
  split_and!; [congruence|congruence| | |done].
  - intros i Hi Hne. rewrite Ei, Ei1 by done. by rewrite (proj2 (Z.eqb_neq _ _)).
  - rewrite El. unfold led_on at 1. rewrite Ei1, Z.eqb_refl by done.
    rewrite last_cons. by destruct (list.last ons).
Qed.

(** Port B but for the LED's bit. *)
Definition other_pins (w w' : W) : Prop :=
  ∀ i, 0 ≤ i < 8 → i ≠ PORTB5 → Z.testbit (portb w') i = Z.testbit (portb w) i.

Lemma port_with_led on w w' :
  port_with on w w' →
  timsk1 w' = timsk1 w ∧ ocr1a w' = ocr1a w ∧ led_on w' = on ∧ other_pins w w'.
Proof.
  pose proof PORTB5_bit. intros (Em & Eo & Ei). split_and!; [done..| |].
  - unfold led_on. by rewrite Ei, Z.eqb_refl.
  - intros i Hi Hne. rewrite Ei by done. by rewrite (proj2 (Z.eqb_neq _ _)).
Qed.

(** What [setBuiltinLedBrightness] leaves. *)
Lemma setBrightness_led brightness w :
  let w' := (setBuiltinLedBrightness brightness w).2 in
  led_on w' = negb (brightness =? 0) ∧ other_pins w w' ∧
  if (brightness =? 0) || (brightness =? 0xFF) then timsk1 w' = 0
  else timsk1 w' = Z.lor (timer_BV OCIE1A) (timer_BV TOIE1) ∧ ocr1a w' = brightness.
Proof.
  unfold setBuiltinLedBrightness, mbind, State_bind.
  pose proof (timers_write TIMSK1 0 w) as H. destruct (timer_write TIMSK1 0 w) as [[] w1].
  destruct H as (Ep & Em & Eo). simpl in Ep, Em, Eo.
  destruct (Z.eqb_spec brightness 0) as [->|Hne]; [|destruct (Z.eqb_spec brightness 255) as [->|Hne']].
  - destruct (port_with_led _ _ _ (clearBits_led w1)) as (E1 & _ & E2 & E3). split_and!;
      [done|by intros i Hi Hn; rewrite E3, Ep|congruence].
  - destruct (port_with_led _ _ _ (setBits_led w1)) as (E1 & _ & E2 & E3). split_and!;
      [done|by intros i Hi Hn; rewrite E3, Ep|congruence].
  - simpl. pose proof (timers_write OCR1A brightness w1) as H.
    destruct (timer_write OCR1A brightness w1) as [[] w2]. destruct H as (Ep2 & _ & Eo2).
    pose proof (timers_write TCNT1 0 w2) as H.
    destruct (timer_write TCNT1 0 w2) as [[] w3]. destruct H as (Ep3 & _ & Eo3).
    destruct (port_with_led _ _ _ (setBits_led w3)) as (_ & Eo4 & E2 & E3).
    destruct (setBits PORTB _ w3) as [[] w4]. simpl in *.
    pose proof (timers_write TIFR1 (Z.lor (timer_BV OCF1A) (timer_BV TOV1)) w4) as H.
    destruct (timer_write TIFR1 _ w4) as [[] w5]. destruct H as (Ep5 & _ & Eo5). simpl in *.
    pose proof (timers_write TIMSK1 (Z.lor (timer_BV OCIE1A) (timer_BV TOIE1)) w5) as H.
    destruct (timer_write TIMSK1 _ w5) as [[] w6]. destruct H as (Ep6 & Em6 & Eo6). simpl in *.
    split_and!; [|intros i Hi Hn|congruence..].
    + unfold led_on in *. congruence.
    + rewrite Ep6, Ep5, E3 by done. congruence.
Qed.

(** The LED shows the brightness it was set to, whatever interrupts come: 0 is off
    and 255 is on without a flicker, as no interrupt is enabled; in between the LED is on
    at once, goes off at each compare match, which is at the count of [brightness],
    and on at each overflow.  The other pins of the port are not touched. *)
Theorem led_follows_brightness brightness w ons w' :
  interrupts ons (setBuiltinLedBrightness brightness w).2 w' →
  other_pins w w' ∧
  (brightness = 0 → ons = [] ∧ led_on w' = false) ∧
  (brightness = 0xFF → ons = [] ∧ led_on w' = true) ∧
  (brightness ≠ 0 → brightness ≠ 0xFF →
   led_on w' = default true (list.last ons) ∧ ocr1a w' = brightness).
Proof.
  intros (Em & Eo & Ei & El & Hmask)%interrupts_led.
  destruct (setBrightness_led brightness w) as (Hled & Hpins & Hset).
  rewrite Hled in El. split_and!.
  - intros i Hi Hn. by rewrite Ei, Hpins.
  - intros ->. simpl in *. rewrite Hset, !Z.bits_0 in Hmask.
    destruct ons; [done|by discriminate Hmask].
  - intros ->. simpl in *. rewrite Hset, !Z.bits_0 in Hmask.
    destruct ons; [done|by discriminate Hmask].
  - intros H0%Z.eqb_neq H255%Z.eqb_neq. rewrite H0, H255 in Hset. rewrite H0 in El.
    destruct Hset as [_ Hset]. split; [done|congruence].
Qed.
End led.

(** ** What the stack monitor measures *)

Module StackMonitorFacts.
Import StackMonitor.

Lemma paint_spec cursor stop m a :
  paint cursor stop m a = if (cursor <=? a) && (a <? stop) then kPaintPattern else m a.
Proof.
  unfold paint.
  pose proof (while_upto_exit
    (λ '(c, m'), cursor ≤ c ∧ c ≤ Z.max cursor stop ∧
       ∀ a, m' a = if (cursor <=? a) && (a <? c) then kPaintPattern else m a)
    (λ '(c, _), Z.to_nat (stop - c)) (λ '(c, _), c <? stop)
    (λ '(c, m), (c + 1, store c kPaintPattern m)) (Z.to_nat (stop - cursor)) (cursor, m)) as H.
  destruct H as [HI Hexit]; [| |lia|].
  - intros [c m'] (H1 & H2 & H3) Hc%Z.ltb_lt. split; [|lia]. split_and!; [lia..|].
    intros a'. unfold store. rewrite H3.
    destruct (Z.eqb_spec a' c) as [->|]; [by rewrite (proj2 (Z.leb_le _ _)), (proj2 (Z.ltb_lt _ _)) by lia|].
    replace (a' <? c + 1) with (a' <? c) by lia. done.
  - split_and!; [lia..|]. intros a'. by replace ((cursor <=? a') && (a' <? cursor)) with false by lia.
  - destruct (while_upto _ _ _ _) as [c m']. destruct HI as (H1 & H2 & H3). simpl. rewrite H3.
    replace ((cursor <=? a) && (a <? c)) with ((cursor <=? a) && (a <? stop)) by lia. done.
Qed.

Lemma firstUsed_spec cursor stop m :
  cursor ≤ stop →
  let c := firstUsed cursor stop m in
  cursor ≤ c ≤ stop ∧ (∀ a, cursor ≤ a < c → m a = kPaintPattern) ∧
  (c = stop ∨ m c ≠ kPaintPattern).
Proof.
  intros Hle. unfold firstUsed.
  pose proof (while_upto_exit
    (λ c, cursor ≤ c ≤ stop ∧ ∀ a, cursor ≤ a < c → m a = kPaintPattern)
    (λ c, Z.to_nat (stop - c)) (λ c, (c <? stop) && (m c =? kPaintPattern)) (λ c, c + 1)
    (Z.to_nat (stop - cursor)) cursor) as H.
  destruct H as [[HI Hpaint] Hexit]; [| |lia|].
  - intros c [Hc Hpaint] [Hlt Heq]%andb_prop. split; [|lia]. split; [lia|].
    intros a Ha. destruct (decide (a = c)) as [->|]; [lia|]. apply Hpaint. lia.
  - split; [lia|]. intros a Ha. lia.
  - split_and!; [lia..|done|]. apply andb_false_iff in Hexit as [?|?]; [left; lia|right; lia].
Qed.

(** What happens to the memory between scans: the program writes its stack. *)
Inductive Event := Touch (address value : Z) | Scan.

Section peak.
Variables heap_start RAMEND : Z.
Hypothesis region : 0 ≤ heap_start ∧ heap_start ≤ RAMEND + 1 ∧ RAMEND + 1 < 65536 - 32.

Definition exec (s : StackMonitor * Memory) (e : Event) : StackMonitor * Memory :=
  match e with
  | Touch address value => (s.1, store address value s.2)
  | Scan => (scan RAMEND s.2 s.1, s.2)
  end.

(** The stack depth a write reaches. *)
Definition depth (e : Event) : Z :=
  match e with Touch address _ => RAMEND + 1 - address | Scan => 0 end.
Definition deepest (es : list Event) : Z := foldr (λ e d, Z.max (depth e) d) 0 es.

Lemma deepest_bound e es : e ∈ es → depth e ≤ deepest es.
Proof.
  induction 1 as [e es|e e' es _ IH]; unfold deepest; simpl; [lia|].
  fold (deepest es). lia.
Qed.
Lemma deepest_snoc es e : deepest (es ++ [e]) = Z.max (deepest es) (Z.max (depth e) 0).
Proof. unfold deepest. induction es as [|e' es IH]; simpl; [lia|]. rewrite IH. lia. Qed.

(** The depth a scan of a memory reports. *)
Definition measured (m : Memory) : Z :=
  RAMEND + 1 - firstUsed heap_start (RAMEND + 1) m.

Lemma scan_measures m s :
  stack_region_start_ s = heap_start →
  scan RAMEND m s =
    {| stack_region_start_ := heap_start; capacity_bytes_ := capacity_bytes_ s;
       peak_used_bytes_ := Z.max (peak_used_bytes_ s) (measured m) |}.
Proof.
  intros E. unfold scan, measured. rewrite E. rewrite (u16_id (RAMEND + 1)) by word_lia.
  pose proof (firstUsed_spec heap_start (RAMEND + 1) m ltac:(lia)) as (Hc & _ & _).
  rewrite u16_id by word_lia. rewrite u16_id by word_lia. f_equal.
  destruct (Z.ltb_spec (peak_used_bytes_ s) (RAMEND + 1 - firstUsed heap_start (RAMEND + 1) m)); lia.
Qed.

Lemma measured_bounds m : 0 ≤ measured m ≤ RAMEND + 1 - heap_start.
Proof.
  unfold measured. pose proof (firstUsed_spec heap_start (RAMEND + 1) m ltac:(lia)) as (Hc & _ & _).
  lia.
Qed.

(** A byte that is not paint is counted, and nothing below the first is. *)
Lemma measured_counts m a :
  heap_start ≤ a ≤ RAMEND → m a ≠ kPaintPattern → RAMEND + 1 - a ≤ measured m.
Proof.
  intros Ha Hm. unfold measured.
  pose proof (firstUsed_spec heap_start (RAMEND + 1) m ltac:(lia)) as (Hc & Hpaint & _).
  destruct (Z.le_gt_cases (firstUsed heap_start (RAMEND + 1) m) a); [lia|].
  exfalso. apply Hm, Hpaint. lia.
Qed.

Lemma measured_used m :
  0 < measured m →
  heap_start ≤ RAMEND + 1 - measured m ≤ RAMEND ∧ m (RAMEND + 1 - measured m) ≠ kPaintPattern.
Proof.
  unfold measured. pose proof (firstUsed_spec heap_start (RAMEND + 1) m ltac:(lia)) as (Hc & _ & Hstop).
  intros Hpos. destruct Hstop as [E|Hstop]; [lia|].
  split; [lia|].
  by replace (RAMEND + 1 - (RAMEND + 1 - firstUsed heap_start (RAMEND + 1) m))
    with (firstUsed heap_start (RAMEND + 1) m) by lia.
Qed.

(** The state of the monitor after a history, from the memory [m0] it painted with
    the peak [peak0] of its first scan. *)
Record monitored (m0 : Memory) (es : list Event) (s : StackMonitor * Memory) : Prop := {
  mon_start : stack_region_start_ s.1 = heap_start;
  mon_capacity : capacity_bytes_ s.1 = RAMEND + 1 - heap_start;
  mon_mem : ∀ a, s.2 a = m0 a ∨ ∃ value, Touch a value ∈ es;
  mon_base : measured m0 ≤ peak_used_bytes_ s.1;
  mon_peak : peak_used_bytes_ s.1 ≤ Z.max (measured m0) (deepest es);
  mon_bound : peak_used_bytes_ s.1 ≤ RAMEND + 1 - heap_start;
}.

Lemma monitored_exec m0 es s e :
  monitored m0 es s → monitored m0 (es ++ [e]) (exec s e).
Proof.
  intros [Hstart Hcap Hmem Hbase Hpeak Hbound]. destruct s as [s m]. destruct e as [address value|]; simpl in *.
  - split; simpl; [done..| |done| |done].
    + intros a. unfold store. destruct (Z.eqb_spec a address) as [->|].
      * right. exists value. apply elem_of_app. right. by left.
      * destruct (Hmem a) as [?|[v Hv]]; [by left|right]. exists v. apply elem_of_app. by left.
    + rewrite deepest_snoc. lia.
  - rewrite scan_measures by done. pose proof (measured_bounds m). split; simpl; [done..| |lia| |lia].
    + intros a. destruct (Hmem a) as [?|[v Hv]]; [by left|right]. exists v. apply elem_of_app. by left.
    + rewrite deepest_snoc. simpl. enough (measured m ≤ Z.max (measured m0) (deepest es)) by lia.
      destruct (Z.le_gt_cases (measured m) 0); [pose proof (measured_bounds m0); lia|].
      destruct (measured_used m) as [Ha Hm]; [lia|].
      destruct (Hmem (RAMEND + 1 - measured m)) as [E|[v Hv]].
      * pose proof (measured_counts m0 _ Ha). rewrite E in Hm. specialize (H1 Hm). lia.
      * pose proof (deepest_bound _ _ Hv) as Hd. simpl in Hd. lia.
Qed.

Lemma monitored_run m0 s0 es :
  monitored m0 [] s0 → monitored m0 es (foldl exec s0 es).
Proof.
  intros H0. induction es as [|e es IH] using rev_ind; [done|].
  rewrite foldl_app. by apply monitored_exec.
Qed.

(** Writes that leave no paint behind. *)
Definition visible (e : Event) : Prop :=
  match e with
  | Touch address value => heap_start ≤ address ≤ RAMEND ∧ value ≠ kPaintPattern
  | Scan => True
  end.

Lemma touched_visible s0 es address value :
  Forall visible es → Touch address value ∈ es → (foldl exec s0 es).2 address ≠ kPaintPattern.
Proof.
  intros Hes. induction es as [|e es IH] using rev_ind; [by intros ?%elem_of_nil|].
  apply list.Forall_app in Hes as [Hes [He _]%list.Forall_cons]. rewrite foldl_app. simpl.
  intros [Hin|<-%list_elem_of_singleton]%elem_of_app.
  - specialize (IH Hes Hin). destruct e as [a v|]; [|done]. simpl. unfold store.
    destruct (Z.eqb_spec address a); [apply He|done].
  - simpl. unfold store. rewrite Z.eqb_refl. apply He.
Qed.

Lemma deepest_visible s0 es :
  Forall visible es → deepest es ≤ measured (foldl exec s0 es).2.
Proof.
  intros Hes. assert (H : ∀ e, e ∈ es → depth e ≤ measured (foldl exec s0 es).2).
  { intros [address value|] Hin; simpl; [|apply measured_bounds].
    apply measured_counts; [|by eapply touched_visible].
    rewrite list.Forall_forall in Hes. by apply Hes in Hin as []. }
  revert H. generalize (measured_bounds (foldl exec s0 es).2).
  generalize (measured (foldl exec s0 es).2). intros d Hd. clear Hes.
  induction es as [|e es IH]; unfold deepest; simpl; [lia|]. intros H. fold (deepest es).
  assert (deepest es ≤ d) by (apply IH; intros; apply H; by right).
  assert (depth e ≤ d) by (apply H; by left). lia.
Qed.

Lemma initialize_monitored SP mem :
  0 ≤ SP ≤ RAMEND →
  let m0 := paint heap_start (paintEnd SP heap_start) mem in
  let s0 := (StackMonitor.initialize heap_start RAMEND SP (new_monitor, mem)).2 in
  monitored m0 [] s0 ∧ peak_used_bytes_ s0.1 = measured m0 ∧ s0.2 = m0 ∧
  measured m0 ≤ Z.min (RAMEND + 1 - heap_start) (RAMEND + 1 - (SP - kInitializationGuardBytes)).
Proof.
  intros HSP. unfold StackMonitor.initialize.
  rewrite (u16_id heap_start), (u16_id (RAMEND + 1)) by word_lia. cbv zeta. cbn [fst snd].
  rewrite scan_measures by done. cbn [fst snd peak_used_bytes_ capacity_bytes_ new_monitor].
  rewrite u16_id by word_lia.
  pose proof (measured_bounds (paint heap_start (paintEnd SP heap_start) mem)) as Hb.
  rewrite Z.max_r by lia. split_and!; [split; simpl; [done|done|by left|lia|lia|lia]|done|done|].
  destruct (Z.le_gt_cases (measured (paint heap_start (paintEnd SP heap_start) mem)) 0) as [|Hpos].
  { unfold kInitializationGuardBytes. lia. }
  destruct (measured_used _ (proj1 (Z.gt_lt_iff _ _) (Z.lt_gt _ _ Hpos))) as [Ha Hm].
  rewrite paint_spec in Hm. revert Hm. case_match eqn:E; [done|]. intros _.
  apply andb_false_iff in E as [E|E]; [lia|].
  unfold paintEnd, kInitializationGuardBytes in *. rewrite (u16_id (heap_start + 32)) in * by word_lia.
  destruct (Z.ltb_spec (heap_start + 32) SP); [|lia]. rewrite u16_id in * by word_lia. lia.
Qed.
End peak.

(** C33: the stack monitor, painted at a stack pointer [SP] inside the RAM, after any history
    of writes and scans and a last scan: the peak is within the capacity, which is the
    whole region; it is never below the first scan's peak, nor above what that peak
    and the deepest write account for, so it never over-reports; and when the
    writes stay in the region and leave no byte of paint it is exactly the deepest
    of both.  The first peak counts no more than the guard below [SP]. *)
Theorem stack_monitor_peak (heap_start RAMEND SP : Z) (mem : Memory) (es : list Event) :
  0 ≤ heap_start ∧ heap_start ≤ RAMEND + 1 ∧ RAMEND + 1 < 65536 - 32 → 0 ≤ SP ≤ RAMEND →
  let s0 := (StackMonitor.initialize heap_start RAMEND SP (new_monitor, mem)).2 in
  let s := foldl (exec RAMEND) s0 (es ++ [Scan]) in
  let peak0 := peak_used_bytes_ s0.1 in
  let peak := peak_used_bytes_ s.1 in
  capacity_bytes_ s.1 = RAMEND + 1 - heap_start ∧ peak ≤ capacity_bytes_ s.1 ∧
  peak0 ≤ RAMEND + 1 - SP + kInitializationGuardBytes ∧
  peak0 ≤ peak ≤ Z.max peak0 (deepest RAMEND es) ∧
  (Forall (visible heap_start RAMEND) es → peak = Z.max peak0 (deepest RAMEND es)).
Proof.
  intros Hregion HSP. cbv zeta.
  destruct (initialize_monitored heap_start RAMEND Hregion SP mem HSP) as (H0 & Epeak & Em & Hbase).
  revert H0 Epeak Em Hbase.
  generalize (StackMonitor.initialize heap_start RAMEND SP (new_monitor, mem)).2.
  generalize (paint heap_start (paintEnd SP heap_start) mem). intros m0 s0 H0 Epeak Em Hbase.
  pose proof (monitored_run heap_start RAMEND Hregion m0 s0 es H0) as Hrun.
  pose proof (monitored_run heap_start RAMEND Hregion m0 s0 (es ++ [Scan]) H0) as [_ Hcap _ Hlow Hpeak Hbound].
  rewrite deepest_snoc in Hpeak. simpl in Hpeak. rewrite <- Epeak in *.
  split_and!; [done|lia|lia|done| |].
  - pose proof (measured_bounds heap_start RAMEND Hregion m0). lia.
  - intros Hes. apply (deepest_visible heap_start RAMEND Hregion s0) in Hes.
    rewrite foldl_app in *. cbn [foldl exec fst snd] in *.
    rewrite (scan_measures heap_start RAMEND Hregion) in * by exact (mon_start _ _ _ _ _ Hrun).
    cbn [peak_used_bytes_] in *.
    pose proof (mon_base _ _ _ _ _ Hrun). pose proof (measured_bounds heap_start RAMEND Hregion m0). lia.
Qed.

(** RAM of 2304 bytes of an ATmega328P, [SP] 40 bytes below the top, two calls deep. *)
Lemma stack_monitor_peak_witness :
  let s0 := (StackMonitor.initialize 0x300 0x8FF 0x8D8 (new_monitor, λ _, 0)).2 in
  peak_used_bytes_ (foldl (exec 0x8FF) s0 ([Touch 0x8A0 1; Scan; Touch 0x880 2] ++ [Scan])).1 =
    Z.max (peak_used_bytes_ s0.1) 128.
Proof.
  apply (stack_monitor_peak 0x300 0x8FF 0x8D8 (λ _, 0) [Touch 0x8A0 1; Scan; Touch 0x880 2]);
    [split_and!; lia|lia|].
  repeat apply List.Forall_cons; [| | |apply Forall_nil]; simpl;
    [split; [lia|discriminate]|exact I|split; [lia|discriminate]].
Defined.
End StackMonitorFacts.
