(* ===== verification/DemoWiring.v ===== *)
(** * The wiring of the Arduino applications
      ([examples/arduino-uno/demo_wiring.h], [wiring_constants.h])

    The generated identities and routes, and the forwarder that hands selected
    packets to the UART link.  A link that busy-waits for its device forever never
    returns: such a world is [None], in which nothing happens any more, so that the
    forwarder is a [PacketForwarder] over the worlds [option U].  What comes back on
    the wire the packet came in on is never forwarded ([ingress_delivers]). *)

From S2P Require Import Prelude Packet Hdlc Routing Endpoints UartLink.
Local Open Scope Z_scope.

(** ** [demo_wiring.h] *)

Definition kArduinoHost : HostId := mkHostId 1.
Definition kPcHost : HostId := mkHostId 2.
Definition kTestWire : WireNumber := mkWireNumber 1.
Definition kUartEgress : Z := 0x01.
Definition kUartIngressIndex : Z := 1.
Definition kUartBaudRate : Z := 115200.
Definition kArduinoHostInfo : HostInfo :=
  {| host_id := kArduinoHost; wire_count := 1; wires := [kTestWire] |}.
Definition kRoutes : list RouteTableEntry := [mkRouteTableEntry kTestWire kUartEgress].

(** ** [wiring_constants.h] *)

Definition kDiagnosticsPublication : Domain.PublicationConfig :=
  {| Domain.publication_wire := kTestWire;
     Domain.publication_destination := mkHostId kBroadcastHostValue |}.
(** [WS_SERVICE_PING_ENDPOINT_ID] and [WS_SERVICE_LED_CONTROL_ENDPOINT_ID]. *)
Definition kPingEndpoint : EndpointAddress := endpoint_from kCommon 0x3FFD.
Definition kLedControlEndpoint : EndpointAddress := endpoint_from kCommon 0x3FFB.
Definition kBitsUploadEndpoint : EndpointAddress := endpoint_from kUser0 1.
Definition kBitsEchoEndpoint : EndpointAddress := endpoint_from kUser0 2.
Definition kUploadConnection : ConnectionAddress :=
  {| conn_wire := kTestWire; conn_local_host := kArduinoHost; conn_remote_host := kPcHost;
     conn_endpoint := kBitsUploadEndpoint |}.
Definition kEchoConnection : ConnectionAddress :=
  {| conn_wire := kTestWire; conn_local_host := kArduinoHost; conn_remote_host := kPcHost;
     conn_endpoint := kBitsEchoEndpoint |}.

(** The domain context both applications build. *)
Definition demo_domain : Domain.DomainContext :=
  {| Domain.host_ := kArduinoHostInfo; Domain.router_ := kRoutes |}.

(** ** [main]

    The loop of an application's [main], a turn for each of the given happenings
    between two rounds: bytes arrive, time passes. *)
Fixpoint main_loop {A W} (runOnce : Io (A * W) unit) (between : list (W → W)) : Io (A * W) unit :=
  match between with
  | [] => mret tt
  | happens :: between => λ '(application, w), (runOnce;; main_loop runOnce between) (application, happens w)
  end.

(** ** The forwarder *)

(** A call that may wait for the device forever. *)
Definition await {U A} (m : Io U A) (never : A) : State (option U) A := λ u,
  match u with
  | None => (never, None)
  | Some u => match m u with Some (a, u) => (a, Some u) | None => (never, None) end
  end.

#[export] Instance waiting_usart {U} `{!AvrUsart U} : AvrUsart (option U) := {
  read_register r u :=
    match u with None => (0, None) | Some u => let '(x, u) := read_register r u in (x, Some u) end;
  write_register r x u :=
    match u with None => (tt, None) | Some u => let '(_, u) := write_register r x u in (tt, Some u) end;
  F_CPU := F_CPU; BV := BV; U2X0 := U2X0; RXEN0 := RXEN0; TXEN0 := TXEN0;
  UCSZ01 := UCSZ01; UCSZ00 := UCSZ00; UDRE0 := UDRE0; RXC0 := RXC0;
}.

Section forwarder.
Context {U : Type} `{!AvrUsart U}.
(** The busy-wait bound and the payload limit of the link [link0_]. *)
Variables polls kMaximumPayloadSize : nat.

Definition forward (packet : PacketBuffer) (selected : Z) : State (option U) RouteResult.t :=
  let result := RouteResult.kNoEgress in
  result ←
    (if negb (Z.land selected kUartEgress =? 0) then
       admission ← await (UartHdlcForwarder.trySend polls kMaximumPayloadSize packet)
         LinkAdmission.kRejected;
       mret (combineAdmission result admission)
     else mret result);
  mret (if bool_decide (result = RouteResult.kNoEgress) then RouteResult.kAccepted else result).

(** The forwarder in an application's world, whose first half is the device. *)
Definition link_forwarder {B} : PacketForwarder (option U * B) :=
  λ packet selected, on_fst (forward packet selected).
End forwarder.

(** ** Sending on the test wire *)

Section sending.
Context {U B : Type} `{!AvrUsart U, !UsartModel U}.
Variables polls k : nat.
Hypothesis polls_enough : (latency U < polls)%nat.
Hypothesis k_fits : Z.of_nat k ≤ 32758.

#[local] Existing Instance link_forwarder | 0.

(** The bytes a packet of the application is on the line: its frame when it goes
    out on the test wire and fits the link. *)
Definition line_bytes (p : PacketBuffer) : bytes :=
  if bool_decide (wire (header p) = kTestWire) && (size p <=? Z.of_nat k)
  then wire_frame (packet_bytes p) else [].

(** A device [u] that has sent [bs] since [u0]. *)
Record wrote (u0 : U) (bs : bytes) (u : U) : Prop := {
  wrote_sent : sent u = sent u0 ++ bs;
  wrote_incoming : incoming u = incoming u0;
  wrote_busy : (busy u ≤ latency U)%nat;
}.

Lemma wrote_nil u : (busy u ≤ latency U)%nat → wrote u [] u.
Proof. intros. split; [by rewrite app_nil_r|done..]. Qed.
Lemma wrote_trans u0 u1 u2 bs1 bs2 :
  wrote u0 bs1 u1 → wrote u1 bs2 u2 → wrote u0 (bs1 ++ bs2) u2.
Proof.
  intros [Es Ei _] [Es' Ei' Hb]. split; [|congruence|done].
  by rewrite Es', Es, <- app_assoc.
Qed.

Lemma forward_waits p u :
  forward polls k p kUartEgress (Some u) =
    match UartHdlcForwarder.trySend polls k p u with
    | Some (a, u') => (combineAdmission RouteResult.kNoEgress a, Some u')
    | None => (RouteResult.kRejected, None)
    end.
Proof.
  unfold forward, mbind, State_bind, await. change (Z.land kUartEgress kUartEgress =? 0) with false.
  cbn [negb]. by destruct (UartHdlcForwarder.trySend polls k p u) as [[[] u']|].
Qed.

(** The device of a world in which nothing waits forever. *)
Definition alive (w : option U * B) : Prop :=
  ∃ u b, w = (Some u, b) ∧ incoming u = [] ∧ (busy u ≤ latency U)%nat.

Lemma forwarder_alive packet selected w :
  alive w → alive (forwarder_forward (PacketForwarder := link_forwarder polls k) packet selected w).2.
Proof.
  intros (u & b & -> & Hin & Hbusy). unfold forwarder_forward, link_forwarder, on_fst, forward,
    mbind, State_bind, await.
  destruct (negb _); [|by exists u, b].
  destruct (trySend_returns polls k polls_enough packet u Hbusy) as (r & u' & -> & Hin' & Hbusy').
  exists u', b. by split_and!; [|congruence|].
Qed.

(** A packet of local origin goes to the link exactly when its wire is the test
    wire. *)
Lemma local_packet_sends p u (b : B) :
  packet_wf p → ingressIndex p = 0 → (busy u ≤ latency U)%nat →
  ∃ u', (routerForward (PacketForwarder0 := link_forwarder polls k) kRoutes p (Some u, b)).2 = (Some u', b) ∧
    wrote u (line_bytes p) u' ∧
    (wire (header p) = kTestWire → size p ≤ Z.of_nat k →
     (routerForward (PacketForwarder0 := link_forwarder polls k) kRoutes p (Some u, b)).1 =
       RouteResult.kAccepted).
Proof.
  intros Hp Hingress Hbusy. unfold routerForward, line_bytes. rewrite Hingress. cbn -[bool_decide].
  rewrite (bool_decide_ext (kTestWire = _) (wire (header p) = kTestWire)) by done.
  case_bool_decide as Hwire; cbn [negb andb]; [|exists u; split_and!; [done|by apply wrote_nil|done]].
  change (u8 (Z.land kUartEgress (Z.lnot 0))) with kUartEgress.
  change ((kUartEgress =? kNoEgress) && false) with false. cbn iota.
  unfold forwarder_forward, link_forwarder, on_fst. rewrite forward_waits.
  destruct (Z.leb_spec (size p) (Z.of_nat k)) as [Hsize|Hsize].
  - destruct (trySend_sends polls k polls_enough k_fits p u Hp Hsize Hbusy)
      as (u' & E & Hin & Hsent & Hb).
    rewrite E. exists u'. split_and!; [done|by split|done].
  - exists u. unfold UartHdlcForwarder.trySend. rewrite (proj2 (Z.ltb_lt _ _)) by done.
    split_and!; [done|by apply wrote_nil|lia].
Qed.
End sending.

(** ** Receiving from the test wire *)

Section receiving.
Context {U B R Q : Type} `{!AvrUsart U, !UsartModel U, !EndpointReceiver R Q}.
Variables polls k : nat.

(** The application's receivers [Q] beside the device and the board. *)
Definition application_forwarder : PacketForwarder (option U * B * Q) :=
  λ packet selected, on_fst (forwarder_forward (PacketForwarder := link_forwarder polls k) packet selected).
#[local] Existing Instance application_forwarder | 0.

Variable dispatcher : list (DispatchTableEntry R).

(** What the receivers make of a packet from the wire. *)
Definition accept (q : Q) (packet : PacketBuffer) : Q :=
  if bool_decide (wire (header packet) = kTestWire)
  then (dispatch dispatcher (setIngressIndex kUartIngressIndex packet) kArduinoHostInfo q).2 else q.

Lemma dispatch_receivers packet host (x : option U * B) (q : Q) :
  (dispatch (W := option U * B * Q) dispatcher packet host (x, q)).2 =
    (x, (dispatch dispatcher packet host q).2).
Proof.
  rewrite dispatch_beside. unfold on_snd. by destruct (dispatch dispatcher packet host q).
Qed.

Lemma ingress_delivers packet (x : option U * B) (q : Q) :
  (Domain.domainReceive demo_domain packet kUartIngressIndex dispatcher (x, q)).2 =
    (x, accept q packet).
Proof.
  unfold Domain.domainReceive, routerReceive, accept, mbind, State_bind. cbv zeta.
  change (kUartIngressIndex =? 0) with false. cbn iota.
  set (packet' := setIngressIndex kUartIngressIndex packet).
  assert (E : routerForward (Domain.router_ demo_domain) packet' (x, q) =
    (if bool_decide (wire (header packet) = kTestWire)
     then RouteResult.kNoEgress else RouteResult.kNoRoute, (x, q))).
  { unfold routerForward. change (8 <? ingressIndex packet') with false. cbn -[bool_decide].
    rewrite (bool_decide_ext (kTestWire = _) (wire (header packet) = kTestWire)) by done.
    by case_bool_decide. }
  cbv beta. rewrite E. destruct (bool_decide_reflect (wire (header packet) = kTestWire)) as [Hwire|]; [|done].
  change (wire (header packet')) with (wire (header packet)). rewrite Hwire.
  change (isMemberOf (Domain.host_ demo_domain) kTestWire) with true.
  change (Domain.host_ demo_domain) with kArduinoHostInfo.
  change (bool_decide (RouteResult.kNoEgress = RouteResult.kNoRoute)
    || bool_decide (RouteResult.kNoEgress = RouteResult.kInvalidIngress) || negb true) with false.
  cbv iota beta. pose proof (dispatch_receivers packet' kArduinoHostInfo x q) as Hd.
  by destruct (dispatch dispatcher packet' kArduinoHostInfo (x, q)).
Qed.

(** One call of [process] in an application: everything that has arrived is read,
    and the receivers get every packet it contains, in order. *)
Lemma application_polls room rounds d (u : U) (b : B) (q : Q) :
  (length (incoming u) < rounds)%nat →
  let '(frames, d') := Decoder.receive (UartHdlcReceiver.kMaximumCanonicalSize room) d (incoming u) in
  ∃ u', UartHdlcReceiver.process room rounds demo_domain dispatcher kUartIngressIndex d
      (Some u, b, q) =
      Some (d', (Some u', b, fold_left accept (omap (UartHdlcReceiver.framePacket room) frames) q)) ∧
    incoming u' = [] ∧ sent u' = sent u ∧ (busy u' ≤ busy u)%nat.
Proof.
  intros Hrounds.
  apply (process_polls (λ u q, (Some u, b, q)) room demo_domain dispatcher kUartIngressIndex accept);
    [|done| |done|done].
  - intros r u0 q0. cbn. by destruct (read_register r u0).
  - intros packet u0 q0. apply ingress_delivers.
Qed.
End receiving.
