(* ===== verification/DemoApp.v ===== *)
(** * The Arduino demonstration application ([examples/arduino-uno/main.cpp])

    The UART link, the router, the ping, LED and heartbeat services and the dispatch
    table composed as the firmware composes them: one [runOnce] reads what the wire has
    brought, lets each service run once and writes their answers to the wire.  A round
    whose waiting never ends is [None]. *)

From S2P Require Import Prelude Crc Hdlc Containers Packet Routing Endpoints Mcp2515 UartLink.
From S2P Require Import Services Platform DemoWiring.
Local Open Scope Z_scope.

(** ** Definitions *)

Definition kMaximumPayloadSize : nat := 4.
(** [WS_PACKET_BUFFER_DEFINE(UartReceivePacket, kMaximumPayloadSize)]. *)
Definition kReceivePacketCapacity : Z := 4.
Definition kHeartbeatPeriod : Z := 1000.

(** The receivers of the dispatch table: the queues of two services. *)
Inductive ServiceReceiver := PingReceiver | LedControlReceiver.

#[export] Instance service_receivers : EndpointReceiver ServiceReceiver (ReceiverQueue * ReceiverQueue) :=
  λ r packet,
    match r with
    | PingReceiver => receiver packet
    | LedControlReceiver => λ '(ping, led),
        let '(result, (led, _)) := receiver packet (led, tt) in (result, (ping, led))
    end.

Definition dispatch_entries_ : list (DispatchTableEntry ServiceReceiver) :=
  [mkDispatchTableEntry kPingEndpoint (Some PingReceiver);
   mkDispatchTableEntry kLedControlEndpoint (Some LedControlReceiver)].

Record DemoApplication := {
  uart_receiver_ : Decoder.HdlcDecoder;
  heartbeat_service_ : Publisher;
  ping_service_ : ReceiverQueue;
  led_control_service_ : ReceiverQueue;
}.

Definition new_application : DemoApplication := {|
  uart_receiver_ := Decoder.initial (UartHdlcReceiver.kMaximumCanonicalSize kReceivePacketCapacity);
  heartbeat_service_ :=
    new_publisher (Some (Domain.router_ demo_domain))
      (Domain.publication_wire kDiagnosticsPublication) (host_id (Domain.host_ demo_domain))
      (Domain.publication_destination kDiagnosticsPublication);
  ping_service_ := EndpointQueue.empty kMessageSize kReceiveQueueCapacity;
  led_control_service_ := EndpointQueue.empty kMessageSize kReceiveQueueCapacity |}.

(** [DemoApplication::initialize]. *)
Definition initialize {W} `{!AvrUsart W, !AvrSpi W, !AvrTimers W} : State W unit :=
  Platform.initialize kUartBaudRate.

Section application.
(** The device and the board, with the clock and the LED. *)
Context {U B : Type} `{!AvrUsart U, !MillisecondClock B, !BrightnessOutput B}.
Variables polls rounds : nat.

#[local] Instance world_forwarder : PacketForwarder (option U * B) :=
  link_forwarder polls kMaximumPayloadSize.
#[local] Instance polling_forwarder {Q} : PacketForwarder (option U * B * Q) :=
  application_forwarder polls kMaximumPayloadSize.
#[local] Instance world_clock : MillisecondClock (option U * B) := on_snd clockNow.
#[local] Instance world_brightness : BrightnessOutput (option U * B) :=
  λ brightness, on_snd (setBrightness brightness).

Definition runOnce : Io (DemoApplication * (U * B)) unit := λ '(app, (u, b)),
  match UartHdlcReceiver.process kReceivePacketCapacity rounds demo_domain dispatch_entries_
          kUartIngressIndex (uart_receiver_ app)
          (Some u, b, (ping_service_ app, led_control_service_ app)) with
  | None => None
  | Some (decoder, (w, (ping, led))) =>
      let '(_, (ping, w)) := Ping.run (Some (Domain.router_ demo_domain)) (ping, w) in
      let '(_, (led, w)) := LedControl.run (Some (Domain.router_ demo_domain)) true (led, w) in
      let '(_, (heartbeat, w)) := Heartbeat.run kHeartbeatPeriod (heartbeat_service_ app, w) in
      match w with
      | (None, _) => None
      | (Some u, b) =>
          Some (tt, ({| uart_receiver_ := decoder; heartbeat_service_ := heartbeat;
                        ping_service_ := ping; led_control_service_ := led |}, (u, b)))
      end
  end.
End application.

(** ** What a round does *)

(** The packets a service's receiver takes off the wire, with the ingress stamped. *)
Definition offered (e : EndpointAddress) (p : PacketBuffer) : bool :=
  bool_decide (wire (header p) = kTestWire) && hasSupportedControl (header p)
  && (transportType (header p) =? kSimple) && bool_decide (e = endpoint (header p))
  && (isBroadcast (destination (header p)) || bool_decide (kArduinoHost = destination (header p))).

Definition stamped (p : PacketBuffer) : View := (header p, kUartIngressIndex, payload p).

Definition requests (e : EndpointAddress) (ps : list PacketBuffer) : list View :=
  stamped <$> List.filter (offered e) ps.

(** What the services send back. *)
Definition ping_reply (v : View) : list PacketBuffer :=
  match request_of Ping.kMagic v with
  | Some (h, rest) =>
      [message_packet kNormalControl (wire h) (destination h) (source h) (endpoint h)
         (Ping.kMagic :: Ping.kResponse :: rest)]
  | None => []
  end.
Definition led_reply (v : View) : list PacketBuffer :=
  match request_of LedControl.kMagic v with
  | Some (h, [brightness; sequence_number]) =>
      [message_packet kNormalControl (wire h) (destination h) (source h) kLedControlEndpoint
         [LedControl.kMagic; LedControl.kResponse; brightness; sequence_number]]
  | _ => []
  end.
Definition led_brightness (v : View) : list Z :=
  match request_of LedControl.kMagic v with
  | Some (_, [brightness; _]) => [brightness]
  | _ => []
  end.

Definition heartbeat_packet (now_ms : Z) : PacketBuffer :=
  message_packet kNormalControl kTestWire kArduinoHost (mkHostId kBroadcastHostValue)
    (endpoint_from kCommon Heartbeat.kEndpointId) (u32_bytes now_ms).

Section board.
Context {B : Type} `{!MillisecondClock B, !BrightnessOutput B}.

Definition apply_brightness (b : B) (brightness : Z) : B := (setBrightness brightness b).2.

(** The heartbeat's part: what it sends, the publisher and the board afterwards. *)
Definition heartbeat_round (p : Publisher) (b : B) : list PacketBuffer * Publisher * B :=
  let '(now_ms, b) := clockNow b in
  if kHeartbeatPeriod <=? u32 (now_ms - last_send_time_ms_ p)
  then let '(sent_ms, b) := clockNow b in
       ([heartbeat_packet sent_ms], set_last_send_time_ms_ now_ms p, b)
  else ([], p, b).
End board.

(** The application between two rounds: nothing is queued. *)
Record app_wf (app : DemoApplication) : Prop := {
  app_decoder : Hdlc.wf (UartHdlcReceiver.kMaximumCanonicalSize kReceivePacketCapacity) (uart_receiver_ app);
  app_ready : Decoder.frame_ready_ (uart_receiver_ app) = false;
  app_ping : queue_wf (ping_service_ app) ∧ queued (ping_service_ app) = [];
  app_led : queue_wf (led_control_service_ app) ∧ queued (led_control_service_ app) = [];
  app_heartbeat : ∃ t, heartbeat_service_ app =
    set_last_send_time_ms_ t (heartbeat_service_ new_application);
}.

(** ** Queueing *)

Lemma queued_bound q : queue_wf q → (length (queued q) ≤ 2)%nat.
Proof.
  intros [Hq _]. unfold queued. rewrite length_fmap. unfold EndpointQueue.contents, Queue.contents.
  rewrite ring_length. pose proof (Queue.wf_size _ _ Hq). unfold kReceiveQueueCapacity in *. lia.
Qed.

Lemma receiver_queues {W} q (w : W) p :
  queue_wf q → packet_wf p → size p ≤ kMessageSize →
  let '(_, (q', w')) := receiver p (q, w) in
  w' = w ∧ queue_wf q' ∧
  queued q' = if hasSupportedControl (header p) && (transportType (header p) =? kSimple)
              then take 2 (queued q ++ [EndpointQueue.view p]) else queued q.
Proof.
  intros Hq Hp Hsize. unfold receiver, filteredReceive.
  destruct (hasSupportedControl (header p)), (transportType (header p) =? kSimple); try done.
  cbn [negb orb andb]. unfold receiver_receive, queue_receiver.
  pose proof (EndpointQueue.endpoint_exec_refines kMessageSize kReceiveQueueCapacity
    ltac:(by_evaluation) ltac:(by_evaluation) (EndpointQueue.Receive p) q (conj Hq Hp)) as [Hwf Href].
  pose proof (queued_bound q Hq) as Hbound. unfold queued in *. simpl in Hwf, Href.
  destruct (EndpointQueue.receive _ _ p q) as [r q']. simpl in *. split_and!; [done..|].
  destruct (Z.ltb_spec kMessageSize (size p)); [lia|].
  change (Z.to_nat kReceiveQueueCapacity) with 2%nat in Href.
  rewrite length_fmap in Href, Hbound.
  case_bool_decide as Hroom; injection Href as _ <-.
  - rewrite take_ge; [done|]. rewrite length_app, length_fmap. cbn [length]. lia.
  - rewrite take_app_length'; [done|]. rewrite length_fmap. lia.
Qed.

Lemma endpoints_differ : kPingEndpoint ≠ kLedControlEndpoint.
Proof. by_evaluation. Qed.

(** The receivers of the demonstration's dispatch table a packet of its wire is for. *)
Lemma addressed_services p :
  hasSupportedControl (header p) = true → wire (header p) = kTestWire →
  addressed dispatch_entries_ p kArduinoHostInfo =
    if isBroadcast (destination (header p)) || bool_decide (kArduinoHost = destination (header p))
    then if bool_decide (kPingEndpoint = endpoint (header p)) then [PingReceiver]
         else if bool_decide (kLedControlEndpoint = endpoint (header p)) then [LedControlReceiver] else []
    else [].
Proof.
  intros Hctl Hwire. unfold addressed, registered, dispatch_entries_. rewrite Hctl, Hwire.
  change (isMemberOf kArduinoHostInfo kTestWire) with true. cbn [negb omap list_omap entry_endpoint
    entry_receiver].
  change (host_id kArduinoHostInfo) with kArduinoHost.
  pose proof endpoints_differ. destruct (isBroadcast _); cbn [orb];
    repeat first [case_bool_decide | case_decide]; simpl; congruence.
Qed.

(** The queues after one packet: it is queued for the service it is for, if that has
    room. *)
Lemma accept_queues ping led p :
  queue_wf ping → queue_wf led → packet_wf p → size p ≤ kMessageSize →
  let '(ping', led') := accept dispatch_entries_ (ping, led) p in
  queue_wf ping' ∧ queued ping' = take 2 (queued ping ++ requests kPingEndpoint [p]) ∧
  queue_wf led' ∧ queued led' = take 2 (queued led ++ requests kLedControlEndpoint [p]).
Proof.
  intros Hping Hled Hp Hsize. unfold accept, requests, offered. simpl List.filter.
  set (stamp := setIngressIndex kUartIngressIndex p).
  assert (Hstamp : packet_wf stamp ∧ size stamp ≤ kMessageSize).
  { split; [|done]. by destruct Hp; split. }
  assert (Hq : ∀ q, queue_wf q → queue_wf q ∧ queued q = take 2 (queued q ++ [])).
  { intros q Hq. split; [done|]. by rewrite app_nil_r, take_ge by by apply queued_bound. }
  destruct (bool_decide_reflect (wire (header p) = kTestWire)) as [Hwire|]; cbn [andb];
    [|destruct (Hq ping Hping), (Hq led Hled); by split_and!].
  rewrite dispatch_addressed. change (header stamp) with (header p).
  destruct (hasSupportedControl (header p)) eqn:Hctl; cbn [andb snd];
    [|destruct (Hq ping Hping), (Hq led Hled); by split_and!].
  rewrite addressed_services by done. change (header stamp) with (header p).
  pose proof endpoints_differ as Hdiffer.
  pose proof (receiver_queues ping led stamp Hping) as Hrp.
  pose proof (receiver_queues led tt stamp Hled) as Hrl.
  change (header stamp) with (header p) in *. rewrite Hctl in *. cbn [andb] in *.
  destruct Hstamp as [Hstamp Hsize']. specialize (Hrp Hstamp Hsize'). specialize (Hrl Hstamp Hsize').
  destruct (isBroadcast _ || bool_decide (kArduinoHost = _)); cbn [offer_all];
    rewrite ?andb_true_r, ?andb_false_r; cbn [andb];
    [|destruct (Hq ping Hping), (Hq led Hled); by split_and!].
  destruct (bool_decide_reflect (kPingEndpoint = endpoint (header p))) as [Hep|];
    [|destruct (bool_decide_reflect (kLedControlEndpoint = endpoint (header p)))];
    cbn [offer_all]; unfold mbind, State_bind, receiver_receive, service_receivers;
    rewrite ?andb_true_r, ?andb_false_r.
  - rewrite bool_decide_eq_false_2, andb_false_r by congruence.
    destruct (receiver stamp (ping, led)) as [r [ping' led']]. destruct Hrp as (-> & Hwf & E).
    destruct (Hq ping Hping), (Hq led Hled). cbn -[take]. rewrite E.
    by destruct (transportType (header p) =? kSimple); split_and!.
  - destruct (receiver stamp (led, tt)) as [r [led' []]]. destruct Hrl as (_ & Hwf & E).
    destruct (Hq ping Hping), (Hq led Hled). cbn -[take]. rewrite E.
    by destruct (transportType (header p) =? kSimple); split_and!.
  - destruct (Hq ping Hping), (Hq led Hled). by split_and!.
Qed.

(** The queues after a round's packets: the first two requests for each service. *)
Lemma accept_all_queues ps ping led :
  Forall (λ p, packet_wf p ∧ size p ≤ kMessageSize) ps → queue_wf ping → queue_wf led →
  let '(ping', led') := fold_left (accept dispatch_entries_) ps (ping, led) in
  queue_wf ping' ∧ queued ping' = take 2 (queued ping ++ requests kPingEndpoint ps) ∧
  queue_wf led' ∧ queued led' = take 2 (queued led ++ requests kLedControlEndpoint ps).
Proof.
  intros Hps. revert ping led. induction Hps as [|p ps [Hp Hsize] _ IH]; intros ping led Hping Hled;
    cbn [fold_left].
  - unfold requests. simpl. rewrite !app_nil_r, !take_ge by by apply queued_bound. by split_and!.
  - pose proof (accept_queues ping led p Hping Hled Hp Hsize) as H.
    destruct (accept dispatch_entries_ (ping, led) p) as [ping1 led1].
    destruct H as (Hping1 & Eping & Hled1 & Eled). specialize (IH ping1 led1 Hping1 Hled1).
    destruct (fold_left _ ps (ping1, led1)) as [ping' led'].
    destruct IH as (? & -> & ? & ->). rewrite Eping, Eled.
    assert (Htake : ∀ l l1 l2 : list View, take 2 (take 2 (l ++ l1) ++ l2) = take 2 (l ++ l1 ++ l2)).
    { intros l l1 l2. rewrite (app_assoc l). generalize (l ++ l1). clear.
      intros [|x [|y [|z l]]]; done. }
    assert (Hreq : ∀ e, requests e (p :: ps) = requests e [p] ++ requests e ps).
    { intros e. unfold requests. rewrite <- fmap_app. simpl. by destruct (offered e p). }
    rewrite !Htake, !Hreq. by split_and!.
Qed.

(** ** Answering *)

(** The bytes of packets on the line, one frame each. *)
Definition frames (ps : list PacketBuffer) : bytes := flat_map wire_frame (packet_bytes <$> ps).

Lemma frames_app ps qs : frames (ps ++ qs) = frames ps ++ frames qs.
Proof. unfold frames. by rewrite fmap_app, flat_map_app. Qed.

(** Packets of the services, ready for the link. *)
Definition sendable (p : PacketBuffer) : Prop :=
  packet_wf p ∧ ingressIndex p = 0 ∧ wire (header p) = kTestWire ∧ size p = kMessageSize.

Lemma message_sendable control_byte source destination endpoint message :
  is_u8 control_byte → is_u8 (host_value source) → is_u8 (host_value destination) →
  is_u16 (endpoint_value endpoint) → is_bytes message → length message = 4%nat →
  sendable (message_packet control_byte kTestWire source destination endpoint message).
Proof.
  intros. split_and!; [|done..]. split; simpl; try done; by split.
Qed.

(** The requests a queue can hold. *)
Definition request_wf (v : View) : Prop :=
  let '(h, _, p) := v in header_wf h ∧ wire h = kTestWire ∧ is_bytes p.

Lemma requests_wf e ps :
  Forall (λ p, packet_wf p ∧ size p ≤ kMessageSize) ps → Forall request_wf (requests e ps).
Proof.
  induction 1 as [|p ps [Hp _] _ IH]; [done|]. unfold requests in *. simpl.
  destruct (offered e p) eqn:E; [|done]. simpl. apply List.Forall_cons; [|done].
  unfold offered in E. rewrite !andb_true_iff in E. destruct E as [[[[Hwire%bool_decide_eq_true _] _] _] _].
  split_and!; [apply Hp|done|by apply payload_bytes].
Qed.

Lemma request_of_wf magic v h rest :
  request_wf v → request_of magic v = Some (h, rest) →
  header_wf h ∧ wire h = kTestWire ∧ is_bytes rest ∧ length rest = 2%nat.
Proof.
  destruct v as [[h' i] [|m [|t [|a [|b [|]]]]]]; try done. intros (Hh & Hwire & Hp). simpl.
  destruct (_ && _); [|done]. intros [= <- <-]. split_and!; [done..| |done].
  by apply (Forall_drop _ 2) in Hp.
Qed.

Lemma ping_reply_sendable v : request_wf v → Forall sendable (ping_reply v).
Proof.
  intros Hv. unfold ping_reply. destruct (request_of _ v) as [[h rest]|] eqn:E; [|done].
  destruct (request_of_wf _ _ _ _ Hv E) as (Hh & Hwire & Hrest & Hlen). apply Forall_singleton.
  rewrite Hwire. apply message_sendable; [by split|apply Hh|apply Hh|apply Hh| |].
  - apply List.Forall_cons; [by split|]. apply List.Forall_cons; [by split|done].
  - simpl. by rewrite Hlen.
Qed.

Lemma led_reply_sendable v : request_wf v → Forall sendable (led_reply v).
Proof.
  intros Hv. unfold led_reply. destruct (request_of _ v) as [[h rest]|] eqn:E; [|done].
  destruct (request_of_wf _ _ _ _ Hv E) as (Hh & Hwire & Hrest & Hlen).
  destruct rest as [|x [|y [|]]]; try done. apply Forall_singleton.
  rewrite Hwire. apply message_sendable; [by split|apply Hh|apply Hh|by split| |done].
  apply List.Forall_cons; [by split|]. by apply List.Forall_cons; [by split|].
Qed.

Section answering.
Context {U B : Type} `{!AvrUsart U, !UsartModel U, !MillisecondClock B, !BrightnessOutput B}.
Variables polls rounds : nat.
Hypothesis polls_enough : (latency U < polls)%nat.

#[local] Existing Instance world_forwarder | 0.
#[local] Existing Instance world_brightness | 0.
#[local] Existing Instance world_clock | 0.

Lemma forwardOn_sends p u (b : B) :
  sendable p → (busy u ≤ latency U)%nat →
  ∃ u', (forwardOn (PacketForwarder0 := world_forwarder polls) (Some kRoutes) p (Some u, b)).2 =
      (Some u', b) ∧ wrote u (frames [p]) u'.
Proof.
  intros (Hp & Hingress & Hwire & Hsize) Hbusy.
  destruct (local_packet_sends polls kMaximumPayloadSize polls_enough ltac:(by_evaluation)
    p u b Hp Hingress Hbusy) as (u' & E & Hwrote & _).
  exists u'. unfold forwardOn, mbind, State_bind. unfold world_forwarder.
  destruct (routerForward kRoutes p (Some u, b)) as [r w]. split; [done|].
  unfold line_bytes in Hwrote. rewrite bool_decide_eq_true_2, Hsize in Hwrote by done.
  unfold frames. simpl. by rewrite app_nil_r.
Qed.

(** Serving requests one after the other, when each is answered with its replies. *)
Lemma answers_write (answer : View → option U * B → option U * B) (reply : View → list PacketBuffer)
    (board : B → View → B) vs u b :
  (∀ v u b, request_wf v → (busy u ≤ latency U)%nat →
    ∃ u', answer v (Some u, b) = (Some u', board b v) ∧ wrote u (frames (reply v)) u') →
  Forall request_wf vs → (busy u ≤ latency U)%nat →
  ∃ u', foldl (λ w v, answer v w) (Some u, b) vs = (Some u', foldl board b vs) ∧
    wrote u (frames (flat_map reply vs)) u'.
Proof.
  intros Hanswer Hvs. revert u b. induction Hvs as [|v vs Hv _ IH]; intros u b Hbusy; simpl.
  { exists u. split; [done|]. by apply wrote_nil. }
  destruct (Hanswer v u b Hv Hbusy) as (u1 & -> & Hw1).
  destruct (IH u1 (board b v) (wrote_busy _ _ _ Hw1)) as (u' & -> & Hw). exists u'. split; [done|].
  rewrite frames_app. by eapply wrote_trans.
Qed.

Lemma ping_answer_writes v u (b : B) :
  request_wf v → (busy u ≤ latency U)%nat →
  ∃ u', ping_answer (PacketForwarder0 := world_forwarder polls) (Some kRoutes) v (Some u, b) = (Some u', b) ∧
    wrote u (frames (ping_reply v)) u'.
Proof.
  intros Hv Hbusy. pose proof (ping_reply_sendable v Hv) as Hsend. unfold ping_answer, ping_reply in *.
  destruct (request_of _ v) as [[h rest]|]; [|exists u; split; [done|by apply wrote_nil]].
  apply list.Forall_cons in Hsend as [Hsend _]. by apply forwardOn_sends.
Qed.

Lemma led_answer_writes v u (b : B) :
  request_wf v → (busy u ≤ latency U)%nat →
  ∃ u', led_answer (PacketForwarder0 := world_forwarder polls) (BrightnessOutput0 := world_brightness)
      (Some kRoutes) true v (Some u, b) =
      (Some u', foldl apply_brightness b (led_brightness v)) ∧
    wrote u (frames (led_reply v)) u'.
Proof.
  intros Hv Hbusy. pose proof (led_reply_sendable v Hv) as Hsend.
  unfold led_answer, led_reply, led_brightness in *.
  destruct (request_of _ v) as [[h [|x [|y [|]]]]|]; try (exists u; split; [done|by apply wrote_nil]).
  apply list.Forall_cons in Hsend as [Hsend _]. unfold setBrightness, world_brightness, on_snd.
  change (bool_decide (is_Some (Some kRoutes)) && true) with true. cbn iota. simpl foldl.
  unfold apply_brightness, setBrightness. destruct (_ x b) as [[] b']. by apply forwardOn_sends.
Qed.

Lemma world_clock_reads u (b : B) :
  clockNow (MillisecondClock := world_clock (U := U)) (u, b) =
    let '(now_ms, b') := clockNow b in (now_ms, (u, b')).
Proof. done. Qed.

Lemma heartbeat_writes t u (b : B) :
  (busy u ≤ latency U)%nat →
  let p := set_last_send_time_ms_ t (heartbeat_service_ new_application) in
  let '(beats, p', b') := heartbeat_round p b in
  (∃ u', Heartbeat.run (PacketForwarder0 := world_forwarder polls) (MillisecondClock0 := world_clock)
      kHeartbeatPeriod (p, (Some u, b)) = (tt, (p', (Some u', b'))) ∧ wrote u (frames beats) u') ∧
  ∃ t', p' = set_last_send_time_ms_ t' (heartbeat_service_ new_application).
Proof.
  intros Hbusy. cbv zeta. set (p := set_last_send_time_ms_ t _).
  unfold heartbeat_round, Heartbeat.run. rewrite world_clock_reads.
  destruct (clockNow b) as [now_ms b1].
  destruct (kHeartbeatPeriod <=? _).
  2: { split; [|by exists t]. exists u. split; [done|by apply wrote_nil]. }
  unfold Heartbeat.sendHeartbeat. change (router_ (set_last_send_time_ms_ now_ms p)) with (Some kRoutes).
  unfold mbind, State_bind. rewrite world_clock_reads.
  destruct (clockNow b1) as [sent_ms b2]. split; [|by exists now_ms].
  destruct (forwardOn_sends (heartbeat_packet sent_ms) u b2) as (u' & E & Hw); [|done|].
  { apply message_sendable; [by split|by split|by split|by split| |done].
    unfold u32_bytes. solve_bytes. }
  exists u'. split; [|done]. cbv beta zeta. unfold forwardOn, mbind, State_bind in E.
  change (write_payload 0 (u32_bytes sent_ms) _) with (heartbeat_packet sent_ms).
  destruct (routerForward kRoutes (heartbeat_packet sent_ms) (Some u, b2)) as [r w].
  cbn in E. by rewrite E.
Qed.

(** The packets a round takes off the wire. *)
Definition round_packets (app : DemoApplication) (stream : bytes) : list PacketBuffer :=
  omap (UartHdlcReceiver.framePacket kReceivePacketCapacity)
    (Decoder.receive (UartHdlcReceiver.kMaximumCanonicalSize kReceivePacketCapacity)
       (uart_receiver_ app) stream).1.

Lemma round_packets_wf app stream :
  app_wf app → is_bytes stream →
  Forall (λ p, packet_wf p ∧ size p ≤ kMessageSize) (round_packets app stream).
Proof.
  intros Happ Hstream. unfold round_packets.
  pose proof (receive_bytes _ _ stream (app_decoder _ Happ) (app_ready _ Happ) Hstream) as Hframes.
  induction Hframes as [|frame l Hframe _ IH]; [done|]. cbn [omap list_omap].
  destruct (UartHdlcReceiver.framePacket _ frame) as [p|] eqn:E; [|done].
  apply List.Forall_cons; [|done].
  destruct (framePacket_wf kReceivePacketCapacity frame p ltac:(by_evaluation) Hframe E) as (Hp &
    Hsize & _). by split.
Qed.

(** The two services that serve a queue: it is emptied and its replies are on the line. *)
Lemma ping_run_writes q u (b : B) :
  queue_wf q → Forall request_wf (queued q) → (busy u ≤ latency U)%nat →
  ∃ q' u', Ping.run (PacketForwarder0 := world_forwarder polls) (Some kRoutes) (q, (Some u, b)) =
      (tt, (q', (Some u', b))) ∧
    queue_wf q' ∧ queued q' = [] ∧ wrote u (frames (flat_map ping_reply (queued q))) u'.
Proof.
  intros Hq Hrequests Hbusy.
  destruct (answers_write (ping_answer (PacketForwarder0 := world_forwarder polls) (Some kRoutes))
    ping_reply (λ b _, b) (queued q) u b) as (u' & E & Hwrote);
    [intros; by apply ping_answer_writes|done|done|].
  assert (∀ vs : list View, foldl (λ b _, b) b vs = b) as Hsame by (intros vs; by induction vs).
  rewrite Hsame in E.
  pose proof (serveAll_spec (Ping.processRequest (PacketForwarder0 := world_forwarder polls) (Some kRoutes))
    _ q (Some u, b) (ping_processRequest (Some kRoutes)) Hq) as Hserve.
  cbv zeta in Hserve. rewrite E in Hserve. unfold Ping.run.
  destruct (serveAll _ (q, (Some u, b))) as [[] [q' w]]. destruct Hserve as (Hq' & Eq' & Ew).
  simpl in Hq', Eq', Ew. subst w. by exists q', u'.
Qed.

Lemma led_run_writes q u (b : B) :
  queue_wf q → Forall request_wf (queued q) → (busy u ≤ latency U)%nat →
  ∃ q' u', LedControl.run (PacketForwarder0 := world_forwarder polls)
      (BrightnessOutput0 := world_brightness) (Some kRoutes) true (q, (Some u, b)) =
      (tt, (q', (Some u', foldl (λ b v, foldl apply_brightness b (led_brightness v)) b (queued q)))) ∧
    queue_wf q' ∧ queued q' = [] ∧ wrote u (frames (flat_map led_reply (queued q))) u'.
Proof.
  intros Hq Hrequests Hbusy.
  destruct (answers_write (led_answer (PacketForwarder0 := world_forwarder polls)
      (BrightnessOutput0 := world_brightness) (Some kRoutes) true)
    led_reply (λ b v, foldl apply_brightness b (led_brightness v)) (queued q) u b) as (u' & E & Hwrote);
    [intros; by apply led_answer_writes|done|done|].
  pose proof (serveAll_spec (LedControl.processRequest (PacketForwarder0 := world_forwarder polls)
      (BrightnessOutput0 := world_brightness) (Some kRoutes) true)
    _ q (Some u, b) (led_processRequest (Some kRoutes) true) Hq) as Hserve.
  cbv zeta in Hserve. rewrite E in Hserve. unfold LedControl.run.
  destruct (serveAll _ (q, (Some u, b))) as [[] [q' w]]. destruct Hserve as (Hq' & Eq' & Ew).
  simpl in Hq', Eq', Ew. subst w. by exists q', u'.
Qed.

Lemma round_spec app u (b : B) :
  (busy u ≤ latency U)%nat → app_wf app → is_bytes (incoming u) → (length (incoming u) < rounds)%nat →
  let packets := round_packets app (incoming u) in
  let pings := take 2 (requests kPingEndpoint packets) in
  let leds := take 2 (requests kLedControlEndpoint packets) in
  let b1 := foldl (λ b v, foldl apply_brightness b (led_brightness v)) b leds in
  let '(beats, heartbeat, b2) := heartbeat_round (heartbeat_service_ app) b1 in
  ∃ app' u', runOnce polls rounds (app, (u, b)) = Some (tt, (app', (u', b2))) ∧
    app_wf app' ∧ heartbeat_service_ app' = heartbeat ∧ incoming u' = [] ∧
    (busy u' ≤ latency U)%nat ∧
    sent u' = sent u ++ frames (flat_map ping_reply pings ++ flat_map led_reply leds ++ beats).
Proof.
  intros Hbusy Happ Hstream Hrounds. cbv zeta.
  pose proof (round_packets_wf app _ Happ Hstream) as Hpackets.
  destruct Happ as [Hdec Hready [Hping Eping] [Hled Eled] [t Hbeat]].
  pose proof (receive_refines _ _ _ Hdec Hready Hstream) as Href.
  pose proof (application_polls (B := B) polls kMaximumPayloadSize dispatch_entries_
    kReceivePacketCapacity rounds (uart_receiver_ app) u b
    (ping_service_ app, led_control_service_ app) Hrounds) as Hpoll.
  pose proof (accept_all_queues _ _ _ Hpackets Hping Hled) as Hqueues.
  unfold round_packets, runOnce in *. unfold polling_forwarder.
  destruct (Decoder.receive _ (uart_receiver_ app) (incoming u)) as [fs d']. cbn [fst] in *.
  destruct Href as (Hdec' & Hready' & _). destruct Hpoll as (u1 & -> & Hin1 & Hsent1 & Hbusy1).
  destruct (fold_left _ _ _) as [ping1 led1]. destruct Hqueues as (Hping1 & Eping1 & Hled1 & Eled1).
  rewrite Eping, app_nil_l in Eping1. rewrite Eled, app_nil_l in Eled1.
  revert Eping1 Eled1. generalize (requests_wf kPingEndpoint _ Hpackets) (requests_wf
    kLedControlEndpoint _ Hpackets).
  generalize (requests kPingEndpoint (omap (UartHdlcReceiver.framePacket kReceivePacketCapacity) fs))
    (requests kLedControlEndpoint (omap (UartHdlcReceiver.framePacket kReceivePacketCapacity) fs)).
  intros pings leds Hpings Hleds Eping1 Eled1.
  apply (Forall_take _ 2) in Hpings, Hleds.
  rewrite <- Eping1 in *. rewrite <- Eled1 in *.
  destruct (ping_run_writes ping1 u1 b) as (ping2 & u2 & E2 & Hping2 & Eping2 & W2); [done|done|lia|].
  destruct (led_run_writes led1 u2 b) as (led2 & u3 & E3 & Hled2 & Eled2 & W3); [done|done|apply W2|].
  change (Domain.router_ demo_domain) with kRoutes. rewrite E2, E3.
  set (b1 := foldl _ b (queued led1)).
  pose proof (heartbeat_writes t u3 b1 (wrote_busy _ _ _ W3)) as Hbeats. cbv zeta in Hbeats.
  rewrite <- Hbeat in Hbeats. destruct (heartbeat_round _ b1) as [[beats heartbeat] b2].
  destruct Hbeats as [(u4 & -> & W4) Hbeat'].
  eexists _, u4. split; [done|]. split_and!.
  - by split; [done|done|done|done|exact Hbeat'].
  - done.
  - destruct W2, W3, W4. congruence.
  - apply W4.
  - rewrite (wrote_sent _ _ _ W4), (wrote_sent _ _ _ W3), (wrote_sent _ _ _ W2), Hsent1, !frames_app.
    by rewrite <- !app_assoc.
Qed.
End answering.

(** ** Properties *)

Lemma new_application_wf : app_wf new_application.
Proof.
  assert (Hq : queue_wf (EndpointQueue.empty kMessageSize kReceiveQueueCapacity) ∧
    queued (EndpointQueue.empty kMessageSize kReceiveQueueCapacity) = []).
  { destruct (EndpointQueue.endpoint_empty_wf kMessageSize kReceiveQueueCapacity
      ltac:(by_evaluation)) as [Hwf Hc].
    split; [done|]. unfold queued. by rewrite Hc. }
  split; [apply wf_initial|done|done|done|by exists 0].
Qed.

(** C16: One round of the firmware, from any state between two rounds and whatever bytes
    have arrived, returns: it takes every packet off the wire, and then the line has, in
    this order, the answer to each of the first two packets queued for the ping service
    that is a request, the acknowledgement of each of the first two LED requests, whose
    brightness the LED has been set to in order, and a heartbeat exactly when its
    period has passed; nothing else is sent, nothing stays queued. *)
Theorem demo_run_once {U B} `{!AvrUsart U, !UsartModel U, !MillisecondClock B, !BrightnessOutput B}
    (polls rounds : nat) (app : DemoApplication) (u : U) (b : B) :
  (latency U < polls)%nat → (busy u ≤ latency U)%nat → app_wf app →
  is_bytes (incoming u) → (length (incoming u) < rounds)%nat →
  let packets := round_packets app (incoming u) in
  let pings := take 2 (requests kPingEndpoint packets) in
  let leds := take 2 (requests kLedControlEndpoint packets) in
  let b1 := foldl (λ b v, foldl apply_brightness b (led_brightness v)) b leds in
  let '(beats, heartbeat, b2) := heartbeat_round (heartbeat_service_ app) b1 in
  ∃ app' u', runOnce polls rounds (app, (u, b)) = Some (tt, (app', (u', b2))) ∧
    app_wf app' ∧ heartbeat_service_ app' = heartbeat ∧ incoming u' = [] ∧
    (busy u' ≤ latency U)%nat ∧
    sent u' = sent u ++ frames (flat_map ping_reply pings ++ flat_map led_reply leds ++ beats).
Proof. intros Hpolls. by apply round_spec. Qed.

(** C32: The loop of the firmware never hangs in a wait: if before every round the device is
    ready in time and fewer bytes have arrived than a round reads, every number of
    rounds returns, and the application is well formed after them. *)
Theorem demo_loop_returns {U B} `{!AvrUsart U, !UsartModel U, !MillisecondClock B, !BrightnessOutput B}
    (polls rounds : nat) (between : list (U * B → U * B)) (u : U) (b : B) :
  (latency U < polls)%nat → (busy u ≤ latency U)%nat → incoming u = [] →
  Forall (λ happens, ∀ u b, incoming u = [] → (busy u ≤ latency U)%nat →
    let u' := (happens (u, b)).1 in
    (busy u' ≤ latency U)%nat ∧ is_bytes (incoming u') ∧ (length (incoming u') < rounds)%nat)
    between →
  ∃ app' w', main_loop (runOnce polls rounds) between (new_application, (u, b)) = Some (tt, (app', w')) ∧
    app_wf app'.
Proof.
  intros Hpolls Hbusy Hin Hbetween. pose proof new_application_wf as Happ.
  revert Happ. generalize new_application. revert u b Hbusy Hin.
  induction Hbetween as [|happens between Hhappens _ IH]; intros u b Hbusy Hin app Happ; cbn [main_loop].
  { by exists app, (u, b). }
  specialize (Hhappens u b Hin Hbusy). destruct (happens (u, b)) as [u1 b1].
  destruct Hhappens as (Hbusy1 & Hbytes & Hlen). cbn [fst] in *.
  pose proof (round_spec polls rounds Hpolls app u1 b1 Hbusy1 Happ Hbytes Hlen) as H.
  cbv zeta in H. destruct (heartbeat_round _ _) as [[beats heartbeat] b2].
  destruct H as (app2 & u2 & E & Happ2 & _ & Hin2 & Hbusy2 & _).
  unfold mbind, Io_bind. rewrite E. by apply IH.
Qed.

(** *** Witnesses: the demonstration device beside a clock and the brightnesses set *)

Module DemoBoard.
Import DemoUsart.
Definition Board : Type := Z * list Z.
#[export] Instance board_clock : MillisecondClock Board := gets fst.
#[export] Instance board_brightness : BrightnessOutput Board :=
  λ brightness '(t, set), (tt, (t, set ++ [brightness])).

(** The PC's ping and LED requests. *)
Definition from_pc (endpoint : EndpointAddress) (message : bytes) : PacketBuffer :=
  message_packet kNormalControl kTestWire kPcHost kArduinoHost endpoint message.
Definition ping_request : PacketBuffer := from_pc kPingEndpoint [0xAB; 1; 0x7E; 9].
Definition led_request : PacketBuffer := from_pc kLedControlEndpoint [0x4C; 1; 200; 3].
Definition device : Usart := {| rx := frames [ping_request; led_request]; tx := []; wait := 2 |}.
Definition quiet : Usart := {| rx := []; tx := []; wait := 0 |}.
Definition start : Board := (0, []).
Definition bytes_arrive : Usart * Board → Usart * Board := λ '(_, b), (device, b).
Definition second_passes : Usart * Board → Usart * Board := λ '(u, (t, l)), (u, (t + 1000, l)).
End DemoBoard.

Import DemoUsart DemoBoard.

Lemma demo_run_once_witness :
  ∃ app' u',
    runOnce 4 100 (new_application, (DemoBoard.device, (1000, []) : DemoBoard.Board)) =
      Some (tt, (app', (u', (1000, [200])))) ∧ app_wf app' ∧
    DemoUsart.tx u' = frames [
      message_packet kNormalControl kTestWire kArduinoHost kPcHost kPingEndpoint [0xAB; 2; 0x7E; 9];
      message_packet kNormalControl kTestWire kArduinoHost kPcHost kLedControlEndpoint [0x4C; 2; 200; 3];
      heartbeat_packet 1000].
Proof.
  pose proof (demo_run_once 4 100 new_application device ((1000, []) : Board)
    ltac:(apply Nat.ltb_lt; vm_compute; reflexivity) ltac:(apply Nat.leb_le; vm_compute; reflexivity)
    new_application_wf ltac:(by_evaluation)
    ltac:(apply Nat.ltb_lt; vm_compute; reflexivity)) as H.
  cbv zeta in H. destruct (heartbeat_round _ _) as [[beats heartbeat] b2] eqn:Eround.
  vm_compute in Eround. injection Eround as <- <- <-.
  destruct H as (app' & u' & E & Happ & _ & _ & _ & Hsent).
  exists app', u'. split; [exact E|]. split; [exact Happ|].
  etrans; [exact Hsent|]. vm_compute. reflexivity.
Defined.

Lemma demo_loop_returns_witness :
  ∃ app' w',
    main_loop (runOnce 4 100) [bytes_arrive; second_passes] (new_application, (quiet, start)) =
      Some (tt, (app', w')) ∧ app_wf app'.
Proof.
  refine (demo_loop_returns 4 100 [bytes_arrive; second_passes] quiet start _ _ _ _);
    [simpl; lia|simpl; lia|done|].
  apply List.Forall_cons; [|apply List.Forall_cons; [|constructor]]; intros u [t l] Hin Hbusy.
  - split_and!; [apply Nat.leb_le; vm_compute; reflexivity|by_evaluation|].
    apply Nat.ltb_lt. vm_compute. reflexivity.
  - cbv zeta. cbn [second_passes fst]. rewrite Hin. split_and!; [exact Hbusy|constructor|simpl; lia].
Defined.
