(* ===== verification/RamApplication.v ===== *)
(** * The RAM-backed BITS loopback application
      ([examples/arduino-uno/bits_ram_transfer.cpp]: [BitsRamTransferApplication])

    The whole application: the UART link, the receiver endpoint with its RAM callbacks,
    the echo, and the transmitter endpoint, composed by [runOnce] as the firmware
    composes them.  The echo storage is shared: the transmitter's session reads the
    object from it until the transfer ends, which the model's sessions carry as a value;
    [app_echo] is the invariant that the storage still holds it. *)

From S2P Require Import Prelude Mcp2515 Platform Crc Hdlc Packet Routing Endpoints.
From S2P Require Import BitsCodec BitsTransmitter BitsTransmitterKeeps BitsTransmitterRuns BitsEngine BitsEngineRuns.
From S2P Require Import BitsReceiver BitsReceiverProps RamTransfer.
From S2P Require Import Services UartLink DemoWiring.
Local Open Scope Z_scope.

(** ** Definitions *)

Definition kMaximumObjectSize : Z := 256.
Definition kSegmentPayloadSize : Z := 24.
Definition kMaximumBitsPayloadSize : Z := kSegmentHeaderSize + kSegmentPayloadSize.
Definition kTransferTiming : TimingConfig :=
  {| retransmission_timeout_ms := 100; probe_timeout_ms := 250; max_retries := 5 |}.
(** The constructor's default for [inactivity_timeout_ms]. *)
Definition kDefaultReceiverInactivityTimeoutMs : Z := 5000.

(** [WS_PACKET_BUFFER_DEFINE(BitsPacket, kMaximumBitsPayloadSize)]. *)
Definition new_BitsPacket : PacketBuffer := new_packet kMaximumBitsPayloadSize.

(** [RamTransmitterCallbacks]. *)
Definition ram_transmitter_callbacks {W} : TransmitterCallbacks W := {|
  txDatagram _ := mret tt;
  txTransferComplete := mret tt;
  txTransferRejected _ := mret tt;
  txTransferAborted := mret tt |}.

Definition transmitterBusy (state : TransferState.t) : bool :=
  bool_decide (state = TransferState.kStarting) || bool_decide (state = TransferState.kActive).

(** The receivers of the dispatch table. *)
Inductive BitsEndpoint := UploadReceiver | EchoTransmitter.

#[export] Instance bits_endpoints : EndpointReceiver BitsEndpoint (Receiver.Receiver *
  Transmitter.Transmitter) :=
  λ endpoint packet '(r, t),
    match endpoint with
    | UploadReceiver => let '(result, r) := Receiver.receive packet r in (result, (r, t))
    | EchoTransmitter => let '(result, t) := Transmitter.receive packet t in (result, (r, t))
    end.

Definition dispatch_entries_ : list (DispatchTableEntry BitsEndpoint) :=
  [mkDispatchTableEntry kBitsUploadEndpoint (Some UploadReceiver);
   mkDispatchTableEntry kBitsEchoEndpoint (Some EchoTransmitter)].

Record BitsRamTransferApplication := {
  uart_receiver_ : Decoder.HdlcDecoder;
  receiver_ : Receiver.Receiver;
  receiver_transmit_packet_ : PacketBuffer;
  receiver_callbacks_ : RamReceiverCallbacks;    (* on [receive_object_] *)
  transmitter_ : Transmitter.Transmitter;
  echo_storage_ : bytes;
  session_id_ : Z;
}.

Section application.
(** The device and the board with the clock; [WIRESPACES_BITS_RECEIVER_MAX_WINDOW_WIDTH]. *)
Context {U B : Type} `{!AvrUsart U, !MillisecondClock B}.
Variables polls rounds : nat.
Variable max_width : Z.

#[local] Instance ram_forwarder : PacketForwarder (option U * B) :=
  link_forwarder polls (Z.to_nat kMaximumBitsPayloadSize).
#[local] Instance ram_polling_forwarder {Q} : PacketForwarder (option U * B * Q) :=
  application_forwarder polls (Z.to_nat kMaximumBitsPayloadSize).
#[local] Instance callbacks_forwarder : PacketForwarder (RamReceiverCallbacks * (option U * B)) :=
  λ packet selected, on_snd (forwarder_forward packet selected).
#[local] Existing Instance ram_transmitter_callbacks.

(** The world of the receiver's engine. *)
Definition ReceiverWorld : Type := Receiver.Link (RamReceiverCallbacks * (option U * B)).
#[local] Instance ram_receiver_callbacks : ReceiverCallbacks (RamReceiverCallbacks * (option U * B)) := {
  beginTransfer i := on_fst (beginTransfer i);
  onTransferFailed reason := on_fst (onTransferFailed reason);
  onSegment offset payload := on_fst (onSegment offset payload);
  onDatagram payload := on_fst (onDatagram payload);
  onTransferComplete := on_fst onTransferComplete;
  onTransferAborted reason := on_fst (onTransferAborted reason);
}.
#[local] Instance receiver_world_callbacks : ReceiverCallbacks ReceiverWorld :=
  Receiver.endpoint_callbacks.
#[local] Instance receiver_world_sender : ReceiverPduSender ReceiverWorld :=
  Receiver.endpoint_sender kUploadConnection (Domain.router_ demo_domain).

Definition new_application : BitsRamTransferApplication := {|
  uart_receiver_ := Decoder.initial (UartHdlcReceiver.kMaximumCanonicalSize kMaximumBitsPayloadSize);
  receiver_ := Receiver.new_receiver max_width kUploadConnection
    [Some new_BitsPacket; Some new_BitsPacket] new_BitsPacket kDefaultReceiverInactivityTimeoutMs;
  receiver_transmit_packet_ := new_BitsPacket;
  receiver_callbacks_ := new_ram (replicate (Z.to_nat kMaximumObjectSize) 0);
  transmitter_ := Transmitter.new_transmitter kEchoConnection kTransferTiming new_BitsPacket new_BitsPacket;
  echo_storage_ := replicate (Z.to_nat kMaximumObjectSize) 0;
  session_id_ := 0x80 |}.

(** [startEcho]. *)
Definition startEcho (received_object : bytes) : State (BitsRamTransferApplication * (option U * B)) unit :=
  λ '(app, w),
    let echo_storage := memcpy_at 0 received_object (echo_storage_ app) in
    let echo := take (length received_object) echo_storage in
    let '(now_ms, w) := on_snd clockNow w in
    let '(result, transmitter) :=
      Transmitter.startTransfer echo kSegmentPayloadSize (session_id_ app) (u8 now_ms)
        (transmitter_ app) in
    let started := bool_decide (result = StartResult.kStarted) in
    (tt, ({| uart_receiver_ := uart_receiver_ app; receiver_ := receiver_ app;
             receiver_transmit_packet_ := receiver_transmit_packet_ app;
             receiver_callbacks_ :=
               if started then releaseCompletedObject (receiver_callbacks_ app)
               else receiver_callbacks_ app;
             transmitter_ := transmitter; echo_storage_ := echo_storage;
             session_id_ := if started then u8 (session_id_ app + 1) else session_id_ app |}, w)).

(** The parts of [runOnce]. *)
Definition pollReceiver : State (BitsRamTransferApplication * (option U * B)) unit :=
  λ '(app, w),
    let '(now_ms, w) := on_snd clockNow w in
    let '(_, (receiver, link)) := Receiver.process max_width now_ms
      (receiver_ app, Receiver.mkLink (receiver_transmit_packet_ app) (receiver_callbacks_ app, w)) in
    (tt, ({| uart_receiver_ := uart_receiver_ app; receiver_ := receiver;
             receiver_transmit_packet_ := Receiver.transmit_packet link;
             receiver_callbacks_ := (Receiver.beyond link).1;
             transmitter_ := transmitter_ app; echo_storage_ := echo_storage_ app;
             session_id_ := session_id_ app |}, (Receiver.beyond link).2)).

Definition echoCompleted : State (BitsRamTransferApplication * (option U * B)) unit :=
  λ '(app, w),
    if hasCompletedObject (receiver_callbacks_ app)
       && negb (transmitterBusy (Transmitter.state (Transmitter.session_ (transmitter_ app))))
    then startEcho (completedObject (receiver_callbacks_ app)) (app, w)
    else (tt, (app, w)).

Definition pollTransmitter : State (BitsRamTransferApplication * (option U * B)) unit :=
  λ '(app, w),
    let '(now_ms, w) := on_snd clockNow w in
    let '(_, (transmitter, w)) :=
      Transmitter.process (Domain.router_ demo_domain) now_ms (transmitter_ app, w) in
    (tt, ({| uart_receiver_ := uart_receiver_ app; receiver_ := receiver_ app;
             receiver_transmit_packet_ := receiver_transmit_packet_ app;
             receiver_callbacks_ := receiver_callbacks_ app;
             transmitter_ := transmitter; echo_storage_ := echo_storage_ app;
             session_id_ := session_id_ app |}, w)).

Definition runOnce : Io (BitsRamTransferApplication * (U * B)) unit := λ '(app, (u, b)),
  match UartHdlcReceiver.process kMaximumBitsPayloadSize rounds demo_domain dispatch_entries_
          kUartIngressIndex (uart_receiver_ app) (Some u, b, (receiver_ app, transmitter_ app)) with
  | None => None
  | Some (decoder, (w, (receiver, transmitter))) =>
      let app := {| uart_receiver_ := decoder; receiver_ := receiver;
                    receiver_transmit_packet_ := receiver_transmit_packet_ app;
                    receiver_callbacks_ := receiver_callbacks_ app;
                    transmitter_ := transmitter; echo_storage_ := echo_storage_ app;
                    session_id_ := session_id_ app |} in
      let '(_, (app, w)) := (pollReceiver;; echoCompleted;; pollTransmitter) (app, w) in
      match w with
      | (None, _) => None
      | (Some u, b) => Some (tt, (app, (u, b)))
      end
  end.

(** [BitsRamTransferApplication::initialize]. *)
Definition initialize {W} `{!AvrUsart W, !AvrTimers W} : State W unit :=
  uart0Init kUartBaudRate;; millisecondClockInit.
End application.

(** ** The receiver endpoint in the application's world *)

Section receiver.
Context {V : Type} `{!ReceiverCallbacks V, !ReceiverPduSender V}.
Variable max_width : Z.

Lemma erases_on_engine {A} (m : Op (W := Traced V) A) (m' : Op (W := V) A) :
  erases m m' → erases (Receiver.on_engine m) (Receiver.on_engine m').
Proof.
  intros Hm r wl. unfold Receiver.on_engine. specialize (Hm (Receiver.engine_ r) wl).
  destruct (m (Receiver.engine_ r, wl)) as [a [e1 wl1]]. by rewrite Hm.
Qed.

Lemma erases_receiver_process now_ms :
  erases (Receiver.process (V := Traced V) max_width now_ms) (Receiver.process (V := V) max_width now_ms).
Proof.
  unfold Receiver.process, Receiver.processSegment, Receiver.self, Receiver.update.
  repeat first [ apply erases_ret | done | apply erases_on_engine
    | apply erases_poll | apply erases_process | apply erases_bind; [|intros ?] | case_match ].
Qed.

(** What the engine preserves of its environment, the endpoint preserves. *)
Lemma receiver_process_keeps (P : V → Prop) now_ms :
  preserved P → preserves (λ s : Receiver.Receiver * V, P s.2) (Receiver.process max_width now_ms).
Proof.
  intros HP. assert (Hon : ∀ {A} (m : Op (W := V) A), preserves (λ s : Engine * V, P s.2) m →
    preserves (λ s : Receiver.Receiver * V, P s.2) (Receiver.on_engine m)).
  { intros A m Hm [r v] Hv. unfold Receiver.on_engine. specialize (Hm (Receiver.engine_ r, v) Hv).
    by destruct (m _) as [? [? ?]]. }
  assert (Hup : ∀ f, preserves (λ s : Receiver.Receiver * V, P s.2) (Receiver.update f)).
  { intros f. by apply preserves_modify; intros [r v]. }
  unfold Receiver.process, Receiver.processSegment, Receiver.self.
  keep ltac:(first [ apply Hup | apply Hon; first [by apply keeps_poll | by apply keeps_process] ]).
Qed.
End receiver.

(** ** The transmitter endpoint in the application's world

    Whatever the transmitter does, it goes on with the object and the setup it was
    given, in the packet it owns. *)

Section transmitter.
Context {W : Type} `{!TransmitterCallbacks W, !PacketForwarder W}.
Variables (routes : list RouteTableEntry) (P : W → Prop) (cargo : bytes * Setup) (room : Z).
Hypothesis datagram_keeps : ∀ p, preserves P (txDatagram p).
Hypothesis complete_keeps : preserves P txTransferComplete.
Hypothesis rejected_keeps : ∀ r, preserves P (txTransferRejected r).
Hypothesis aborted_keeps : preserves P txTransferAborted.
Hypothesis forward_keeps : ∀ packet selected, preserves P (forwarder_forward packet selected).

Definition loaded (t : Transmitter.Transmitter) : Prop :=
  carried (Transmitter.session_ t) = cargo ∧ capacity (Transmitter.transmit_packet t) = room.

Definition sending : Transmitter.Transmitter * W → Prop := kept loaded P.

Lemma sending_updateSession f :
  (∀ s, carried (f s) = carried s) → preserves sending (Transmitter.updateSession f).
Proof. intros Hf [t w] [[Ho Hr] Hw]. split; [|done]. split; [|done]. cbn in *. by rewrite Hf. Qed.

Lemma sending_handleAck message : preserves sending (Transmitter.handleAck message).
Proof.
  unfold Transmitter.handleAck, Transmitter.session. keep ltac:(first
    [ by apply sending_updateSession | apply kept_call; apply complete_keeps
    | apply sending_updateSession; intros s; unfold Transmitter.ackApplied, Transmitter.shiftWindow;
      cbv zeta; by repeat case_match ]).
Qed.

Lemma sending_process now : preserves sending (Transmitter.process routes now).
Proof.
  apply kept_process; try done; [|intros s Hs _ _; by apply sending_handleAck].
  intros t t' [] [? ?]. split; congruence.
Qed.
End transmitter.

(** ** The invariant *)

(** The invariant of the receiver does not mention the environment, only its trace. *)
Lemma rx_inv_world {V V'} max_width connection arrived r (v : V) (v' : V') log :
  rx_inv max_width connection arrived (r, (v, log)) → rx_inv max_width connection arrived (r, (v', log)).
Proof. by intros [? ? [? ?] ?]. Qed.

Lemma rx_inv_mono {V} max_width connection (arrived arrived' : bytes → Prop)
    (s : Receiver.Receiver * Traced V) :
  (∀ message, arrived message → arrived' message) →
  rx_inv max_width connection arrived s → rx_inv max_width connection arrived' s.
Proof.
  intros Hmono [Hw Hc He Hp]. split; [done|done|by eapply inv_mono|].
  eapply list.Forall_impl; [exact Hp|]. intros m [Hm Hcov]. split; [done|by apply Hmono].
Qed.

(** The messages of uploads among the packets the application has taken off the wire. *)
Definition uploads (history : list PacketBuffer) : bytes → Prop :=
  arrived_packet kUploadConnection (RReceive <$> history).

Lemma uploads_mono history ps message : uploads history message → uploads (history ++ ps) message.
Proof.
  intros (packet & Hin & Hrest). exists packet. split; [|done].
  rewrite fmap_app. apply elem_of_app. by left.
Qed.

(** An object the application may echo: it was uploaded, segment by segment, in one
    session. *)
Definition uploaded (history : list PacketBuffer) (object : bytes) : Prop :=
  ∃ s, assembled (uploads history) s object.

Lemma uploaded_mono history ps object : uploaded history object → uploaded (history ++ ps) object.
Proof.
  intros (s & Hs & Hlen & Hreq & Harr). exists s. split_and!; [done|done|by apply uploads_mono|].
  intros i Hi. by apply uploads_mono, Harr.
Qed.

(** The application between two rounds, having taken [history] off the wire; [log] is
    the trace of its receiver's engine. *)
Record app_inv (max_width : Z) (history : list PacketBuffer) (app : BitsRamTransferApplication)
    (log : list Event) : Prop := {
  app_decoder : Hdlc.wf (UartHdlcReceiver.kMaximumCanonicalSize kMaximumBitsPayloadSize) (uart_receiver_ app);
  app_ready : Decoder.frame_ready_ (uart_receiver_ app) = false;
  app_receiver : rx_inv max_width kUploadConnection (uploads history) (receiver_ app, (tt, log));
  app_ram : ram_inv (Z.to_nat kMaximumObjectSize) false id (receiver_callbacks_ app, log);
  app_room : capacity (Transmitter.transmit_packet (transmitter_ app)) = kMaximumBitsPayloadSize;
  app_session : is_u8 (session_id_ app);
  app_storage : length (echo_storage_ app) = Z.to_nat kMaximumObjectSize;
  app_echo : let object := Transmitter.object (Transmitter.session_ (transmitter_ app)) in
    object = take (length object) (echo_storage_ app) ∧ (object = [] ∨ uploaded history object);
}.

(** ** What arrives *)

Lemma accept_cases p r t :
  accept dispatch_entries_ (r, t) p =
    (r, t) ∨
  accept dispatch_entries_ (r, t) p =
    ((Receiver.receive (setIngressIndex kUartIngressIndex p) r).2, t) ∨
  accept dispatch_entries_ (r, t) p =
    (r, (Transmitter.receive (setIngressIndex kUartIngressIndex p) t).2).
Proof.
  unfold accept. case_bool_decide; [|by left]. rewrite dispatch_addressed.
  destruct (hasSupportedControl _); [|by left].
  set (packet := setIngressIndex kUartIngressIndex p).
  assert (H1 : ∀ l, l = [] ∨ l = [UploadReceiver] ∨ l = [EchoTransmitter] →
    (offer_all l packet DispatchResult.kNoEndpoint (r, t)).2 = (r, t) ∨
    (offer_all l packet DispatchResult.kNoEndpoint (r, t)).2 = ((Receiver.receive packet r).2, t) ∨
    (offer_all l packet DispatchResult.kNoEndpoint (r, t)).2 = (r, (Transmitter.receive packet t).2)).
  { intros l [->|[->| ->]]; simpl; [by left| |]; unfold mbind, State_bind, receiver_receive, bits_endpoints.
    - right. left. by destruct (Receiver.receive packet r).
    - right. right. by destruct (Transmitter.receive packet t). }
  apply H1. unfold addressed, registered, dispatch_entries_. cbn [omap list_omap entry_endpoint entry_receiver].
  assert (kBitsUploadEndpoint ≠ kBitsEchoEndpoint) by by_evaluation.
  destruct (decide (kBitsUploadEndpoint = endpoint (header packet))) as [E1|];
    destruct (decide (kBitsEchoEndpoint = endpoint (header packet))) as [E2|];
    try congruence; repeat case_match; auto.
Qed.

Lemma receive_transmit_packet packet t :
  Transmitter.transmit_packet (Transmitter.receive packet t).2 = Transmitter.transmit_packet t.
Proof.
  unfold Transmitter.receive. destruct (negb _); [done|]. destruct (payload packet) as [|encoded rest]; [done|].
  destruct (decodeControl encoded) as [[v pr ty]|]; [|done].
  destruct (copyPacket packet _) as [[] ingress];
    destruct ty; try done; by destruct (Transmitter.datagram_occupied_ t).
Qed.

Lemma accept_all_inv max_width history ps r t log :
  1 ≤ max_width ≤ 16 → Forall packet_wf ps →
  rx_inv max_width kUploadConnection (uploads history) (r, (tt, log)) →
  let '(r', t') := fold_left (accept dispatch_entries_) ps (r, t) in
  rx_inv max_width kUploadConnection (uploads (history ++ ps)) (r', (tt, log)) ∧
  Transmitter.transmit_packet t' = Transmitter.transmit_packet t ∧
  Transmitter.session_ t' = Transmitter.session_ t.
Proof.
  intros Hmax Hps. revert history r t. induction Hps as [|p ps Hp _ IH]; intros history r t Hr; cbn [fold_left].
  { by rewrite app_nil_r. }
  assert (Hstep : let '(r1, t1) := accept dispatch_entries_ (r, t) p in
    rx_inv max_width kUploadConnection (uploads (history ++ [p])) (r1, (tt, log)) ∧
    Transmitter.transmit_packet t1 = Transmitter.transmit_packet t ∧
    Transmitter.session_ t1 = Transmitter.session_ t).
  { apply (rx_inv_mono _ _ _ (uploads (history ++ [p]))) in Hr; [|intros; by apply uploads_mono].
    destruct (accept_cases p r t) as [->|[->| ->]]; [done| |].
    - split_and!; [|done..]. apply rx_receive; [done|by destruct Hp; split|].
      intros Hmatch. exists p. split_and!; [|done|done].
      rewrite fmap_app. apply elem_of_app. right. by left.
    - split_and!; [done|apply receive_transmit_packet|apply receive_session]. }
  destruct (accept dispatch_entries_ (r, t) p) as [r1 t1]. destruct Hstep as (Hr1 & Ep & Es).
  specialize (IH (history ++ [p]) r1 t1 Hr1).
  destruct (fold_left _ ps (r1, t1)) as [r' t']. rewrite <- app_assoc in IH.
  destruct IH as (? & ? & ?). split_and!; [done|congruence|congruence].
Qed.

(** ** The three parts of a round *)

Section round.
Context {U B : Type} `{!AvrUsart U, !UsartModel U, !MillisecondClock B}.
Variables polls : nat.
Variable max_width : Z.
Hypothesis width : 1 ≤ max_width ≤ 16.
Hypothesis polls_enough : (latency U < polls)%nat.

#[local] Existing Instance ram_forwarder | 0.
#[local] Existing Instance callbacks_forwarder | 0.
#[local] Existing Instance receiver_world_callbacks | 0.
#[local] Existing Instance receiver_world_sender | 0.
#[local] Existing Instance ram_transmitter_callbacks | 0.

Abbreviation World := (ReceiverWorld (U := U) (B := B)).

Definition ram_of (l : World) : RamReceiverCallbacks := (Receiver.beyond l).1.

(** The application's world behind the receiver: only its forwarder touches the device,
    and the forwarder nothing else. *)
Lemma receiver_send_keeps {W} `{!PacketForwarder W} (P : W → Prop) routes :
  (∀ packet selected, preserves P (forwarder_forward packet selected)) →
  preserves (λ l, P (Receiver.beyond l)) (Receiver.receiverSendPrepared routes).
Proof.
  intros Hforward [packet w] Hw. unfold Receiver.receiverSendPrepared.
  cbn [Receiver.transmit_packet Receiver.beyond] in *.
  pose proof (routerForward_keeps P routes packet (Hforward packet) w Hw) as H.
  by destruct (routerForward routes packet w).
Qed.

Lemma send_keeps_ram (l : World) :
  ram_of (sendPrepared (ReceiverPduSender := receiver_world_sender polls) l).2 = ram_of l.
Proof.
  apply (receiver_send_keeps (λ y, y.1 = ram_of l)); [|done].
  intros packet selected [r x] Hr. unfold forwarder_forward, callbacks_forwarder, on_snd.
  by destruct (forwarder_forward packet selected x).
Qed.

Lemma send_keeps_alive (l : World) :
  alive (Receiver.beyond l).2 →
  alive (Receiver.beyond (sendPrepared (ReceiverPduSender := receiver_world_sender polls) l).2).2.
Proof.
  apply (receiver_send_keeps (λ y, alive y.2)).
  intros packet selected [r x] Hr. unfold forwarder_forward, callbacks_forwarder, on_snd.
  pose proof (forwarder_alive polls (Z.to_nat kMaximumBitsPayloadSize) polls_enough packet selected x Hr) as H.
  unfold forwarder_forward, ram_forwarder in *. by destruct (link_forwarder _ _ packet selected x).
Qed.

Lemma receiver_world_ram :
  ram_world (ReceiverCallbacks0 := receiver_world_callbacks)
    (ReceiverPduSender0 := receiver_world_sender polls) ram_of.
Proof.
  split; intros; try apply send_keeps_ram;
    repeat match goal with l : ReceiverWorld |- _ => destruct l as [? [r ?]] end;
    unfold ram_of; cbn -[initializeConnection]; unfold Receiver.on_beyond, on_fst; cbn
      -[initializeConnection]; try done.
  - by destruct (ramBeginTransfer i r).
  - by destruct (ramOnSegment offset payload r).
  - unfold Receiver.receiverPrepare. by destruct (initializeConnection _ _ _ _).
Qed.

(** The environment is alive, and the RAM is as the trace says. *)
Definition world_ok (l : Traced World) : Prop :=
  alive (Receiver.beyond l.1).2 ∧ ram_inv (Z.to_nat kMaximumObjectSize) false ram_of l.

Lemma traced_snd {A} (m : State World A) event (P : World → Prop) (l : Traced World) :
  P (m l.1).2 → P (traced m event l).2.1.
Proof. destruct l as [w log]. unfold traced. simpl. by destruct (m w). Qed.

Lemma world_preserved :
  preserved (ReceiverCallbacks0 := Traced_callbacks World)
    (ReceiverPduSender0 := Traced_sender World (ReceiverPduSender0 := receiver_world_sender polls)) world_ok.
Proof.
  destruct (ram_preserved (Z.to_nat kMaximumObjectSize) false (ReceiverPduSender0 :=
    receiver_world_sender polls)
    ram_of ltac:(by_evaluation) receiver_world_ram).
  split; intros; match goal with H : world_ok _ |- _ => destruct H as [Halive Hram] end;
    (split; [|by auto]); apply (traced_snd _ _ (λ y, alive (Receiver.beyond y).2));
    try (by apply send_keeps_alive);
    destruct w as [[? [ram ?]] log];
    cbn -[initializeConnection] in *; unfold Receiver.on_beyond, on_fst; cbn -[initializeConnection]; try done.
  - by destruct (ramBeginTransfer i ram).
  - by destruct (ramOnSegment o p ram).
  - unfold Receiver.receiverPrepare. by destruct (initializeConnection _ _ _ _).
Qed.

Lemma clock_alive (w : option U * B) : alive w → alive (on_snd clockNow w).2.
Proof.
  intros (u & b & -> & Hin & Hbusy). unfold on_snd. destruct (clockNow b) as [now b']. by exists u, b'.
Qed.

(** Polling the receiver. *)
Lemma pollReceiver_keeps history app w log :
  app_inv max_width history app log → alive w →
  let '(app', w') := (pollReceiver polls max_width (app, w)).2 in
  alive w' ∧ transmitter_ app' = transmitter_ app ∧ echo_storage_ app' = echo_storage_ app ∧
  session_id_ app' = session_id_ app ∧ ∃ log', app_inv max_width history app' log'.
Proof.
  intros Happ Hw. pose proof (clock_alive w Hw) as Hw1. unfold pollReceiver.
  destruct (on_snd clockNow w) as [now w1]. cbn [snd] in Hw1.
  set (l := Receiver.mkLink _ _).
  pose proof (erases_receiver_process (V := World) (ReceiverPduSender0 := receiver_world_sender polls)
    max_width now (receiver_ app) (l, log)) as Herase.
  pose proof (rx_process (V := World) (ReceiverPduSender0 := receiver_world_sender polls) max_width width
    kUploadConnection (uploads history) now (receiver_ app) (l, log)
    (rx_inv_world _ _ _ _ _ _ _ (app_receiver _ _ _ _ Happ))) as Hrx.
  pose proof (receiver_process_keeps (V := Traced World)
    (ReceiverCallbacks0 := Traced_callbacks World)
    (ReceiverPduSender0 := Traced_sender World (ReceiverPduSender0 := receiver_world_sender polls))
    max_width world_ok now world_preserved (receiver_ app, (l, log))
    (conj Hw1 (app_ram _ _ _ _ Happ))) as Hok.
  match type of Hrx with rx_inv _ _ _ (snd ?run) =>
    change (world_ok run.2.2) in Hok; destruct run as [res [r' [l' log']]] end.
  cbn [fst snd] in *. unfold ReceiverWorld in Herase. rewrite Herase. destruct Hok as [Halive Hram].
  split_and!; [done..|]. exists log'. destruct Happ.
  split; try done. by eapply rx_inv_world.
Qed.
(** The echo a completed object starts. *)
Definition echo_started (object : bytes) (app app' : BitsRamTransferApplication) : Prop :=
  let session := Transmitter.session_ (transmitter_ app') in
  hasCompletedObject (receiver_callbacks_ app') = false ∧
  session_id_ app' = u8 (session_id_ app + 1) ∧
  Transmitter.state session = TransferState.kStarting ∧
  Transmitter.object session = object ∧
  setup_session_id (Transmitter.setup session) = session_id_ app ∧
  segment_size (Transmitter.setup session) = kSegmentPayloadSize.

Lemma completed_object_uploaded history app log :
  app_inv max_width history app log → hasCompletedObject (receiver_callbacks_ app) = true →
  let object := completedObject (receiver_callbacks_ app) in
  uploaded history object ∧ 0 < zlen object ≤ kMaximumObjectSize.
Proof.
  intros [_ _ [_ _ Hengine _] Hram _ _ _ _] Hdone. cbn [fst snd] in *.
  assert (Hinv : inv max_width (uploads history)
    (Receiver.engine_ (receiver_ app), (receiver_callbacks_ app, log))) by (by destruct Hengine).
  destruct (ram_completed max_width (uploads history) _ _ log _ false id Hinv Hram Hdone)
    as (_ & Hasm & _ & Hpos & Hfits).
  split; [by eexists|done].
Qed.

Lemma startEcho_starts history app w log :
  app_inv max_width history app log → alive w →
  hasCompletedObject (receiver_callbacks_ app) = true →
  Transmitter.isRunning (Transmitter.session_ (transmitter_ app)) = false →
  let object := completedObject (receiver_callbacks_ app) in
  let '(app', w') := (startEcho object (app, w)).2 in
  alive w' ∧ app_inv max_width history app' log ∧ echo_started object app app'.
Proof.
  intros Happ Hw Hdone Hidle. cbv zeta. set (object := completedObject _).
  destruct (completed_object_uploaded history app log Happ Hdone) as (Hup & Hpos & Hfits).
  fold object in Hup, Hpos, Hfits. pose proof (clock_alive w Hw) as Hw1. unfold startEcho.
  destruct (on_snd clockNow w) as [now w1]. cbn [snd] in Hw1. destruct Happ.
  assert (Hroom : (length object ≤ length (echo_storage_ app))%nat) by (unfold zlen in *; lia).
  assert (Etake : take (length object) (memcpy_at 0 object (echo_storage_ app)) = object)
    by (rewrite memcpy_at_app by (simpl; lia); by rewrite take_0, app_nil_l, take_app_length).
  rewrite Etake.
  pose proof (startTransfer_outcome object kSegmentPayloadSize (session_id_ app) (u8 now)
    (transmitter_ app) ltac:(by_evaluation) app_session0 (u8_range now)) as Hout.
  destruct (Transmitter.startTransfer _ _ _ _ _) as [[] t'].
  - destruct Hout as (_ & s & count & -> & _ & _ & _ & Hid & _ & Hsize & _).
    split_and!; [done| |done..]. split; cbn; try done.
    + destruct app_ram0 as [Hlen Hst]. split; [done|]. cbn [fst snd] in *.
      destruct (monitor log) as [[|? ?|? ?]|]; [done| |by split|done].
      destruct Hst as (Hopen & _). unfold hasCompletedObject in Hdone. unfold id in Hopen. congruence.
    + apply u8_range.
    + by rewrite memcpy_at_length.
    + split; [by rewrite Etake|by right].
  - exfalso. destruct Hout as [_ Hbusy]. congruence.
  - exfalso. destruct Hout as [_ [->|[Hz|[Hbig|Hbig]]]]; [by cbn in Hpos|done|..];
      unfold kMaximumObjectSize, kSegmentPayloadSize in *; lia.
  - exfalso. destruct Hout as [_ Hcap]. by rewrite app_room0 in Hcap.
Qed.
(** Whether a round starts an echo. *)
Definition echoes (app : BitsRamTransferApplication) : bool :=
  hasCompletedObject (receiver_callbacks_ app)
  && negb (transmitterBusy (Transmitter.state (Transmitter.session_ (transmitter_ app)))).

Lemma echoCompleted_keeps history app w log :
  app_inv max_width history app log → alive w →
  let '(app', w') := (echoCompleted (app, w)).2 in
  alive w' ∧ app_inv max_width history app' log ∧
  (if echoes app then echo_started (completedObject (receiver_callbacks_ app)) app app' else app' = app).
Proof.
  intros Happ Hw. unfold echoCompleted, echoes.
  destruct (hasCompletedObject (receiver_callbacks_ app)) eqn:Hdone; cbn [andb]; [|by split_and!].
  destruct (transmitterBusy _) eqn:Hbusy; cbn [negb]; [by split_and!|].
  by apply startEcho_starts.
Qed.

Lemma transmitter_process_sends cargo room now :
  preserves (sending (alive (B := B)) cargo room)
    (Transmitter.process (TransmitterCallbacks0 := ram_transmitter_callbacks)
       (PacketForwarder0 := ram_forwarder polls) (Domain.router_ demo_domain) now).
Proof.
  apply sending_process; try (intros; by intros ? ?).
  intros packet selected w Hw. by apply forwarder_alive.
Qed.

Lemma pollTransmitter_keeps history app w log :
  app_inv max_width history app log → alive w →
  let '(app', w') := (pollTransmitter polls (app, w)).2 in
  alive w' ∧ app_inv max_width history app' log ∧
  receiver_callbacks_ app' = receiver_callbacks_ app ∧ session_id_ app' = session_id_ app ∧
  carried (Transmitter.session_ (transmitter_ app')) = carried (Transmitter.session_ (transmitter_ app)).
Proof.
  intros Happ Hw. pose proof (clock_alive w Hw) as Hw1. unfold pollTransmitter.
  destruct (on_snd clockNow w) as [now w1]. cbn [snd] in Hw1. destruct Happ.
  pose proof (transmitter_process_sends (carried (Transmitter.session_ (transmitter_ app)))
    kMaximumBitsPayloadSize now (transmitter_ app, w1) (conj (conj eq_refl app_room0) Hw1))
    as [[Ho Hr] Halive].
  destruct (Transmitter.process _ _ _) as [res [t' w']].
  cbn [fst snd] in *. split_and!; [done| |done..].
  split; cbn; try done. unfold carried in Ho. by injection Ho as -> _.
Qed.
(** What a round does about the echo: an object that is complete waits for the
    transmitter, or goes out in a session of its own and is released. *)
Definition echo_step (history : list PacketBuffer) (app app' : BitsRamTransferApplication) : Prop :=
  let s := Transmitter.session_ (transmitter_ app) in
  let s' := Transmitter.session_ (transmitter_ app') in
  session_id_ app' = session_id_ app ∧ carried s' = carried s ∧
    (hasCompletedObject (receiver_callbacks_ app') = true → transmitterBusy (Transmitter.state s) = true)
  ∨ transmitterBusy (Transmitter.state s) = false ∧
    hasCompletedObject (receiver_callbacks_ app') = false ∧
    session_id_ app' = u8 (session_id_ app + 1) ∧
    uploaded history (Transmitter.object s') ∧ 0 < zlen (Transmitter.object s') ≤ kMaximumObjectSize ∧
    setup_session_id (Transmitter.setup s') = session_id_ app ∧
    segment_size (Transmitter.setup s') = kSegmentPayloadSize.

Lemma echo_steps history app app1 app2 app3 log :
  app_inv max_width history app1 log →
  transmitter_ app1 = transmitter_ app → session_id_ app1 = session_id_ app →
  (if echoes app1 then echo_started (completedObject (receiver_callbacks_ app1)) app1 app2 else app2 = app1) →
  receiver_callbacks_ app3 = receiver_callbacks_ app2 → session_id_ app3 = session_id_ app2 →
  carried (Transmitter.session_ (transmitter_ app3)) = carried (Transmitter.session_ (transmitter_ app2)) →
  echo_step history app app3.
Proof.
  intros Happ Et Eid Hecho Ecb Eid' Ecarry. unfold echo_step. rewrite Ecb, Eid', Ecarry, <- Et, <- Eid.
  pose proof (completed_object_uploaded history app1 log Happ) as Hup.
  unfold echoes, carried in *. injection Ecarry as Eobj Esetup. rewrite Eobj, Esetup.
  destruct (hasCompletedObject (receiver_callbacks_ app1)) eqn:Hdone; cbn [andb] in Hecho.
  - destruct (transmitterBusy _) eqn:Hbusy; cbn [negb] in Hecho; [by subst; left|right].
    destruct Hecho as (Hrel & Hid & _ & Hobj & Hsid & Hsize). rewrite Hobj. by destruct (Hup eq_refl).
  - subst. left. rewrite Hdone. by split_and!.
Qed.

(** The three parts together. *)
Lemma parts_keep history app w log :
  app_inv max_width history app log → alive w →
  let '(_, (app', w')) := (pollReceiver polls max_width;; echoCompleted;; pollTransmitter polls) (app, w) in
  alive w' ∧ uart_receiver_ app' = uart_receiver_ app ∧ echo_step history app app' ∧
  ∃ log', app_inv max_width history app' log'.
Proof.
  intros Happ Hw. unfold mbind, State_bind.
  assert (Hline : ∀ s, uart_receiver_ (pollReceiver polls max_width s).2.1 = uart_receiver_ s.1 ∧
    uart_receiver_ (echoCompleted s).2.1 = uart_receiver_ s.1 ∧
    uart_receiver_ (pollTransmitter polls s).2.1 = uart_receiver_ s.1).
  { intros [a x]. unfold pollReceiver, echoCompleted, startEcho, pollTransmitter.
    destruct (on_snd clockNow x) as [now y]. split_and!.
    - by destruct (Receiver.process _ _ _) as [? [? ?]].
    - destruct (_ && _); [|done]. by destruct (Transmitter.startTransfer _ _ _ _ _).
    - by destruct (Transmitter.process _ _ _) as [? [? ?]]. }
  pose proof (pollReceiver_keeps _ app _ log Happ Hw) as H1. pose proof (Hline (app, w)) as (E1 & _).
  destruct (pollReceiver polls max_width (app, w)) as [[] [app1 w1]]. cbn [fst snd] in *.
  destruct H1 as (Hw1 & Et1 & _ & Eid1 & log1 & Happ1).
  pose proof (echoCompleted_keeps _ app1 _ log1 Happ1 Hw1) as H2. pose proof (Hline (app1, w1)) as (_ & E2 & _).
  destruct (echoCompleted (app1, w1)) as [[] [app2 w2]]. cbn [fst snd] in *.
  destruct H2 as (Hw2 & Happ2 & Hecho).
  pose proof (pollTransmitter_keeps _ app2 _ log1 Happ2 Hw2) as H3.
  pose proof (Hline (app2, w2)) as (_ & _ & E3).
  destruct (pollTransmitter polls (app2, w2)) as [[] [app3 w3]]. cbn [fst snd] in *.
  destruct H3 as (Hw3 & Happ3 & Ecb & Eid & Ecarry).
  split_and!; [done|congruence|by eapply (echo_steps history app app1 app2)|by exists log1].
Qed.

(** ** A round *)

Variable rounds : nat.

(** The packets in what has arrived since the application started. *)
Abbreviation line := (UartHdlcReceiver.kMaximumCanonicalSize kMaximumBitsPayloadSize).
Definition received (stream : bytes) : list PacketBuffer :=
  omap (UartHdlcReceiver.framePacket kMaximumBitsPayloadSize)
    (Decoder.receive line (Decoder.initial line) stream).1.

Lemma framePackets_wf frames :
  Forall is_bytes frames →
  Forall packet_wf (omap (UartHdlcReceiver.framePacket kMaximumBitsPayloadSize) frames).
Proof.
  induction 1 as [|frame frames Hframe _ IH]; cbn [omap list_omap]; [constructor|].
  destruct (UartHdlcReceiver.framePacket _ frame) as [p|] eqn:E; [|done]. constructor; [|done].
  by destruct (framePacket_wf kMaximumBitsPayloadSize frame p ltac:(by_evaluation) Hframe E).
Qed.

(** The application after [stream] has arrived, between two rounds. *)
Record running (stream : bytes) (app : BitsRamTransferApplication) : Prop := {
  running_inv : ∃ log, app_inv max_width (received stream) app log;
  running_line : uart_receiver_ app = (Decoder.receive line (Decoder.initial line) stream).2;
}.

Lemma runOnce_round stream app u (b : B) :
  running stream app → (busy u ≤ latency U)%nat → is_bytes (incoming u) →
  (length (incoming u) < rounds)%nat →
  ∃ app' u' b', runOnce polls rounds max_width (app, (u, b)) = Some (tt, (app', (u', b'))) ∧
    running (stream ++ incoming u) app' ∧ echo_step (received (stream ++ incoming u)) app app' ∧
    incoming u' = [] ∧ (busy u' ≤ latency U)%nat.
Proof.
  intros [(log & Happ) Hline] Hbusy Hbytes Hrounds.
  pose proof (receive_bytes line (uart_receiver_ app) (incoming u) (app_decoder _ _ _ _ Happ)
    (app_ready _ _ _ _ Happ) Hbytes) as Hframes.
  pose proof (receive_refines line _ _ (app_decoder _ _ _ _ Happ) (app_ready _ _ _ _ Happ) Hbytes) as Href.
  pose proof (application_polls (B := B) polls (Z.to_nat kMaximumBitsPayloadSize) dispatch_entries_
    kMaximumBitsPayloadSize rounds (uart_receiver_ app) u b (receiver_ app, transmitter_ app) Hrounds) as Hpoll.
  assert (Hstream : received (stream ++ incoming u) =
    received stream ++ omap (UartHdlcReceiver.framePacket kMaximumBitsPayloadSize)
      (Decoder.receive line (uart_receiver_ app) (incoming u)).1 ∧
    (Decoder.receive line (Decoder.initial line) (stream ++ incoming u)).2 =
      (Decoder.receive line (uart_receiver_ app) (incoming u)).2).
  { unfold received. rewrite receive_app, Hline.
    destruct (Decoder.receive line (Decoder.initial line) stream) as [f1 d1].
    cbn [fst snd]. destruct (Decoder.receive line d1 (incoming u)). cbn [fst snd]. by rewrite omap_app. }
  destruct Hstream as [Ereceived Eline].
  unfold runOnce, ram_polling_forwarder.
  destruct (Decoder.receive line (uart_receiver_ app) (incoming u)) as [frames d'] eqn:Edec.
  cbn [fst snd] in *. destruct Href as (Hdec' & Hready' & _).
  destruct Hpoll as (u1 & -> & Hin1 & Hsent1 & Hbusy1).
  set (packets := omap _ frames) in *.
  pose proof (accept_all_inv max_width (received stream) packets (receiver_ app) (transmitter_ app) log
    width (framePackets_wf _ Hframes) (app_receiver _ _ _ _ Happ)) as Hacc.
  destruct (fold_left _ packets _) as [r1 t1]. destruct Hacc as (Hr1 & Epacket & Esession).
  cbv zeta. set (app1 := Build_BitsRamTransferApplication _ _ _ _ _ _ _).
  assert (Happ1 : app_inv max_width (received (stream ++ incoming u)) app1 log).
  { rewrite Ereceived. destruct Happ as [_ _ _ Hram Hroom Hid Hstore [Hobj Hecho]]. split; cbn; try done.
    - by rewrite Epacket.
    - rewrite Esession. split; [done|]. destruct Hecho as [|Hup]; [by left|right].
      by apply uploaded_mono. }
  assert (Hw1 : alive (Some u1, b)) by (exists u1, b; split_and!; [done|done|lia]).
  pose proof (parts_keep _ app1 _ log Happ1 Hw1) as Hparts.
  destruct ((pollReceiver polls max_width;; echoCompleted;; pollTransmitter polls) (app1, (Some u1, b)))
    as [[] [app' w']].
  destruct Hparts as ((u' & b' & -> & Hin' & Hbusy') & Eline' & Hecho & Hlog).
  exists app', u', b'. split_and!; [done| | |done|done].
  - split; [done|]. by rewrite Eline', Eline.
  - unfold echo_step in *. subst app1. cbn in Hecho. by rewrite Esession in Hecho.
Qed.

(** ** The loop *)

Lemma running_new : running [] (new_application max_width).
Proof.
  split; [|done]. exists []. split; cbn; try done.
  - apply wf_initial.
  - apply rx_inv_new; [done| |apply new_packet_wf; by_evaluation|by_evaluation].
    intros [|[|[|i]]] p Hp; simpl in Hp; try done; injection Hp as <-; apply new_packet_wf; by_evaluation.
  - by split; [|left].
Qed.

(** What happens between two rounds: [bs] arrives. *)
Definition brings (happens : U * B → U * B) (bs : bytes) : Prop :=
  is_bytes bs ∧ (length bs < rounds)%nat ∧
  ∀ u b, incoming u = [] → (busy u ≤ latency U)%nat →
    incoming (happens (u, b)).1 = bs ∧ (busy (happens (u, b)).1 ≤ latency U)%nat.

Lemma running_loop between arrivals stream app u (b : B) :
  Forall2 brings between arrivals → running stream app → incoming u = [] → (busy u ≤ latency U)%nat →
  ∃ app' w', main_loop (runOnce polls rounds max_width) between (app, (u, b)) = Some (tt, (app', w')) ∧
    running (stream ++ concat arrivals) app'.
Proof.
  intros Hall. revert stream app u b.
  induction Hall as [|happens bs between arrivals Hbrings _ IH]; intros stream app u b Happ Hin
    Hbusy; cbn [main_loop concat].
  { exists app, (u, b). by rewrite app_nil_r. }
  destruct Hbrings as (Hbytes & Hlen & Hhappens). specialize (Hhappens u b Hin Hbusy).
  destruct (happens (u, b)) as [u1 b1]. cbn [fst] in Hhappens. destruct Hhappens as [<- Hbusy1].
  destruct (runOnce_round stream app u1 b1 Happ Hbusy1 Hbytes Hlen) as (app2 & u2 & b2 & E & Happ2 &
    _ & Hin2 & Hbusy2).
  unfold mbind, Io_bind. rewrite E. destruct (IH _ app2 u2 b2 Happ2 Hin2 Hbusy2) as (app' & w' & E' & Happ').
  exists app', w'. split; [exact E'|]. by rewrite <- app_assoc in Happ'.
Qed.
End round.

(** ** Properties *)

(** C15: One round of the RAM loopback firmware, from any state it reaches between two
    rounds and whatever bytes have arrived, returns, and does one of two things about the
    echo.  Either the transmitter goes on with what it was sending, and an object that is
    complete is one the busy transmitter could not take yet; or the idle transmitter
    starts a session of its own number for an object that was uploaded, segment by
    segment, in packets that came off the wire, and the receive storage is released. *)
Theorem ram_round_echoes {U B} `{!AvrUsart U, !UsartModel U, !MillisecondClock B}
    (polls rounds : nat) (max_width : Z) (stream : bytes) (app : BitsRamTransferApplication) (u : U) (b : B) :
  1 ≤ max_width ≤ 16 → (latency U < polls)%nat → running max_width stream app →
  (busy u ≤ latency U)%nat → is_bytes (incoming u) → (length (incoming u) < rounds)%nat →
  ∃ app' u' b', runOnce polls rounds max_width (app, (u, b)) = Some (tt, (app', (u', b'))) ∧
    running max_width (stream ++ incoming u) app' ∧
    echo_step (received (stream ++ incoming u)) app app' ∧
    incoming u' = [] ∧ (busy u' ≤ latency U)%nat.
Proof. intros Hmax Hpolls. by apply runOnce_round. Qed.

(** C14: The loopback firmware composed end to end: whatever bytes arrive between its
    rounds, the loop goes on, and at any time the object in the receive storage and the
    object the transmitter sends from the echo storage were uploaded: every byte of them
    is the payload of a segment that arrived on the UART in one session of the upload
    connection, and the echo storage still holds the object being sent. *)
Theorem ram_loop_echoes_uploads {U B} `{!AvrUsart U, !UsartModel U, !MillisecondClock B}
    (polls rounds : nat) (max_width : Z) (between : list (U * B → U * B)) (arrivals : list bytes)
    (u : U) (b : B) :
  1 ≤ max_width ≤ 16 → (latency U < polls)%nat → incoming u = [] → (busy u ≤ latency U)%nat →
  Forall2 (brings rounds) between arrivals →
  let history := received (concat arrivals) in
  ∃ app' w', main_loop (runOnce polls rounds max_width) between (new_application max_width, (u, b)) =
      Some (tt, (app', w')) ∧
    (hasCompletedObject (receiver_callbacks_ app') = true →
     uploaded history (completedObject (receiver_callbacks_ app')) ∧
     0 < zlen (completedObject (receiver_callbacks_ app')) ≤ kMaximumObjectSize) ∧
    let echo := Transmitter.object (Transmitter.session_ (transmitter_ app')) in
    echo = take (length echo) (echo_storage_ app') ∧ (echo = [] ∨ uploaded history echo).
Proof.
  intros Hmax Hpolls Hin Hbusy Hall history.
  destruct (running_loop polls max_width Hmax Hpolls rounds between arrivals [] _ u b Hall
    (running_new max_width Hmax) Hin Hbusy) as (app' & w' & E & [(log & Happ) _]).
  exists app', w'. split; [exact E|]. split.
  - intros Hdone. by apply (completed_object_uploaded max_width _ _ log).
  - apply (app_echo _ _ _ _ Happ).
Qed.

(** *** Witnesses: an upload of three segments to the demonstration device *)

Module DemoUpload.
Import DemoUsart.
#[export] Instance board_clock : MillisecondClock Z := gets id.

Definition pc : ConnectionAddress :=
  {| conn_wire := kTestWire; conn_local_host := kPcHost; conn_remote_host := kArduinoHost;
     conn_endpoint := kBitsUploadEndpoint |}.
Definition on_line (message : bytes) : bytes :=
  wire_frame (packet_bytes
    (write_payload 0 message (initializeConnection (zlen message) pc (cf_bits kNormal) new_BitsPacket).2)).
Definition segment (index : Z) (p : bytes) : bytes :=
  on_line (layout (MSegment (mkSegmentHeader 7 index)) ++ p).

(** The setup, two segments, the last segment, and a silent round. *)
Definition arrivals : list bytes :=
  [on_line (layout (MSetup demo_setup)); segment 0 [11; 12] ++ segment 1 [13; 14];
   segment 2 [15]; []].
Definition bring (bs : bytes) : Usart * Z → Usart * Z :=
  λ '(u, t), ({| rx := bs; tx := tx u; wait := wait u |}, t + 1).
Definition quiet : Usart := {| rx := []; tx := []; wait := 0 |}.

Lemma upload_brings : Forall2 (brings 100) (bring <$> arrivals) arrivals.
Proof.
  assert (H : ∀ bs, is_bytes bs → (length bs < 100)%nat → brings (B := Z) 100 (bring bs) bs).
  { intros bs Hbs Hlen. split_and!; [done|done|]. intros [r t w] b Hin Hbusy. by split. }
  unfold arrivals. cbn [fmap list_fmap].
  repeat apply List.Forall2_cons; try apply List.Forall2_nil;
    (apply H; [by_evaluation|apply Nat.ltb_lt; vm_compute; reflexivity]).
Qed.
End DemoUpload.
Import DemoUsart DemoUpload.

Lemma ram_loop_echoes_uploads_witness :
  ∃ app' w', main_loop (runOnce 4 100 16) (bring <$> arrivals) (new_application 16, (quiet, 0)) =
      Some (tt, (app', w')) ∧
    Transmitter.object (Transmitter.session_ (transmitter_ app')) = [11; 12; 13; 14; 15] ∧
    uploaded (received (concat arrivals)) [11; 12; 13; 14; 15].
Proof.
  destruct (ram_loop_echoes_uploads (U := Usart) (B := Z) 4 100 16 (bring <$> arrivals) arrivals quiet 0
    ltac:(lia) ltac:(by_evaluation) eq_refl ltac:(by_evaluation) upload_brings)
    as (app' & w' & E & _ & _ & Hecho).
  assert (Hobject : Transmitter.object (Transmitter.session_ (transmitter_ app')) = [11; 12; 13; 14; 15]).
  { revert E.
    destruct (main_loop (runOnce 4 100 16) (bring <$> arrivals) (new_application 16, (quiet, 0)))
      as [[[] [a w]]|] eqn:Erun; [|done].
    intros [= <- <-].
    assert (Hrun : ((λ r, Transmitter.object (Transmitter.session_ (transmitter_ r.2.1))) <$>
      main_loop (runOnce 4 100 16) (bring <$> arrivals) (new_application 16, (quiet, 0))) =
      Some [11; 12; 13; 14; 15]) by (vm_compute; reflexivity).
    rewrite Erun in Hrun. by injection Hrun. }
  exists app', w'. split_and!; [exact E|exact Hobject|].
  rewrite Hobject in Hecho. by destruct Hecho.
Defined.

(** The round that completes the object starts its echo. *)
Lemma ram_round_echoes_witness :
  ∃ app app' (u u' : Usart) (b b' : Z),
    runOnce 4 100 16 (app, (u, b)) = Some (tt, (app', (u', b'))) ∧
    echo_step (received (concat (take 3 arrivals))) app app' ∧
    session_id_ app = 0x80 ∧ session_id_ app' = 0x81.
Proof.
  assert (Hall : Forall2 (brings 100) (bring <$> take 3 arrivals) (take 3 arrivals)).
  { rewrite <- (firstn_map bring). by apply Forall2_take, upload_brings. }
  destruct (running_loop (U := Usart) (B := Z) 4 16 ltac:(lia) ltac:(by_evaluation) 100 _ _ [] _ quiet 0
    Hall (running_new 16 ltac:(lia)) eq_refl ltac:(by_evaluation)) as (app & [u b] & E & Hrun).
  assert (Hend : (λ r, (rx r.2.2.1, wait r.2.2.1, session_id_ r.2.1, (λ q, session_id_ q.2.1) <$>
    runOnce 4 100 16 r.2))
    <$> main_loop (runOnce 4 100 16) (bring <$> take 3 arrivals) (new_application 16, (quiet, 0)) =
    Some ([], 3%nat, 0x80, Some 0x81)) by (vm_compute; reflexivity).
  rewrite E in Hend. cbn [fmap option_fmap option_map fst snd] in Hend.
  destruct (ram_round_echoes (U := Usart) (B := Z) 4 100 16 _ app u b ltac:(lia) ltac:(by_evaluation) Hrun)
    as (app' & u' & b' & Eround & _ & Hecho & _).
  - cbn. assert (wait u = 3%nat) as -> by congruence. lia.
  - cbn. assert (rx u = []) as -> by congruence. constructor.
  - cbn. assert (rx u = []) as -> by congruence. simpl. lia.
  - rewrite Eround in Hend. cbn [fmap option_fmap option_map fst snd] in Hend.
    assert (incoming u = []) as Hin by (cbn; congruence). rewrite Hin, !app_nil_r in Hecho.
    exists app, app', u, u', b, b'. split_and!; [exact Eround|exact Hecho|congruence|congruence].
Defined.
