(* ===== verification/LegacyHdlc.v ===== *)
(** * The legacy HDLC framing ([links/uart_hdlc/legacy/hdlc.cpp], [hdlc.h])

    The first generation of the framing, without a CRC: byte stuffing, encoding and
    decoding over spans, and the receiver that takes bytes from a ring buffer.  The ring
    buffer and the logger it includes are not in the repository: they are the classes
    [ByteRing] and [Logging], the laws of a bounded FIFO are [RingLaws], and the
    repository's own ring buffer satisfies them ([own_ring]).

    A store outside the span is [None]: it happens in [encodeFrame] exactly when the
    closing flag is one byte too many. *)

From stdpp Require Import strings.
From S2P Require Import Prelude Hdlc Containers.
Local Open Scope Z_scope.

(** ** [hdlc.cpp] *)

Module Flag.
Definition kFlag : Z := 0x7E.
Definition kEscape : Z := 0x7D.
Definition kXorValue : Z := 0x20.
End Flag.

Module Legacy.
(** The returned count, and the output span afterwards. *)
Definition byteStuff (byte : Z) (out : bytes) : nat * bytes :=
  if (length out <? 1)%nat then (0%nat, out)
  else if (byte =? Flag.kFlag) || (byte =? Flag.kEscape) then
    if (length out <? 2)%nat then (0%nat, out)
    else (2%nat, <[1%nat := u8 (Z.lxor byte Flag.kXorValue)]> (<[0%nat := Flag.kEscape]> out))
  else (1%nat, <[0%nat := byte]> out).

(** The loop of [encodeFrame]: the frame, and its index unless the loop returns. *)
Fixpoint encodeLoop (payload frame : bytes) (frame_index : nat) : option nat * bytes :=
  match payload with
  | [] => (Some frame_index, frame)
  | byte :: payload =>
      let '(stuff_len, stuff) := byteStuff byte [0; 0] in
      if (stuff_len =? 0)%nat then (None, frame)
      else if (length frame <? frame_index + stuff_len)%nat then (None, frame)
      else encodeLoop payload (memcpy_at frame_index (take stuff_len stuff) frame)
             (frame_index + stuff_len)
  end.

Definition encodeFrame (payload frame : bytes) : option (bool * bytes) :=
  if (length frame <? length payload + 2)%nat then Some (false, frame)
  else
    let frame := <[0%nat := Flag.kFlag]> frame in
    match encodeLoop payload frame 1 with
    | (None, frame) => Some (false, frame)
    | (Some frame_index, frame) =>
        if (frame_index <? length frame)%nat
        then Some (true, <[frame_index := Flag.kFlag]> frame) else None
    end.

Fixpoint decodeLoop (input output : bytes) (output_index : nat) (stuff_flag : bool)
    : bool * bytes :=
  match input with
  | [] => ((0 <? output_index)%nat, output)
  | byte :: input =>
      if negb (output_index <? length output)%nat then ((0 <? output_index)%nat, output)
      else if byte =? Flag.kFlag then ((0 <? output_index)%nat, output)
      else if byte =? Flag.kEscape then decodeLoop input output output_index true
      else if stuff_flag
      then decodeLoop input (<[output_index := u8 (Z.lxor byte Flag.kXorValue)]> output)
             (S output_index) false
      else decodeLoop input (<[output_index := byte]> output) (S output_index) stuff_flag
  end.

Definition decodePayload (input output : bytes) : bool * bytes := decodeLoop input output 0 false.
End Legacy.

(** ** [hdlc.h]: the receiver *)

(** [RingBuffer<uint8_t, InputRingCapacity>] of ["data_structures/ring_buffer.h"]. *)
Class ByteRing (R : Type) := {
  ring_isEmpty : R → bool;
  ring_enqueue : Z → R → bool * R;
  ring_dequeue : R → option Z * R;
  ring_clear : R → R;
}.

(** A FIFO of at most [ring_room] bytes. *)
Class RingLaws (R : Type) `{!ByteRing R} := {
  ring_ok : R → Prop;
  held : R → bytes;
  ring_room : nat;
  isEmpty_held : ∀ b, ring_ok b → ring_isEmpty b = bool_decide (held b = []);
  enqueue_held : ∀ data b, ring_ok b →
    let '(ok, b') := ring_enqueue data b in
    ring_ok b' ∧ ok = bool_decide (length (held b) < ring_room)%nat ∧
    held b' = if ok then held b ++ [data] else held b;
  dequeue_held : ∀ b, ring_ok b →
    let '(data, b') := ring_dequeue b in
    ring_ok b' ∧ data = head (held b) ∧ held b' = tail (held b);
  clear_held : ∀ b, ring_ok b → ring_ok (ring_clear b) ∧ held (ring_clear b) = [];
}.

Module LegacyReceiver.
Inductive RxState := IDLE | FRAME_DELIMETER | DATA | ESCAPE.
#[export] Instance RxState_eq_dec : EqDecision RxState.
Proof. solve_decision. Defined.

Definition toString (state : RxState) : string :=
  match state with
  | IDLE => "IDLE"
  | FRAME_DELIMETER => "FRAME_DELIMETER"
  | DATA => "DATA"
  | ESCAPE => "ESCAPE"
  end.

(** [LOG_ERROR() << "Payload buffer overflow in state " << state << ": " << first8]. *)
Class Logging (W : Type) := log_overflow : string → bytes → State W unit.

Section receiver.
Context {R W : Type} `{!ByteRing R, !Logging W}.
Variable PayloadBufferSize : nat.

Record Receiver := {
  input_buffer_ : R;
  payload_buffer_ : bytes;
  payload_index_ : nat;
  state_ : RxState;
}.

Definition set_input v r := {| input_buffer_ := v; payload_buffer_ := payload_buffer_ r;
  payload_index_ := payload_index_ r; state_ := state_ r |}.
Definition set_index v r := {| input_buffer_ := input_buffer_ r;
  payload_buffer_ := payload_buffer_ r; payload_index_ := v; state_ := state_ r |}.
Definition set_state v r := {| input_buffer_ := input_buffer_ r;
  payload_buffer_ := payload_buffer_ r; payload_index_ := payload_index_ r; state_ := v |}.
(** [payload_buffer_[payload_index_++] = data]. *)
Definition store_byte (data : Z) (r : Receiver) : Receiver :=
  {| input_buffer_ := input_buffer_ r;
     payload_buffer_ := <[payload_index_ r := data]> (payload_buffer_ r);
     payload_index_ := S (payload_index_ r); state_ := state_ r |}.

(** A receiver with the given ring buffer and array. *)
Definition new_receiver (ring : R) (buffer : bytes) : Receiver :=
  {| input_buffer_ := ring; payload_buffer_ := buffer; payload_index_ := 0; state_ := IDLE |}.

Definition reset (r : Receiver) : Receiver :=
  {| input_buffer_ := ring_clear (input_buffer_ r); payload_buffer_ := payload_buffer_ r;
     payload_index_ := 0; state_ := IDLE |}.

Definition enqueue (data : Z) (r : Receiver) : bool * Receiver :=
  let '(ok, ring) := ring_enqueue data (input_buffer_ r) in (ok, set_input ring r).

Fixpoint enqueueSpan (data : bytes) (r : Receiver) : bool * Receiver :=
  match data with
  | [] => (true, r)
  | byte :: data =>
      let '(ok, ring) := ring_enqueue byte (input_buffer_ r) in
      if negb ok then (false, set_input ring r) else enqueueSpan data (set_input ring r)
  end.

Definition logPayloadBufferOverflow : State (Receiver * W) unit := λ '(r, w),
  let dump_len := Nat.min (payload_index_ r) 8 in
  let '(_, w) := log_overflow (toString (state_ r)) (take dump_len (payload_buffer_ r)) w in
  (tt, (reset r, w)).

(** The [switch] of [process]: what it returns, or goes on with the loop. *)
Definition onByte (data : Z) : State (Receiver * W) (option bool) := λ '(r, w),
  match state_ r with
  | IDLE =>
      if data =? Flag.kFlag
      then (None, (set_state FRAME_DELIMETER (set_index 0 r), w)) else (None, (r, w))
  | FRAME_DELIMETER =>
      if data =? Flag.kFlag then (None, (set_index 0 r, w))
      else if data =? Flag.kEscape then (None, (set_state ESCAPE r, w))
      else if (PayloadBufferSize <=? payload_index_ r)%nat
      then (logPayloadBufferOverflow;; mret (Some false)) (r, w)
      else (None, (set_state DATA (store_byte data r), w))
  | ESCAPE =>
      if (PayloadBufferSize <=? payload_index_ r)%nat
      then (logPayloadBufferOverflow;; mret (Some false)) (r, w)
      else (None, (set_state DATA (store_byte (u8 (Z.lxor data Flag.kXorValue)) r), w))
  | DATA =>
      if data =? Flag.kFlag then (Some true, (set_state FRAME_DELIMETER r, w))
      else if data =? Flag.kEscape then (None, (set_state ESCAPE r, w))
      else if (PayloadBufferSize <=? payload_index_ r)%nat
      then (logPayloadBufferOverflow;; mret (Some false)) (r, w)
      else (None, (store_byte data r, w))
  end.

(** [process()]: the loop, for at most [rounds] bytes. *)
Fixpoint process (rounds : nat) : Io (Receiver * W) bool :=
  match rounds with
  | O => λ _, None
  | S rounds => λ '(r, w),
      if ring_isEmpty (input_buffer_ r) then Some (false, (r, w))
      else
        match ring_dequeue (input_buffer_ r) with
        | (None, ring) => Some (false, (set_input ring r, w))
        | (Some data, ring) =>
            match onByte data (set_input ring r, w) with
            | (Some result, s) => Some (result, s)
            | (None, s) => process rounds s
            end
        end
  end.

(** [process(data)]. *)
Definition processSpan (rounds : nat) (data : bytes) : Io (Receiver * W) bool := λ '(r, w),
  let '(ok, r) := enqueueSpan data r in
  if negb ok then Some (false, (r, w)) else process rounds (r, w).

(** The returned size, and the output span afterwards. *)
Definition receivePayload (output : bytes) (r : Receiver) : (nat * bytes) * Receiver :=
  if negb (bool_decide (state_ r = FRAME_DELIMETER)) then ((0%nat, output), r)
  else if (payload_index_ r =? 0)%nat || (length output <? payload_index_ r)%nat
  then ((0%nat, output), r)
  else
    let output := memcpy_at 0 (take (payload_index_ r) (payload_buffer_ r)) output in
    ((payload_index_ r, output), set_state IDLE (set_index 0 r)).
End receiver.
Arguments Receiver : clear implicits.
End LegacyReceiver.

(** ** Encoding and decoding *)

Import Legacy.

Lemma byteStuff_two b :
  byteStuff b [0; 0] = (length (stuff b), stuff b ++ drop (length (stuff b)) [0; 0]).
Proof.
  unfold byteStuff, stuff, special. change Flag.kFlag with kFlag. change Flag.kEscape with kEscape.
  cbn [length]. by destruct (_ || _).
Qed.

Lemma stuff_length b : (1 ≤ length (stuff b) ≤ 2)%nat.
Proof. unfold stuff. case_match; simpl; lia. Qed.

Lemma legacy_stuffed_length p : (length p ≤ length (flat_map stuff p))%nat.
Proof.
  induction p as [|b p IH]; simpl; [lia|]. rewrite length_app. pose proof (stuff_length b). lia.
Qed.

(** What has been written, and the rest of the span. *)
Lemma encodeLoop_fits payload done rest :
  (length (flat_map stuff payload) ≤ length rest)%nat →
  encodeLoop payload (done ++ rest) (length done) =
    (Some (length (done ++ flat_map stuff payload)),
     (done ++ flat_map stuff payload) ++ drop (length (flat_map stuff payload)) rest).
Proof.
  revert done rest. induction payload as [|b payload IH]; intros done rest Hlen; cbn [encodeLoop flat_map].
  { by rewrite app_nil_r, drop_0. }
  cbn [flat_map] in Hlen. rewrite length_app in Hlen. pose proof (stuff_length b).
  rewrite byteStuff_two, take_app_length.
  destruct (Nat.eqb_spec (length (stuff b)) 0) as [|_]; [lia|].
  destruct (Nat.ltb_spec (length (done ++ rest)) (length done + length (stuff b))) as [Hno|_];
    [rewrite length_app in Hno; lia|].
  rewrite memcpy_at_app by (rewrite length_app; lia).
  rewrite take_app_length, drop_app_ge, Nat.add_sub_swap, Nat.sub_diag, Nat.add_0_l by lia.
  rewrite app_assoc, <- length_app, IH by (rewrite length_drop; lia).
  by rewrite <- !app_assoc, drop_drop, (length_app (stuff b)).
Qed.

Lemma encodeLoop_too_long payload done rest :
  (length rest < length (flat_map stuff payload))%nat →
  (encodeLoop payload (done ++ rest) (length done)).1 = None.
Proof.
  revert done rest. induction payload as [|b payload IH]; intros done rest Hlen; cbn [encodeLoop flat_map] in *;
    [simpl in Hlen; lia|].
  rewrite length_app in Hlen. pose proof (stuff_length b). rewrite byteStuff_two, take_app_length.
  destruct (Nat.eqb_spec (length (stuff b)) 0) as [|_]; [lia|].
  destruct (Nat.ltb_spec (length (done ++ rest)) (length done + length (stuff b))) as [|Hfit]; [done|].
  rewrite length_app in Hfit. rewrite memcpy_at_app by (rewrite length_app; lia).
  rewrite take_app_length, drop_app_ge, Nat.add_sub_swap, Nat.sub_diag, Nat.add_0_l by lia.
  rewrite app_assoc, <- length_app. apply IH. rewrite length_drop. lia.
Qed.

(** The frame on the wire, without a CRC. *)
Definition legacy_frame (payload : bytes) : bytes :=
  Flag.kFlag :: flat_map stuff payload ++ [Flag.kFlag].

Lemma encodeFrame_cases payload frame :
  let n := length (flat_map stuff payload) in
  (length frame < n + 1 ∨ length frame < length payload + 2)%nat ∧
    (∃ frame', encodeFrame payload frame = Some (false, frame') )
  ∨ (length frame = n + 1 ∧ length payload + 2 ≤ length frame)%nat ∧ encodeFrame payload frame = None
  ∨ (n + 2 ≤ length frame)%nat ∧
    encodeFrame payload frame =
      Some (true, legacy_frame payload ++ drop (length (legacy_frame payload)) frame).
Proof.
  cbv zeta. pose proof (legacy_stuffed_length payload) as Hstuffed. unfold encodeFrame.
  destruct (Nat.ltb_spec (length frame) (length payload + 2)) as [|Hlen]; [left; eauto|].
  destruct frame as [|x rest]; [simpl in Hlen; lia|]. cbn [length] in *.
  change (<[0%nat := Flag.kFlag]> (x :: rest)) with ([Flag.kFlag] ++ rest).
  destruct (le_lt_dec (length (flat_map stuff payload)) (length rest)) as [Hfits|Hno].
  - pose proof (encodeLoop_fits payload [Flag.kFlag] rest Hfits) as E. cbn [length] in E. rewrite E.
    set (n := length (flat_map stuff payload)) in *.
    assert (Hi : length ([Flag.kFlag] ++ flat_map stuff payload) = S n) by (rewrite length_app; done).
    rewrite Hi. right. rewrite length_app, Hi, length_drop.
    destruct (Nat.ltb_spec (S n) (S n + (length rest - n))) as [Hroom|]; [right|left; split_and!;
      [lia|lia|done]].
    split; [lia|]. f_equal. f_equal. unfold legacy_frame.
    destruct (drop n rest) as [|y rest'] eqn:Erest;
      [apply (f_equal length) in Erest; rewrite length_drop in Erest; simpl in Erest; lia|].
    rewrite insert_app_r_alt by lia. rewrite Hi, Nat.sub_diag. cbn [list_insert insert].
    cbn [app length drop]. rewrite length_app. cbn [length]. fold n. rewrite <- drop_drop, Erest.
    by rewrite <- app_assoc.
  - pose proof (encodeLoop_too_long payload [Flag.kFlag] rest Hno) as E. cbn [length] in E.
    destruct (encodeLoop payload _ 1) as [i frame']. cbn [fst] in E. subst i. left. eauto with lia.
Qed.

Lemma decodeLoop_stuffed p tail done rest :
  is_bytes p → (length p ≤ length rest)%nat →
  decodeLoop (flat_map stuff p ++ Flag.kFlag :: tail) (done ++ rest) (length done) false =
    ((0 <? length (done ++ p))%nat, (done ++ p) ++ drop (length p) rest).
Proof.
  intros Hp. revert done rest. induction Hp as [|b p Hb _ IH]; intros done rest Hlen; cbn [flat_map
    app length] in *.
  { rewrite app_nil_r, drop_0. cbn [decodeLoop]. by destruct (negb _). }
  destruct rest as [|x rest]; cbn [length] in Hlen; [lia|]. rewrite <- app_assoc.
  assert (Hroom : (length done <? length (done ++ x :: rest))%nat = true)
    by (apply Nat.ltb_lt; rewrite length_app; simpl; lia).
  assert (Hstep : decodeLoop (stuff b ++ flat_map stuff p ++ Flag.kFlag :: tail) (done ++ x :: rest)
      (length done) false =
    decodeLoop (flat_map stuff p ++ Flag.kFlag :: tail) (<[length done := b]> (done ++ x :: rest))
      (S (length done)) false).
  { unfold stuff. destruct (special b) eqn:Hs.
    - cbn [app decodeLoop]. rewrite Hroom. cbn [negb]. change (kEscape =? Flag.kFlag) with false.
      change (kEscape =? Flag.kEscape) with true. cbn iota.
      assert (Hx : u8 (Z.lxor (u8 (Z.lxor b kEscapeXor)) Flag.kXorValue) = b ∧
        (u8 (Z.lxor b kEscapeXor) =? Flag.kFlag) = false ∧ (u8 (Z.lxor b kEscapeXor) =? Flag.kEscape) = false).
      { unfold special in Hs. rewrite orb_true_iff, !Z.eqb_eq in Hs. by destruct Hs as [->| ->]. }
      destruct Hx as (-> & -> & ->). done.
    - unfold special in Hs. rewrite orb_false_iff in Hs. destruct Hs as [H1 H2].
      cbn [app decodeLoop]. rewrite Hroom. cbn [negb].
      change Flag.kFlag with kFlag. change Flag.kEscape with kEscape. by rewrite H1, H2. }
  rewrite Hstep, insert_app_r_alt, Nat.sub_diag by lia. cbn [list_insert insert].
  change (done ++ b :: rest) with (done ++ [b] ++ rest). rewrite app_assoc.
  replace (S (length done)) with (length (done ++ [b])) by (rewrite length_app; simpl; lia).
  rewrite IH by lia. cbn [drop]. by rewrite <- !app_assoc.
Qed.

(** ** The receiver *)

Import LegacyReceiver.

(** What a byte does to the receiver, over the payload collected so far. *)
Inductive RxEvent := Going (state : RxState) (payload : bytes) | Framed | Overflowed.

Section specification.
Variable N : nat.

Definition grow (data : Z) (payload : bytes) : RxEvent :=
  if (length payload <? N)%nat then Going DATA (payload ++ [data]) else Overflowed.

Definition spec_byte (data : Z) (state : RxState) (payload : bytes) : RxEvent :=
  match state with
  | IDLE => if data =? kFlag then Going FRAME_DELIMETER [] else Going IDLE payload
  | FRAME_DELIMETER =>
      if data =? kFlag then Going FRAME_DELIMETER []
      else if data =? kEscape then Going ESCAPE payload else grow data payload
  | ESCAPE => grow (u8 (Z.lxor data kEscapeXor)) payload
  | DATA =>
      if data =? kFlag then Framed
      else if data =? kEscape then Going ESCAPE payload else grow data payload
  end.

(** One call of [process] on the bytes held: what it returns, the bytes it leaves, and
    the receiver's state with its payload. *)
Fixpoint spec_process (bs : bytes) (state : RxState) (payload : bytes)
    : bool * bytes * (RxState * bytes) :=
  match bs with
  | [] => (false, [], (state, payload))
  | data :: bs =>
      match spec_byte data state payload with
      | Going state payload => spec_process bs state payload
      | Framed => (true, bs, (FRAME_DELIMETER, payload))
      | Overflowed => (false, [], (IDLE, []))
      end
  end.

Lemma spec_escaped b : is_u8 b → u8 (Z.lxor (u8 (Z.lxor b kEscapeXor)) kEscapeXor) = b.
Proof.
  intros Hb. apply Z.eqb_eq. revert b Hb.
  apply (u8_forall (λ b, u8 (Z.lxor (u8 (Z.lxor b kEscapeXor)) kEscapeXor) =? b)). by vm_compute.
Qed.

Lemma spec_stuffed p bs state acc :
  is_bytes p → (length acc + length p ≤ N)%nat → state = FRAME_DELIMETER ∨ state = DATA →
  spec_process (flat_map stuff p ++ bs) state acc =
    spec_process bs (if bool_decide (p = []) then state else DATA) (acc ++ p).
Proof.
  intros Hp. revert state acc.
  induction Hp as [|b p Hb _ IH]; intros state acc Hlen Hstate; cbn [flat_map length] in *;
    [by rewrite app_nil_r|].
  assert (Hroom : (length acc <? N)%nat = true) by (apply Nat.ltb_lt; lia).
  assert (Hstep : spec_process ((stuff b ++ flat_map stuff p) ++ bs) state acc =
    spec_process (flat_map stuff p ++ bs) DATA (acc ++ [b])).
  { unfold stuff. destruct (special b) eqn:Hs.
    - destruct Hstate as [->| ->]; cbn [app spec_process spec_byte];
        change (kEscape =? kFlag) with false; change (kEscape =? kEscape) with true; cbn iota;
        cbn [spec_process spec_byte]; unfold grow; rewrite Hroom; by rewrite spec_escaped.
    - unfold special in Hs. rewrite orb_false_iff in Hs. destruct Hs as [H1 H2].
      destruct Hstate as [->| ->]; cbn [app spec_process spec_byte]; rewrite H1, H2;
        unfold grow; by rewrite Hroom. }
  rewrite Hstep, IH by (rewrite ?length_app; simpl; lia || by right).
  rewrite <- app_assoc. by case_bool_decide.
Qed.

(** A frame on an idle receiver. *)
Lemma spec_frame p bs payload :
  is_bytes p → p ≠ [] → (length p ≤ N)%nat →
  spec_process (legacy_frame p ++ bs) IDLE payload = (true, bs, (FRAME_DELIMETER, p)).
Proof.
  intros Hp Hne Hlen. unfold legacy_frame. cbn [app spec_process spec_byte].
  change (Flag.kFlag =? kFlag) with true. cbn iota. rewrite <- app_assoc, spec_stuffed; [|done|done|by left].
  rewrite bool_decide_eq_false_2 by done. done.
Qed.
End specification.

Section receiver_proofs.
Context {R W : Type} `{!ByteRing R, !RingLaws R, !Logging W}.
Variable N : nat.

Record receiver_wf (r : Receiver R) : Prop := {
  lr_ring : ring_ok (input_buffer_ r);
  lr_buffer : length (payload_buffer_ r) = N;
  lr_index : (payload_index_ r ≤ N)%nat;
}.

Definition collected (r : Receiver R) : bytes := take (payload_index_ r) (payload_buffer_ r).
Definition pending_bytes (r : Receiver R) : bytes := held (input_buffer_ r).

Lemma collected_length r : receiver_wf r → length (collected r) = payload_index_ r.
Proof. intros [_ Hb Hi]. unfold collected. rewrite length_take. lia. Qed.

Lemma store_byte_spec data r :
  receiver_wf r → (payload_index_ r < N)%nat →
  receiver_wf (store_byte data r) ∧ collected (store_byte data r) = collected r ++ [data].
Proof.
  intros [Hring Hbuf Hidx] Hroom. split.
  - split; cbn; [done|by rewrite length_insert|lia].
  - unfold collected. cbn. rewrite <- Hbuf in Hroom. by rewrite take_insert_snoc.
Qed.

(** What the receiver is after an event. *)
Definition after_event (event : RxEvent) (r : Receiver R) (out : option bool) (r' : Receiver R) : Prop :=
  match event with
  | Going state payload =>
      out = None ∧ state_ r' = state ∧ collected r' = payload ∧ pending_bytes r' = pending_bytes r
  | Framed =>
      out = Some true ∧ state_ r' = FRAME_DELIMETER ∧ collected r' = collected r ∧
      pending_bytes r' = pending_bytes r
  | Overflowed =>
      out = Some false ∧ state_ r' = IDLE ∧ collected r' = [] ∧ pending_bytes r' = []
  end.

(** The common guard of the three stores. *)
Lemma guarded_store data r stored (w : W) :
  receiver_wf r →
  input_buffer_ stored = input_buffer_ r → state_ stored = DATA →
  payload_index_ stored = payload_index_ (store_byte data r) →
  payload_buffer_ stored = payload_buffer_ (store_byte data r) →
  let '(out, (r', w')) :=
    if (N <=? payload_index_ r)%nat
    then (logPayloadBufferOverflow;; mret (Some false)) (r, w) else (None, (stored, w)) in
  receiver_wf r' ∧ after_event (grow N data (collected r)) r out r'.
Proof.
  intros Hr Ein Est Eidx Ebuf. pose proof (collected_length r Hr) as Hlen. pose proof Hr as [Hring _ _].
  destruct (clear_held (input_buffer_ r) Hring) as [Hclear Eclear]. unfold grow. rewrite Hlen.
  destruct (Nat.leb_spec N (payload_index_ r)) as [Hfull|Hroom].
  - rewrite (proj2 (Nat.ltb_ge _ _)) by done. unfold mbind, State_bind, logPayloadBufferOverflow.
    destruct (log_overflow _ _ w) as [[] w1]. destruct Hr. by split; [split; cbn; lia || done|].
  - rewrite (proj2 (Nat.ltb_lt _ _)) by done.
    destruct (store_byte_spec data r Hr Hroom) as [[_ Hb Hi] Hcol].
    split; [split; congruence|]. unfold after_event, collected, pending_bytes in *. split_and!; congruence.
Qed.

Lemma onByte_spec data r (w : W) :
  receiver_wf r →
  let '(out, (r', w')) := onByte N data (r, w) in
  receiver_wf r' ∧ after_event (spec_byte N data (state_ r) (collected r)) r out r'.
Proof.
  intros Hr. pose proof Hr as [Hring Hbuf Hidx]. unfold onByte, spec_byte.
  change Flag.kFlag with kFlag. change Flag.kEscape with kEscape. change Flag.kXorValue with kEscapeXor.
  destruct (state_ r) eqn:Est; repeat (match goal with |- context [data =? ?c] => destruct (data =? c) end);
    try (by apply guarded_store); by split_and!; [split; cbn; lia || done|..].
Qed.

(** [process] on any receiver ends, and does what the specification says. *)
Lemma process_spec rounds r (w : W) :
  receiver_wf r → (length (pending_bytes r) < rounds)%nat →
  ∃ ok r' w', process N rounds (r, w) = Some (ok, (r', w')) ∧ receiver_wf r' ∧
    spec_process N (pending_bytes r) (state_ r) (collected r) =
      (ok, pending_bytes r', (state_ r', collected r')).
Proof.
  revert r w. induction rounds as [|rounds IH]; intros r w Hr Hlen; [lia|]. cbn [process].
  pose proof Hr as [Hring Hbuf Hidx]. rewrite isEmpty_held by done.
  pose proof (dequeue_held (input_buffer_ r) Hring) as Hdeq. unfold pending_bytes in *.
  destruct (ring_dequeue (input_buffer_ r)) as [data ring]. destruct Hdeq as (Hring' & -> & Eheld).
  destruct (held (input_buffer_ r)) as [|byte bs] eqn:E; cbn [head tail] in *.
  { rewrite bool_decide_eq_true_2 by done. exists false, r, w. cbn [spec_process]. by rewrite E. }
  rewrite bool_decide_eq_false_2 by done.
  assert (Hr1 : receiver_wf (set_input ring r)) by by split.
  pose proof (onByte_spec byte (set_input ring r) w Hr1) as Hbyte.
  destruct (onByte N byte (set_input ring r, w)) as [out [r1 w1]]. destruct Hbyte as [Hwf Hev].
  cbn [spec_process]. change (state_ (set_input ring r)) with (state_ r) in Hev.
  change (collected (set_input ring r)) with (collected r) in Hev.
  unfold after_event, pending_bytes in Hev. change (input_buffer_ (set_input ring r)) with ring in Hev.
  destruct (spec_byte N byte (state_ r) (collected r)).
  - destruct Hev as (-> & <- & <- & Ep). rewrite Eheld in Ep. rewrite <- Ep.
    apply IH; [done|]. rewrite Ep. simpl in Hlen. lia.
  - destruct Hev as (-> & Es & Ec & Ep). exists true, r1, w1. by rewrite Es, Ec, Ep, Eheld.
  - destruct Hev as (-> & Es & Ec & Ep). exists false, r1, w1. by rewrite Es, Ec, Ep.
Qed.

Lemma receiver_enqueueSpan data r :
  receiver_wf r →
  let '(ok, r') := enqueueSpan data r in
  receiver_wf r' ∧ state_ r' = state_ r ∧ collected r' = collected r ∧
  ok = bool_decide (length data ≤ ring_room (R := R) - length (pending_bytes r))%nat ∧
  pending_bytes r' = pending_bytes r ++ take (ring_room (R := R) - length (pending_bytes r)) data.
Proof.
  revert r. induction data as [|byte data IH]; intros r Hr; cbn [enqueueSpan].
  { rewrite take_nil, app_nil_r, bool_decide_eq_true_2 by (simpl; lia). done. }
  pose proof Hr as [Hring Hbuf Hidx]. pose proof (enqueue_held byte (input_buffer_ r) Hring) as Henq.
  destruct (ring_enqueue byte (input_buffer_ r)) as [ok ring]. destruct Henq as (Hring' & -> & Eheld).
  fold (pending_bytes r) in Eheld |- *. unfold pending_bytes in Eheld at 1.
  destruct (decide (length (pending_bytes r) < ring_room)%nat) as [Hroom|Hroom];
    [rewrite bool_decide_eq_true_2 in Eheld |- * by done|rewrite bool_decide_eq_false_2 in Eheld |- * by done];
    cbn [negb].
  - assert (Hr1 : receiver_wf (set_input ring r)) by by split.
    specialize (IH _ Hr1). destruct (enqueueSpan data (set_input ring r)) as [ok r'].
    destruct IH as (Hr' & Es & Ec & -> & Ep).
    change (pending_bytes (set_input ring r)) with (held ring) in *. fold (pending_bytes r) in *.
    rewrite Eheld in *.
    rewrite length_app in *. cbn [length] in *.
    split_and!; [done|done|done| |].
    + apply bool_decide_ext. lia.
    + rewrite Ep, <- app_assoc. f_equal.
      replace (ring_room - length (pending_bytes r))%nat with (S (ring_room - (length (pending_bytes
        r) + 1))) by lia.
      done.
  - split_and!; [by split|done|done| |].
    + rewrite bool_decide_eq_false_2; [done|]. simpl. lia.
    + change (pending_bytes (set_input ring r)) with (held ring). fold (pending_bytes r) in Eheld.
      rewrite Eheld. replace (ring_room - length (pending_bytes r))%nat with 0%nat by lia.
      by rewrite take_0, app_nil_r.
Qed.

(** A caller that polls [n] times for a frame, with an output span as large as
    [output] each time. *)
Fixpoint drain (rounds : nat) (output : bytes) (n : nat) : Io (Receiver R * W) (list bytes) :=
  match n with
  | O => mret []
  | S n =>
      ok ← process N rounds;
      if negb ok then mret []
      else λ '(r, w),
        let '((size, out), r) := receivePayload output r in
        (rest ← drain rounds output n; mret (take size out :: rest)) (r, w)
  end.

Lemma receivePayload_spec output r :
  receiver_wf r → state_ r = FRAME_DELIMETER → collected r ≠ [] →
  (length (collected r) ≤ length output)%nat →
  let '((size, out), r') := receivePayload output r in
  take size out = collected r ∧ receiver_wf r' ∧ state_ r' = IDLE ∧ pending_bytes r' = pending_bytes r.
Proof.
  intros Hr Hst Hne Hlen. pose proof (collected_length r Hr) as Hc. rewrite Hc in Hlen.
  unfold receivePayload. rewrite Hst, bool_decide_eq_true_2 by done. cbn [negb].
  destruct (Nat.eqb_spec (payload_index_ r) 0) as [E|_].
  { destruct Hne. apply length_zero_iff_nil. congruence. }
  rewrite (proj2 (Nat.ltb_ge _ _)) by done. cbn [orb]. fold (collected r).
  rewrite memcpy_at_app by (simpl; lia). rewrite take_0, app_nil_l, <- Hc, take_app_length.
  destruct Hr. by split_and!; [|split; cbn; lia || done| |].
Qed.

Lemma drain_frames rounds output ps r (w : W) :
  receiver_wf r → state_ r = IDLE → pending_bytes r = flat_map legacy_frame ps →
  Forall (λ p, is_bytes p ∧ p ≠ [] ∧ (length p ≤ N)%nat ∧ (length p ≤ length output)%nat) ps →
  (length (flat_map legacy_frame ps) < rounds)%nat →
  ∃ s', drain rounds output (length ps) (r, w) = Some (ps, s').
Proof.
  intros Hr Hst Hpend Hps. revert r w Hr Hst Hpend.
  induction Hps as [|p ps (Hp & Hne & HpN & Hpo) _ IH]; intros r w Hr Hst Hpend Hlen;
    cbn [drain length flat_map] in *; [by eexists|].
  destruct (process_spec rounds r w Hr) as (ok & r1 & w1 & E & Hr1 & Espec); [by rewrite Hpend|].
  rewrite Hpend, Hst, spec_frame in Espec by done. injection Espec as <- Ep1 Est1 Ec1.
  unfold mbind at 1, Io_bind at 1. rewrite E. cbn [negb].
  pose proof (receivePayload_spec output r1 Hr1 (eq_sym Est1)) as Hrecv. rewrite <- Ec1 in Hrecv.
  specialize (Hrecv Hne Hpo). destruct (receivePayload output r1) as [[size out] r2].
  destruct Hrecv as (Etake & Hr2 & Est2 & Ep2).
  destruct (IH r2 w1 Hr2 Est2) as [s' Es'].
  - by rewrite Ep2.
  - rewrite length_app in Hlen. lia.
  - exists s'. unfold mbind, Io_bind. rewrite Es', Etake. done.
Qed.
End receiver_proofs.

(** ** Properties *)

(** C39: What [encodeFrame] does with every payload and every span: it reports failure
    when the span is too small for the stuffed payload, it writes the frame and leaves
    the rest of the span when both flags fit, and in the one case between, the span full
    after the payload, it stores the closing flag behind the span. *)
Theorem legacy_encodeFrame_outcome (payload frame : bytes) :
  let n := length (flat_map stuff payload) in
  match encodeFrame payload frame with
  | Some (true, frame') =>
      (n + 2 ≤ length frame)%nat ∧
      frame' = legacy_frame payload ++ drop (length (legacy_frame payload)) frame
  | Some (false, _) => (length frame < n + 1 ∨ length frame < length payload + 2)%nat
  | None => (length frame = n + 1)%nat ∧ (length payload < n)%nat
  end.
Proof.
  cbv zeta. destruct (encodeFrame_cases payload frame) as [[Hlen [frame' ->]]|[[Hlen ->]|[Hlen ->]]];
    [done|lia|done].
Qed.

(** The store behind the span happens. *)
Example encodeFrame_overruns : encodeFrame [0x7E; 0x7E] (replicate 5 0) = None.
Proof. reflexivity. Qed.

(** Decoding what was encoded: [decodePayload] on the bytes after the opening flag
    gives the payload back, leaves the rest of the output alone, and reports a payload
    exactly when there is one. *)
Theorem legacy_payload_roundtrip (payload frame frame' output : bytes) :
  is_bytes payload → encodeFrame payload frame = Some (true, frame') →
  (length payload ≤ length output)%nat →
  decodePayload (tail frame') output =
    (bool_decide (payload ≠ []), payload ++ drop (length payload) output).
Proof.
  intros Hp E Hlen. destruct (encodeFrame_cases payload frame) as [[_ [f E']]|[[_ E']|[_ E']]];
    rewrite E in E'; [done|done|]. injection E' as ->. unfold legacy_frame, decodePayload. cbn [tail app].
  rewrite <- app_assoc. cbn [app].
  pose proof (decodeLoop_stuffed payload (drop (length (Flag.kFlag :: flat_map stuff payload ++
    [Flag.kFlag])) frame)
    [] output Hp Hlen) as E'. cbn [app length] in E'. rewrite E'. f_equal. by destruct payload.
Qed.

Lemma legacy_payload_roundtrip_witness :
  decodePayload [0x7D; 0x5E; 3; 0x7D; 0x5D; 0x7E] [0; 0; 0; 9] = (true, [0x7E; 3; 0x7D; 9]).
Proof.
  exact (legacy_payload_roundtrip [0x7E; 3; 0x7D] (replicate 7 0) [0x7E; 0x7D; 0x5E; 3; 0x7D; 0x5D;
    0x7E] [0; 0; 0; 9]
    ltac:(by_evaluation) eq_refl ltac:(simpl; lia)).
Defined.

(** For any ring buffer that is a bounded FIFO and any logger, [process] ends after
    the bytes held, whatever they are; it never writes past its array, and it returns,
    leaves and collects what the frame grammar says: a frame at its closing flag, nothing
    at the end of the bytes, and after a payload that does not fit an empty receiver
    whose ring buffer has lost everything it held. *)
Theorem legacy_process_refines {R W} `{!ByteRing R, !RingLaws R, !Logging W}
    (N rounds : nat) (r : Receiver R) (w : W) :
  receiver_wf N r → (length (pending_bytes r) < rounds)%nat →
  ∃ ok r' w', process N rounds (r, w) = Some (ok, (r', w')) ∧ receiver_wf N r' ∧
    spec_process N (pending_bytes r) (state_ r) (collected r) =
      (ok, pending_bytes r', (state_ r', collected r')).
Proof. apply process_spec. Qed.

(** C38: Frames through the legacy link: any payloads encoded into spans of the right
    size, enqueued one after the other, come out of the receiver as they went in, one
    per [process] and [receivePayload]. *)
Theorem legacy_stream_roundtrip {R W} `{!ByteRing R, !RingLaws R, !Logging W}
    (N rounds : nat) (r : Receiver R) (w : W) (output : bytes) (ps frames : list bytes) :
  receiver_wf N r → state_ r = IDLE → pending_bytes r = [] →
  Forall (λ p, is_bytes p ∧ p ≠ [] ∧ (length p ≤ N)%nat ∧ (length p ≤ length output)%nat) ps →
  Forall2 (λ p frame, encodeFrame p (replicate (length (legacy_frame p)) 0) = Some (true, frame)) ps frames →
  (length (concat frames) ≤ ring_room (R := R))%nat → (length (concat frames) < rounds)%nat →
  let '(ok, r1) := enqueueSpan (concat frames) r in
  ok = true ∧ ∃ s', drain N rounds output (length ps) (r1, w) = Some (ps, s').
Proof.
  intros Hr Hst Hpend Hps Hframes Hroom Hrounds.
  assert (Eframes : concat frames = flat_map legacy_frame ps).
  { clear Hps Hroom Hrounds. induction Hframes as [|p frame ps frames E _ IH]; [done|]. cbn [concat flat_map].
    rewrite IH. f_equal. destruct (encodeFrame_cases p (replicate (length (legacy_frame p)) 0))
      as [[_ [f E']]|[[_ E']|[_ E']]]; rewrite E in E'; [done|done|]. injection E' as ->.
    by rewrite drop_ge, app_nil_r by by rewrite length_replicate. }
  rewrite Eframes in *. pose proof (receiver_enqueueSpan N (flat_map legacy_frame ps) r Hr) as Henq.
  destruct (enqueueSpan _ r) as [ok r1]. rewrite Hpend, Hst in Henq. cbn [length app] in Henq.
  rewrite Nat.sub_0_r, take_ge in Henq by done. destruct Henq as (Hr1 & Est1 & _ & -> & Epend1).
  split; [by apply bool_decide_eq_true_2|]. by apply drain_frames.
Qed.

(** *** Witnesses: the repository's own ring buffer, and a logger that keeps the messages *)

Module OwnRing.
Definition kCapacity : Z := 64.
Definition index_bits : Z := 16.
#[export] Instance own_ring : ByteRing (RingBuffer.RingBuffer Z) := {
  ring_isEmpty := RingBuffer.isEmpty;
  ring_enqueue := RingBuffer.enqueue kCapacity index_bits;
  ring_dequeue := RingBuffer.dequeue 0 kCapacity index_bits;
  ring_clear := RingBuffer.clear 0 kCapacity index_bits;
}.
#[export, refine] Instance own_ring_laws : RingLaws (RingBuffer.RingBuffer Z) := {
  ring_ok := RingBuffer.wf kCapacity;
  held := RingBuffer.contents 0 kCapacity;
  ring_room := 64;
}.
Proof.
  all: assert (Hcap : 0 < kCapacity < 2 ^ index_bits) by by_evaluation.
  - intros b Hb. cbn. rewrite (RingBuffer.isEmpty_count kCapacity index_bits) by done.
    unfold RingBuffer.contents. destruct (Z.eqb_spec (RingBuffer.count kCapacity b) 0) as [->|Hne]; [done|].
    pose proof (RingBuffer.count_bound kCapacity index_bits Hcap b) as Hc. symmetry.
    apply bool_decide_eq_false_2.
    intros E%(f_equal length). rewrite ring_length in E. simpl in E. lia.
  - intros data b Hb. apply (RingBuffer.enqueue_spec 0 kCapacity index_bits Hcap data b Hb).
  - intros b Hb. apply (RingBuffer.dequeue_spec 0 kCapacity index_bits Hcap b Hb).
  - intros b Hb. apply (RingBuffer.clear_spec 0 kCapacity index_bits Hcap b Hb).
Defined.
#[export] Instance own_log : Logging (list (string * bytes)) :=
  λ state first8, modify (λ log, log ++ [(state, first8)]).
Definition receiver (buffer : bytes) : Receiver (RingBuffer.RingBuffer Z) :=
  new_receiver (RingBuffer.empty 0 kCapacity) buffer.

Lemma receiver_ok buffer : receiver_wf (length buffer) (receiver buffer).
Proof. split; cbn; [|done|lia]. apply (RingBuffer.empty_wf 0 kCapacity index_bits); by_evaluation. Qed.
End OwnRing.
Import OwnRing.

Lemma legacy_stream_roundtrip_witness :
  let frames := [[0x7E; 1; 0x7D; 0x5E; 0x7E]; [0x7E; 2; 3; 0x7E]] in
  let '(ok, r1) := enqueueSpan (concat frames) (receiver [0; 0; 0; 0]) in
  ok = true ∧ ∃ s', drain 4 20 [0; 0] 2 (r1, [] : list (string * bytes)) = Some ([[1; 0x7E]; [2; 3]], s').
Proof.
  intros frames.
  apply (legacy_stream_roundtrip 4 20 (receiver [0; 0; 0; 0]) ([] : list (string * bytes)) [0; 0]
    [[1; 0x7E]; [2; 3]] frames (receiver_ok [0; 0; 0; 0])).
  - reflexivity.
  - vm_compute. reflexivity.
  - repeat constructor; done.
  - repeat constructor.
  - apply Nat.leb_le. reflexivity.
  - apply Nat.ltb_lt. reflexivity.
Defined.

(** A payload of five bytes does not fit four: the message, and an empty receiver. *)
Lemma legacy_process_refines_witness :
  let r := (enqueueSpan [0x7E; 1; 2; 3; 4; 5; 0x7E] (receiver [0; 0; 0; 0])).2 in
  ∃ ok r' w', process 4 20 (r, [] : list (string * bytes)) = Some (ok, (r', w')) ∧
    receiver_wf 4 r' ∧ pending_bytes r' = [] ∧ ok = false.
Proof.
  intros r.
  assert (Hr : receiver_wf 4 r).
  { pose proof (receiver_enqueueSpan 4 [0x7E; 1; 2; 3; 4; 5; 0x7E] _ (receiver_ok [0; 0; 0; 0])) as H.
    unfold r. destruct (enqueueSpan [126; 1; 2; 3; 4; 5; 126] _) as [ok r1]. apply H. }
  destruct (legacy_process_refines 4 20 r ([] : list (string * bytes)) Hr) as (ok & r' & w' & E & Hr' & Espec).
  { apply Nat.ltb_lt. vm_compute. reflexivity. }
  exists ok, r', w'. vm_compute in Espec. injection Espec as <- Ep _ _.
  by split_and!.
Defined.
