(* ===== verification/StaticString.v ===== *)
(** * Fixed-capacity strings ([foundation/static_string.h])

    [StaticString<N>]: the characters, the terminator that every operation keeps behind
    them, and the length.  A C string is the memory from the pointer on; an operation
    that reads [input_length] characters needs that many, one that looks for the
    terminator needs one among the first [N] characters or [N] characters ([readable]).
    The strings refine lists cut off at [N] characters, and one read back through
    [data()] is the same string. *)

From S2P Require Import Prelude Containers.
Local Open Scope Z_scope.

Definition kDefaultStaticStringCapacity : nat := 100.
(** The terminator. *)
Definition nul : Z := 0.

Module StaticString.
Section static_string.
Variable N : nat.

Record StaticString := { data_ : bytes; length_ : nat }.

Definition new_string : StaticString :=
  {| data_ := <[0%nat := nul]> (replicate (N + 1) 0); length_ := 0 |}.

Definition assign (str : bytes) (input_length : nat) (s : StaticString) : StaticString :=
  let length := if (N <? input_length)%nat then N else input_length in
  let data := if (0 <? length)%nat then memcpy_at 0 (take length str) (data_ s) else data_ s in
  {| data_ := <[length := nul]> data; length_ := length |}.

Definition append (str : bytes) (input_length : nat) (s : StaticString) : StaticString :=
  let available := (N - length_ s)%nat in
  let to_copy := if (available <? input_length)%nat then available else input_length in
  if (to_copy =? 0)%nat then s
  else
    let data := memcpy_at (length_ s) (take to_copy str) (data_ s) in
    let length := (length_ s + to_copy)%nat in
    {| data_ := <[length := nul]> data; length_ := length |}.

(** The loop looks at [N] characters at most. *)
Definition boundedLength (str : bytes) : nat :=
  while_upto N (λ length, (length <? N)%nat && negb (nth length str nul =? nul)) S 0%nat.

Definition append_cstr (str : bytes) (s : StaticString) : StaticString :=
  append str (boundedLength str) s.

Definition append_char (character : Z) (s : StaticString) : StaticString :=
  if (length_ s <? N)%nat
  then {| data_ := <[S (length_ s) := nul]> (<[length_ s := character]> (data_ s));
          length_ := S (length_ s) |}
  else s.

Definition clear (s : StaticString) : StaticString :=
  {| data_ := <[0%nat := nul]> (data_ s); length_ := 0 |}.

Definition capacity : nat := N.

Definition get (position : nat) (s : StaticString) : option Z := data_ s !! position.
Definition set_at (position : nat) (character : Z) (s : StaticString) : StaticString :=
  {| data_ := <[position := character]> (data_ s); length_ := length_ s |}.

(** The constructors from a span and from a C string. *)
Definition from_span (str : bytes) (input_length : nat) : StaticString :=
  assign str input_length new_string.
Definition from_cstr (str : bytes) : StaticString := from_span str (boundedLength str).
End static_string.

(** The constructor and the assignment from a string of another capacity. *)
Definition convert (N : nat) (other : StaticString) : StaticString :=
  assign N (data_ other) (length_ other) (new_string N).
Definition assign_string (N : nat) (other : StaticString) (s : StaticString) : StaticString :=
  assign N (data_ other) (length_ other) s.

(** [operator""_l]. *)
Definition literal (data : bytes) (length : nat) : StaticString :=
  from_span kDefaultStaticStringCapacity data length.

(** ** The characters of a string *)

Section facts.
Variable N : nat.

Definition text (s : StaticString) : bytes := take (length_ s) (data_ s).

Record string_wf (s : StaticString) : Prop := {
  ss_storage : length (data_ s) = (N + 1)%nat;
  ss_length : (length_ s ≤ N)%nat;
  ss_terminated : data_ s !! length_ s = Some nul;
}.

Lemma text_length s : string_wf s → length (text s) = length_ s.
Proof. intros [Hs Hl _]. unfold text. rewrite length_take. lia. Qed.

(** Storing characters from [at] on, and the terminator behind them. *)
Lemma stored_text (data chars : bytes) (at_ : nat) :
  length data = (N + 1)%nat → (at_ + length chars ≤ N)%nat →
  let s := {| data_ := <[(at_ + length chars)%nat := nul]> (memcpy_at at_ chars data);
              length_ := at_ + length chars |} in
  string_wf s ∧ text s = take at_ data ++ chars.
Proof.
  intros Hdata Hroom s. split; [split|]; cbn.
  - by rewrite length_insert, memcpy_at_length.
  - done.
  - apply list_lookup_insert_eq. rewrite memcpy_at_length. lia.
  - unfold text. cbn. rewrite take_insert_ge by done. rewrite memcpy_at_app by lia.
    rewrite app_assoc. apply take_app_length'. rewrite length_app, length_take. lia.
Qed.

Lemma new_string_wf : string_wf (new_string N) ∧ text (new_string N) = [].
Proof.
  split; [split|done]; cbn; [by rewrite length_insert, length_replicate|lia|].
  apply list_lookup_insert_eq. rewrite length_replicate. lia.
Qed.

Lemma assign_spec str n s :
  string_wf s → (n ≤ length str)%nat →
  string_wf (assign N str n s) ∧ text (assign N str n s) = take N (take n str).
Proof.
  intros Hs Hn. pose proof (ss_storage _ Hs) as Hdata. unfold assign. rewrite take_take.
  set (m := if (N <? n)%nat then N else n).
  assert (Hm : m = Nat.min N n) by (unfold m; destruct (Nat.ltb_spec N n); lia). rewrite <- Hm.
  assert (Hlen : length (take m str) = m) by (rewrite length_take; lia).
  pose proof (stored_text (data_ s) (take m str) 0 Hdata ltac:(lia)) as [Hwf Htext].
  rewrite Hlen, Nat.add_0_l, take_0, app_nil_l in *. destruct (Nat.ltb_spec 0 m) as [|H0]; [done|].
  assert (m = 0%nat) as E by lia. rewrite E, take_0 in *. by split.
Qed.

Lemma string_append_spec str n s :
  string_wf s → (n ≤ length str)%nat →
  string_wf (append N str n s) ∧ text (append N str n s) = take N (text s ++ take n str).
Proof.
  intros Hs Hn. pose proof Hs as [Hdata Hlen Hnul]. pose proof (text_length s Hs) as Htl. unfold append.
  set (m := if (N - length_ s <? n)%nat then (N - length_ s)%nat else n).
  assert (Hm : m = Nat.min (N - length_ s) n) by (unfold m; destruct (Nat.ltb_spec (N - length_ s) n); lia).
  assert (E : take N (text s ++ take n str) = text s ++ take m str).
  { rewrite take_app, Htl, take_take, Hm, (take_ge (text s)) by lia. done. }
  rewrite E. destruct (Nat.eqb_spec m 0) as [H0|H0].
  { by rewrite H0, take_0, app_nil_r. }
  assert (Hlenm : length (take m str) = m) by (rewrite length_take; lia).
  pose proof (stored_text (data_ s) (take m str) (length_ s) Hdata ltac:(lia)) as [Hwf Htext].
  rewrite Hlenm in *. done.
Qed.

Lemma append_char_spec c s :
  string_wf s →
  string_wf (append_char N c s) ∧ text (append_char N c s) = take N (text s ++ [c]).
Proof.
  intros Hs. pose proof Hs as [Hdata Hlen Hnul]. pose proof (text_length s Hs) as Htl. unfold append_char.
  destruct (Nat.ltb_spec (length_ s) N) as [Hroom|Hfull].
  - pose proof (stored_text (data_ s) [c] (length_ s) Hdata ltac:(simpl; lia)) as [Hwf Htext].
    cbn [length] in *. rewrite Nat.add_1_r in *. rewrite take_ge by (rewrite length_app; simpl; lia). done.
  - split; [done|]. rewrite take_app_le by lia. by rewrite take_ge by lia.
Qed.

Lemma string_clear_spec s : string_wf s → string_wf (clear s) ∧ text (clear s) = [].
Proof.
  intros [Hdata Hlen Hnul]. split; [split|done]; cbn; [by rewrite length_insert|lia|].
  apply list_lookup_insert_eq. lia.
Qed.

(** Writing a character of the string; the terminator is not one. *)
Lemma set_at_spec position c s :
  string_wf s → (position < length_ s)%nat →
  string_wf (set_at position c s) ∧ text (set_at position c s) = <[position := c]> (text s).
Proof.
  intros [Hdata Hlen Hnul] Hpos. split; [split|]; cbn.
  - by rewrite length_insert.
  - done.
  - by rewrite list_lookup_insert_ne by lia.
  - unfold text. cbn. by rewrite take_insert_lt.
Qed.

(** *** C strings *)

(** The characters before the terminator, [N] at most. *)
Fixpoint c_text (n : nat) (str : bytes) : bytes :=
  match n, str with
  | S n, c :: str => if c =? nul then [] else c :: c_text n str
  | _, _ => []
  end.

Lemma c_text_take n str : c_text n str = take (length (c_text n str)) str.
Proof.
  revert n. induction str as [|c str IH]; intros [|n]; cbn [c_text]; try done.
  destruct (c =? nul); [done|]. cbn [length take]. by rewrite <- IH.
Qed.

Lemma boundedLength_spec str : boundedLength N str = length (c_text N str).
Proof.
  unfold boundedLength.
  assert (H : ∀ n k, (k + n = N)%nat →
    while_upto n (λ length, (length <? N)%nat && negb (nth length str nul =? nul)) S k =
      (k + length (c_text n (drop k str)))%nat).
  { induction n as [|n IH]; intros k Hk; cbn [while_upto c_text]; [simpl; lia|].
    rewrite (proj2 (Nat.ltb_lt k N)) by lia. cbn [andb].
    destruct (drop k str) as [|c rest] eqn:E.
    - apply (f_equal length) in E as Hlen. rewrite length_drop in Hlen. simpl in Hlen.
      rewrite nth_overflow by lia. simpl. lia.
    - assert (Hk' : str !! k = Some c) by (rewrite <- (Nat.add_0_r k), <- lookup_drop, E; done).
      rewrite nth_lookup, Hk'. cbn [default from_option id]. destruct (c =? nul); cbn [negb]; [simpl; lia|].
      rewrite IH by lia. rewrite <- Nat.add_1_r, <- drop_drop, E. cbn [drop length]. rewrite drop_0. lia. }
  by rewrite (H N 0%nat), drop_0.
Qed.

Lemma boundedLength_take str : take (boundedLength N str) str = c_text N str.
Proof. by rewrite boundedLength_spec, <- c_text_take. Qed.

Lemma boundedLength_readable str :
  (boundedLength N str ≤ length str)%nat ∧ (boundedLength N str ≤ N)%nat.
Proof.
  rewrite boundedLength_spec. split.
  - rewrite c_text_take at 1. rewrite length_take. lia.
  - generalize N. induction str as [|c str IH]; intros [|n]; cbn [c_text length]; try lia.
    destruct (c =? nul); cbn [length]; [lia|]. specialize (IH n). lia.
Qed.

(** What is read back through [data()] is the string, unless a character of it is the
    terminator. *)
Lemma text_terminated s :
  string_wf s → nul ∉ text s → c_text (S (length_ s)) (data_ s) = text s.
Proof.
  intros [Hdata Hlen Hnul]. unfold text. revert Hnul. generalize (length_ s) (data_ s).
  intros n. induction n as [|n IH]; intros data Hnul Hno; destruct data as [|c data]; try done; cbn in Hnul.
  - injection Hnul as ->. done.
  - cbn [take] in *. apply not_elem_of_cons in Hno as [Hc Hno]. cbn [c_text].
    rewrite (proj2 (Z.eqb_neq c nul)) by congruence. f_equal. by apply IH.
Qed.

(** ** Sequences of operations *)

Inductive Op :=
  | Assign (str : bytes) (input_length : nat)
  | AssignString (other : StaticString)
  | Append (str : bytes) (input_length : nat)
  | AppendCstr (str : bytes)
  | AppendChar (character : Z)
  | Clear
  | Get (position : nat)
  | SetAt (position : nat) (character : Z)
  | Length.

Inductive Outcome := Done | Character (c : option Z) | Count (n : nat).

Definition exec (op : Op) (s : StaticString) : Outcome * StaticString :=
  match op with
  | Assign str n => (Done, assign N str n s)
  | AssignString other => (Done, assign_string N other s)
  | Append str n => (Done, append N str n s)
  | AppendCstr str => (Done, append_cstr N str s)
  | AppendChar c => (Done, append_char N c s)
  | Clear => (Done, clear s)
  | Get position => (Character (get position s), s)
  | SetAt position c => (Done, set_at position c s)
  | Length => (Count (length_ s), s)
  end.

(** The same on lists of at most [N] characters. *)
Definition exec_text (op : Op) (l : bytes) : Outcome * bytes :=
  match op with
  | Assign str n => (Done, take N (take n str))
  | AssignString other => (Done, take N (text other))
  | Append str n => (Done, take N (l ++ take n str))
  | AppendCstr str => (Done, take N (l ++ c_text N str))
  | AppendChar c => (Done, take N (l ++ [c]))
  | Clear => (Done, [])
  | Get position => (Character ((l ++ [nul]) !! position), l)
  | SetAt position c => (Done, <[position := c]> l)
  | Length => (Count (length l), l)
  end.

(** What a caller owes: as many characters as it says, a C string that ends, a string
    of some capacity, a position of the string or, to read, its end. *)
Definition op_ok (op : Op) (l : bytes) : Prop :=
  match op with
  | Assign str n | Append str n => (n ≤ length str)%nat
  | AssignString other => length (text other) = length_ other
  | AppendCstr str => nul ∈ str ∨ (N ≤ length str)%nat
  | Get position => (position ≤ length l)%nat
  | SetAt position _ => (position < length l)%nat
  | _ => True
  end.

(** Every operation finds what it is owed. *)
Fixpoint ops_ok (ops : list Op) (l : bytes) : Prop :=
  match ops with
  | [] => True
  | op :: ops => op_ok op l ∧ ops_ok ops (exec_text op l).2
  end.

Lemma string_exec_refines op s :
  string_wf s → op_ok op (text s) →
  string_wf (exec op s).2 ∧ exec_text op (text s) = ((exec op s).1, text (exec op s).2).
Proof.
  intros Hs Hop. destruct op as [str n|other|str n|str|c| |position|position c|]; cbn [exec exec_text op_ok fst snd] in *.
  - destruct (assign_spec str n s Hs Hop) as [? ->]. done.
  - unfold assign_string. destruct (assign_spec (data_ other) (length_ other) s Hs) as [? ->]; [|done].
    unfold text in Hop. rewrite length_take in Hop. lia.
  - destruct (string_append_spec str n s Hs Hop) as [? ->]. done.
  - unfold append_cstr. destruct (boundedLength_readable str) as [Hlen _].
    destruct (string_append_spec str _ s Hs Hlen) as [? ->]. by rewrite boundedLength_take.
  - destruct (append_char_spec c s Hs) as [? ->]. done.
  - destruct (string_clear_spec s Hs) as [? ->]. done.
  - split; [done|]. f_equal. f_equal. pose proof Hs as [Hdata Hl Hnul]. rewrite (text_length s Hs) in Hop.
    unfold get. destruct (decide (position = length_ s)) as [->|Hne].
    + rewrite lookup_app_r by (rewrite text_length by done; lia).
      by rewrite (text_length s Hs), Nat.sub_diag, Hnul.
    + rewrite lookup_app_l by (rewrite text_length by done; lia). unfold text.
      by rewrite lookup_take_lt by lia.
  - rewrite (text_length s Hs) in Hop. by destruct (set_at_spec position c s Hs Hop) as [? ->].
  - by rewrite (text_length s Hs).
Qed.

Lemma runs_refine ops s :
  string_wf s → ops_ok ops (text s) →
  let '(outcomes, s') := run_ops exec ops s in
  string_wf s' ∧ run_ops exec_text ops (text s) = (outcomes, text s').
Proof.
  revert s. induction ops as [|op ops IH]; intros s Hs Hops; cbn [run_ops]; [done|].
  destruct Hops as [Hop Hops]. destruct (string_exec_refines op s Hs Hop) as [Hs1 E]. rewrite E in Hops |- *.
  destruct (exec op s) as [o s1]. cbn [fst snd] in *. specialize (IH s1 Hs1 Hops).
  destruct (run_ops exec ops s1) as [os s']. destruct IH as [Hs' ->]. done.
Qed.

(** C40: From the constructed string, every sequence of assignments, appends, clears,
    reads and writes of single characters whose arguments are what the caller owes has
    the outcomes of the same sequence on a list that is cut off at [N] characters; the
    terminator stands behind the characters after each. *)
Theorem static_string_refines_text ops :
  ops_ok ops [] →
  let '(outcomes, s) := run_ops exec ops (new_string N) in
  string_wf s ∧ run_ops exec_text ops [] = (outcomes, text s).
Proof.
  destruct new_string_wf as [Hwf E]. rewrite <- E. by apply runs_refine.
Qed.
End facts.

(** A string without terminator characters survives [data()]: the string of any
    capacity built from that C string has its characters, cut off at the new capacity,
    and the search for the terminator ends inside the old string's storage. *)
Theorem static_string_c_roundtrip (N M : nat) (s : StaticString) :
  string_wf M s → nul ∉ text s →
  let s' := from_cstr N (data_ s) in
  string_wf N s' ∧ text s' = take N (text s) ∧ (boundedLength N (data_ s) ≤ length_ s)%nat.
Proof.
  intros Hs Hno. cbv zeta. unfold from_cstr, from_span.
  destruct (boundedLength_readable N (data_ s)) as [Hlen HN].
  destruct (assign_spec N (data_ s) _ (new_string N) (proj1 (new_string_wf N)) Hlen) as [Hwf ->].
  split; [done|]. rewrite boundedLength_take, boundedLength_spec.
  enough (E : c_text N (data_ s) = take N (text s)).
  { rewrite E, take_take, Nat.min_id, length_take, (text_length M s Hs). split; [done|lia]. }
  rewrite <- (text_terminated M s Hs Hno).
  assert (H : ∀ n m str, c_text n (str : bytes) = take n (c_text (S m) str) ∨ (length (c_text (S m)
    str) = S m)).
  { intros n m. revert n. induction m as [|m IH]; intros n [|c str].
    - left. by destruct n.
    - destruct n; [by left|]. cbn [c_text]. destruct (c =? nul); [by left|by right].
    - left. by destruct n.
    - destruct n; [by left|]. cbn [c_text]. destruct (c =? nul); [by left|]. cbn [take length].
      destruct (IH n str) as [->|E]; [by left|right]. cbn [c_text] in E. by rewrite E. }
  destruct (H N (length_ s) (data_ s)) as [E|E]; [done|].
  rewrite (text_terminated M s Hs Hno), (text_length M s Hs) in E. lia.
Qed.

(** "abc" and then "defgh" in four characters. *)
Definition demo_ops : list Op :=
  [Assign [97; 98; 99] 3; AppendCstr [100; 101; 102; 103; 104; 0]; Length; Get 4; SetAt 1 120; AppendChar 105].

Lemma static_string_refines_text_witness :
  let '(outcomes, s) := run_ops (exec 4) demo_ops (new_string 4) in
  string_wf 4 s ∧ run_ops (exec_text 4) demo_ops [] = (outcomes, text s).
Proof.
  apply (static_string_refines_text 4 demo_ops). cbn. split_and!; try lia; try done.
Defined.

Lemma static_string_c_roundtrip_witness :
  text (from_cstr 2 (data_ (literal [97; 98; 99] 3))) = [97; 98].
Proof.
  destruct (static_string_c_roundtrip 2 kDefaultStaticStringCapacity (literal [97; 98; 99] 3)) as (_ & E & _).
  - split; [reflexivity|apply Nat.leb_le; reflexivity|reflexivity].
  - change (text (literal [97; 98; 99] 3)) with [97; 98; 99]. rewrite !elem_of_cons, elem_of_nil.
    unfold nul. lia.
  - exact E.
Defined.
End StaticString.
