(* ===== verification/CounterEcu.v ===== *)
(** * The counter ECU
      ([sim/examples/counter_ecu.cpp], [sim/ecu_logger.cpp], [signal_shutdown.cpp],
      [system_monotonic_clock.cpp])

    The simulator's executable: the command line, the objects it injects into
    [EcuProcess], and the exit codes of [main].  The host is the class [Posix]: the
    installation of signal handlers, the signals whose handler has run since the flag was
    last read, and the clock.  The two standard streams take every byte; [fwrite]'s
    result is ignored by the source. *)

From stdpp Require Import strings pretty.
From S2P Require Import Prelude CommandLine EcuProcess.
Local Open Scope Z_scope.

(** ** The host *)

Class Posix (S : Type) := {
  SIGINT : Z;
  SIGTERM : Z;
  posix_signal : Z → State S bool;        (* [std::signal(..) != SIG_ERR] *)
  signals : State S (list Z);
  steady_now : State S Z;
  sleep_until : Z → State S unit;
}.

Inductive Stream := Stdout | Stderr.

Record Process (S : Type) := mkProcess {
  posix : S;
  out : string;
  err : string;
  shutdown_requested_ : Z;
  periodic_count_ : Z;
}.
Arguments mkProcess {S}.
Arguments posix {S}.
Arguments out {S}.
Arguments err {S}.
Arguments shutdown_requested_ {S}.
Arguments periodic_count_ {S}.

(** ** [ecu_logger.cpp] *)

Module Logger.
Record EcuLogger := {
  ecu_name_ : string;
  output_stream_ : option Stream;
  error_stream_ : option Stream;
}.

(** The constructor with its default streams. *)
Definition new_logger (ecu_name : string) : EcuLogger :=
  {| ecu_name_ := ecu_name; output_stream_ := Some Stdout; error_stream_ := Some Stderr |}.

Section logger.
Context {S : Type}.

Definition fwrite (text : string) (stream : Stream) : State (Process S) unit :=
  modify (λ w, match stream with
    | Stdout => mkProcess (posix w) (out w +:+ text) (err w) (shutdown_requested_ w) (periodic_count_ w)
    | Stderr => mkProcess (posix w) (out w) (err w +:+ text) (shutdown_requested_ w) (periodic_count_ w)
    end).

(** The flush at the end hands on what the stream has taken and adds nothing to it. *)
Definition write (logger : EcuLogger) (stream : option Stream) (message : string)
    : State (Process S) unit :=
  match stream with
  | None => mret tt
  | Some stream =>
      fwrite "[" stream;;
      fwrite (ecu_name_ logger) stream;;
      fwrite "] " stream;;
      fwrite message stream;;
      fwrite newline stream
  end.

Definition logger_info (logger : EcuLogger) (message : string) : State (Process S) unit :=
  write logger (output_stream_ logger) message.
Definition logger_error (logger : EcuLogger) (message : string) : State (Process S) unit :=
  write logger (error_stream_ logger) message.
End logger.
End Logger.
Import Logger.

(** ** [signal_shutdown.cpp] and [system_monotonic_clock.cpp] *)

Module SignalShutdown.
Section shutdown.
Context {S : Type} `{!Posix S}.

Definition set_flag (v : Z) (w : Process S) : Process S :=
  mkProcess (posix w) (out w) (err w) v (periodic_count_ w).
Definition on_posix {A} (m : State S A) : State (Process S) A := λ w,
  let '(a, s) := m (posix w) in
  (a, mkProcess s (out w) (err w) (shutdown_requested_ w) (periodic_count_ w)).

Definition install : State (Process S) bool :=
  interrupt_result ← on_posix (posix_signal SIGINT);
  terminate_result ← on_posix (posix_signal SIGTERM);
  mret (interrupt_result && terminate_result).

Definition reset : State (Process S) unit := modify (set_flag 0).

(** The handler's only store. *)
Definition handleSignal (signal_number : Z) : Process S → Process S := set_flag 1.

(** The flag, after the handlers that have run. *)
Definition isShutdownRequested : State (Process S) bool :=
  delivered ← on_posix signals;
  modify (λ w, foldl (λ w signal_number, handleSignal signal_number w) w delivered);;
  gets (λ w, negb (shutdown_requested_ w =? 0)).
End shutdown.
End SignalShutdown.

Section processes.
Context {S : Type} `{!Posix S}.

#[export] Instance signal_shutdown : ShutdownSource (Process S) := SignalShutdown.isShutdownRequested.
#[export] Instance SystemMonotonicClock : MonotonicClock (Process S) :=
  { now := SignalShutdown.on_posix steady_now;
    sleepUntil deadline := SignalShutdown.on_posix (sleep_until deadline) }.

(** ** [counter_ecu.cpp] *)

#[export] Instance NoOpNetworkRuntime : NetworkRuntime (Process S) :=
  { network_init := mret true; network_poll := mret true }.

Definition kLogInterval : Z := 1000.

Definition counter_init (logger : EcuLogger) : State (Process S) unit :=
  logger_info logger "counter application initialized".

Definition counter_periodic (logger : EcuLogger) : State (Process S) unit :=
  modify (λ w, mkProcess (posix w) (out w) (err w) (shutdown_requested_ w) (u64 (periodic_count_ w + 1)));;
  count ← gets periodic_count_;
  if count mod kLogInterval =? 0
  then logger_info logger ("counter periodic count=" +:+ pretty (Z.to_N count)) else mret tt.

Definition CounterApplication (logger : EcuLogger) : EcuApplication (Process S) :=
  {| application_init := counter_init logger; periodic := counter_periodic logger |}.
Definition injected_logger (logger : EcuLogger) : EcuProcess.EcuLogger (Process S) :=
  {| info := logger_info logger; error := logger_error logger |}.

(** [main]; [fuel] bounds the rounds of the process, [ticks] is the clock's. *)
Definition main (ticks : Z) (fuel : nat) (argc : Z) (argv : option (list (option string)))
    : Io (Process S) Outcome :=
  let command_line := parseCommandLine argc argv in
  let executable_name :=
    match argv with
    | Some argv => if 0 <? argc then default None (head argv) else None
    | None => None
    end in
  match status command_line with
  | CommandLineStatus.kHelpRequested =>
      liftIo (fwrite (commandLineUsage executable_name) Stdout);;
      mret (Exit 0)
  | CommandLineStatus.kError =>
      liftIo (fwrite ("error: " +:+ diagnostic command_line +:+ newline) Stderr);;
      liftIo (fwrite (commandLineUsage executable_name) Stderr);;
      mret (Exit 2)
  | CommandLineStatus.kOk =>
      let logger := new_logger (ecu_name (config command_line)) in
      liftIo SignalShutdown.reset;;
      installed ← liftIo SignalShutdown.install;
      if negb installed then
        liftIo (logger_error logger "failed to install SIGINT/SIGTERM handlers");;
        mret (Exit 3)
      else
      run (EcuApplication0 := CounterApplication logger) (EcuLogger0 := injected_logger logger)
        ticks (config command_line) fuel
  end.
End processes.

(** ** Specification: what the process writes *)

Definition log_line (name message : string) : string :=
  "[" +:+ name +:+ "] " +:+ message +:+ newline.

(** The lines of [n] more periodic calls after [count]. *)
Fixpoint counter_lines (name : string) (count : Z) (n : nat) : string :=
  match n with
  | O => ""
  | Datatypes.S n =>
      let count := u64 (count + 1) in
      (if count mod 1000 =? 0
       then log_line name ("counter periodic count=" +:+ pretty (Z.to_N count)) else "")
      +:+ counter_lines name count n
  end.

Lemma string_app_assoc (s1 s2 s3 : string) : (s1 +:+ s2) +:+ s3 = s1 +:+ (s2 +:+ s3).
Proof. induction s1 as [|a s1 IH]; [done|]. exact (f_equal (String a) IH). Qed.
Lemma string_app_empty_r (s : string) : s +:+ "" = s.
Proof. induction s as [|a s IH]; [done|]. exact (f_equal (String a) IH). Qed.

(** A signal comes: [host_patience] bounds the reads of the flag before it. *)
Class SignalsCome (S : Type) `{!Posix S} := {
  host_patience : S → nat;
  patience_signals : ∀ s, (signals s).1 = [] → (host_patience (signals s).2 < host_patience s)%nat;
  patience_install : ∀ n s, (host_patience (posix_signal n s).2 ≤ host_patience s)%nat;
  patience_steady : ∀ s, (host_patience (steady_now s).2 ≤ host_patience s)%nat;
  patience_sleep_until : ∀ d s, (host_patience (sleep_until d s).2 ≤ host_patience s)%nat;
}.

(** *** What is asked of the host, with its answers *)

Inductive HostEvent :=
  | HHandler (signal_number : Z) (installed : bool)
  | HSignals (delivered : list Z)
  | HNow (t : Z)
  | HSleep (deadline : Z).

Definition Watched (S : Type) : Type := S * list HostEvent.

Definition watched {S A} (m : State S A) (event : A → HostEvent) : State (Watched S) A :=
  λ '(s, log), let '(a, s') := m s in (a, (s', log ++ [event a])).

#[export] Instance Watched_posix {S} `{!Posix S} : Posix (Watched S) := {
  SIGINT := SIGINT (S := S);
  SIGTERM := SIGTERM (S := S);
  posix_signal n := watched (posix_signal n) (HHandler n);
  signals := watched signals HSignals;
  steady_now := watched steady_now HNow;
  sleep_until d := watched (sleep_until d) (λ _, HSleep d);
}.

(** The loop of a process from deadline [d] on as its host sees it: the answers, the
    number of periodic calls, and the outcome. *)
Section host_life.
Variables (ticks : Z) (c : EcuProcessConfig).
Abbreviation duration := (loop_period c * ticks).

Inductive host_rounds : Z → list HostEvent → nat → Outcome → Prop :=
  | signal_before d ns :
      ns ≠ [] → host_rounds d [HSignals ns] 0 (Exit 0)
  | signal_after d ns :
      ns ≠ [] → host_rounds d [HSignals []; HSignals ns] 1 (Exit 0)
  | next_overflow d :
      ¬ (fits64 duration ∧ fits64 (d + duration)) →
      host_rounds d [HSignals []; HSignals []] 1 Undefined
  | skip_overflow d t :
      fits64 duration → fits64 (d + duration) → d + duration ≤ t →
      ¬ fits64 (t + duration) →
      host_rounds d [HSignals []; HSignals []; HNow t] 1 Undefined
  | quiet_round d t rest n outcome :
      fits64 duration → fits64 (d + duration) → fits64 (slot ticks c d t) →
      host_rounds (slot ticks c d t) rest n outcome →
      host_rounds d ([HSignals []; HSignals []; HNow t; HSleep (slot ticks c d t)] ++ rest)
        (Datatypes.S n) outcome.

(** From its first reading of the clock. *)
Definition host_life (log : list HostEvent) (n : nat) (outcome : Outcome) : Prop :=
  ∃ t rest, log = HNow t :: rest ∧ host_rounds t rest n outcome.
End host_life.

Section runs.
Context {S : Type} `{!Posix S, !SignalsCome S}.
Variables (ticks : Z) (c : EcuProcessConfig) (name : string).
Abbreviation logger := (new_logger name).
#[local] Instance application_ : EcuApplication (Process (Watched S)) := CounterApplication logger.
#[local] Instance logger_ : EcuProcess.EcuLogger (Process (Watched S)) := injected_logger logger.
Implicit Types (w : Process (Watched S)) (log : list HostEvent).

(** Where a process is: the console, the flag, the count, the host's patience and what
    it was asked. *)
Record at_state w (o e : string) (flag count : Z) (patience : nat) log : Prop := {
  at_out : out w = o;
  at_err : err w = e;
  at_flag : shutdown_requested_ w = flag;
  at_count : periodic_count_ w = count;
  at_patience : (host_patience (posix w).1 ≤ patience)%nat;
  at_log : (posix w).2 = log;
}.

Lemma info_at m w o e flag count patience log :
  at_state w o e flag count patience log →
  at_state (logger_info logger m w).2 (o +:+ log_line name m) e flag count patience log.
Proof.
  intros [<- <- <- <- Hp <-]. split; try done.
  change ((((((out w +:+ "[") +:+ name) +:+ "] ") +:+ m) +:+ newline) = out w +:+ log_line name m).
  unfold log_line. by rewrite !string_app_assoc.
Qed.

(** A question to the host is logged with its answer, and changes nothing else. *)
Lemma host_at {A} (m : State S A) event w o e flag count patience log :
  (∀ s, (host_patience (m s).2 ≤ host_patience s)%nat) →
  at_state w o e flag count patience log →
  at_state (SignalShutdown.on_posix (watched m event) w).2 o e flag count patience
    (log ++ [event (SignalShutdown.on_posix (watched m event) w).1]).
Proof.
  intros Hm [<- <- <- <- Hp <-]. unfold SignalShutdown.on_posix, watched.
  destruct w as [[s l] ? ? ? ?]. cbn [posix fst snd] in *. specialize (Hm s).
  destruct (m s) as [a s']. cbn [snd] in Hm. split; cbn; done || lia.
Qed.

(** One handler more changes nothing. *)
Lemma handlers_run ns n w :
  foldl (λ w signal_number, SignalShutdown.handleSignal signal_number w)
    (SignalShutdown.handleSignal n w) ns = SignalShutdown.set_flag 1 w.
Proof. revert n w. induction ns as [|m ns IH]; intros n w; [done|].
apply (IH m (SignalShutdown.handleSignal n w)). Qed.

Lemma flag_at w o e count patience log :
  at_state w o e 0 count patience log →
  let '(requested, w') := SignalShutdown.isShutdownRequested w in
  if (requested : bool) then ∃ ns flag p, ns ≠ [] ∧ at_state w' o e flag count p (log ++ [HSignals ns])
  else ∃ p, at_state w' o e 0 count p (log ++ [HSignals []]) ∧ (p < patience)%nat.
Proof.
  intros [<- <- Hflag <- Hp <-]. unfold SignalShutdown.isShutdownRequested, mbind, State_bind,
    SignalShutdown.on_posix, signals, Watched_posix, watched.
  destruct w as [[s l] ? ? ? ?]. cbn [posix fst snd shutdown_requested_] in *. subst.
  pose proof (patience_signals s) as Hs. destruct (signals s) as [[|n ns] s']; cbn [fst snd] in Hs.
  - cbn. exists (host_patience s'). specialize (Hs eq_refl). by split; [|lia].
  - unfold modify, gets. cbn [foldl]. rewrite handlers_run. cbn.
    by exists (n :: ns), 1, (host_patience s').
Qed.

Lemma periodic_at w o e count patience log :
  at_state w o e 0 count patience log →
  at_state (counter_periodic logger w).2 (o +:+ counter_lines name count 1) e 0 (u64 (count + 1))
    patience log.
Proof.
  intros Hat. unfold counter_periodic, mbind, State_bind, modify, gets. cbn [periodic_count_].
  destruct Hat as [<- <- Hflag <- Hp <-]. cbn [counter_lines]. rewrite string_app_empty_r.
  destruct (_ =? 0).
  - apply info_at. by split.
  - split; try done. cbn. by rewrite string_app_empty_r.
Qed.

(** How the loop ends, and its last line. *)
Definition farewell (outcome : Outcome) : string :=
  match outcome with Exit _ => log_line name "shutdown complete" | Undefined => "" end.

(** The loop from deadline [d] and count [count] on: what it writes after [o] and asks
    after [log]. *)
Definition looped (d count : Z) (o e : string) log (result : option (Outcome * Process (Watched S)))
    : Prop :=
  ∃ outcome w' n asked, result = Some (outcome, w') ∧
    out w' = o +:+ counter_lines name count n +:+ farewell outcome ∧ err w' = e ∧
    (posix w').2 = log ++ asked ∧ host_rounds ticks c d asked n outcome.

Lemma finish_at w o e flag count p log :
  at_state w o e flag count p log →
  ∃ w', finish w = Some (Exit 0, w') ∧ out w' = o +:+ farewell (Exit 0) ∧ err w' = e ∧
    (posix w').2 = log.
Proof.
  intros Hat. pose proof (info_at "shutdown complete" w o e flag count p log Hat) as [Ho He _ _ _ Hl].
  by exists (logger_info logger "shutdown complete" w).2.
Qed.

Lemma counter_lines_step count n :
  counter_lines name count (Datatypes.S n) =
    counter_lines name count 1 +:+ counter_lines name (u64 (count + 1)) n.
Proof. cbn [counter_lines]. by rewrite string_app_empty_r. Qed.

(** A round in which the addition of the period is not defined ends there. *)
Lemma overflow_at w d o e count p log asked :
  at_state w (o +:+ counter_lines name count 1) e 0 (u64 (count + 1)) p (log ++ asked) →
  host_rounds ticks c d asked 1 Undefined →
  looped d count o e log (Some (Undefined, w)).
Proof.
  intros [Ho He _ _ _ Hl] Hr. exists Undefined, w, 1%nat, asked. split_and!; try done.
  cbn [farewell]. by rewrite string_app_empty_r.
Qed.

(** A quiet round, and the rounds after it. *)
Lemma round_at d t o e count log result :
  fits64 (loop_period c * ticks) → fits64 (d + loop_period c * ticks) → fits64 (slot ticks c d t) →
  looped (slot ticks c d t) (u64 (count + 1)) (o +:+ counter_lines name count 1) e
    (log ++ [HSignals []; HSignals []; HNow t; HSleep (slot ticks c d t)]) result →
  looped d count o e log result.
Proof.
  intros Hdur Hd Hslot (outcome & w' & n & asked & E & Ho & He & Hl & Hr).
  exists outcome, w', (Datatypes.S n), ([HSignals []; HSignals []; HNow t; HSleep (slot ticks c d t)]
    ++ asked).
  split; [exact E|]. split; [by rewrite Ho, (counter_lines_step count n), !string_app_assoc|].
  split; [exact He|]. split; [by rewrite Hl, <- app_assoc|by apply quiet_round].
Qed.

(** The end of a round: the next deadline, the clock, the sleep, and the rounds [k]. *)
Lemma schedule_at (k : Z → Io (Process (Watched S)) Outcome) d w o e count p log :
  let written := o +:+ counter_lines name count 1 in
  at_state w written e 0 (u64 (count + 1)) p (log ++ [HSignals []; HSignals []]) →
  (∀ d' t w', let log' := log ++ [HSignals []; HSignals []; HNow t; HSleep d'] in
     at_state w' written e 0 (u64 (count + 1)) p log' →
     looped d' (u64 (count + 1)) written e log' (k d' w')) →
  looped d count o e log
    (match later ticks c d with
     | None => mret Undefined
     | Some next_deadline =>
         current_time ← liftIo now;
         match (if next_deadline <=? current_time then later ticks c current_time
                else Some next_deadline) with
         | None => mret Undefined
         | Some next_deadline => liftIo (sleepUntil next_deadline);; k next_deadline
         end
     end w).
Proof.
  cbv zeta. intros Hat Hk. destruct (later ticks c d) as [d'|] eqn:Hlater.
  2: { apply later_overflows in Hlater. eapply overflow_at; [exact Hat|by constructor]. }
  pose proof (host_at steady_now HNow w _ e _ _ p _ patience_steady Hat) as Hat1.
  unfold mbind at 1, Io_bind at 1, liftIo at 1. cbn [now SystemMonotonicClock steady_now Watched_posix].
  destruct (SignalShutdown.on_posix _ w) as [t w1]. cbn [fst snd] in Hat1.
  rewrite <- app_assoc in Hat1. pose proof (slot_later ticks c d d' t Hlater) as Hslot.
  apply later_fits in Hlater as (Hdur & Hd & _). destruct (if d' <=? t then _ else _) as [d''|].
  2: { eapply overflow_at; [exact Hat1|]. by destruct Hslot; constructor. }
  destruct Hslot as [-> Hfits].
  pose proof (host_at (sleep_until (slot ticks c d t)) (λ _, HSleep (slot ticks c d t)) w1 _ e _ _ p _
    (patience_sleep_until _) Hat1) as Hat2.
  unfold mbind at 1, Io_bind at 1, liftIo at 1. cbn [sleepUntil SystemMonotonicClock sleep_until Watched_posix].
  destruct (SignalShutdown.on_posix _ w1) as [[] w2]. cbn [fst snd] in Hat2.
  rewrite <- app_assoc in Hat2. apply (round_at d t); [done..|]. by apply Hk.
Qed.

Lemma superloop_counts fuel d w o e count p log :
  at_state w o e 0 count p log → (p < fuel)%nat →
  looped d count o e log (superloop ticks c fuel d w).
Proof.
  revert d w o count p log. induction fuel as [|fuel IH]; intros d w o count p log Hat Hfuel; [lia|].
  cbn [superloop]. unfold mbind at 1, Io_bind at 1, liftIo at 1.
  pose proof (flag_at w o e count p log Hat) as Hflag. unfold isShutdownRequested, signal_shutdown.
  destruct (SignalShutdown.isShutdownRequested w) as [[] w1].
  { destruct Hflag as (ns & flag & p1 & Hns & Hat1).
    destruct (finish_at _ _ _ _ _ _ _ Hat1) as (w' & E & Ho & He & Hl).
    exists (Exit 0), w', 0%nat, [HSignals ns]. split_and!; try done. by constructor. }
  destruct Hflag as (p1 & Hat1 & Hp1). unfold mbind at 1, Io_bind at 1, liftIo at 1.
  cbn [network_poll NoOpNetworkRuntime mret State_ret negb].
  pose proof (periodic_at w1 o e count p1 _ Hat1) as Hat2.
  unfold mbind at 1, Io_bind at 1, liftIo at 1. cbn [periodic application_ CounterApplication].
  destruct (counter_periodic logger w1) as [[] w2]. cbn [snd] in Hat2.
  pose proof (flag_at w2 _ e _ p1 _ Hat2) as Hflag. unfold mbind at 1, Io_bind at 1, liftIo at 1.
  destruct (SignalShutdown.isShutdownRequested w2) as [[] w3].
  { destruct Hflag as (ns & flag & p3 & Hns & Hat3). rewrite <- app_assoc in Hat3.
    destruct (finish_at _ _ _ _ _ _ _ Hat3) as (w' & E & Ho & He & Hl).
    exists (Exit 0), w', 1%nat, [HSignals []; HSignals ns].
    split_and!; [done|by rewrite Ho, string_app_assoc|done|done|by constructor]. }
  destruct Hflag as (p3 & Hat3 & Hp3). rewrite <- app_assoc in Hat3.
  apply (schedule_at (superloop ticks c fuel) d w3 o e count p3 log Hat3).
  intros d' t w' log' Hat'. apply (IH _ _ _ _ p3); [exact Hat'|lia].
Qed.

Lemma install_at w o e count p log :
  at_state w o e 0 count p log →
  ∃ interrupt terminate,
    (SignalShutdown.install w).1 = interrupt && terminate ∧
    at_state (SignalShutdown.install w).2 o e 0 count p
      (log ++ [HHandler (SIGINT (S := S)) interrupt; HHandler (SIGTERM (S := S)) terminate]).
Proof.
  intros Hat. unfold SignalShutdown.install, mbind, State_bind.
  cbn [posix_signal Watched_posix SIGINT SIGTERM].
  pose proof (host_at (posix_signal (SIGINT (S := S))) (HHandler (SIGINT (S := S))) w _ _ _ _ _ _
    (patience_install _) Hat) as Hat1.
  destruct (SignalShutdown.on_posix _ w) as [interrupt w1]. cbn [fst snd] in Hat1.
  pose proof (host_at (posix_signal (SIGTERM (S := S))) (HHandler (SIGTERM (S := S))) w1 _ _ _ _ _ _
    (patience_install _) Hat1) as Hat2.
  destruct (SignalShutdown.on_posix _ w1) as [terminate w2]. cbn [fst snd] in Hat2.
  rewrite <- app_assoc in Hat2. by exists interrupt, terminate.
Qed.

Lemma logger_error_at m w o e flag count p log :
  at_state w o e flag count p log →
  at_state (logger_error logger m w).2 o (e +:+ log_line name m) flag count p log.
Proof.
  intros [<- <- <- <- Hp <-]. split; try done.
  change ((((((err w +:+ "[") +:+ name) +:+ "] ") +:+ m) +:+ newline) = err w +:+ log_line name m).
  unfold log_line. by rewrite !string_app_assoc.
Qed.

Lemma run_counts fuel w p log :
  isValid c = true → at_state w "" "" 0 0 p log → (p < fuel)%nat →
  ∃ outcome w' n asked, run ticks c fuel w = Some (outcome, w') ∧
    out w' = log_line name "initializing network" +:+ log_line name "counter application initialized" +:+
      log_line name "ECU process started" +:+ counter_lines name 0 n +:+ farewell outcome ∧
    err w' = "" ∧ (posix w').2 = log ++ asked ∧ host_life ticks c asked n outcome.
Proof.
  intros Hvalid Hat Hfuel. unfold run. rewrite Hvalid. cbn [negb].
  pose proof (info_at "initializing network" w _ _ _ _ _ _ Hat) as Hat1.
  unfold mbind at 1, Io_bind at 1, liftIo at 1. cbn [info logger_ injected_logger].
  destruct (logger_info logger "initializing network" w) as [[] w1]. cbn [snd] in Hat1.
  unfold mbind at 1, Io_bind at 1, liftIo at 1. cbn [network_init NoOpNetworkRuntime mret State_ret negb].
  pose proof (info_at "counter application initialized" w1 _ _ _ _ _ _ Hat1) as Hat2.
  unfold mbind at 1, Io_bind at 1, liftIo at 1. cbn [application_init application_ CounterApplication].
  unfold counter_init. destruct (logger_info logger _ w1) as [[] w2]. cbn [snd] in Hat2.
  pose proof (info_at "ECU process started" w2 _ _ _ _ _ _ Hat2) as Hat3.
  unfold mbind at 1, Io_bind at 1, liftIo at 1. cbn [info logger_ injected_logger].
  destruct (logger_info logger _ w2) as [[] w3]. cbn [snd] in Hat3.
  pose proof (host_at steady_now HNow w3 _ _ _ _ _ _ patience_steady Hat3) as Hat4.
  unfold mbind at 1, Io_bind at 1, liftIo at 1. cbn [now SystemMonotonicClock steady_now Watched_posix].
  destruct (SignalShutdown.on_posix _ w3) as [t w4]. cbn [fst snd] in Hat4.
  destruct (superloop_counts fuel t w4 _ _ 0 p _ Hat4 Hfuel)
    as (outcome & w' & n & asked & E & Ho & He & Hl & Hr).
  exists outcome, w', n, (HNow t :: asked). split_and!; [exact E| |done| |by exists t, asked].
  - by rewrite Ho, !string_app_assoc.
  - by rewrite Hl, <- app_assoc.
Qed.
End runs.

(** ** Properties *)

(** The process before [main]. *)
Definition at_start {S} (host : S) : Process S := mkProcess host "" "" 0 0.

(** C27: The executable, for every command line and every host on which a signal comes
    sooner or later: [main] comes to an end.  It prints the usage and exits 0 when help
    is asked for, and prints the diagnostic and the usage on the standard error and
    exits 2 when the command line is wrong, neither asking anything of the host.
    Otherwise it asks for the SIGINT handler and then for the SIGTERM handler; when the
    host refuses one of the two it prints one line on the standard error and exits 3.
    When it grants both, the host sees the rounds of the superloop: the flag is read
    before and after every periodic call, each round sleeps until its slot, and a signal
    ends it with exit code 0.  The standard error stays empty and the standard output is,
    line by line, the three of the start, one for every thousandth of those periodic
    calls, and the one of the shutdown.  The one other end is undefined behaviour, when a
    period or a deadline leaves the clock's signed 64 bits. *)
Theorem counter_ecu_main {S} `{!Posix S, !SignalsCome S} (ticks : Z) (fuel : nat)
    (program : option string) (arguments : list (option string)) (host : S) :
  (host_patience host < fuel)%nat →
  let command_line := parseCommandLine (zlen (program :: arguments)) (Some (program :: arguments)) in
  let name := ecu_name (config command_line) in
  ∃ outcome w', main (S := Watched S) ticks fuel (zlen (program :: arguments))
        (Some (program :: arguments)) (at_start (host, [])) = Some (outcome, w') ∧
    match status command_line with
    | CommandLineStatus.kHelpRequested =>
        outcome = Exit 0 ∧ out w' = commandLineUsage program ∧ err w' = "" ∧ (posix w').2 = []
    | CommandLineStatus.kError =>
        outcome = Exit 2 ∧ out w' = "" ∧
        err w' = "error: " +:+ diagnostic command_line +:+ newline +:+ commandLineUsage program ∧
        (posix w').2 = []
    | CommandLineStatus.kOk =>
        ∃ interrupt terminate asked,
          (posix w').2 = HHandler (SIGINT (S := S)) interrupt ::
            HHandler (SIGTERM (S := S)) terminate :: asked ∧
          if decide (interrupt = true ∧ terminate = true) then
            err w' = "" ∧ ∃ n,
            out w' = log_line name "initializing network" +:+
              log_line name "counter application initialized" +:+
              log_line name "ECU process started" +:+ counter_lines name 0 n +:+ farewell name outcome ∧
            host_life ticks (config command_line) asked n outcome
          else asked = [] ∧ outcome = Exit 3 ∧ out w' = "" ∧
               err w' = log_line name "failed to install SIGINT/SIGTERM handlers"
    end.
Proof.
  intros Hfuel. cbv zeta. set (cl := parseCommandLine _ _).
  pose proof (accepted_valid program arguments) as Hvalid. cbv zeta in Hvalid. fold cl in Hvalid.
  assert (Hname : (if 0 <? zlen (program :: arguments) then default None (head (program ::
    arguments)) else None) =
    program) by done.
  unfold main. fold cl. rewrite Hname. destruct (status cl) eqn:Est.
  - unfold mbind at 1, Io_bind at 1, liftIo at 1. cbn [SignalShutdown.reset modify].
    change (SignalShutdown.set_flag 0 (at_start (host, []))) with (at_start (host, [] : list HostEvent)).
    unfold mbind at 1, Io_bind at 1, liftIo at 1.
    destruct (install_at (at_start (host, [])) "" "" 0 (host_patience host) [] ltac:(by split))
      as (interrupt & terminate & Hinstalled & Hat).
    destruct (SignalShutdown.install _) as [installed w1]; cbn [fst snd] in *. subst installed.
    destruct (interrupt && terminate) eqn:Hboth; cbn [negb].
    + destruct (run_counts ticks (config cl) (ecu_name (config cl)) fuel w1 (host_patience host) _
        (Hvalid eq_refl) Hat Hfuel) as (outcome & w' & n & asked & E & Hout & Herr & Hasked & Hlife).
      exists outcome, w'. split; [exact E|]. exists interrupt, terminate, asked. split; [exact Hasked|].
      rewrite decide_True by by apply andb_true_iff in Hboth. split; [done|]. by exists n.
    + pose proof (logger_error_at (ecu_name (config cl)) "failed to install SIGINT/SIGTERM handlers"
        w1 "" "" 0 0 (host_patience host) _ Hat) as [Ho He _ _ _ Hl].
      eexists _, _. split; [reflexivity|]. exists interrupt, terminate, []. split; [exact Hl|].
      rewrite decide_False by by intros [-> ->].
      by split_and!.
  - by eexists _, _.
  - eexists _, _. split; [reflexivity|]. split_and!; [done|done| |done].
    cbn [fwrite modify err at_start snd]. by rewrite !string_app_assoc.
Qed.

(** A host on which the user presses Ctrl-C after [n] reads of the flag. *)
Module DemoHost.
#[export] Instance host : Posix (nat * Z) := {
  SIGINT := 2; SIGTERM := 15;
  posix_signal _ s := (true, s);
  signals '(n, t) := (if n is O then [2] else [], (Nat.pred n, t));
  steady_now s := (s.2, s);
  sleep_until d '(n, t) := (tt, (n, Z.max d t));
}.
#[export, refine] Instance signals_come : SignalsCome (nat * Z) := { host_patience := fst }.
Proof. all: try done. - intros [[|n] t]; simpl; [done|lia]. - intros d [n t]. simpl. lia. Defined.
End DemoHost.
Import DemoHost.

Lemma counter_ecu_main_witness :
  ∃ w',
    main (S := Watched (nat * Z)) 1000 10 5
      (Some [Some "ecu"; Some "--name"; Some "sensor"; Some "--loop-period-us"; Some "500"])
      (at_start ((5%nat, 0), [])) = Some (Exit 0, w') ∧
    (posix w').2 = [HHandler 2 true; HHandler 15 true; HNow 0;
      HSignals []; HSignals []; HNow 0; HSleep 500000;
      HSignals []; HSignals []; HNow 500000; HSleep 1000000; HSignals []; HSignals [2]] ∧
    err w' = "" ∧
    ∃ n, out w' =
      log_line "sensor" "initializing network" +:+ log_line "sensor" "counter application initialized" +:+
      log_line "sensor" "ECU process started" +:+ counter_lines "sensor" 0 n +:+
      log_line "sensor" "shutdown complete".
Proof.
  destruct (counter_ecu_main 1000 10 (Some "ecu")
    [Some "--name"; Some "sensor"; Some "--loop-period-us"; Some "500"] (5%nat, 0)) as (outcome & w' & E & H).
  - simpl. lia.
  - assert (Hrun : (λ r, (r.1, (posix r.2).2)) <$> main (S := Watched (nat * Z)) 1000 10 5
      (Some [Some "ecu"; Some "--name"; Some "sensor"; Some "--loop-period-us"; Some "500"])
      (at_start ((5%nat, 0), [])) = Some (Exit 0, [HHandler 2 true; HHandler 15 true; HNow 0;
        HSignals []; HSignals []; HNow 0; HSleep 500000;
        HSignals []; HSignals []; HNow 500000; HSleep 1000000; HSignals []; HSignals [2]]))
      by (vm_compute; reflexivity).
    change (zlen _) with 5 in E. rewrite E in Hrun. injection Hrun as -> Hlog.
    exists w'. split; [exact E|]. split; [exact Hlog|].
    destruct H as (interrupt & terminate & asked & Hasked & H).
    pose proof (eq_trans (eq_sym Hlog) Hasked) as Hsame. injection Hsame as <- <- _.
    destruct H as (Herr & n & Hout & _). split; [exact Herr|]. exists n. exact Hout.
Defined.
