(* ===== verification/CanTest.v ===== *)
(** * The CAN test console ([examples/arduino-uno/mcp2515_can_test.cpp])

    The firmware that sends and reports CAN frames as lines of text: the USART and the
    controller of [UartLink] and [Mcp2515] side by side, the command buffer, the parser
    of a command, the replies, and the report of a received frame.  What it reports it
    also understands: the two texts differ in their first letter. *)

From stdpp Require Import strings.
From S2P Require Import Prelude Mcp2515 UartLink DemoWiring.
Local Open Scope Z_scope.

(** ** Definitions *)

Definition kCommandCapacity : nat := 24.

(** The characters of a literal. *)
Definition chars (s : string) : bytes :=
  (λ c, Z.of_nat (Strings.Ascii.nat_of_ascii c)) <$> Strings.String.list_ascii_of_string s.

Definition parseHexNibble (character : Z) : option Z :=
  if (48 <=? character) && (character <=? 57) then Some (u8 (character - 48))
  else if (65 <=? character) && (character <=? 70) then Some (u8 (character - 65 + 10))
  else if (97 <=? character) && (character <=? 102) then Some (u8 (character - 97 + 10))
  else None.

(** The two characters from [offset] on. *)
Definition parseHexByte (text : bytes) (offset : nat) : option Z :=
  match parseHexNibble (byte_at text offset) with
  | None => None
  | Some high =>
      match parseHexNibble (byte_at text (offset + 1)) with
      | None => None
      | Some low => Some (u8 (Z.lor (Z.shiftl high 4) low))
      end
  end.

(** The loop over the data bytes. *)
Fixpoint parseData (indices : list nat) (command data : bytes) : option bytes :=
  match indices with
  | [] => Some data
  | index :: indices =>
      match parseHexByte command (6 + 2 * index) with
      | None => None
      | Some value => parseData indices command (<[index := value]> data)
      end
  end.

(** The frame a command asks for, unless it is bad: [processCommand] up to the call of
    [transmit]. *)
Definition parseCommand (g_command : bytes) (g_command_size : Z) : option Mcp2515CanFrame :=
  if (g_command_size <? 6) || negb (byte_at g_command 0 =? 84)
     || negb (byte_at g_command 1 =? 58) || negb (byte_at g_command 5 =? 58)
     || negb (Z.land (g_command_size - 6) 1 =? 0) || (16 <? g_command_size - 6)
  then None
  else
  match parseHexNibble (byte_at g_command 2), parseHexNibble (byte_at g_command 3),
        parseHexNibble (byte_at g_command 4) with
  | Some id_high, Some id_middle, Some id_low =>
      if 0x07 <? id_high then None
      else
      let identifier := u16 (Z.lor (Z.lor (u16 (Z.shiftl id_high 8)) (u16 (Z.shiftl id_middle 4))) id_low) in
      let size := u8 ((g_command_size - 6) / 2) in
      match parseData (seq 0 (Z.to_nat size)) g_command (replicate 8 0) with
      | None => None
      | Some data => Some {| identifier := identifier; frame_size := size; data := data |}
      end
  | _, _, _ => None
  end.

(** The globals. *)
Record Globals := { g_command : bytes; g_command_size : Z }.
Definition new_globals : Globals := {| g_command := replicate kCommandCapacity 0; g_command_size := 0 |}.

Section console.
(** The USART and the CAN controller. *)
Context {U C : Type} `{!AvrUsart U, !AvrSpi C}.
(** The status reads a busy-wait of the USART and of the SPI master may take. *)
Variables uart_polls spi_polls : nat.

Definition Op := Io (Globals * (U * C)).

Definition on_uart {A} (m : Io U A) : Op A := λ '(g, (u, c)),
  match m u with Some (a, u) => Some (a, (g, (u, c))) | None => None end.
Definition on_can {A} (m : Io C A) : Op A := λ '(g, (u, c)),
  match m c with Some (a, c) => Some (a, (g, (u, c))) | None => None end.
Definition globals : Op Globals := liftIo (gets fst).
Definition set_command (command : bytes) (size : Z) : Op unit :=
  liftIo (modify (λ '(_, w), ({| g_command := command; g_command_size := size |}, w))).

Fixpoint writeString (text : bytes) : Op unit :=
  match text with
  | [] => mret tt
  | character :: text => on_uart (uart0WriteByte uart_polls (u8 character));; writeString text
  end.

Definition writeHexIdentifier (identifier : Z) : Op unit :=
  on_uart (uart0WriteHexNibble uart_polls (u8 (Z.shiftr identifier 8)));;
  on_uart (uart0WriteHexByte uart_polls (u8 identifier)).

Definition newline : bytes := [13; 10].

Definition processCommand : Op unit :=
  g ← globals;
  match parseCommand (g_command g) (g_command_size g) with
  | None => writeString (chars "T:BAD" ++ newline)
  | Some frame =>
      transmitted ← on_can (Mcp2515Can.transmit spi_polls frame);
      writeString (if (transmitted : bool) then chars "T:OK" ++ newline else chars "T:BUSY" ++ newline)
  end.

(** A character of [processUart]. *)
Definition processCharacter (character : Z) : Op unit :=
  g ← globals;
  if (character =? 13) || (character =? 10) then
    if negb (g_command_size g =? 0) then
      processCommand;;
      g ← globals;
      set_command (g_command g) 0
    else mret tt
  else if g_command_size g <? Z.of_nat kCommandCapacity then
    set_command (<[Z.to_nat (g_command_size g) := character]> (g_command g)) (u8 (g_command_size g + 1))
  else
    set_command (g_command g) 0;;
    writeString (chars "T:BAD" ++ newline).

Fixpoint processUart (rounds : nat) : Op unit :=
  match rounds with
  | O => out_of_fuel
  | Datatypes.S rounds =>
      available ← on_uart (liftIo uart0ByteAvailable);
      if negb available then mret tt
      else
        character ← on_uart (liftIo uart0ReadByte);
        processCharacter character;;
        processUart rounds
  end.

Fixpoint writeHexBytes (data : bytes) : Op unit :=
  match data with
  | [] => mret tt
  | byte :: data => on_uart (uart0WriteHexByte uart_polls byte);; writeHexBytes data
  end.

Definition reportReceivedFrame (frame : Mcp2515CanFrame) : Op unit :=
  writeString (chars "R:");;
  writeHexIdentifier (identifier frame);;
  on_uart (uart0WriteByte uart_polls 58);;
  writeHexBytes (take (Z.to_nat (frame_size frame)) (data frame));;
  writeString newline.

(** The inner loop of [main]: at most [frames] calls of [receive]. *)
Fixpoint reportFrames (frames : nat) (frame : Mcp2515CanFrame) : Op unit :=
  match frames with
  | O => out_of_fuel
  | Datatypes.S frames =>
      received ← on_can (Mcp2515Can.receive spi_polls frame);
      if negb received.1 then mret tt
      else reportReceivedFrame received.2;; reportFrames frames received.2
  end.

(** [main] up to its loop: whether it gets there. *)
Definition startup : Op bool :=
  on_uart (liftIo (uart0Init kUartBaudRate));;
  on_can (liftIo spi0Init);;
  initialized ← on_can (Mcp2515Can.initialize500Kbps8MHz spi_polls);
  if negb initialized then writeString (chars "ERROR:MCP2515" ++ newline);; mret false
  else writeString (chars "READY:500K" ++ newline);; mret true.

(** A turn of [main]'s loop. *)
Definition turn (rounds frames : nat) : Op unit :=
  processUart rounds;;
  reportFrames frames {| identifier := 0; frame_size := 0; data := replicate 8 0 |}.
End console.

(** ** The texts *)

Definition nibble_text (v : Z) : Z := u8 (byte_at kHexDigits (Z.to_nat (Z.land v 0x0F))).
Definition byte_text (b : Z) : bytes := [nibble_text (u8 (Z.shiftr b 4)); nibble_text b].
Definition id_text (id : Z) : bytes := nibble_text (u8 (Z.shiftr id 8)) :: byte_text (u8 id).
Definition payload_of (f : Mcp2515CanFrame) : bytes := take (Z.to_nat (frame_size f)) (data f).
Definition frame_text (f : Mcp2515CanFrame) : bytes :=
  id_text (identifier f) ++ [58] ++ flat_map byte_text (payload_of f).

(** A hexadecimal digit in upper case. *)
Definition upper (c : Z) : Z := if (97 <=? c) && (c <=? 102) then c - 32 else c.

(** A command spells a frame, in either case. *)
Definition spells (text : bytes) (f : Mcp2515CanFrame) : Prop :=
  ∃ ids hex, text = chars "T:" ++ ids ++ [58] ++ hex ∧
    upper <$> ids = id_text (identifier f) ∧ upper <$> hex = flat_map byte_text (payload_of f).

(** The frames a command can spell: standard, with nothing behind the payload. *)
Definition command_frame (f : Mcp2515CanFrame) : Prop :=
  frame_ok f ∧ is_bytes (payload_of f) ∧
  data f = memcpy_at 0 (payload_of f) (replicate 8 0).

Lemma parse_nibble c v :
  is_u8 c → parseHexNibble c = Some v ↔ 0 ≤ v < 16 ∧ nibble_text v = upper c.
Proof.
  intros Hc.
  assert (Hsame : Forall (λ c, Forall (λ v,
      bool_decide (parseHexNibble c = Some v) = bool_decide (nibble_text v = upper c)) (seqZ 0 16))
    (seqZ 0 256)) by by_evaluation.
  assert (Hrange : Forall (λ c, 0 ≤ default 0 (parseHexNibble c) < 16) (seqZ 0 256)) by by_evaluation.
  rewrite list.Forall_forall in Hsame, Hrange.
  assert (Hin : c ∈ seqZ 0 256) by (apply elem_of_seqZ; unfold is_u8 in Hc; lia).
  specialize (Hsame c Hin). specialize (Hrange c Hin). rewrite list.Forall_forall in Hsame.
  assert (Hiff : 0 ≤ v < 16 → parseHexNibble c = Some v ↔ nibble_text v = upper c).
  { intros Hv. specialize (Hsame v ltac:(apply elem_of_seqZ; lia)).
    rewrite <- (bool_decide_eq_true (parseHexNibble c = Some v)), Hsame. apply bool_decide_eq_true. }
  split; [|by intros [Hv E]; apply Hiff].
  intros E. rewrite E in Hrange. cbn in Hrange. split; [done|by apply Hiff].
Qed.

(** The nibbles of a byte. *)
Lemma nibbles_byte high low :
  0 ≤ high < 16 → 0 ≤ low < 16 →
  let b := u8 (Z.lor (Z.shiftl high 4) low) in
  u8 (Z.shiftr b 4) = high ∧ nibble_text b = nibble_text low.
Proof.
  intros Hh Hl.
  assert (H : Forall (λ high, Forall (λ low,
      u8 (Z.shiftr (u8 (Z.lor (Z.shiftl high 4) low)) 4) = high ∧
      nibble_text (u8 (Z.lor (Z.shiftl high 4) low)) = nibble_text low) (seqZ 0 16)) (seqZ 0 16)) by
        by_evaluation.
  rewrite list.Forall_forall in H. specialize (H high ltac:(apply elem_of_seqZ; lia)).
  rewrite list.Forall_forall in H. apply H. apply elem_of_seqZ. lia.
Qed.

Lemma byte_nibbles b :
  is_u8 b → ∃ high low, 0 ≤ high < 16 ∧ 0 ≤ low < 16 ∧ b = u8 (Z.lor (Z.shiftl high 4) low) ∧
    u8 (Z.shiftr b 4) = high ∧ nibble_text b = nibble_text low.
Proof.
  intros Hb. exists (Z.shiftr b 4), (Z.land b 15).
  assert (H : Forall (λ b, 0 ≤ Z.shiftr b 4 < 16 ∧ 0 ≤ Z.land b 15 < 16 ∧
    b = u8 (Z.lor (Z.shiftl (Z.shiftr b 4) 4) (Z.land b 15)) ∧ u8 (Z.shiftr b 4) = Z.shiftr b 4 ∧
    nibble_text b = nibble_text (Z.land b 15)) (seqZ 0 256)) by by_evaluation.
  rewrite list.Forall_forall in H. apply H. apply elem_of_seqZ. unfold is_u8 in Hb. lia.
Qed.

Lemma parse_byte text offset v :
  is_u8 (byte_at text offset) → is_u8 (byte_at text (offset + 1)) →
  parseHexByte text offset = Some v ↔
    is_u8 v ∧ byte_text v = [upper (byte_at text offset); upper (byte_at text (offset + 1))].
Proof.
  intros H1 H2. unfold parseHexByte, byte_text. split.
  - destruct (parseHexNibble (byte_at text offset)) as [high|] eqn:E1; [|done].
    destruct (parseHexNibble (byte_at text (offset + 1))) as [low|] eqn:E2; [|done]. intros [= <-].
    apply parse_nibble in E1 as [Hh Eh]; [|done]. apply parse_nibble in E2 as [Hl El]; [|done].
    destruct (nibbles_byte high low Hh Hl) as [Ehigh Elow]. split; [apply u8_range|].
    by rewrite Ehigh, Elow, Eh, El.
  - intros [Hv E]. destruct (byte_nibbles v Hv) as (high & low & Hh & Hl & -> & Ehigh & Elow).
    rewrite Ehigh, Elow in E. injection E as Eh El.
    rewrite (proj2 (parse_nibble _ high H1)) by done. by rewrite (proj2 (parse_nibble _ low H2)).
Qed.

(** ** The parser *)

Lemma take_drop_two (arr : bytes) k n :
  (k + 2 * S n ≤ length arr)%nat →
  take (2 * S n) (drop k arr) =
    byte_at arr k :: byte_at arr (k + 1) :: take (2 * n) (drop (k + 2) arr).
Proof.
  intros Hlen. unfold byte_at.
  assert (Hdrop : ∀ j, (j < length arr)%nat → drop j arr = nth j arr 0 :: drop (j + 1) arr).
  { intros j Hj. destruct (lookup_lt_is_Some_2 arr j Hj) as [x Hx]. rewrite nth_lookup, Hx.
    rewrite Nat.add_1_r. by apply drop_S. }
  rewrite (Hdrop k), (Hdrop (k + 1)%nat) by lia. replace (k + 1 + 1)%nat with (k + 2)%nat by lia.
  by replace (2 * S n)%nat with (S (S (2 * n))) by lia.
Qed.

Lemma byte_at_u8 arr i : is_bytes arr → is_u8 (byte_at arr i).
Proof.
  intros Harr. unfold byte_at. rewrite nth_lookup. destruct (arr !! i) as [b|] eqn:E; [|by split].
  by apply (Forall_lookup_1 _ _ _ _ Harr E).
Qed.

Lemma parseData_spec n start arr data0 data :
  is_bytes arr → (6 + 2 * (start + n) ≤ length arr)%nat →
  parseData (seq start n) arr data0 = Some data ↔
    ∃ bs, length bs = n ∧ is_bytes bs ∧ data = memcpy_at start bs data0 ∧
      upper <$> take (2 * n) (drop (6 + 2 * start) arr) = flat_map byte_text bs.
Proof.
  intros Harr. revert start data0. induction n as [|n IH]; intros start data0 Hlen; cbn [seq parseData].
  - split.
    + intros [= <-]. exists []. by split_and!; [|constructor| |].
    + intros ([|] & Hbs & _ & -> & _); done.
  - rewrite take_drop_two by lia. set (k := (6 + 2 * start)%nat).
    rewrite !fmap_cons.
    replace (k + 2)%nat with (6 + 2 * S start)%nat by (unfold k; lia). split.
    + destruct (parseHexByte arr k) as [v|] eqn:E; [|done].
      apply parse_byte in E as [Hv Ev]; [|by apply byte_at_u8..].
      intros (bs & Hbs & Hbytes & -> & Etext)%IH; [|lia]. exists (v :: bs).
      split_and!; [simpl; lia|by constructor| |].
      * unfold memcpy_at. cbn [list_inserts]. by rewrite list_insert_inserts_lt by lia.
      * cbn [flat_map]. rewrite Ev, Etext. done.
    + intros (bs & Hbs & Hbytes & -> & Etext). destruct bs as [|v bs]; [done|].
      apply list.Forall_cons in Hbytes as [Hv Hbytes]. cbn [flat_map app] in Etext.
      apply (f_equal (take 2)) in Etext as Ev. apply (f_equal (drop 2)) in Etext as Erest.
      change (take 2 (byte_text v ++ flat_map byte_text bs)) with (byte_text v) in Ev.
      change (drop 2 (byte_text v ++ flat_map byte_text bs)) with (flat_map byte_text bs) in Erest.
      cbn [take drop] in Ev, Erest.
      rewrite (proj2 (parse_byte arr k v (byte_at_u8 _ _ Harr) (byte_at_u8 _ _ Harr))) by (by split).
      apply IH; [lia|]. exists bs. split_and!; [by injection Hbs|done| |done].
      unfold memcpy_at. cbn [list_inserts]. by rewrite list_insert_inserts_lt by lia.
Qed.

(** The identifier of three nibbles. *)
Definition join_id (h m l : Z) : Z := u16 (Z.lor (Z.lor (u16 (Z.shiftl h 8)) (u16 (Z.shiftl m 4))) l).

Lemma id_roundtrip h m l :
  0 ≤ h ≤ 7 → 0 ≤ m < 16 → 0 ≤ l < 16 →
  0 ≤ join_id h m l ≤ 0x7FF ∧ id_text (join_id h m l) = [nibble_text h; nibble_text m; nibble_text l].
Proof.
  intros Hh Hm Hl.
  assert (H : Forall (λ h, Forall (λ m, Forall (λ l,
      0 ≤ join_id h m l ≤ 0x7FF ∧ id_text (join_id h m l) = [nibble_text h; nibble_text m; nibble_text l])
    (seqZ 0 16)) (seqZ 0 16)) (seqZ 0 8)) by by_evaluation.
  rewrite list.Forall_forall in H. specialize (H h ltac:(apply elem_of_seqZ; lia)).
  rewrite list.Forall_forall in H. specialize (H m ltac:(apply elem_of_seqZ; lia)).
  rewrite list.Forall_forall in H. apply H. apply elem_of_seqZ. lia.
Qed.

Lemma id_nibbles id :
  0 ≤ id ≤ 0x7FF → ∃ h m l, 0 ≤ h ≤ 7 ∧ 0 ≤ m < 16 ∧ 0 ≤ l < 16 ∧
    id = join_id h m l ∧
    id_text id = [nibble_text h; nibble_text m; nibble_text l].
Proof.
  intros Hid. exists (Z.shiftr id 8), (Z.land (Z.shiftr id 4) 15), (Z.land id 15).
  assert (H : Forall (λ id, 0 ≤ Z.shiftr id 8 ≤ 7 ∧ 0 ≤ Z.land (Z.shiftr id 4) 15 < 16 ∧ 0 ≤ Z.land id 15 < 16 ∧
    id = join_id (Z.shiftr id 8) (Z.land (Z.shiftr id 4) 15) (Z.land id 15) ∧
    id_text id = [nibble_text (Z.shiftr id 8); nibble_text (Z.land (Z.shiftr id 4) 15); nibble_text
      (Z.land id 15)])
    (seqZ 0 2048)) by by_evaluation.
  rewrite list.Forall_forall in H. apply H. apply elem_of_seqZ. lia.
Qed.

(** Different nibbles have different digits. *)
Lemma nibble_text_inj v v' :
  0 ≤ v < 16 → 0 ≤ v' < 16 → nibble_text v = nibble_text v' → v = v'.
Proof.
  intros Hv Hv'.
  assert (H : Forall (λ v, Forall (λ v', nibble_text v = nibble_text v' → v = v') (seqZ 0 16)) (seqZ 0 16))
    by by_evaluation.
  rewrite list.Forall_forall in H. specialize (H v ltac:(apply elem_of_seqZ; lia)).
  rewrite list.Forall_forall in H. apply H. apply elem_of_seqZ. lia.
Qed.

Lemma text_split (arr : bytes) m :
  (6 + m ≤ length arr)%nat →
  take (6 + m) arr =
    [byte_at arr 0; byte_at arr 1; byte_at arr 2; byte_at arr 3; byte_at arr 4; byte_at arr 5]
    ++ take m (drop 6 arr).
Proof. intros Hlen. by do 6 (destruct arr as [|? arr]; [simpl in Hlen; lia|]). Qed.

Lemma length_flat_byte_text bs : length (flat_map byte_text bs) = (2 * length bs)%nat.
Proof. induction bs as [|b bs IH]; [done|]. cbn [flat_map]. rewrite length_app, IH. simpl. lia. Qed.

(** The shape of a command that is parsed: its payload is [n] bytes. *)
Definition command_shape (arr : bytes) (size : Z) (n : nat) : Prop :=
  size = 6 + 2 * Z.of_nat n ∧ (n ≤ 8)%nat ∧
  byte_at arr 0 = 84 ∧ byte_at arr 1 = 58 ∧ byte_at arr 5 = 58.

Lemma parseCommand_shape arr size :
  is_u8 size →
  ((size <? 6) || negb (byte_at arr 0 =? 84) || negb (byte_at arr 1 =? 58) || negb (byte_at arr 5 =? 58)
   || negb (Z.land (size - 6) 1 =? 0) || (16 <? size - 6)) = false ↔
  ∃ n, command_shape arr size n.
Proof.
  intros Hsize. rewrite !orb_false_iff, !negb_false_iff, !Z.ltb_ge, !Z.eqb_eq. unfold command_shape.
  assert (Z.land (size - 6) 1 = (size - 6) mod 2) as -> by by apply (Z.land_ones _ 1). split.
  - intros (((((H6 & H0) & H1) & H5) & Heven) & H16). exists (Z.to_nat ((size - 6) / 2)).
    pose proof (Z.div_mod (size - 6) 2 ltac:(lia)). split_and!; [|lia|done..]. lia.
  - intros (n & -> & Hn & H0 & H1 & H5). replace (6 + 2 * Z.of_nat n - 6) with (Z.of_nat n * 2) by lia.
    rewrite Z.mod_mul by lia. split_and!; done || lia.
Qed.

(** A command that spells a frame has the shape. *)
Lemma spells_shape arr size f :
  (22 ≤ length arr)%nat → is_u8 size → (Z.to_nat size ≤ length arr)%nat → command_frame f →
  spells (take (Z.to_nat size) arr) f →
  let n := length (payload_of f) in
  command_shape arr size n ∧ n = Z.to_nat (frame_size f) ∧
  upper <$> [byte_at arr 2; byte_at arr 3; byte_at arr 4] = id_text (identifier f) ∧
  upper <$> take (2 * n) (drop 6 arr) = flat_map byte_text (payload_of f).
Proof.
  intros Hlen Hsize Hfits ((Hid & Hn & Hdata) & _ & _) (ids & hex & Etext & Eids & Ehex). cbv zeta.
  assert (Epl : length (payload_of f) = Z.to_nat (frame_size f)) by (unfold payload_of; rewrite
    length_take; lia).
  set (n := length (payload_of f)) in *.
  assert (Hids : length ids = 3%nat) by (apply (f_equal length) in Eids; by rewrite length_fmap in Eids).
  assert (Hhex : length hex = (2 * n)%nat)
    by (apply (f_equal length) in Ehex; by rewrite length_fmap, length_flat_byte_text in Ehex).
  destruct ids as [|i0 [|i1 [|i2 [|]]]]; try done.
  assert (Hsz : Z.to_nat size = (6 + 2 * n)%nat).
  { apply (f_equal length) in Etext. rewrite length_take in Etext.
    change (length (chars "T:" ++ [i0; i1; i2] ++ [58] ++ hex)) with (6 + length hex)%nat in Etext.
    unfold is_u8 in Hsize. lia. }
  rewrite Hsz, text_split in Etext by lia.
  change (chars "T:" ++ [i0; i1; i2] ++ [58] ++ hex) with ([84; 58; i0; i1; i2; 58] ++ hex) in Etext.
  apply app_inj_1 in Etext as [E1 E2]; [|done]. injection E1 as E10 E11 E12 E13 E14 E15. subst i0 i1 i2 hex.
  unfold is_u8 in Hsize. split_and!; [split_and!; done || lia|done|done|done].
Qed.

(** The number of data bytes the length of the text stands for. *)
Lemma data_digits n : (n ≤ 8)%nat → u8 ((6 + 2 * Z.of_nat n - 6) / 2) = Z.of_nat n.
Proof.
  intros Hn. replace (6 + 2 * Z.of_nat n - 6) with (Z.of_nat n * 2) by lia.
  by rewrite Z.div_mul, u8_id by (done || (unfold is_u8; lia)).
Qed.

Lemma parse_sound arr size f :
  is_bytes arr → (22 ≤ length arr)%nat → is_u8 size → (Z.to_nat size ≤ length arr)%nat →
  parseCommand arr size = Some f → command_frame f ∧ spells (take (Z.to_nat size) arr) f.
Proof.
  intros Harr Hlen Hsize Hfits. unfold parseCommand. destruct (_ || _) eqn:Hguard; [done|].
  apply parseCommand_shape in Hguard as (n & -> & Hn & H0 & H1 & H5); [|done].
  rewrite data_digits, Nat2Z.id by done.
  destruct (parseHexNibble (byte_at arr 2)) as [h|] eqn:E2; [|done].
  destruct (parseHexNibble (byte_at arr 3)) as [m|] eqn:E3; [|done].
  destruct (parseHexNibble (byte_at arr 4)) as [l|] eqn:E4; [|done].
  apply parse_nibble in E2 as [Hh Eh]; [|by apply byte_at_u8].
  apply parse_nibble in E3 as [Hm Em]; [|by apply byte_at_u8].
  apply parse_nibble in E4 as [Hl El]; [|by apply byte_at_u8].
  destruct (Z.ltb_spec 7 h) as [|Hh7]; [done|].
  destruct (parseData (seq 0 n) arr (replicate 8 0)) as [data|] eqn:Ed; [|done].
  apply parseData_spec in Ed as (bs & Hbs & Hbytes & -> & Etext); [|done|lia]. intros [= <-].
  destruct (id_roundtrip h m l ltac:(lia) Hm Hl) as [Hid Eid].
  assert (Hpl : ∀ id, payload_of {| identifier := id; frame_size := Z.of_nat n; data := memcpy_at 0
    bs (replicate 8 0) |} = bs).
  { intros id. unfold payload_of. cbn [frame_size Mcp2515.data].
    rewrite Nat2Z.id, memcpy_at_app by (rewrite length_replicate; lia).
    rewrite take_0, app_nil_l, <- Hbs. apply take_app_length. }
  split; [split_and!|].
  * unfold frame_ok. cbn [identifier frame_size Mcp2515.data].
    rewrite memcpy_at_length. split; [exact Hid|]. split; [lia|done].
  * by rewrite Hpl.
  * by rewrite Hpl.
  * exists [byte_at arr 2; byte_at arr 3; byte_at arr 4], (take (2 * n) (drop 6 arr)).
    rewrite Hpl. cbn [identifier]. fold (join_id h m l). rewrite Eid. split_and!.
    -- replace (Z.to_nat (6 + 2 * Z.of_nat n)) with (6 + 2 * n)%nat by lia.
       rewrite text_split by lia. by rewrite H0, H1, H5.
    -- by rewrite Eh, Em, El.
    -- exact Etext.
Qed.

Lemma parse_complete arr size f :
  is_bytes arr → (22 ≤ length arr)%nat → is_u8 size → (Z.to_nat size ≤ length arr)%nat →
  command_frame f → spells (take (Z.to_nat size) arr) f → parseCommand arr size = Some f.
Proof.
  intros Harr Hlen Hsize Hfits Hf Hsp. unfold parseCommand. destruct (_ || _) eqn:Hguard.
  { destruct (spells_shape arr size f Hlen Hsize Hfits Hf Hsp) as (Hshape & _).
    assert (∃ n, command_shape arr size n) as Hex by by eexists.
    apply parseCommand_shape in Hex; [congruence|done]. }
  apply parseCommand_shape in Hguard as (n & -> & Hn & H0 & H1 & H5); [|done].
  rewrite data_digits, Nat2Z.id by done.
  pose proof Hf as ((Hid & Hn8 & Hdata) & Hbytes & Edata).
  destruct (spells_shape arr _ f Hlen Hsize Hfits Hf Hsp) as ((Esize & _) & Epl & Eids & Ehex).
  assert (length (payload_of f) = n) as Hpn by lia. rewrite Hpn in *.
  destruct (id_nibbles (identifier f) Hid) as (h & m & l & Hh & Hm & Hl & Eid & Eidt).
  rewrite Eidt in Eids. cbn [fmap list_fmap] in Eids. injection Eids as Eh Em El.
  rewrite (proj2 (parse_nibble _ h (byte_at_u8 arr 2 Harr))) by (split; [lia|done]).
  rewrite (proj2 (parse_nibble _ m (byte_at_u8 arr 3 Harr))) by done.
  rewrite (proj2 (parse_nibble _ l (byte_at_u8 arr 4 Harr))) by done.
  rewrite (proj2 (Z.ltb_ge 7 h)) by lia.
  rewrite (proj2 (parseData_spec n 0 arr (replicate 8 0) (data f) Harr ltac:(lia)))
    by (by exists (payload_of f)).
  fold (join_id h m l). rewrite <- Eid. f_equal. destruct f as [id size data]. cbn in *. f_equal. lia.
Qed.

Lemma parse_spells arr size f :
  is_bytes arr → (22 ≤ length arr)%nat → is_u8 size → (Z.to_nat size ≤ length arr)%nat →
  parseCommand arr size = Some f ↔ command_frame f ∧ spells (take (Z.to_nat size) arr) f.
Proof. intros. split; [by apply parse_sound|]. intros [? ?]. by apply parse_complete. Qed.

(** The command of a frame, as it is reported. *)
Lemma report_spells f : command_frame f → spells (chars "T:" ++ frame_text f) f.
Proof.
  intros ((Hid & _) & Hbytes & _). exists (id_text (identifier f)), (flat_map byte_text (payload_of f)).
  assert (Hupper : ∀ v, upper (nibble_text v) = nibble_text v).
  { intros v. unfold nibble_text.
    assert (Hin : Z.land v 15 ∈ seqZ 0 16).
    { apply elem_of_seqZ. change 15 with (Z.ones 4). rewrite Z.land_ones by lia.
      pose proof (Z.mod_pos_bound v (2 ^ 4) ltac:(lia)). lia. }
    assert (H : Forall (λ n, upper (u8 (byte_at kHexDigits (Z.to_nat n))) = u8 (byte_at kHexDigits
      (Z.to_nat n))) (seqZ 0 16))
      by by_evaluation.
    rewrite list.Forall_forall in H. by apply H. }
  split_and!; [done| |].
  - unfold id_text, byte_text. cbn [fmap list_fmap]. by rewrite !Hupper.
  - induction (payload_of f) as [|b bs IH]; [done|]. apply list.Forall_cons in Hbytes as [_ Hbytes].
    cbn [flat_map]. rewrite fmap_app, IH by done. unfold byte_text. cbn [fmap list_fmap]. by rewrite !Hupper.
Qed.

(** ** The console *)

Definition kBad : bytes := chars "T:BAD" ++ newline.
Definition kOk : bytes := chars "T:OK" ++ newline.
Definition kBusy : bytes := chars "T:BUSY" ++ newline.

Record globals_wf (g : Globals) : Prop := {
  gw_bytes : is_bytes (g_command g);
  gw_length : length (g_command g) = kCommandCapacity;
  gw_size : 0 ≤ g_command_size g ≤ Z.of_nat kCommandCapacity;
}.

(** The line collected so far. *)
Definition line (g : Globals) : bytes := take (Z.to_nat (g_command_size g)) (g_command g).

Section talking.
Context {U C : Type} `{!AvrUsart U, !UsartModel U}.
Variable uart_polls : nat.
Hypothesis uart_enough : (latency U < uart_polls)%nat.

Lemma on_uart_wp {A} (m : Io U A) g u (c : C) Q :
  io_wp m u (λ a u', Q a (g, (u', c))) → io_wp (on_uart m) (g, (u, c)) Q.
Proof. intros (a & u' & E & HQ). exists a, (g, (u', c)). unfold on_uart. by rewrite E. Qed.

(** A device [u'] that has sent [text] since [u], reading nothing. *)
Definition said (u : U) (text : bytes) (u' : U) : Prop :=
  incoming u' = incoming u ∧ sent u' = sent u ++ text ∧ (busy u' ≤ latency U)%nat.

Lemma said_nil u : (busy u ≤ latency U)%nat → said u [] u.
Proof. intros Hb. split_and!; [done|by rewrite app_nil_r|done]. Qed.
Lemma said_trans u u1 u2 t1 t2 : said u t1 u1 → said u1 t2 u2 → said u (t1 ++ t2) u2.
Proof.
  intros (Ei & Es & _) (Ei' & Es' & Hb). split_and!; [congruence| |done]. by rewrite Es', Es, app_assoc.
Qed.

Lemma byte_said byte u (c : C) g (Q : unit → Globals * (U * C) → Prop) :
  (busy u ≤ latency U)%nat → (∀ u', said u [byte] u' → Q tt (g, (u', c))) →
  io_wp (on_uart (uart0WriteByte uart_polls byte)) (g, (u, c)) Q.
Proof.
  intros Hb HQ. apply on_uart_wp.
  destruct (write_byte uart_polls byte u ltac:(lia)) as (u' & E & Hi & Hs & Hl).
  exists tt, u'. split; [exact E|]. by apply HQ.
Qed.

Lemma string_said text g u (c : C) Q :
  is_bytes text → (busy u ≤ latency U)%nat → (∀ u', said u text u' → Q tt (g, (u', c))) →
  io_wp (writeString uart_polls text) (g, (u, c)) Q.
Proof.
  intros Htext. revert u Q. induction Htext as [|ch text Hch _ IH]; intros u Q Hb HQ; cbn [writeString].
  { apply io_wp_ret, HQ. by apply said_nil. }
  apply io_wp_bind, byte_said; [done|]. intros u1 H1. rewrite u8_id in H1 by done.
  apply IH; [apply H1|]. intros u2 H2. apply HQ. exact (said_trans _ _ _ [ch] text H1 H2).
Qed.

(** *** The report *)

Lemma nibble_said v u (c : C) g (Q : unit → Globals * (U * C) → Prop) :
  (busy u ≤ latency U)%nat → (∀ u', said u [nibble_text v] u' → Q tt (g, (u', c))) →
  io_wp (on_uart (uart0WriteHexNibble uart_polls v)) (g, (u, c)) Q.
Proof. apply byte_said. Qed.

Lemma hex_said v u (c : C) g (Q : unit → Globals * (U * C) → Prop) :
  (busy u ≤ latency U)%nat → (∀ u', said u (byte_text v) u' → Q tt (g, (u', c))) →
  io_wp (on_uart (uart0WriteHexByte uart_polls v)) (g, (u, c)) Q.
Proof.
  intros Hb HQ. apply on_uart_wp. unfold uart0WriteHexByte, uart0WriteHexNibble. apply io_wp_bind.
  destruct (write_byte uart_polls (nibble_text (u8 (Z.shiftr v 4))) u ltac:(lia)) as (u1 & E1 & Hi1 &
    Hs1 & Hl1).
  exists tt, u1. split; [exact E1|].
  destruct (write_byte uart_polls (nibble_text v) u1 ltac:(lia)) as (u2 & E2 & Hi2 & Hs2 & Hl2).
  exists tt, u2. split; [exact E2|]. apply HQ. split_and!; [congruence| |done].
  by rewrite Hs2, Hs1, <- app_assoc.
Qed.

Lemma hex_bytes_said data u (c : C) g Q :
  (busy u ≤ latency U)%nat → (∀ u', said u (flat_map byte_text data) u' → Q tt (g, (u', c))) →
  io_wp (writeHexBytes uart_polls data) (g, (u, c)) Q.
Proof.
  revert u Q. induction data as [|b data IH]; intros u Q Hb HQ; cbn [writeHexBytes flat_map].
  { apply io_wp_ret, HQ. by apply said_nil. }
  apply io_wp_bind, hex_said; [done|]. intros u1 H1. apply IH; [apply H1|].
  intros u2 H2. apply HQ. by eapply said_trans.
Qed.

Lemma report_wp f g u (c : C) Q :
  (busy u ≤ latency U)%nat →
  (∀ u', said u (chars "R:" ++ frame_text f ++ newline) u' → Q tt (g, (u', c))) →
  io_wp (reportReceivedFrame uart_polls f) (g, (u, c)) Q.
Proof.
  intros Hb HQ. unfold reportReceivedFrame, writeHexIdentifier.
  apply io_wp_bind, string_said; [by_evaluation|done|]. intros u1 H1.
  apply io_wp_bind, io_wp_bind, nibble_said; [apply H1|]. intros u2 H2.
  apply hex_said; [apply H2|]. intros u3 H3.
  apply io_wp_bind, byte_said; [apply H3|]. intros u4 H4.
  apply io_wp_bind, hex_bytes_said; [apply H4|]. intros u5 H5.
  apply string_said; [by_evaluation|apply H5|]. intros u6 H6. apply HQ.
  pose proof (said_trans _ _ _ _ _ H1 (said_trans _ _ _ _ _ H2 (said_trans _ _ _ _ _ H3
    (said_trans _ _ _ _ _ H4 (said_trans _ _ _ _ _ H5 H6))))) as H.
  unfold frame_text, id_text. by rewrite <- !app_assoc in *.
Qed.
End talking.

Section console_proofs.
Context {U C : Type} `{!AvrUsart U, !UsartModel U, !AvrSpi C, !Mcp2515Model C}.
Variables uart_polls spi_polls : nat.
Hypothesis uart_enough : (latency U < uart_polls)%nat.
Hypothesis spi_enough : (Mcp2515.latency C < spi_polls)%nat.

Lemma on_can_wp {A} (m : Io C A) g (u : U) c Q :
  io_wp m c (λ a c', Q a (g, (u, c'))) → io_wp (on_can m) (g, (u, c)) Q.
Proof. intros (a & c' & E & HQ). exists a, (g, (u, c')). unfold on_can. by rewrite E. Qed.

(** What a command does to the controller, and the reply. *)
Inductive outcome (text : bytes) (c c' : C) : bytes → Prop :=
  | outcome_bad :
      (∀ f, command_frame f → ¬ spells text f) → (∀ x, registers c' x = registers c x) →
      outcome text c c' kBad
  | outcome_ok f :
      command_frame f → spells text f → Z.land (registers c 0x30) 0x08 = 0 →
      frame_at 0x31 f (registers c') → registers c' 0x30 = Z.lor (registers c 0x30) 0x08 →
      (∀ x, ¬ 0x30 ≤ x ≤ 0x3D → registers c' x = registers c x) →
      outcome text c c' kOk
  | outcome_busy f :
      command_frame f → spells text f → Z.land (registers c 0x30) 0x08 ≠ 0 →
      (∀ x, registers c' x = registers c x) →
      outcome text c c' kBusy.

Lemma processCommand_wp g u c Q :
  globals_wf g → selected c = None → (busy u ≤ latency U)%nat →
  (∀ u' c' reply, said u reply u' → selected c' = None → outcome (line g) c c' reply →
     Q tt (g, (u', c'))) →
  io_wp (processCommand uart_polls spi_polls) (g, (u, c)) Q.
Proof.
  intros Hg Hidle Hb HQ. pose proof Hg as [Hbytes Hlen Hsize]. unfold processCommand, globals.
  apply io_wp_bind, io_wp_lift. cbn [gets fst snd].
  assert (Hparse := λ f, parse_spells (g_command g) (g_command_size g) f Hbytes
    ltac:(unfold kCommandCapacity in *; lia) ltac:(unfold is_u8, kCommandCapacity in *; lia) ltac:(lia)).
  fold (line g) in Hparse.
  destruct (parseCommand (g_command g) (g_command_size g)) as [f|].
  - destruct (proj1 (Hparse f) eq_refl) as [Hf Hsp]. pose proof Hf as [Hok _].
    apply io_wp_bind, on_can_wp.
    destruct (decide (Z.land (registers c 0x30) 0x08 = 0)) as [Hfree|Hbusy].
    + apply transmit_accepts; [done..|]. intros c' Hs Hat Hctrl Hrest. cbn iota.
      apply string_said; [done|by_evaluation|done|]. intros u' Hsaid. eapply HQ; [exact Hsaid|done|].
      by eapply outcome_ok.
    + eapply io_wp_mono; [by apply transmit_refuses; [..|by right; right]|].
      intros ok c' (-> & Hs & Hrest). cbn beta iota. apply string_said; [done|by_evaluation|done|].
      intros u' Hsaid. eapply HQ; [exact Hsaid|done|]. by eapply outcome_busy.
  - apply string_said; [done|by_evaluation|done|]. intros u' Hsaid. eapply HQ; [exact Hsaid|done|].
    apply outcome_bad; [|done]. intros f Hf Hsp. by pose proof (proj2 (Hparse f) (conj Hf Hsp)).
Qed.
(** A line end. *)
Definition line_end (ch : Z) : bool := (ch =? 13) || (ch =? 10).

(** The console on a stream of characters: [session buffer chars c replies buffer' c'].
    An empty line is skipped, a line is a command and is answered once, and a character
    too many drops the line it is in. *)
Inductive session : bytes → bytes → C → bytes → bytes → C → Prop :=
  | session_done buffer c : session buffer [] c [] buffer c
  | session_skip ch stream c replies buffer' c' :
      line_end ch = true → session [] stream c replies buffer' c' →
      session [] (ch :: stream) c replies buffer' c'
  | session_command buffer ch stream c c1 reply replies buffer' c' :
      line_end ch = true → buffer ≠ [] → outcome buffer c c1 reply →
      session [] stream c1 replies buffer' c' →
      session buffer (ch :: stream) c (reply ++ replies) buffer' c'
  | session_collect buffer ch stream c replies buffer' c' :
      line_end ch = false → (length buffer < kCommandCapacity)%nat →
      session (buffer ++ [ch]) stream c replies buffer' c' →
      session buffer (ch :: stream) c replies buffer' c'
  | session_overflow buffer ch stream c replies buffer' c' :
      line_end ch = false → length buffer = kCommandCapacity →
      session [] stream c replies buffer' c' →
      session buffer (ch :: stream) c (kBad ++ replies) buffer' c'.

Lemma line_length g : globals_wf g → length (line g) = Z.to_nat (g_command_size g).
Proof. intros [_ Hlen Hsize]. unfold line. rewrite length_take. lia. Qed.

Lemma cleared_wf g : globals_wf g → globals_wf {| g_command := g_command g; g_command_size := 0 |}.
Proof. intros [? ? ?]. split; cbn; done || lia. Qed.

(** One character. *)
Lemma processCharacter_wp ch g u c Q :
  is_u8 ch → globals_wf g → selected c = None → (busy u ≤ latency U)%nat →
  (∀ g' u' c' reply, globals_wf g' → said u reply u' → selected c' = None →
     (∀ stream replies buffer' c'', session (line g') stream c' replies buffer' c'' →
        session (line g) (ch :: stream) c (reply ++ replies) buffer' c'') →
     Q tt (g', (u', c'))) →
  io_wp (processCharacter uart_polls spi_polls ch) (g, (u, c)) Q.
Proof.
  intros Hch Hg Hidle Hb HQ. pose proof Hg as [Hbytes Hlen Hsize]. pose proof (line_length g Hg) as Hline.
  unfold processCharacter, globals. apply io_wp_bind, io_wp_lift. cbn [gets fst snd].
  destruct ((ch =? 13) || (ch =? 10)) eqn:Hend.
  - destruct (Z.eqb_spec (g_command_size g) 0) as [Hempty|Hne]; cbn [negb].
    + apply io_wp_ret. eapply (HQ g u c []); [done|by apply said_nil|done|].
      intros stream replies buffer' c'' Hs. assert (line g = []) as E by (apply length_zero_iff_nil; lia).
      rewrite E in *. by apply session_skip.
    + apply io_wp_bind, processCommand_wp; [done..|]. intros u1 c1 reply Hsaid Hidle1 Hout.
      apply io_wp_bind, io_wp_lift. cbn [gets fst snd]. apply io_wp_lift. cbn [modify snd fst].
      eapply HQ; [by apply cleared_wf|exact Hsaid|done|]. intros stream replies buffer' c'' Hs.
      eapply session_command; [done| |exact Hout|exact Hs].
      intros E. rewrite E in Hline. cbn in Hline. lia.
  - destruct (Z.ltb_spec (g_command_size g) (Z.of_nat kCommandCapacity)) as [Hroom|Hfull].
    + apply io_wp_lift. cbn [modify snd fst]. rewrite u8_id by (unfold is_u8, kCommandCapacity in *; lia).
      eapply (HQ _ u c []); [|by apply said_nil|done|].
      * split; cbn; [|by rewrite length_insert|lia]. by apply Forall_insert.
      * intros stream replies buffer' c'' Hs. apply session_collect; [done|lia|].
        unfold line in Hs. cbn [g_command g_command_size] in Hs.
        rewrite Z2Nat.inj_add, Nat.add_1_r, take_insert_snoc in Hs by lia. exact Hs.
    + apply io_wp_bind, io_wp_lift. cbn [modify snd fst]. apply string_said; [done|by_evaluation|done|].
      intros u1 Hsaid. eapply HQ; [by apply cleared_wf|exact Hsaid|done|].
      intros stream replies buffer' c'' Hs. apply session_overflow; [done|lia|exact Hs].
Qed.

Lemma processUart_wp rounds g u c :
  globals_wf g → selected c = None → (busy u ≤ latency U)%nat → is_bytes (incoming u) →
  (length (incoming u) < rounds)%nat →
  io_wp (processUart uart_polls spi_polls rounds) (g, (u, c)) (λ _ '(g', (u', c')),
    globals_wf g' ∧ selected c' = None ∧ (busy u' ≤ latency U)%nat ∧ incoming u' = [] ∧
    ∃ replies, sent u' = sent u ++ replies ∧ session (line g) (incoming u) c replies (line g') c').
Proof.
  revert g u c. induction rounds as [|rounds IH]; intros g u c Hg Hidle Hb Hbytes Hlen; [lia|].
  cbn [processUart]. apply io_wp_bind, on_uart_wp, io_wp_lift.
  unfold uart0ByteAvailable, mbind, State_bind. pose proof (status_read u) as Hstatus.
  destruct (read_register UCSR0A u) as [status u1]. destruct Hstatus as (Ein & Es & Hb1 & Hempty & _).
  cbn [fst snd mret State_ret]. destruct (Z.eqb_spec (Z.land status (BV RXC0)) 0) as [H0|H0]; cbn [negb].
  - apply io_wp_ret. apply Hempty in H0. split_and!; [done|done|lia|congruence|]. exists [].
    rewrite H0, app_nil_r. split; [done|constructor].
  - destruct (incoming u) as [|ch rest] eqn:Erest; [by destruct H0; apply Hempty|].
    apply list.Forall_cons in Hbytes as [Hch Hbytes].
    apply io_wp_bind, on_uart_wp, io_wp_lift. unfold uart0ReadByte.
    pose proof (data_read u1 ch rest Ein) as Hread.
    destruct (read_register UDR0 u1) as [value u2]. destruct Hread as (-> & Ein2 & Es2 & Hb2).
    cbn [fst snd]. apply io_wp_bind, processCharacter_wp; [done|done|done|lia|].
    intros g' u3 c' reply Hg' (Ein3 & Es3 & Hb3) Hidle' Hsession. cbn [length] in Hlen.
    eapply io_wp_mono; [apply IH; [done|done|done|by rewrite Ein3, Ein2|rewrite Ein3, Ein2; lia]|].
    intros _ [g'' [u'' c'']] (Hg'' & Hidle'' & Hb'' & Ein'' & replies & Es'' & Hs).
    split_and!; [done..|]. exists (reply ++ replies). split.
    + by rewrite Es'', Es3, Es2, Es, app_assoc.
    + apply Hsession. by rewrite Ein3, Ein2 in Hs.
Qed.

End console_proofs.

(** ** Properties *)

(** C28: The console over the two peripherals: [processUart] reads everything that has
    arrived and ends, and what it says and does is a session over the characters, from
    the line collected so far: each line is answered once, in order; it is refused and
    the controller left alone exactly when it spells no standard frame; otherwise, with
    transmit buffer 0 free, the controller holds that frame with its transmission
    requested and the answer is OK, and with the buffer taken the answer is BUSY. *)
Theorem can_console_session {U C} `{!AvrUsart U, !UsartModel U, !AvrSpi C, !Mcp2515Model C}
    (uart_polls spi_polls rounds : nat) (g : Globals) (u : U) (c : C) :
  (latency U < uart_polls)%nat → (Mcp2515.latency C < spi_polls)%nat →
  globals_wf g → selected c = None → (busy u ≤ latency U)%nat → is_bytes (incoming u) →
  (length (incoming u) < rounds)%nat →
  ∃ g' u' c' replies, processUart uart_polls spi_polls rounds (g, (u, c)) = Some (tt, (g', (u', c'))) ∧
    globals_wf g' ∧ selected c' = None ∧ (busy u' ≤ latency U)%nat ∧ incoming u' = [] ∧
    sent u' = sent u ++ replies ∧ session (line g) (incoming u) c replies (line g') c'.
Proof.
  intros Hu Hs Hg Hidle Hb Hbytes Hlen.
  destruct (processUart_wp uart_polls spi_polls Hu Hs rounds g u c Hg Hidle Hb Hbytes Hlen)
    as ([] & [g' [u' c']] & E & Hg' & Hidle' & Hb' & Hin' & replies & Hsent & Hsession).
  by exists g', u', c', replies.
Qed.

(** What the firmware reports it understands: the report of a frame is one line, and
    the same line with the letter of a command, in the command buffer, is parsed to the
    frame; and every command that is parsed is, up to the case of its digits, the report
    of the frame it is parsed to. *)
Theorem can_report_command_roundtrip {U C} `{!AvrUsart U, !UsartModel U} (uart_polls : nat)
    (f : Mcp2515CanFrame) (g : Globals) (u : U) (c : C) :
  (latency U < uart_polls)%nat → (busy u ≤ latency U)%nat → globals_wf g →
  (∃ u', reportReceivedFrame uart_polls f (g, (u, c)) = Some (tt, (g, (u', c))) ∧
     sent u' = sent u ++ chars "R:" ++ frame_text f ++ newline) ∧
  (command_frame f → line g = chars "T:" ++ frame_text f →
     parseCommand (g_command g) (g_command_size g) = Some f) ∧
  (parseCommand (g_command g) (g_command_size g) = Some f → command_frame f ∧ spells (line g) f).
Proof.
  intros Hu Hb Hg. pose proof Hg as [Hbytes Hlen Hsize].
  assert (Hparse := parse_spells (g_command g) (g_command_size g) f Hbytes
    ltac:(unfold kCommandCapacity in *; lia) ltac:(unfold is_u8, kCommandCapacity in *; lia) ltac:(lia)).
  fold (line g) in Hparse. split_and!.
  - destruct (report_wp uart_polls Hu f g u c (λ _ '(g', (u', c')),
      g' = g ∧ c' = c ∧ said u (chars "R:" ++ frame_text f ++ newline) u') Hb) as ([] & [g' [u' c']] & E & -> & -> & Hsaid).
    + done.
    + exists u'. split; [exact E|apply Hsaid].
  - intros Hf E. apply Hparse. split; [done|]. rewrite E. by apply report_spells.
  - apply Hparse.
Qed.

(** *** Witnesses: the demonstration USART and controller *)

Import DemoUsart DemoController.

Definition demo_commands : bytes := chars "T:5a3:0102fF" ++ [13] ++ chars "T:9" ++ [10].

Lemma can_console_session_witness :
  ∃ g' u' c',
    processUart 4 2 40 (new_globals, (DemoUsart.idle demo_commands, DemoController.idle (λ _, 0))) =
      Some (tt, (g', (u', c'))) ∧
    sent u' = kOk ++ kBad ∧
    session [] demo_commands (DemoController.idle (λ _, 0)) (kOk ++ kBad) (line g') c'.
Proof.
  destruct (can_console_session (U := Usart) (C := Controller) 4 2 40 new_globals (DemoUsart.idle demo_commands)
    (DemoController.idle (λ _, 0))) as (g' & u' & c' & replies & E & _ & _ & _ & _ & Hsent & Hsession).
  - by_evaluation.
  - by_evaluation.
  - split; [by_evaluation|reflexivity|by_evaluation].
  - reflexivity.
  - by_evaluation.
  - by_evaluation.
  - apply Nat.ltb_lt. vm_compute. reflexivity.
  - assert (Hreplies : replies = kOk ++ kBad).
    { assert (Htx : (λ r, tx r.2.2.1) <$>
        processUart 4 2 40 (new_globals, (DemoUsart.idle demo_commands, DemoController.idle (λ _, 0))) =
        Some (kOk ++ kBad)) by (vm_compute; reflexivity).
      rewrite E in Htx. cbn [fmap option_fmap option_map fst snd] in Htx. injection Htx as Htx.
      change (tx u') with (sent u') in Htx. by rewrite Hsent in Htx. }
    subst replies. exists g', u', c'. split_and!; [exact E|exact Hsent|exact Hsession].
Defined.

Definition demo_globals : Globals :=
  {| g_command := chars "T:" ++ frame_text demo_frame ++ replicate 12 0; g_command_size := 12 |}.

Lemma can_report_command_roundtrip_witness :
  parseCommand (g_command demo_globals) (g_command_size demo_globals) = Some demo_frame ∧
  ∃ u', reportReceivedFrame 4 demo_frame (demo_globals, (DemoUsart.idle [], tt)) =
      Some (tt, (demo_globals, (u', tt))) ∧
    sent u' = chars "R:5A3:0102FF" ++ [13; 10].
Proof.
  destruct (can_report_command_roundtrip (U := Usart) 4 demo_frame demo_globals (DemoUsart.idle []) tt)
    as ((u' & E & Hsent) & Hparse & _).
  - by_evaluation.
  - by_evaluation.
  - split; [by_evaluation|reflexivity|by_evaluation].
  - split; [apply Hparse|].
    + split_and!; [by_evaluation|by_evaluation|reflexivity].
    + vm_compute. reflexivity.
    + exists u'. split; [exact E|exact Hsent].
Defined.
