(* ===== verification/BootProfile.v ===== *)
(** * The boot profile ([examples/arduino-uno/bits_boot_profile_ram.cpp])

    The receiver-only firmware without endpoints and router: its own PDU sender on the
    UART, the callbacks that check the received image and report on it, and the loop
    that feeds the frames of the line to the receiver engine.

    The callbacks call back into the engine, [engine_->sendDatagram(..)], while it is
    processing: that function touches nothing of the engine but its sender
    ([sendDatagram_sender]), so that the call is [reportDatagram], on the sender alone. *)

From S2P Require Import Prelude Mcp2515 Platform Crc Hdlc Packet Routing Endpoints RamApplication.
From S2P Require Import BitsCodec BitsEngine BitsEngineRuns RamTransfer Services UartLink DemoWiring.
Local Open Scope Z_scope.

(** ** Definitions *)

Module BootProfile.
Definition kMaximumObjectSize : Z := 256.
Definition kSegmentPayloadSize : Z := 24.
Definition kMaximumBitsPayloadSize : Z := kSegmentHeaderSize + kSegmentPayloadSize.
Definition kMaximumUserDatagramSize : Z := kMaximumBitsPayloadSize - kUserDatagramHeaderSize.
Definition kMaximumCanonicalSize : nat := sizeof_Header + Z.to_nat kMaximumBitsPayloadSize.
Definition kEchoRequest : Z := 0x01.
Definition kEchoResponse : Z := 0x81.
Definition kImageResult : Z := 0x82.
Definition kImageOk : Z := 0.
Definition kImageLengthMismatch : Z := 1.
Definition kImageDataMismatch : Z := 2.
Definition kNoBadOffset : Z := 0xFFFF.

(** [WS_PACKET_BUFFER_DEFINE(TransmitPacket, kMaximumBitsPayloadSize)]. *)
Definition new_TransmitPacket : PacketBuffer := new_packet kMaximumBitsPayloadSize.

(** Constants of [UartPduSender], beside those of the HDLC library. *)
Definition kFlag : Z := 0x7E.
Definition kEscape : Z := 0x7D.
Definition kEscapeXor : Z := 0x20.

Section sender.
Context {U B : Type} `{!AvrUsart U}.
Variable polls : nat.

Definition writeEscaped (byte : Z) : Io U unit :=
  if (byte =? kFlag) || (byte =? kEscape) then
    uart0WriteByte polls kEscape;;
    uart0WriteByte polls (u8 (Z.lxor byte kEscapeXor))
  else uart0WriteByte polls byte.

Fixpoint writeAllEscaped (tx_bytes : bytes) : Io U unit :=
  match tx_bytes with
  | [] => mret tt
  | byte :: tx_bytes => writeEscaped byte;; writeAllEscaped tx_bytes
  end.

(** The writes of [sendPrepared]. *)
Definition writeFrame (tx_bytes : bytes) : Io U unit :=
  let crc := compute Crc16CcittFalse tx_bytes in
  uart0WriteByte polls kFlag;;
  writeAllEscaped tx_bytes;;
  writeEscaped (u8 crc);;
  writeEscaped (u8 (Z.shiftr crc 8));;
  uart0WriteByte polls kFlag.

(** [packet_] beside the device and the board. *)
Definition Sender : Type := PacketBuffer * (option U * B).

#[export] Instance uart_pdu_sender : ReceiverPduSender Sender := {
  prepare payload_size := λ '(packet_, w),
    let '(ok, packet_) := initializeConnection payload_size kUploadConnection (cf_bits kNormal) packet_ in
    (if ok then payload packet_ else [], (packet_, w));
  store contents := modify (λ '(packet_, w), (write_payload 0 contents packet_, w));
  sendPrepared := λ '(packet_, (u, b)),
    let '(_, u) := await (writeFrame (headerAndPayload packet_)) tt u in
    (SendResult.kSent, (packet_, (u, b)));
}.
End sender.
Arguments Sender : clear implicits.

(** [RamProfileCallbacks]; [engine_] is a pointer that is null until [attach]. *)
Record RamProfileCallbacks := {
  attached : bool;
  object_ : bytes;
  received_size_ : Z;
  expected_size_ : Z;
  session_id_ : Z;
}.

Definition new_callbacks : RamProfileCallbacks :=
  {| attached := false; object_ := replicate (Z.to_nat kMaximumObjectSize) 0; received_size_ := 0;
     expected_size_ := 0; session_id_ := 0 |}.

Definition attach (p : RamProfileCallbacks) : RamProfileCallbacks :=
  {| attached := true; object_ := object_ p; received_size_ := received_size_ p;
     expected_size_ := expected_size_ p; session_id_ := session_id_ p |}.

Definition forget (p : RamProfileCallbacks) : RamProfileCallbacks :=
  {| attached := attached p; object_ := object_ p; received_size_ := 0; expected_size_ := 0;
     session_id_ := session_id_ p |}.

(** [WS_BITS_BOOT_PROFILE_SIZE_ONLY]. *)
Section callbacks.
Variable size_only : bool.

Definition profileBegin (info : TransferInfo) : State RamProfileCallbacks TransferAdmission.t := λ p,
  if kMaximumObjectSize <? info_total_size info then (TransferAdmission.kTooLarge, p)
  else (TransferAdmission.kAccepted,
        {| attached := attached p; object_ := object_ p; received_size_ := 0;
           expected_size_ := u16 (info_total_size info); session_id_ := info_session_id info |}).

Definition profileSegment (object_offset : Z) (payload : bytes) : State RamProfileCallbacks bool := λ p,
  if kMaximumObjectSize <? u32 (object_offset + zlen payload) then (false, p)
  else
    let stored := if size_only then object_ p
                  else memcpy_at (Z.to_nat object_offset) payload (object_ p) in
    let segment_end := u16 (u32 (object_offset + zlen payload)) in
    (true, {| attached := attached p; object_ := stored;
              received_size_ := if received_size_ p <? segment_end then segment_end else received_size_ p;
              expected_size_ := expected_size_ p; session_id_ := session_id_ p |}).

(** The status and the first bad offset of the image. *)
Definition imageStatus (p : RamProfileCallbacks) : Z * Z :=
  if negb (received_size_ p =? expected_size_ p) then (kImageLengthMismatch, kNoBadOffset)
  else
    match find (λ index, negb (byte_at (object_ p) (Z.to_nat index) =? u8 index))
            (seqZ 0 (received_size_ p)) with
    | Some index => (kImageDataMismatch, index)
    | None => (kImageOk, kNoBadOffset)
    end.

Definition imageResult (p : RamProfileCallbacks) : bytes :=
  let '(status, first_bad_offset) := imageStatus p in
  [kImageResult; session_id_ p; status; u8 (received_size_ p); u8 (Z.shiftr (received_size_ p) 8);
   u8 first_bad_offset; u8 (Z.shiftr first_bad_offset 8)].

(** What the callbacks answer to a datagram. *)
Definition echoResponse (payload : bytes) : option bytes :=
  if (zlen payload <? 2) || negb (byte_at payload 0 =? kEchoRequest) then None
  else if size_only then Some [kEchoResponse; byte_at payload 1]
  else if kMaximumUserDatagramSize <? zlen payload then None
  else
    let response := memcpy_at 0 payload (replicate (Z.to_nat kMaximumUserDatagramSize) 0) in
    Some (take (length payload) (<[0%nat := kEchoResponse]> response)).

Context {V : Type} `{!ReceiverPduSender V}.

(** [engine_->sendDatagram(payload)]. *)
Definition reportDatagram (payload : bytes) : State V SendResult.t :=
  if 65535 - kUserDatagramHeaderSize <? zlen payload then mret SendResult.kTooLarge
  else
  let message_size := u16 (zlen payload + kUserDatagramHeaderSize) in
  storage ← prepare message_size;
  match (if zlen storage =? message_size then encodeUserDatagram payload storage else None) with
  | None => mret SendResult.kTooLarge
  | Some contents => store contents;; sendPrepared
  end.

Definition profileDatagram (payload : bytes) : State (RamProfileCallbacks * V) unit := λ '(p, v),
  if negb (attached p) then (tt, (p, v))
  else
    match echoResponse payload with
    | None => (tt, (p, v))
    | Some response => let '(_, v) := reportDatagram response v in (tt, (p, v))
    end.

Definition profileComplete : State (RamProfileCallbacks * V) unit := λ '(p, v),
  if size_only then (tt, (p, v))
  else if attached p
  then let '(_, v) := reportDatagram (imageResult p) v in (tt, (p, v))
  else (tt, (p, v)).

#[export] Instance profile_callbacks : ReceiverCallbacks (RamProfileCallbacks * V) := {
  beginTransfer info := on_fst (profileBegin info);
  onTransferFailed _ := on_fst (modify forget);
  onSegment object_offset payload := on_fst (profileSegment object_offset payload);
  onDatagram := profileDatagram;
  onTransferComplete := profileComplete;
  onTransferAborted _ := on_fst (modify forget);
}.
#[export] Instance profile_sender : ReceiverPduSender (RamProfileCallbacks * V) := {
  prepare size := on_snd (prepare size);
  store contents := on_snd (store contents);
  sendPrepared := on_snd sendPrepared;
}.
End callbacks.

Definition matchesConnection (h : Header) : bool :=
  (transportType h =? kBits) && hasSupportedControl h && bool_decide (wire h = kTestWire)
  && bool_decide (source h = kPcHost) && bool_decide (destination h = kArduinoHost)
  && bool_decide (endpoint h = kBitsUploadEndpoint).

(** The message of a frame, if it has one. *)
Definition frameMessage (frame : bytes) : option bytes :=
  if (length frame <? sizeof_Header)%nat then None
  else if negb (matchesConnection (header_of_bytes (take sizeof_Header frame))) then None
  else
    let message := drop sizeof_Header frame in
    if bool_decide (message = []) then None else Some message.

Section main.
Context {U B : Type} `{!AvrUsart U, !MillisecondClock B}.
Variables (size_only : bool) (max_width : Z) (polls : nat).

Abbreviation World := (RamProfileCallbacks * Sender U B)%type.
#[local] Instance main_sender : ReceiverPduSender (Sender U B) := uart_pdu_sender polls.
#[local] Instance main_callbacks : ReceiverCallbacks World := profile_callbacks size_only.

(** What the board does while the firmware does not use it, as part of the world. *)
Definition on_board {A} (m : State (option U * B) A) : State (Engine * World) A :=
  on_snd (on_snd (on_snd m)).

Definition processFrame (frame : bytes) : State (Engine * World) unit :=
  match frameMessage frame with
  | None => mret tt
  | Some message =>
      now_ms ← on_board (on_snd clockNow);
      BitsEngine.process max_width message now_ms;;
      mret tt
  end.

(** The inner loop of [main], with the decoder; at most [rounds] tests of its condition. *)
Fixpoint readFrames (rounds : nat) (decoder : Decoder.HdlcDecoder)
    : Io (Engine * World) Decoder.HdlcDecoder :=
  match rounds with
  | O => out_of_fuel
  | Datatypes.S rounds =>
      available ← liftIo (on_board (on_fst uart0ByteAvailable));
      if negb available then mret decoder
      else
        byte ← liftIo (on_board (on_fst uart0ReadByte));
        let '(complete, decoder) := Decoder.push kMaximumCanonicalSize byte decoder in
        if negb complete then readFrames rounds decoder
        else
          liftIo (processFrame (Decoder.frame decoder));;
          readFrames rounds (Decoder.consume decoder)
  end.

Record Firmware := {
  engine : Engine;
  callbacks : RamProfileCallbacks;
  packet_ : PacketBuffer;
  decoder : Decoder.HdlcDecoder;
}.

(** The objects of [main]: a window of one, and the default inactivity timeout. *)
Definition new_firmware : Firmware := {|
  engine := new_engine max_width
    {| maximum_segment_size := kSegmentPayloadSize; receive_window_width := 1;
       maximum_object_size := kMaximumObjectSize; inactivity_timeout_ms := 5000 |};
  callbacks := attach new_callbacks;
  packet_ := new_TransmitPacket;
  decoder := Decoder.initial kMaximumCanonicalSize |}.

(** A turn of [main]'s loop. *)
Definition turn (rounds : nat) : Io (Firmware * (U * B)) unit := λ '(f, (u, b)),
  let '(_, s) := (now_ms ← on_board (on_snd clockNow); poll now_ms)
    (engine f, (callbacks f, (packet_ f, (Some u, b)))) in
  match readFrames rounds (decoder f) s with
  | None => None
  | Some (decoder, (engine, (callbacks, (packet_, (None, _))))) => None
  | Some (decoder, (engine, (callbacks, (packet_, (Some u, b))))) =>
      Some (tt, ({| engine := engine; callbacks := callbacks; packet_ := packet_; decoder := decoder
        |}, (u, b)))
  end.
End main.
Arguments Firmware : clear implicits.
End BootProfile.
Import BootProfile.

(** ** The sender on the line *)

(** The call the callbacks make back into the engine. *)
Lemma sendDatagram_sender {V} `{!ReceiverCallbacks (RamProfileCallbacks * V), !ReceiverPduSender V}
    payload e (p : RamProfileCallbacks) (v : V) :
  BitsEngine.sendDatagram (ReceiverPduSender0 := profile_sender) payload (e, (p, v)) =
    let '(result, v) := reportDatagram payload v in (result, (e, (p, v))).
Proof.
  unfold BitsEngine.sendDatagram, reportDatagram. destruct (_ <? _); [done|].
  unfold mbind, State_bind, call, on_snd. cbn [prepare profile_sender]. unfold on_snd.
  destruct (prepare _ v) as [storage v1]. destruct (if _ : bool then _ else _) as [contents|]; [|done].
  cbn [store sendPrepared profile_sender]. unfold on_snd. destruct (store contents v1) as [[] v2].
  by destruct (sendPrepared v2).
Qed.

Section on_the_line.
Context {U B : Type} `{!AvrUsart U, !UsartModel U}.
Variable polls : nat.
Hypothesis polls_enough : (latency U < polls)%nat.

Lemma write_byte_wrote byte u :
  (busy u ≤ latency U)%nat → io_wp (uart0WriteByte polls byte) u (λ _, wrote u [byte]).
Proof.
  intros Hbusy. destruct (write_byte polls byte u) as (u' & E & Hin & Hsent & Hb); [lia|].
  by exists tt, u'.
Qed.

Lemma wp_then {A} (m : Io U unit) (m' : Io U A) bs bs' u :
  io_wp m u (λ _, wrote u bs) →
  (∀ u1, (busy u1 ≤ latency U)%nat → io_wp m' u1 (λ _, wrote u1 bs')) →
  io_wp (m;; m') u (λ _, wrote u (bs ++ bs')).
Proof.
  intros ([] & u1 & E & H1) Hm'. destruct (Hm' u1 (wrote_busy _ _ _ H1)) as (a & u2 & E' & H2).
  exists a, u2. unfold mbind, Io_bind. rewrite E. split; [done|by eapply wrote_trans].
Qed.

Lemma writeEscaped_wrote byte u :
  (busy u ≤ latency U)%nat → io_wp (writeEscaped polls byte) u (λ _, wrote u (stuff byte)).
Proof.
  intros Hbusy. unfold writeEscaped, stuff, special.
  change Hdlc.kFlag with kFlag. change Hdlc.kEscape with kEscape.
  change Hdlc.kEscapeXor with kEscapeXor.
  destruct (_ || _); [|by apply write_byte_wrote].
  apply (wp_then _ _ [kEscape] [u8 (Z.lxor byte kEscapeXor)]); [by apply write_byte_wrote|].
  intros; by apply write_byte_wrote.
Qed.

Lemma writeAllEscaped_wrote bs u :
  (busy u ≤ latency U)%nat → io_wp (writeAllEscaped polls bs) u (λ _, wrote u (flat_map stuff bs)).
Proof.
  revert u. induction bs as [|b bs IH]; intros u Hbusy; cbn [writeAllEscaped flat_map].
  { exists tt, u. split; [done|by apply wrote_nil]. }
  apply wp_then; [by apply writeEscaped_wrote|done].
Qed.

(** [sendPrepared] writes the frame the HDLC encoder makes. *)
Lemma writeFrame_wrote bs u :
  (busy u ≤ latency U)%nat → io_wp (writeFrame polls bs) u (λ _, wrote u (wire_frame bs)).
Proof.
  intros Hbusy. unfold writeFrame, wire_frame, raw_frame, crc_trailer. cbv zeta.
  rewrite flat_map_app, <- app_assoc. cbn [flat_map]. rewrite app_nil_r, <- app_assoc.
  apply (wp_then _ _ [kFlag]); [by apply write_byte_wrote|]. intros.
  apply wp_then; [by apply writeAllEscaped_wrote|]. intros.
  apply wp_then; [by apply writeEscaped_wrote|]. intros.
  apply wp_then; [by apply writeEscaped_wrote|]. intros. by apply write_byte_wrote.
Qed.
End on_the_line.

(** ** The sender in the firmware *)

(** A packet of the upload connection's device. *)
Definition addressed (h : Header) : Prop :=
  transportType h = kBits ∧ wire h = kTestWire ∧ source h = kArduinoHost ∧ destination h = kPcHost ∧
  endpoint h = kBitsUploadEndpoint.

Section reports.
Context {U B : Type} `{!AvrUsart U, !UsartModel U}.
Variable polls : nat.
Hypothesis polls_enough : (latency U < polls)%nat.
#[local] Instance boot_sender : ReceiverPduSender (Sender U B) := uart_pdu_sender polls.

(** The sender works: it has its packet, the device answers and [line] waits in it. *)
Definition working (line : bytes) (s : Sender U B) : Prop :=
  capacity s.1 = kMaximumBitsPayloadSize ∧
  length (payload_storage s.1) = Z.to_nat kMaximumBitsPayloadSize ∧
  ∃ u, s.2.1 = Some u ∧ incoming u = line ∧ (busy u ≤ latency U)%nat.

(** A later state of the sender: the device has sent more. *)
Definition goes_on (line : bytes) (s0 s : Sender U B) : Prop :=
  working line s ∧ ∃ u0 u more, s0.2.1 = Some u0 ∧ s.2.1 = Some u ∧ sent u = sent u0 ++ more.

Lemma goes_on_refl line s : working line s → goes_on line s s.
Proof. intros Hs. split; [done|]. destruct Hs as (_ & _ & u & E & _). exists u, u, [].
by rewrite app_nil_r. Qed.

Lemma storage_initializeConnection n c f p :
  payload_storage (initializeConnection n c f p).2 = payload_storage p.
Proof. unfold initializeConnection, Packet.initialize, resize. by destruct (capacity p <? n). Qed.
Lemma capacity_initializeConnection' n c f p :
  capacity (initializeConnection n c f p).2 = capacity p.
Proof. unfold initializeConnection, Packet.initialize, resize. by destruct (capacity p <? n). Qed.

Lemma prepare_goes_on line s0 n : preserves (goes_on line s0) (prepare n).
Proof.
  intros [pk w] [(Hcap & Hlen & Hdev) Hmore]. cbn [prepare boot_sender uart_pdu_sender].
  pose proof (storage_initializeConnection n kUploadConnection (cf_bits kNormal) pk) as Es.
  pose proof (capacity_initializeConnection' n kUploadConnection (cf_bits kNormal) pk) as Ec.
  destruct (initializeConnection n _ _ pk) as [ok pk']. cbn [fst snd] in *.
  split; [|exact Hmore]. split_and!; cbn [fst snd]; congruence || done.
Qed.

Lemma store_goes_on line s0 bs : preserves (goes_on line s0) (store bs).
Proof.
  intros [pk w] [(Hcap & Hlen & Hdev) Hmore]. split; [|exact Hmore].
  split_and!; [exact Hcap| |exact Hdev]. cbn. by rewrite memcpy_at_length.
Qed.

Lemma sendPrepared_writes pk u (b : B) :
  (busy u ≤ latency U)%nat →
  ∃ u', sendPrepared (W := Sender U B) (pk, (Some u, b)) = (SendResult.kSent, (pk, (Some u', b))) ∧
    wrote u (wire_frame (headerAndPayload pk)) u'.
Proof.
  intros Hbusy. destruct (writeFrame_wrote polls polls_enough (headerAndPayload pk) u Hbusy)
    as ([] & u' & E & Hw).
  exists u'. split; [|done]. cbn -[writeFrame headerAndPayload]. unfold await. by rewrite E.
Qed.

Lemma send_goes_on line s0 : preserves (goes_on line s0) sendPrepared.
Proof.
  intros [pk [ou b]] [(Hcap & Hlen & u & E & Hin & Hbusy) (u0 & u1 & more & E0 & E1 & Hsent)].
  cbn [fst snd] in *. subst ou. injection E1 as <-.
  destruct (sendPrepared_writes pk u b Hbusy) as (u' & -> & [Hs Hi Hb]).
  split; [split_and!; [done..|exists u'; by rewrite Hi]|].
  exists u0, u', (more ++ wire_frame (headerAndPayload pk)). by rewrite Hs, Hsent, app_assoc.
Qed.

Lemma report_goes_on line s0 bs : preserves (goes_on line s0) (reportDatagram bs).
Proof.
  unfold reportDatagram. keep ltac:(first [apply prepare_goes_on|apply store_goes_on|apply send_goes_on]).
Qed.

(** The transport type is stored whatever the control byte held. *)
Lemma transportType_set f h :
  0 ≤ cf_transport_type f < 8 → transportType (setControlFields f h) = cf_transport_type f.
Proof.
  intros Ht. unfold transportType, setControlFields, setTransportType.
  set (c := control (setHasExtensions _ _)). cbn [control set_control]. apply Z.bits_inj'. intros i Hi.
  change kTransportTypeMask with (Z.ones 3). rewrite Z.land_spec, Z.testbit_ones_nonneg by done.
  destruct (Z.ltb_spec i 3) as [H3|H3]; cbn [andb].
  - rewrite andb_true_r, testbit_u8, Z.lor_spec, Z.land_spec, !testbit_u8 by lia.
    rewrite Z.lnot_spec, Z.testbit_ones_nonneg, (proj2 (Z.ltb_lt i 3)) by lia.
    cbn [negb]. by rewrite andb_false_r.
  - rewrite andb_false_r. symmetry. apply Z.bits_above_log2; [lia|].
    destruct (decide (cf_transport_type f = 0)) as [->|]; [simpl; lia|].
    apply Z.log2_lt_pow2; [lia|]. apply Z.lt_le_trans with (2 ^ 3); [lia|]. by apply Z.pow_le_mono_r.
Qed.

(** What a report is on the line. *)
Definition report_line (h : Header) (bs : bytes) : bytes :=
  wire_frame (header_bytes h ++ encodeControl kUserDatagram :: bs).

Lemma initialize_upload n pk :
  0 ≤ n ≤ capacity pk →
  ∃ pk', initializeConnection n kUploadConnection (cf_bits kNormal) pk = (true, pk') ∧ size pk' = n ∧
    payload_storage pk' = payload_storage pk ∧ addressed (header pk').
Proof.
  intros Hn. unfold initializeConnection, Packet.initialize, resize.
  destruct (Z.ltb_spec (capacity pk) n); [lia|]. cbn [negb]. eexists. split; [reflexivity|].
  unfold addressed. split_and!; try done. by apply (transportType_set (cf_bits kNormal) (header pk)).
Qed.

Lemma message_bytes bs pk :
  size pk = zlen bs → (length bs ≤ length (payload_storage pk))%nat → zlen bs ≤ 65529 →
  headerAndPayload (write_payload 0 bs pk) = header_bytes (header pk) ++ bs.
Proof.
  intros Hsize Hlen Hbs. unfold headerAndPayload, totalSize. cbn [size header write_payload
    set_storage payload_storage].
  rewrite Hsize, u16_id by (unfold is_u16, sizeof_Header, zlen in *; lia).
  rewrite memcpy_at_app by (simpl; lia). rewrite take_0, app_nil_l, app_assoc. apply take_app_length'.
  rewrite length_app. change (length (header_bytes (header pk))) with sizeof_Header.
  unfold zlen. lia.
Qed.

Lemma reportDatagram_sends line bs s :
  zlen bs ≤ kMaximumUserDatagramSize → working line s →
  let '(result, s') := reportDatagram bs s in
  result = SendResult.kSent ∧ working line s' ∧
  ∃ u u' h, s.2.1 = Some u ∧ s'.2.1 = Some u' ∧ sent u' = sent u ++ report_line h bs ∧ addressed h.
Proof.
  intros Hbs Hw. pose proof (report_goes_on line s bs s (goes_on_refl line s Hw)) as [Hw' _].
  destruct Hw as (Hcap & Hlen & u & Edev & Hin & Hbusy). destruct s as [pk [ou b]].
  cbn [fst snd] in *. subst ou.
  change kMaximumUserDatagramSize with 27 in Hbs. change kMaximumBitsPayloadSize with 28 in *.
  assert (Hpos : 0 ≤ zlen bs) by (unfold zlen; lia).
  destruct (initialize_upload (zlen bs + 1) pk ltac:(lia)) as (pk' & E & Hsize & Hstore & Haddr).
  revert Hw'. unfold reportDatagram, kUserDatagramHeaderSize.
  destruct (Z.ltb_spec (65535 - 1) (zlen bs)); [lia|]. rewrite u16_id by (unfold is_u16; lia).
  unfold mbind, State_bind. cbn [prepare boot_sender uart_pdu_sender]. rewrite E. cbn iota.
  assert (Hpayload : length (payload pk') = S (length bs)).
  { unfold payload. rewrite Hsize, Hstore, length_take, Hlen. unfold zlen in *. lia. }
  destruct (Z.eqb_spec (zlen (payload pk')) (zlen bs + 1)) as [_|Hneq]; [|unfold zlen in Hneq; lia].
  assert (Hencode : encodeUserDatagram bs (payload pk') = Some (encodeControl kUserDatagram :: bs)).
  { rewrite emit_datagram. rewrite (proj2 (Z.ltb_ge _ _)) by (unfold zlen; simpl; lia). f_equal.
    rewrite memcpy_at_app by (simpl; lia). rewrite take_0, drop_ge by (simpl; lia). by rewrite app_nil_r. }
  rewrite Hencode. cbn [store boot_sender uart_pdu_sender modify]. unfold modify.
  set (message := encodeControl kUserDatagram :: bs).
  destruct (sendPrepared_writes (write_payload 0 message pk') u b Hbusy) as (u' & -> & [Hs Hi Hb]).
  intros Hw'. split_and!; [done|exact Hw'|]. exists u, u', (header pk'). split_and!; [done|done| |done].
  rewrite Hs. unfold report_line. rewrite message_bytes; [done| | |];
    unfold message, zlen in *; cbn [length]; rewrite ?Hstore; lia.
Qed.

(** ** What the callbacks know *)

(** The profile's storage as the one of the RAM application. *)
Definition view (p : RamProfileCallbacks) : RamReceiverCallbacks :=
  {| storage_ := object_ p; RamTransfer.received_size_ := received_size_ p; object_complete_ := false |}.

Record holds (p : RamProfileCallbacks) (info : TransferInfo) (ds : list (Z * bytes)) : Prop := {
  holds_session : session_id_ p = info_session_id info;
  holds_expected : expected_size_ p = u16 (info_total_size info);
  holds_fits : info_total_size info ≤ kMaximumObjectSize;
  holds_stores : stores (Z.to_nat kMaximumObjectSize) (view p) ds;
}.

(** The report on the image has gone out. *)
Definition reported (p : RamProfileCallbacks) (s : Sender U B) : Prop :=
  ∃ h u before after, s.2.1 = Some u ∧ addressed h ∧
    sent u = before ++ report_line h (imageResult p) ++ after.

Lemma reported_goes_on line p s0 s : reported p s0 → goes_on line s0 s → reported p s.
Proof.
  intros (h & u & before & after & E & Haddr & Hs) [_ (u0 & u' & more & E0 & E1 & Hs')].
  exists h, u', before, (after ++ more). split_and!; [done|done|].
  assert (u0 = u) as -> by congruence. by rewrite Hs', Hs, <- !app_assoc.
Qed.

Definition told (p : RamProfileCallbacks) (s : Sender U B) (m : Monitor) : Prop :=
  match m with
  | Closed => True
  | Open info ds => holds p info ds
  | Done info ds => holds p info ds ∧ reported p s
  end.

Abbreviation World := (RamProfileCallbacks * Sender U B)%type.
#[local] Instance boot_callbacks : ReceiverCallbacks World := profile_callbacks false.

Definition profile_inv (line : bytes) (s : Traced World) : Prop :=
  let '((p, sd), log) := s in
  attached p = true ∧ length (object_ p) = Z.to_nat kMaximumObjectSize ∧ working line sd ∧
  from_option (told p sd) True (monitor log).

(** Whatever only uses the sender preserves it, if the monitor does not notice. *)
Lemma profile_sends line p sd sd' log event :
  profile_inv line ((p, sd), log) → goes_on line sd sd' →
  (∀ m, observe m event = Some m) → profile_inv line ((p, sd'), log ++ [event]).
Proof.
  intros (Ha & Hl & Hw & Hm) Hgo Hev. split_and!; [done|done|apply Hgo|].
  rewrite monitor_snoc. destruct (monitor log) as [m|]; [|done].
  cbn [mbind option_bind from_option] in *. rewrite Hev.
  destruct m; [done|done|]. destruct Hm as [? Hrep]. split; [done|by eapply reported_goes_on].
Qed.

Lemma profile_segment p offset payload :
  length (object_ p) = Z.to_nat kMaximumObjectSize →
  let '(accepted, p') := profileSegment false offset payload p in
  attached p' = attached p ∧ length (object_ p') = Z.to_nat kMaximumObjectSize ∧
  ∀ info ds, holds p info ds → holds p' info (if accepted then ds ++ [(offset, payload)] else ds).
Proof.
  intros Hlen. unfold profileSegment. destruct (Z.ltb_spec kMaximumObjectSize (u32 (offset + zlen payload)));
    [done|].
  split_and!; [done|by cbn [object_]; rewrite memcpy_at_length|]. intros info ds [Hs He Hf Hst].
  split; [done..|].
  eapply (stores_snoc _ (view p)); [done|done| |done].
  unfold ramOnSegment, view. cbn [storage_ RamTransfer.received_size_ object_complete_].
  unfold zlen at 1. rewrite Hlen, (proj2 (Z.ltb_ge _ _)); [done|exact H].
Qed.

(** A datagram is answered, or not; what is known stays. *)
Lemma profile_datagram line p payload : preserves (goes_on line p.2) (λ s, let '(r, (_, s)) :=
  profileDatagram false payload (p.1, s) in (r, s)).
Proof.
  intros s Hs. unfold profileDatagram. destruct (negb _); [done|].
  destruct (echoResponse false payload) as [response|]; [|done].
  pose proof (report_goes_on line p.2 response s Hs) as H. by destruct (reportDatagram response s).
Qed.

Lemma profileDatagram_callbacks payload (p : RamProfileCallbacks) (s : Sender U B) :
  (profileDatagram false payload (p, s)).2.1 = p.
Proof. unfold profileDatagram. repeat case_match; by simplify_eq. Qed.

Lemma imageResult_length p : zlen (imageResult p) = 7.
Proof. unfold imageResult. by destruct (imageStatus p). Qed.

Lemma profile_complete line p s :
  attached p = true → working line s →
  let '(_, (p', s')) := profileComplete false (p, s) in p' = p ∧ goes_on line s s' ∧ reported p s'.
Proof.
  intros Ha Hw. unfold profileComplete. rewrite Ha.
  pose proof (reportDatagram_sends line (imageResult p) s) as H. rewrite imageResult_length in H.
  specialize (H ltac:(done) Hw). pose proof (report_goes_on line s (imageResult p) s (goes_on_refl
    line s Hw)) as Hgo.
  destruct (reportDatagram (imageResult p) s) as [r s'].
  destruct H as (_ & _ & u & u' & h & E & E' & Hs & Haddr). split_and!; [done|done|].
  exists h, u', (sent u), []. by rewrite app_nil_r.
Qed.

Lemma profile_preserved line : preserved (W := Traced World) (profile_inv line).
Proof.
  split.
  - intros i [[p sd] log] (Ha & Hl & Hw & Hm). cbn -[monitor Z.ltb]. unfold profileBegin.
    destruct (Z.ltb_spec kMaximumObjectSize (info_total_size i)) as [|Hfits]; cbn -[monitor];
      rewrite monitor_snoc; destruct (monitor log) as [[]|]; try done;
      (split_and!; [done..|]; split; [done..|]; by apply stores_nil).
  - intros r [[p sd] log] (Ha & Hl & Hw & Hm). cbn -[monitor]. rewrite monitor_snoc.
    by destruct (monitor log) as [[]|].
  - intros offset payload [[p sd] log] (Ha & Hl & Hw & Hm).
    pose proof (profile_segment p offset payload Hl) as Hseg. cbn -[monitor profileSegment].
    destruct (profileSegment false offset payload p) as [accepted p'] eqn:E. cbn -[monitor].
    rewrite monitor_snoc. destruct Hseg as (Ea & El & Hh).
    split_and!; [congruence|done|done|]. destruct (monitor log) as [[|info ds|]|]; cbn; try done. by apply Hh.
  - intros payload [[p sd] log] Hinv. cbn -[monitor profileDatagram profile_inv].
    pose proof (profile_datagram line (p, sd) payload sd (goes_on_refl line sd ltac:(apply Hinv))) as Hgo.
    pose proof (profileDatagram_callbacks payload p sd) as Ep. cbn [fst snd] in Hgo.
    destruct (profileDatagram false payload (p, sd)) as [r [p' sd']]. cbn [fst snd] in *. subst p'.
    by eapply profile_sends.
  - intros [[p sd] log] (Ha & Hl & Hw & Hm). cbn -[monitor profileComplete].
    pose proof (profile_complete line p sd Ha Hw) as Hc.
    destruct (profileComplete false (p, sd)) as [r [p' sd']]. destruct Hc as (-> & [Hw' _] & Hrep).
    split_and!; [done..|]. rewrite monitor_snoc. destruct (monitor log) as [[|info ds|]|]; try done.
    cbn. by case_bool_decide.
  - intros r [[p sd] log] (Ha & Hl & Hw & Hm). cbn -[monitor]. rewrite monitor_snoc.
    by destruct (monitor log) as [[]|].
  - intros n [[p sd] log] Hinv. cbn [prepare Traced_sender]. unfold traced.
    cbn [prepare profile_sender]. unfold on_snd.
    pose proof (prepare_goes_on line sd n sd (goes_on_refl line sd ltac:(apply Hinv))) as Hgo.
    destruct (prepare n sd) as [r sd']. by eapply profile_sends.
  - intros bs [[p sd] log] Hinv. cbn [store Traced_sender]. unfold traced.
    cbn [store profile_sender]. unfold on_snd.
    pose proof (store_goes_on line sd bs sd (goes_on_refl line sd ltac:(apply Hinv))) as Hgo.
    destruct (store bs sd) as [r sd']. by eapply profile_sends.
  - intros [[p sd] log] Hinv. cbn [sendPrepared Traced_sender]. unfold traced.
    cbn [sendPrepared profile_sender]. unfold on_snd.
    pose proof (send_goes_on line sd sd (goes_on_refl line sd ltac:(apply Hinv))) as Hgo.
    destruct (sendPrepared sd) as [r sd']. by eapply profile_sends.
Qed.

(** ** The verdict on the image *)

Lemma find_seqZ (f : Z → bool) n :
  match find f (seqZ 0 n) with
  | Some i => 0 ≤ i < n ∧ f i = true ∧ ∀ j, 0 ≤ j < i → f j = false
  | None => ∀ j, 0 ≤ j < n → f j = false
  end.
Proof.
  assert (H : ∀ (l : nat) m, 0 ≤ m →
    match find f (seqZ m (Z.of_nat l)) with
    | Some i => m ≤ i < m + Z.of_nat l ∧ f i = true ∧ ∀ j, m ≤ j < i → f j = false
    | None => ∀ j, m ≤ j < m + Z.of_nat l → f j = false
    end).
  { induction l as [|l IH]; intros m Hm; [simpl; lia|].
    rewrite seqZ_cons by lia. cbn [find]. replace (Z.pred (Z.of_nat (S l))) with (Z.of_nat l) by lia.
    specialize (IH (Z.succ m) ltac:(lia)). destruct (f m) eqn:E; [split_and!; [lia..|done|lia]|].
    destruct (find f _) as [i|].
    - destruct IH as (? & ? & Hlow). split_and!; [lia..|done|]. intros j Hj.
      destruct (decide (j = m)) as [->|]; [done|]. apply Hlow. lia.
    - intros j Hj. destruct (decide (j = m)) as [->|]; [done|]. apply IH. lia. }
  specialize (H (Z.to_nat n) 0 ltac:(lia)). destruct (decide (0 ≤ n)).
  - rewrite Z2Nat.id in H by done. done.
  - rewrite seqZ_nil by lia. simpl. lia.
Qed.

(** The image the host uploads for the profile is 0, 1, 2, ...; the status and offset
    of a report name its first difference from it. *)
Definition verdict (object : bytes) (result : Z * Z) : Prop :=
  result = (kImageOk, kNoBadOffset) ∧
    (∀ i, 0 ≤ i < zlen object → byte_at object (Z.to_nat i) = u8 i)
  ∨ ∃ bad, result = (kImageDataMismatch, bad) ∧ 0 ≤ bad < zlen object ∧
      byte_at object (Z.to_nat bad) ≠ u8 bad ∧
      (∀ i, 0 ≤ i < bad → byte_at object (Z.to_nat i) = u8 i).

Lemma imageStatus_verdict p :
  received_size_ p = expected_size_ p → 0 ≤ received_size_ p ≤ zlen (object_ p) →
  verdict (take (Z.to_nat (received_size_ p)) (object_ p)) (imageStatus p).
Proof.
  intros He Hr. unfold imageStatus. rewrite <- He, Z.eqb_refl. cbn [negb].
  assert (Hat : ∀ i, 0 ≤ i < received_size_ p →
    byte_at (take (Z.to_nat (received_size_ p)) (object_ p)) (Z.to_nat i) = byte_at (object_ p) (Z.to_nat i)).
  { intros i Hi. unfold byte_at. rewrite !nth_lookup. by rewrite lookup_take_lt by lia. }
  assert (Hlen : zlen (take (Z.to_nat (received_size_ p)) (object_ p)) = received_size_ p).
  { unfold zlen in *. rewrite length_take. lia. }
  pose proof (find_seqZ (λ index, negb (byte_at (object_ p) (Z.to_nat index) =? u8 index))
    (received_size_ p)) as H.
  destruct (find _ _) as [bad|]; unfold verdict; rewrite Hlen.
  - right. exists bad. destruct H as (Hbad & Hneq%negb_true_iff%Z.eqb_neq & Hlow).
    split_and!; [done|lia|lia|by rewrite Hat|]. intros i Hi. rewrite Hat by lia.
    by apply Z.eqb_eq, negb_false_iff, Hlow.
  - left. split; [done|]. intros i Hi. rewrite Hat by done. by apply Z.eqb_eq, negb_false_iff, H.
Qed.

(** A completed transfer: what was received is an object all of whose segments
    arrived in its session, and its report is out. *)
Lemma profile_completed max_width arrived e (w : World) log line :
  inv max_width arrived (e, (w, log)) → profile_inv line (w, log) → state e = TransferState.kCompleted →
  let p := w.1 in
  let object := take (Z.to_nat (received_size_ p)) (object_ p) in
  assembled arrived (setup e) object ∧ zlen object = received_size_ p ∧
  session_id_ p = setup_session_id (setup e) ∧ verdict object (imageStatus p) ∧ reported p w.2.
Proof.
  intros (Hwf & (m & Hm & Hag) & _) Hinv Hst. destruct w as [p sd]. destruct Hinv as (_ & Hlen & _ & Htold).
  cbn [fst snd] in *. rewrite Hm in Htold. unfold agrees in Hag. cbn [fst] in *. rewrite Hst in Hag.
  destruct Hag as (ds & -> & Hdel). destruct Htold as [[Hsession Hexpected Hfits Hstores] Hrep].
  pose proof (ewf_state _ _ Hwf) as Hstate. simpl in Hstate. rewrite Hst in Hstate.
  destruct Hstate as [Htwf Hcount].
  pose proof (delivered_complete _ _ _ _ Htwf Hcount Hdel) as Hshape.
  pose proof (twf_setup _ _ Htwf) as Hs. pose proof (shape_within _ _ Hs Hshape) as Hwithin.
  pose proof (setup_geometry _ Hs) as (_ & _ & _ & Hobj). cbn in Hfits, Hexpected.
  destruct Hstores as ((buffer & Hbuf & Hstorage) & Hsize & _).
  { eapply list.Forall_impl; [exact Hwithin|]. intros [offset payload] [? ?].
    unfold zlen, kMaximumObjectSize in *. lia. }
  cbn in Hsize, Hstorage. rewrite (reach_object _ _ Hs Hshape) in Hsize.
  change kMaximumObjectSize with 256 in *.
  assert (Hz : zlen (take (Z.to_nat (received_size_ p)) (object_ p)) = received_size_ p).
  { unfold zlen. rewrite length_take, Hlen. lia. }
  split_and!; [|done|done| |done].
  - rewrite Hsize, Hstorage, write_all_take by done.
    eapply write_all_assembled; [done..|]. unfold zlen. rewrite length_take, Hbuf. lia.
  - apply imageStatus_verdict; [rewrite Hexpected, Hsize, u16_id; [done|unfold is_u16; lia]|].
    unfold zlen. rewrite Hlen. lia.
Qed.
(** ** The frames of the line *)

Context `{!MillisecondClock B}.
Variable max_width : Z.
Hypothesis width : 1 ≤ max_width ≤ 16.

(** The firmware's objects, having taken [messages] off the line, where [line] still waits. *)
Definition boot_inv (messages : list bytes) (line : bytes) (s : Engine * World) : Prop :=
  ∃ log, inv max_width (.∈ messages) (s.1, (s.2, log)) ∧ profile_inv line (s.2, log).

Lemma boot_device messages line line' e p pk u u' (b b' : B) :
  boot_inv messages line (e, (p, (pk, (Some u, b)))) →
  incoming u' = line' → sent u' = sent u → (busy u' ≤ latency U)%nat →
  boot_inv messages line' (e, (p, (pk, (Some u', b')))).
Proof.
  intros (log & Hinv & Ha & Hl & (Hc & Hs & _) & Hm) Hin Hsent Hbusy. exists log. split; [exact Hinv|].
  split_and!; [done..| |].
  - split_and!; [done..|by exists u'].
  - destruct (monitor log) as [[|info ds|info ds]|]; try done. destruct Hm as [Hh Hrep]. split; [done|].
    destruct Hrep as (h & u0 & before & after & [= <-] & Haddr & Hs').
    exists h, u', before, after. by rewrite Hsent.
Qed.

(** An operation of the engine that keeps its invariant and that of the callbacks. *)
Lemma boot_step {A} (m : Op (W := Traced World) A) (m' : Op (W := World) A) messages line s :
  erases m m' →
  (∀ s, inv max_width (.∈ messages) s → inv max_width (.∈ messages) (m s).2) →
  preserves (λ s : Engine * Traced World, profile_inv line s.2) m →
  boot_inv messages line s → boot_inv messages line (m' s).2.
Proof.
  intros Herase Hengine Hprofile (log & Hinv & Hprof). destruct s as [e w]. cbn [fst snd] in *.
  set (t := (e, (w, log) : Traced World)). specialize (Herase e (w, log)). specialize (Hengine t Hinv).
  specialize (Hprofile t Hprof). change (e, (w, log)) with t in Herase.
  destruct (m t) as [r [e' [w' log']]]. cbn [fst snd] in *. rewrite Herase. by exists log'.
Qed.

Lemma boot_poll messages line now s :
  boot_inv messages line s → boot_inv messages line (poll now s).2.
Proof.
  apply (boot_step (poll now) (poll now) messages line); [apply erases_poll| |].
  - intros t Ht. by apply (poll_inv max_width _ now t Ht).
  - apply (keeps_poll _ (profile_preserved line)).
Qed.

Lemma boot_mono messages more line s : boot_inv messages line s → boot_inv (messages ++ more) line s.
Proof.
  intros (log & Hinv & Hprof). exists log. split; [|done].
  eapply inv_mono; [|exact Hinv]. intros message Hin. apply elem_of_app. by left.
Qed.

Lemma boot_process messages line message now s :
  is_bytes message → boot_inv messages line s →
  boot_inv (messages ++ [message]) line (BitsEngine.process max_width message now s).2.
Proof.
  intros Hb Hs. apply (boot_mono _ [message]) in Hs. revert Hs.
  apply (boot_step (BitsEngine.process max_width message now) (BitsEngine.process max_width message now)
    (messages ++ [message]) line); [apply erases_process| |].
  - intros t Ht. apply (process_inv max_width); [done|done| |done].
    apply elem_of_app. right. by left.
  - apply (keeps_process max_width _ (profile_preserved line)).
Qed.

(** The clock is the board's. *)
Lemma boot_clock messages line s :
  boot_inv messages line s → boot_inv messages line (on_board (on_snd clockNow) s).2.
Proof.
  destruct s as [e [p [pk [ou b]]]]. intros H. unfold on_board, on_snd. destruct (clockNow b) as [now b'].
  pose proof H as (_ & _ & _ & _ & (_ & _ & u & [= ->] & Hin & Hbusy) & _). by eapply boot_device.
Qed.

Lemma frameMessage_bytes frame message :
  is_bytes frame → frameMessage frame = Some message → is_bytes message.
Proof.
  intros Hb. unfold frameMessage. destruct (_ <? _)%nat; [done|]. destruct (negb _); [done|].
  case_bool_decide; [done|]. intros [= <-]. by apply Forall_drop.
Qed.

Lemma boot_frame messages line frame s :
  is_bytes frame → boot_inv messages line s →
  boot_inv (messages ++ omap frameMessage [frame]) line (processFrame false max_width polls frame s).2.
Proof.
  intros Hb Hs. unfold processFrame. cbn [omap list_omap].
  destruct (frameMessage frame) as [message|] eqn:E; [|by rewrite app_nil_r].
  unfold mbind, State_bind. apply boot_clock in Hs. destruct (on_board (on_snd clockNow) s) as [now s1].
  apply frameMessage_bytes in E; [|done]. pose proof (boot_process _ _ message now s1 E Hs) as H.
  cbn [snd] in *. destruct (BitsEngine.process _ _ _ s1). exact H.
Qed.

(** Reads of the device, which may be one that waits for ever but is not. *)
Lemma device_reads r (u : U) (t : unit) :
  read_register r (Some u) = let '(x, u') := read_register r u in (x, Some u').
Proof. done. Qed.

Lemma on_device {A} (m : State (option U) A) e p pk ou (b : B) :
  on_board (on_fst m) (e, (p, (pk, (ou, b)))) =
    let '(a, ou) := m ou in (a, (e, (p, (pk, (ou, b))))).
Proof. unfold on_board, on_snd, on_fst. by destruct (m ou). Qed.

Lemma boot_alive messages line e p pk ou (b : B) :
  boot_inv messages line (e, (p, (pk, (ou, b)))) →
  ∃ u, ou = Some u ∧ incoming u = line ∧ (busy u ≤ latency U)%nat.
Proof. by intros (log & _ & _ & _ & (_ & _ & H) & _). Qed.

Lemma readFrames_runs messages stream rounds d s :
  (length stream < rounds)%nat → Forall is_bytes (Decoder.receive kMaximumCanonicalSize d stream).1 →
  boot_inv messages stream s →
  let '(frames, d') := Decoder.receive kMaximumCanonicalSize d stream in
  io_wp (readFrames false max_width polls rounds d) s (λ d1 s',
    d1 = d' ∧ boot_inv (messages ++ omap frameMessage frames) [] s').
Proof.
  revert messages rounds d s.
  induction stream as [|byte stream IH]; intros messages [|rounds] d [e [p [pk [ou b]]]] Hrounds Hframes Hs;
    try (simpl in Hrounds; lia); cbn [readFrames Decoder.receive] in *;
    unfold io_wp, mbind, Io_bind, liftIo;
    destruct (boot_alive _ _ _ _ _ _ _ Hs) as (u & -> & Hin & Hbusy); rewrite on_device;
    destruct (available_reads (λ u (_ : unit), Some u) device_reads eq_refl u tt)
      as (u1 & -> & Hin1 & Hsent1 & Hbusy1); rewrite Hin in *.
  - rewrite app_nil_r. eexists _, _. split; [reflexivity|]. split; [done|].
    eapply boot_device; [exact Hs|done..|lia].
  - rewrite bool_decide_eq_false_2 by done. cbn [negb]. rewrite on_device. unfold uart0ReadByte.
    rewrite device_reads by done.
    pose proof (data_read u1 byte stream Hin1) as H. destruct (read_register UDR0 u1) as [value u2].
    destruct H as (-> & Hin2 & Hsent2 & Hbusy2).
    assert (Hs2 : boot_inv messages stream (e, (p, (pk, (Some u2, b))))).
    { eapply boot_device; [exact Hs|done|congruence|lia]. }
    assert (Hlen : (length stream < rounds)%nat) by (simpl in Hrounds; lia).
    destruct (Decoder.push kMaximumCanonicalSize byte d) as [[] d1]; cbn [negb].
    + specialize (IH (messages ++ omap frameMessage [Decoder.frame d1]) rounds (Decoder.consume d1)).
      destruct (Decoder.receive kMaximumCanonicalSize (Decoder.consume d1) stream) as [frames d'].
      cbn [fst] in *. apply Forall_cons_1 in Hframes as [Hframe Hframes].
      pose proof (boot_frame _ _ _ _ Hframe Hs2) as Hs3.
      destruct (processFrame _ _ _ _ _) as [[] s3]. cbn [snd] in Hs3.
      destruct (IH s3 Hlen Hframes Hs3) as (d2 & s' & E & -> & Hs'). exists d', s'.
      split; [exact E|]. split; [done|]. rewrite <- app_assoc in Hs'.
      by change (Decoder.frame d1 :: frames) with ([Decoder.frame d1] ++ frames); rewrite omap_app.
    + by apply IH.
Qed.

(** ** The loop *)

Variable rounds : nat.

(** The messages in what has arrived since the firmware started. *)
Definition messages (stream : bytes) : list bytes :=
  omap frameMessage (Decoder.receive kMaximumCanonicalSize (Decoder.initial kMaximumCanonicalSize) stream).1.

(** The firmware between two turns, after [stream] has arrived. *)
Record booted (stream : bytes) (f : Firmware) (w : U * B) : Prop := {
  booted_inv : boot_inv (messages stream) (incoming w.1)
    (engine f, (callbacks f, (packet_ f, (Some w.1, w.2))));
  booted_decoder : decoder f =
    (Decoder.receive kMaximumCanonicalSize (Decoder.initial kMaximumCanonicalSize) stream).2;
  booted_wf : Hdlc.wf kMaximumCanonicalSize (decoder f);
  booted_ready : Decoder.frame_ready_ (decoder f) = false;
}.

Lemma turn_runs stream f w :
  booted stream f w → is_bytes (incoming w.1) → (length (incoming w.1) < rounds)%nat →
  ∃ f' w', turn false max_width polls rounds (f, w) = Some (tt, (f', w')) ∧
    booted (stream ++ incoming w.1) f' w' ∧ incoming w'.1 = [].
Proof.
  destruct w as [u b]. cbn [fst snd]. intros [Hinv Hdec Hwf Hready] Hbytes Hrounds. cbn [fst snd] in *.
  apply boot_clock in Hinv. unfold turn, mbind, State_bind.
  destruct (on_board (on_snd clockNow) _) as [now s1]. cbn [snd] in Hinv. apply (boot_poll _ _ now) in Hinv.
  change (poll now s1) with (poll (W := World) (ReceiverCallbacks0 := boot_callbacks) now s1).
  destruct (poll now s1) as [r s2]. cbn [snd] in Hinv.
  pose proof (receive_bytes kMaximumCanonicalSize (decoder f) _ Hwf Hready Hbytes) as Hframes.
  pose proof (receive_refines kMaximumCanonicalSize _ _ Hwf Hready Hbytes) as Href.
  pose proof (readFrames_runs _ _ rounds (decoder f) s2 Hrounds Hframes Hinv) as Hrun.
  assert (Hstream : messages (stream ++ incoming u) =
      messages stream ++ omap frameMessage (Decoder.receive kMaximumCanonicalSize (decoder f) (incoming u)).1 ∧
    (Decoder.receive kMaximumCanonicalSize (Decoder.initial kMaximumCanonicalSize) (stream ++ incoming u)).2 =
      (Decoder.receive kMaximumCanonicalSize (decoder f) (incoming u)).2).
  { unfold messages. rewrite receive_app, Hdec.
    destruct (Decoder.receive kMaximumCanonicalSize (Decoder.initial _) stream) as [f1 d1].
    cbn [fst snd]. destruct (Decoder.receive kMaximumCanonicalSize d1 (incoming u)). cbn [fst snd].
    by rewrite omap_app. }
  destruct (Decoder.receive kMaximumCanonicalSize (decoder f) (incoming u)) as [frames d'].
  cbn [fst snd] in *. destruct Href as (Hwf' & Hready' & _). destruct Hstream as [Em Ed].
  destruct Hrun as (d1 & [e [p [pk [ou b']]]] & -> & -> & Hs').
  destruct (boot_alive _ _ _ _ _ _ _ Hs') as (u' & -> & Hin' & _).
  eexists _, _. split; [reflexivity|]. split; [|done].
  split; cbn [engine callbacks packet_ decoder fst snd]; [by rewrite Em, Hin'|by rewrite Ed|done|done].
Qed.

Lemma booted_new u (b : B) : incoming u = [] → (busy u ≤ latency U)%nat → booted [] (new_firmware
  max_width) (u, b).
Proof.
  intros Hin Hbusy. split; [|done|apply wf_initial|done]. cbn [fst snd]. exists []. split.
  - by apply inv_new; [|by_evaluation].
  - split_and!; [done|done| |done]. split_and!; [done|done|by exists u].
Qed.

(** What happens between two turns: [bs] arrives. *)
Definition delivers (happens : U * B → U * B) (bs : bytes) : Prop :=
  is_bytes bs ∧ (length bs < rounds)%nat ∧
  ∀ w, incoming w.1 = [] → (busy w.1 ≤ latency U)%nat →
    incoming (happens w).1 = bs ∧ sent (happens w).1 = sent w.1 ∧ (busy (happens w).1 ≤ latency U)%nat.

Lemma loop_runs between arrivals stream f w :
  Forall2 delivers between arrivals → booted stream f w → incoming w.1 = [] →
  ∃ f' w', main_loop (turn false max_width polls rounds) between (f, w) = Some (tt, (f', w')) ∧
    booted (stream ++ concat arrivals) f' w' ∧ incoming w'.1 = [].
Proof.
  intros Hall. revert stream f w.
  induction Hall as [|happens bs between arrivals (Hbytes & Hlen & Hhappens) _ IH]; intros stream f w Hf Hin;
    cbn [main_loop concat].
  { exists f, w. by rewrite app_nil_r. }
  pose proof (booted_inv _ _ _ Hf) as Hs.
  destruct (boot_alive _ _ _ _ _ _ _ Hs) as (u & [= <-] & _ & Hbusy).
  specialize (Hhappens w Hin Hbusy). destruct w as [u b]. destruct (happens (u, b)) as [u1 b1].
  cbn [fst snd] in *.
  destruct Hhappens as (<- & Hsent & Hbusy1).
  destruct (turn_runs stream f (u1, b1)) as (f1 & w1 & E & Hf1 & Hin1); [|done|done|].
  { destruct Hf as [Hinv Hdec Hwf Hready]. split; try done. by eapply boot_device. }
  destruct (IH _ f1 w1 Hf1 Hin1) as (f' & w' & E' & Hf' & Hin'). unfold mbind, Io_bind. rewrite E.
  exists f', w'. split_and!; [exact E'| |done]. by rewrite <- app_assoc in Hf'.
Qed.
End reports.

(** *** The messages of the uploading host, byte by byte

    A frame of the BITS transport, without extensions, on wire 1, from host 2 to host 1,
    for endpoint 1. *)
Definition upload_frame (frame message : bytes) : Prop :=
  ∃ control, control mod 64 = 1 ∧ message ≠ [] ∧ frame = [control; 1; 2; 1; 1; 0] ++ message.

(** The messages of the frames on a line since the firmware started. *)
Definition uploaded (stream message : bytes) : Prop :=
  ∃ frame, upload_frame frame message ∧
    frame ∈ (Decoder.receive kMaximumCanonicalSize (Decoder.initial kMaximumCanonicalSize) stream).1.

Lemma control_upload c :
  is_u8 c →
  (Z.land c kTransportTypeMask =? kBits) && (Z.land c 0x3F <? kNumTransportTypes) =
    (c mod 64 =? 1).
Proof.
  intros Hc. apply eqb_prop. revert c Hc. apply u8_forall. vm_compute. reflexivity.
Qed.

Lemma upload_header c w s d lo hi rest :
  is_bytes [c; w; s; d; lo; hi] →
  matchesConnection (header_of_bytes ([c; w; s; d; lo; hi] ++ rest)) = true ↔
    c mod 64 = 1 ∧ [w; s; d; lo; hi] = [1; 2; 1; 1; 0].
Proof.
  intros Hb. unfold is_bytes in Hb. rewrite !list.Forall_cons in Hb.
  destruct Hb as (Hc & _ & _ & _ & Hlo & Hhi & _). unfold matchesConnection.
  assert (He : endpoint (header_of_bytes ([c; w; s; d; lo; hi] ++ rest)) = kBitsUploadEndpoint ↔
    lo = 1 ∧ hi = 0).
  { unfold header_of_bytes, byte_at. cbn [endpoint nth app]. rewrite le16_join by done.
    change kBitsUploadEndpoint with (mkEndpointAddress 1). unfold is_u8 in *. split.
    - intros [= He]. lia.
    - by intros [-> ->]. }
  rewrite !andb_true_iff, !bool_decide_eq_true, He.
  rewrite <- (andb_true_iff (transportType _ =? _)). unfold transportType, hasSupportedControl.
  change (control (header_of_bytes _)) with c. rewrite control_upload, Z.eqb_eq by done.
  change (wire (header_of_bytes _)) with (mkWireNumber w).
  change (source (header_of_bytes _)) with (mkHostId s).
  change (destination (header_of_bytes _)) with (mkHostId d).
  unfold kTestWire, kPcHost, kArduinoHost. split.
  - intros ((((? & [= ->]) & [= ->]) & [= ->]) & -> & ->). done.
  - by intros [? [= -> -> -> -> ->]].
Qed.

Lemma frameMessage_upload frame message :
  is_bytes frame → frameMessage frame = Some message ↔ upload_frame frame message.
Proof.
  intros Hframe. unfold frameMessage, upload_frame. split.
  - destruct (Nat.ltb_spec (length frame) sizeof_Header) as [|Hlen]; [done|].
    destruct frame as [|c [|w [|s [|d [|lo [|hi rest]]]]]];
      try (exfalso; unfold sizeof_Header in Hlen; simpl in Hlen; lia).
    destruct (matchesConnection _) eqn:Hm; [|done]. cbn [negb drop sizeof_Header].
    case_bool_decide as Hne; [done|]. intros [= <-].
    change (take sizeof_Header _) with ([c; w; s; d; lo; hi] ++ []) in Hm.
    apply upload_header in Hm as [Hc [= -> -> -> -> ->]]; [by exists c|].
    by apply (Forall_app _ [c; w; s; d; lo; hi] rest) in Hframe as [? _].
  - intros (c & Hc & Hne & ->).
    change (take sizeof_Header _) with ([c; 1; 2; 1; 1; 0] ++ []).
    apply (Forall_app _ [c; 1; 2; 1; 1; 0]) in Hframe as [Hhead _].
    rewrite (proj2 (upload_header c 1 2 1 1 0 [] Hhead)) by done.
    cbn [app length sizeof_Header drop negb]. by rewrite bool_decide_eq_false_2.
Qed.

Lemma delivers_bytes {U B} `{!AvrUsart U, !UsartModel U} rounds (between : list (U * B → U * B)) arrivals :
  Forall2 (delivers rounds) between arrivals → is_bytes (concat arrivals).
Proof.
  induction 1 as [|f bs fs arrivals (Hbs & _) _ IH]; [constructor|]. by apply Forall_app.
Qed.

Lemma messages_uploaded stream message :
  is_bytes stream → message ∈ messages stream → uploaded stream message.
Proof.
  intros Hs (frame & Hin & Hmsg)%list_elem_of_omap. exists frame. split; [|done].
  apply frameMessage_upload; [|done].
  pose proof (receive_bytes kMaximumCanonicalSize (Decoder.initial kMaximumCanonicalSize) stream
    (wf_initial _) eq_refl Hs) as Hall.
  rewrite list.Forall_forall in Hall. by apply Hall.
Qed.

(** ** Properties *)

(** C30: The sender of the boot profile and the UART link of the other firmware put the
    same bytes on the line: for every well-formed packet within the profile's limit, the
    profile's escaping loop with its running CRC and the HDLC encoder's framed buffer,
    each from a device that is not busy beyond its latency, return having written the
    same frame. *)
Theorem boot_sender_equivalent {U} `{!AvrUsart U, !UsartModel U} (polls : nat) (p : PacketBuffer) (u : U) :
  (latency U < polls)%nat → (busy u ≤ latency U)%nat → packet_wf p → size p ≤ kMaximumBitsPayloadSize →
  ∃ u1 u2,
    writeFrame polls (headerAndPayload p) u = Some (tt, u1) ∧
    UartHdlcForwarder.trySend polls (Z.to_nat kMaximumBitsPayloadSize) p u = Some
      (LinkAdmission.kAccepted, u2) ∧
    sent u1 = sent u2 ∧ incoming u1 = incoming u2.
Proof.
  intros Hpolls Hbusy Hp Hsize. change kMaximumBitsPayloadSize with 28 in *.
  destruct (writeFrame_wrote polls Hpolls (headerAndPayload p) u Hbusy) as ([] & u1 & E1 & [Hs1 Hi1 _]).
  destruct (trySend_sends polls 28 Hpolls ltac:(done) p u Hp Hsize Hbusy) as (u2 & E2 & Hi2 & Hs2 & _).
  exists u1, u2. split_and!; [done|done| |congruence].
  rewrite Hs1, Hs2, headerAndPayload_bytes by (done || lia). done.
Qed.

(** C13: The boot profile composed end to end: whatever bytes arrive between its turns, the
    loop goes on, and when its engine has completed a transfer, the object in its storage
    was announced and uploaded segment by segment in the transfer's session, in frames of
    the uploading host for the board's endpoint, and a report addressed to that host is on
    the line that carries the session, the size and the verdict: the image is 0, 1, 2, ...,
    or the first offset at which it is not. *)
Theorem boot_loop_reports {U B} `{!AvrUsart U, !UsartModel U, !MillisecondClock B}
    (polls rounds : nat) (max_width : Z) (between : list (U * B → U * B)) (arrivals : list bytes)
    (u : U) (b : B) :
  1 ≤ max_width ≤ 16 → (latency U < polls)%nat → incoming u = [] → (busy u ≤ latency U)%nat →
  Forall2 (delivers rounds) between arrivals →
  ∃ f w, main_loop (turn false max_width polls rounds) between (new_firmware max_width, (u, b)) =
      Some (tt, (f, w)) ∧
    (state (engine f) = TransferState.kCompleted →
     ∃ object status bad h before after,
       assembled (uploaded (concat arrivals)) (setup (engine f)) object ∧
       verdict object (status, bad) ∧ addressed h ∧
       sent w.1 = before ++ report_line h
         [kImageResult; setup_session_id (setup (engine f)); status; u8 (zlen object); u8 (Z.shiftr
           (zlen object) 8);
          u8 bad; u8 (Z.shiftr bad 8)] ++ after).
Proof.
  intros Hmax Hpolls Hin Hbusy Hall.
  destruct (loop_runs polls Hpolls max_width Hmax rounds between arrivals [] _ (u, b) Hall
    (booted_new max_width Hmax u b Hin Hbusy) Hin) as (f & w & E & [(log & Hinv & Hprof) _ _ _] & _).
  exists f, w. split; [exact E|]. intros Hst.
  destruct (profile_completed polls Hpolls max_width _ _ _ log _ Hinv Hprof Hst)
    as (Hasm & Hlen & Hsession & Hverdict & (h & u1 & before & after & [= <-] & Haddr & Hsent)).
  cbn [fst snd] in *. unfold imageResult in Hsent. set (object := take _ _) in *.
  destruct (imageStatus (callbacks f)) as [status bad].
  exists object, status, bad, h, before, after. split_and!; [|done..|by rewrite Hlen, <- Hsession].
  apply (assembled_mono (.∈ messages (concat arrivals))); [|done].
  intros message. apply messages_uploaded, (delivers_bytes rounds between), Hall.
Qed.

(** *** Witnesses: the upload of the image 0, 1, 2, 3, 4 *)

Import DemoUsart DemoUpload.

Lemma boot_sender_equivalent_witness :
  ∃ u1 u2,
    writeFrame 4 (headerAndPayload (demo_packet 0)) (idle [9]) = Some (tt, u1) ∧
    UartHdlcForwarder.trySend 4 28 (demo_packet 0) (idle [9]) = Some (LinkAdmission.kAccepted, u2) ∧
    sent u1 = sent u2 ∧ incoming u1 = incoming u2.
Proof.
  apply (boot_sender_equivalent (U := Usart) 4 (demo_packet 0) (idle [9]));
    [by_evaluation..|apply demo_uart_packet_wf|by_evaluation].
Defined.

Definition image : list bytes :=
  [on_line (layout (MSetup demo_setup)); segment 0 [0; 1] ++ segment 1 [2; 3]; segment 2 [4]].

Lemma image_delivers : Forall2 (delivers 100) (bring <$> image) image.
Proof.
  assert (H : ∀ bs, is_bytes bs → (length bs < 100)%nat → delivers (B := Z) 100 (bring bs) bs).
  { intros bs Hbs Hlen. split_and!; [done|done|]. intros [[r t w] b] Hin Hbusy. by split. }
  unfold image. cbn [fmap list_fmap].
  repeat apply List.Forall2_cons; try apply List.Forall2_nil;
    (apply H; [by_evaluation|apply Nat.ltb_lt; vm_compute; reflexivity]).
Qed.

Lemma boot_loop_reports_witness :
  ∃ f w, main_loop (turn false 16 4 100) (bring <$> image) (new_firmware 16, (quiet, 0)) = Some (tt, (f, w)) ∧
    ∃ object status bad h before after,
      zlen object = 5 ∧ verdict object (status, bad) ∧ addressed h ∧
      sent w.1 = before ++ report_line h [0x82; 7; status; 5; 0; u8 bad; u8 (Z.shiftr bad 8)] ++ after.
Proof.
  destruct (boot_loop_reports (U := Usart) (B := Z) 4 100 16 (bring <$> image) image quiet 0
    ltac:(lia) ltac:(by_evaluation) eq_refl ltac:(by_evaluation) image_delivers) as (f & w & E & Hreport).
  assert (Hend : (λ r, (state (engine r.2.1), setup (engine r.2.1))) <$>
    main_loop (turn false 16 4 100) (bring <$> image) (new_firmware 16, (quiet, 0)) =
    Some (TransferState.kCompleted, demo_setup)) by (vm_compute; reflexivity).
  rewrite E in Hend. injection Hend as Hst Hsetup.
  destruct (Hreport Hst) as (object & status & bad & h & before & after & (_ & Hlen & _) & Hv & Haddr & Hsent).
  rewrite Hsetup in Hlen, Hsent. change (object_bytes demo_setup) with 5 in Hlen. rewrite Hlen in Hsent.
  exists f, w. split; [exact E|]. exists object, status, bad, h, before, after.
  split_and!; [exact Hlen|exact Hv|exact Haddr|exact Hsent].
Defined.
