(* ===== verification/Spans.v ===== *)
(** * Spans and arrays ([foundation/span.h], [array.h])

    The views the rest of the library reads as lists, over a store: a memory of blocks,
    pointers into it with unchecked arithmetic, and the two classes as the pairs of pointer
    and size they are.  A span denotes a list when its cells hold it; the theorems show which
    operations keep that reading, what a write through one span does to another, and that
    the spans the BITS code cuts off are inside the ones it cuts. *)

From S2P Require Import Prelude Packet BitsCodec BootProfile.
From stdpp Require Import gmap.
Local Open Scope Z_scope.

(** ** Memory *)

(** A [T *]: a position in a block, of no block when it is [nullptr].  Arithmetic is not
    checked; only a load or a store needs the position to be one of the block. *)
Record Pointer := mkPointer { block : option nat; offset : Z }.

Definition nullptr : Pointer := mkPointer None 0.
Definition advance (n : Z) (p : Pointer) : Pointer := mkPointer (block p) (offset p + n).

#[export] Instance Pointer_eq_dec : EqDecision Pointer.
Proof. solve_decision. Defined.

Abbreviation Memory A := (gmap nat (list A)).

Section memory.
Context {A : Type}.

Definition load (m : Memory A) (p : Pointer) : option A :=
  b ← block p;
  cells ← m !! b;
  if 0 <=? offset p then cells !! Z.to_nat (offset p) else None.

Definition store_at (p : Pointer) (x : A) (m : Memory A) : option (Memory A) :=
  b ← block p;
  cells ← m !! b;
  if (0 <=? offset p) && (offset p <? zlen cells)
  then Some (<[b := <[Z.to_nat (offset p) := x]> cells]> m) else None.

Lemma zlen_empty (v : list A) : (zlen v =? 0) = bool_decide (v = []).
Proof. destruct v; [by rewrite bool_decide_eq_true_2|by rewrite bool_decide_eq_false_2]. Qed.

Lemma load_stored p x m m' q :
  store_at p x m = Some m' → load m' q = if bool_decide (q = p) then Some x else load m q.
Proof.
  unfold store_at, load. destruct p as [[b|] o]; [|done]. cbn [block offset mbind option_bind].
  destruct (m !! b) as [cells|] eqn:Hb; [|done]. cbn [mbind option_bind].
  destruct (_ && _) eqn:Hin; [|done]. intros [= <-].
  rewrite andb_true_iff, Z.leb_le, Z.ltb_lt in Hin. unfold zlen in Hin.
  destruct q as [[b'|] o']; [|by rewrite bool_decide_eq_false_2].
  cbn [block offset mbind option_bind]. case_bool_decide as E.
  - injection E as -> ->. rewrite lookup_insert_eq. cbn [mbind option_bind].
    rewrite (proj2 (Z.leb_le _ _)) by lia.
    rewrite list_lookup_insert_eq by lia. done.
  - destruct (decide (b' = b)) as [->|Hne]; [|by rewrite lookup_insert_ne].
    rewrite lookup_insert_eq, Hb. cbn [mbind option_bind]. destruct (Z.leb_spec 0 o'); [|done].
    rewrite list_lookup_insert_ne; [done|]. intros ?. apply E. f_equal. lia.
Qed.
End memory.

(** ** Spans *)

Module Span.

Record Span := { data_ : Pointer; size_ : Z }.

(** The three constructors; a C array of [N] elements decays to a pointer. *)
Definition empty_span : Span := {| data_ := nullptr; size_ := 0 |}.
Definition new_span (data : Pointer) (size : Z) : Span := {| data_ := data; size_ := size |}.
Definition of_array (array : Pointer) (N : Z) : Span := {| data_ := array; size_ := N |}.

Definition size (s : Span) : Z := size_ s.
Definition empty (s : Span) : bool := size_ s =? 0.
(** [operator[]] returns a reference: the place, not its contents. *)
Definition at_index (index : Z) (s : Span) : Pointer := advance index (data_ s).
Definition data (s : Span) : Pointer := data_ s.
Definition begin (s : Span) : Pointer := data_ s.
Definition end_ (s : Span) : Pointer := advance (size_ s) (data_ s).

Definition subspan (start length : Z) (s : Span) : Span := new_span (advance start (data_ s)) length.

(** The rest of a span; [size_t] has [bits] bits. *)
Definition subspan_from (bits start : Z) (s : Span) : Span :=
  new_span (advance start (data_ s)) ((size_ s - start) mod 2 ^ bits).

Section denotation.
Context {A : Type}.

(** The cells of the span hold the list. *)
Definition denotes (m : Memory A) (s : Span) (v : list A) : Prop :=
  size_ s = zlen v ∧ ∀ i : nat, (i < length v)%nat → load m (at_index (Z.of_nat i) s) = v !! i.

(** A range-based [for]: from [begin] while not at [end]. *)
Fixpoint walk (fuel : nat) (m : Memory A) (it last : Pointer) : option (list A) :=
  if bool_decide (it = last) then Some []
  else match fuel with
  | O => None
  | S fuel =>
      x ← load m it;
      rest ← walk fuel m (advance 1 it) last;
      Some (x :: rest)
  end.
Definition range_for (m : Memory A) (s : Span) : option (list A) :=
  walk (Z.to_nat (size_ s)) m (begin s) (end_ s).

Lemma advance_advance a b p : advance a (advance b p) = advance (b + a) p.
Proof. unfold advance. cbn. f_equal. lia. Qed.

Lemma denotes_empty m : denotes m empty_span [].
Proof. split; [done|]. intros i Hi. simpl in Hi. lia. Qed.

Lemma denotes_subspan m s v start len :
  denotes m s v → 0 ≤ start → 0 ≤ len → start + len ≤ zlen v →
  denotes m (subspan start len s) (take (Z.to_nat len) (drop (Z.to_nat start) v)).
Proof.
  intros [Hsize Hv] Hs Hl Hin. unfold zlen in *. split.
  - cbn. unfold zlen. rewrite length_take, length_drop. lia.
  - intros i. rewrite length_take, length_drop. intros Hi.
    rewrite lookup_take_lt, lookup_drop, <- Hv by lia. unfold at_index, subspan. cbn [data_ new_span].
    rewrite advance_advance. do 2 f_equal. lia.
Qed.

Lemma subspan_from_is_subspan bits start s :
  0 ≤ start ≤ size_ s → size_ s < 2 ^ bits → subspan_from bits start s = subspan start (size_ s - start) s.
Proof. intros Hs Hb. unfold subspan_from, subspan. by rewrite Z.mod_small by lia. Qed.

Lemma denotes_subspan_from bits m s v start :
  denotes m s v → 0 ≤ start ≤ zlen v → zlen v < 2 ^ bits →
  denotes m (subspan_from bits start s) (drop (Z.to_nat start) v).
Proof.
  intros Hv Hs Hb. pose proof Hv as [Hsize _]. rewrite <- Hsize in *.
  rewrite subspan_from_is_subspan by lia.
  rewrite <- (take_ge (drop (Z.to_nat start) v) (Z.to_nat (size_ s - start))).
  - apply denotes_subspan; unfold zlen in *; done || lia.
  - rewrite length_drop. unfold zlen in *. lia.
Qed.

(** Past the end the size wraps: [subspan] does not clamp, so its callers must. *)
Lemma subspan_from_past_end bits s start :
  0 ≤ size_ s < start → start < 2 ^ bits →
  size_ (subspan_from bits start s) = 2 ^ bits - (start - size_ s) ∧
  size_ s < size_ (subspan_from bits start s) + start.
Proof.
  intros Hs Hb. cbn. rewrite <- (Z.mod_unique (size_ s - start) (2 ^ bits) (-1) (2 ^ bits - (start - size_ s)));
    lia.
Qed.

Lemma denotes_walk m s v n :
  denotes m s v → (n ≤ length v)%nat →
  walk n m (at_index (zlen v - Z.of_nat n) s) (end_ s) = Some (drop (length v - n) v).
Proof.
  intros [Hsize Hv]. unfold zlen in *. induction n as [|n IH]; intros Hn.
  - unfold walk, at_index, end_. rewrite Hsize, Z.sub_0_r, bool_decide_eq_true_2 by done.
    by rewrite drop_ge by lia.
  - cbn [walk]. rewrite bool_decide_eq_false_2.
    + replace (Z.of_nat (length v) - Z.of_nat (S n)) with (Z.of_nat (length v - S n)) by lia.
      rewrite Hv by lia. destruct (lookup_lt_is_Some_2 v (length v - S n)) as [x Hx]; [lia|].
      rewrite Hx. cbn [mbind option_bind]. unfold at_index. rewrite advance_advance.
      replace (Z.of_nat (length v - S n) + 1) with (Z.of_nat (length v) - Z.of_nat n) by lia.
      fold (at_index (Z.of_nat (length v) - Z.of_nat n) s). rewrite IH by lia. cbn.
      rewrite (drop_S v x (length v - S n)) by done. do 3 f_equal. lia.
    + unfold at_index, end_, advance. rewrite Hsize. intros [= ?]. lia.
Qed.

(** A cell of [s] seen from [t]. *)
Definition alias (i : Z) (s t : Span) : option nat :=
  let j := offset (data_ s) + i - offset (data_ t) in
  if bool_decide (block (data_ s) = block (data_ t)) && (0 <=? j) && (j <? size_ t)
  then Some (Z.to_nat j) else None.

Lemma denotes_store m s v i x m' t u :
  denotes m s v → 0 ≤ i < zlen v → denotes m t u → store_at (at_index i s) x m = Some m' →
  denotes m' t (match alias i s t with Some j => <[j := x]> u | None => u end).
Proof.
  intros [Hs _] Hi [Ht Hu] Hstore. unfold alias.
  set (j := offset (data_ s) + i - offset (data_ t)).
  assert (Hsame : ∀ k : nat, at_index (Z.of_nat k) t = at_index i s ↔
    block (data_ s) = block (data_ t) ∧ Z.of_nat k = j).
  { intros k. unfold at_index, advance, j. split; [intros [= ? ?]|intros [-> ?]; f_equal]; split ||
      idtac; lia || done. }
  destruct (_ && _) eqn:Hin; (split; [by rewrite ?length_insert; unfold zlen in *; rewrite ?length_insert|]);
    intros k Hk; rewrite ?length_insert in Hk; rewrite (load_stored _ _ _ _ _ Hstore).
  - rewrite !andb_true_iff, bool_decide_eq_true, Z.leb_le, Z.ltb_lt in Hin. destruct Hin as [[Hb Hj0] Hj].
    unfold zlen in *. destruct (bool_decide_reflect (at_index (Z.of_nat k) t = at_index i s)) as [E|E].
    + apply Hsame in E as [_ E]. replace (Z.to_nat j) with k by lia. by rewrite list_lookup_insert_eq.
    + rewrite list_lookup_insert_ne by (intros ?; apply E, Hsame; split; [done|lia]). by apply Hu.
  - destruct (bool_decide_reflect (at_index (Z.of_nat k) t = at_index i s)) as [E|E]; [|by apply Hu].
    apply Hsame in E as [Hb E]. exfalso.
    rewrite (bool_decide_eq_true_2 _ Hb), (proj2 (Z.leb_le 0 j)), (proj2 (Z.ltb_lt j _)) in Hin
      by (unfold zlen in *; lia). done.
Qed.

(** A chain of cuts, of spans and of lists. *)
Inductive Cut := Part (start length : Z) | Rest (start : Z).
Definition cut_span (bits : Z) (s : Span) (c : Cut) : Span :=
  match c with Part start length => subspan start length s | Rest start => subspan_from bits start s end.
Definition cut_list (v : list A) (c : Cut) : list A :=
  match c with
  | Part start length => take (Z.to_nat length) (drop (Z.to_nat start) v)
  | Rest start => drop (Z.to_nat start) v
  end.
Definition cut_within (v : list A) (c : Cut) : bool :=
  match c with
  | Part start length => (0 <=? start) && (0 <=? length) && (start + length <=? zlen v)
  | Rest start => (0 <=? start) && (start <=? zlen v)
  end.
Fixpoint cuts_within (v : list A) (cuts : list Cut) : bool :=
  match cuts with [] => true | c :: cuts => cut_within v c && cuts_within (cut_list v c) cuts end.

Lemma denotes_cut bits m s v c :
  denotes m s v → zlen v < 2 ^ bits → cut_within v c = true →
  denotes m (cut_span bits s c) (cut_list v c) ∧ zlen (cut_list v c) < 2 ^ bits.
Proof.
  intros Hv Hb Hc. destruct c as [start len|start]; cbn [cut_within cut_span cut_list] in *;
    rewrite !andb_true_iff, ?Z.leb_le in Hc.
  - destruct Hc as [[? ?] ?]. split; [by apply denotes_subspan|]. unfold zlen in *.
    rewrite length_take, length_drop. lia.
  - destruct Hc as [? ?]. split; [by apply denotes_subspan_from|]. unfold zlen in *. rewrite length_drop. lia.
Qed.

(** Spans refine slices: after any chain of cuts each of which stays in the span it cuts,
    the span denotes the slice of the list, and a range-based [for] over it ends after
    visiting exactly that slice. *)
Theorem span_refines_slice bits m s v cuts :
  denotes m s v → zlen v < 2 ^ bits → cuts_within v cuts = true →
  let s' := foldl (cut_span bits) s cuts in
  let v' := foldl cut_list v cuts in
  denotes m s' v' ∧ size s' = zlen v' ∧ empty s' = bool_decide (v' = []) ∧ range_for m s' = Some v'.
Proof.
  revert s v. induction cuts as [|c cuts IH]; intros s v Hv Hb Hin.
  - cbn [foldl]. pose proof Hv as [Hsize _]. split_and!; [done|done| |].
    + unfold empty. rewrite Hsize. apply zlen_empty.
    + unfold range_for. rewrite Hsize. unfold zlen. rewrite Nat2Z.id.
      pose proof (denotes_walk m s v (length v) Hv (le_n _)) as H. unfold zlen in H.
      rewrite Z.sub_diag, Nat.sub_diag in H. unfold at_index, advance in H. rewrite Z.add_0_r in H.
      destruct s as [[b o] n]. exact H.
  - cbn [cuts_within] in Hin. apply andb_true_iff in Hin as [Hc Hin].
    destruct (denotes_cut bits m s v c Hv Hb Hc) as [Hv' Hb']. by apply IH.
Qed.
End denotation.

(** The spans the BITS decoders, the engine and the boot profile cut off their input are
    inside it: they denote the lists of the models of that code. *)
Theorem cut_off_messages bits (m : Memory Z) (s : Span) (message : bytes) :
  denotes m s message → zlen message < 2 ^ bits →
  (∀ h, decodeSegmentHeaderKnownType message = Some h →
     denotes m (subspan_from bits kSegmentHeaderSize s) (drop (Z.to_nat kSegmentHeaderSize) message)) ∧
  (∀ p, decodeUserDatagramKnownType message = Some p →
     denotes m (subspan_from bits kUserDatagramHeaderSize s) p) ∧
  (∀ p, BootProfile.frameMessage message = Some p →
     denotes m (subspan_from bits (Z.of_nat sizeof_Header) s) p).
Proof.
  intros Hv Hb. split_and!.
  - unfold decodeSegmentHeaderKnownType. intros h H. apply denotes_subspan_from; [done| |done].
    destruct (Z.ltb_spec (zlen message) kSegmentHeaderSize); [done|]. unfold kSegmentHeaderSize in *. lia.
  - unfold decodeUserDatagramKnownType. intros p H. case_bool_decide as E; [done|]. injection H as <-.
    apply denotes_subspan_from; [done| |done]. unfold kUserDatagramHeaderSize, zlen.
    destruct message; [done|]. cbn [length]. lia.
  - unfold BootProfile.frameMessage. intros p H. destruct (Nat.ltb_spec (length message)
      sizeof_Header); [done|].
    destruct (negb _); [done|]. cbv zeta in H. case_bool_decide; [done|]. injection H as <-.
    rewrite <- (Nat2Z.id sizeof_Header) at 2. apply denotes_subspan_from; [done| |done]. unfold zlen. lia.
Qed.
End Span.

(** ** Arrays *)

Module Array.
Section array.
Context {A : Type} (N : Z).

(** [storage_], a block of at least one element. *)
Definition new_array (value : A) : list A := replicate (Z.to_nat (if N =? 0 then 1 else N)) value.

Variable storage : nat.
Definition data : Pointer := mkPointer (Some storage) 0.
Definition size : Z := N.
Definition empty : bool := N =? 0.
Definition at_index (index : Z) : Pointer := advance index data.
Definition begin : Pointer := data.
Definition end_ : Pointer := advance N data.

(** An array of [N] elements is the list of its cells: reading, writing, iterating and
    taking a span over all of it agree with the list, which an array of no elements leaves
    empty. *)
Theorem array_is_list (m : Memory A) (cells : list A) :
  0 ≤ N → m !! storage = Some cells → zlen cells = Z.max 1 N →
  let v := take (Z.to_nat N) cells in
  zlen v = size ∧ empty = bool_decide (v = []) ∧ Span.denotes m (Span.new_span data size) v ∧
  (∀ i, 0 ≤ i < N → load m (at_index i) = v !! Z.to_nat i) ∧
  (∀ i x, 0 ≤ i < N → ∃ m', store_at (at_index i) x m = Some m' ∧
     Span.denotes m' (Span.new_span data size) (<[Z.to_nat i := x]> v)).
Proof.
  intros HN Hm Hlen v. assert (Hv : zlen v = N).
  { unfold v, zlen in *. rewrite length_take. lia. }
  assert (Hload : ∀ i, 0 ≤ i < N → load m (at_index i) = v !! Z.to_nat i).
  { intros i Hi. unfold load, at_index, advance, data. cbn [block offset mbind option_bind].
    rewrite Hm. cbn [mbind option_bind]. rewrite (proj2 (Z.leb_le _ _)) by lia.
    unfold v. by rewrite lookup_take_lt by lia. }
  assert (Hspan : Span.denotes m (Span.new_span data size) v).
  { split; [done|]. intros i Hi. unfold zlen in Hv.
    pose proof (Hload (Z.of_nat i) ltac:(lia)) as H. by rewrite Nat2Z.id in H. }
  split_and!; [done| |done|done|].
  - unfold empty. rewrite <- Hv. apply zlen_empty.
  - intros i x Hi. unfold store_at at 1, at_index, advance, data. cbn [block offset mbind option_bind].
    rewrite Hm. cbn [mbind option_bind].
    rewrite (proj2 (Z.leb_le _ _)), (proj2 (Z.ltb_lt _ _)) by lia. cbn [andb]. eexists. split; [done|].
    pose proof (Span.denotes_store m (Span.new_span data size) v i x
      (<[storage := <[Z.to_nat (0 + i) := x]> cells]> m) (Span.new_span data size) v Hspan ltac:(lia)
        Hspan) as H.
    unfold Span.alias in H. cbn [Span.data_ Span.size_ Span.new_span block offset data] in H.
    rewrite bool_decide_eq_true_2, (proj2 (Z.leb_le _ _)), (proj2 (Z.ltb_lt _ _)) in H by (done ||
      unfold size; lia).
    cbn [andb] in H. replace (0 + i - 0) with i in H by lia. apply H. clear H.
    unfold store_at, Span.at_index, advance. cbn [block offset data Span.data_ Span.new_span mbind option_bind].
    rewrite Hm. cbn [mbind option_bind]. by rewrite (proj2 (Z.leb_le _ _)), (proj2 (Z.ltb_lt _ _)) by lia.
Qed.
End array.
End Array.
